(* ===== verification/_CoqProject ===== *)
-Q . S2P
Prelude.v
Go.v
GoStr.v
Scan.v
GoSort.v
GoIO.v
ConnFacts.v
Codec.v
Mask.v
MaskProps.v
Wire.v
PgWire.v
PgWireFacts.v
PgWireProps.v
PgAuth.v
PgAuthFacts.v
PgAuthProps.v
MyWire.v
MyWireFacts.v
MyWireProps.v
MyAuth.v
MyAuthProps.v
Mongo.v
MongoFacts.v
MongoProps.v
Tunnel.v
TunnelProps.v
TunnelLink.v
TunnelLinkProps.v
Deadline.v
Gateway.v
GatewayProps.v
Edge.v
EdgeProps.v
Ecs.v
CloudWatch.v
CloudWatchProps.v
Config.v
ConfigProps.v
AgentTLS.v
AgentSources.v
Agent.v
AgentRun.v
AgentTLSProps.v
AgentProps.v
EndToEnd.v
Transport.v
TransportProps.v
EdgeRuns.v
EdgeRunsProps.v
EdgeCalls.v
Cmd.v
CmdProps.v
