(* ===== verification/Prelude.v ===== *)
(** * Skybridge: a verification development

    Skybridge puts a database behind an outbound tunnel. An agent in the customer's network dials the
    gateway, registers its targets, and serves the streams the gateway opens over the tunnel; each
    stream carries one native client's session with one database. On the agent a wire engine
    (Postgres, MySQL or MongoDB) proxies the session, masks the result rows on their way to the
    client, and, when credentials are injected, terminates the client's login and originates its own
    with a minted credential. A separate edge process runs single read-only tool calls for the control
    plane. The development models this program (the Go code under src/internal) in Rocq and proves
    what makes its parts correct.

    ** The files

    - Prelude.v: bytes, fixed-width integers in both byte orders, lists. No model of code.
    - Go.v, GoStr.v, GoIO.v: the part of Go and its standard library the code uses. [go A] is the
      outcome of a call: a value, an error, a run-time panic, or [NoFuel] when a modelled loop runs out
      of fuel; indexing and slicing panic out of range; [int] arithmetic that can wrap is [wrap64].
      GoStr.v has the [strings] functions; Scan.v the byte searches and comparisons the code writes by
      hand, proved equal to them; GoSort.v sorting, floats and dates. GoIO.v has readers, writers, [bufio.Writer], [io.Copy] and
      connections: a reader is the byte string its peer will have sent and the error that follows, so
      a theorem over all readers covers every peer, adaptive or not; a writer may break after any
      number of bytes; a TLS handshake replaces the streams of a connection by those of the session.
    - ConnFacts.v: the connection lemmas all login proofs share ([safe], [sent]).
    - Codec.v: base64, and the class [Hashes] of the hash functions (parameters, with their output
      lengths as laws); HMAC and XOR.
    - Mask.v: internal/mask. The [Masker] interface is the class [MaskerOk] (same length, NULL stays
      NULL, binary columns untouched, no panic); Noop, Chain, Overlay and Remote are instances, and
      the engines' theorems are proved against the class. Remote's HTTP exchange (a POST, its status and
      its body) is modelled over the client's [Do]. MaskProps.v: what the remote masker does to a row.
    - Wire.v: internal/wire/wire.go.
    - PgWire.v, PgAuth.v: internal/wire/postgres (postgres.go and upstream_tls.go; auth.go and
      [ProxyInject]). Facts and theorems: PgWireFacts.v, PgWireProps.v, PgAuthFacts.v, PgAuthProps.v.
    - MyWire.v, MyAuth.v: internal/wire/mysql (mysql.go; auth.go). Facts and theorems: MyWireFacts.v,
      MyWireProps.v, MyAuthProps.v. The two goroutines of a session share a token channel and a
      sequence offset; [relays] runs them under an arbitrary schedule.
    - Mongo.v: internal/wire/mongo. Facts and theorems: MongoFacts.v, MongoProps.v.
    - Tunnel.v: internal/tunnel. The frame codec, and a session as a state machine whose events are
      the critical sections of its goroutines; streams are shared objects, referred to by index from
      the map, the accept queue and the callers. Theorems: TunnelProps.v. Deadline.v: a reader of a
      stream with its deadline and timer. TunnelLink.v puts two sessions on one connection: the reader
      loop of an end reads what the other end has written, frame by frame, the steps of both ends
      interleave freely, the connection breaks for either writer after any number of bytes, and callers
      use only the streams they were given. Theorem: TunnelLinkProps.v.
    - Gateway.v: internal/gateway. The registry as an interleaving of [ServeAgent] calls, the relay of
      a client with its recording, the login sniffer, the HTTP store. Theorems: GatewayProps.v, which
      relate the sniffer to the agent's own parsers in PgAuth.v and MyAuth.v.
    - Edge.v: internal/edge and the CLI executor of internal/edge/awsexec. Theorems: EdgeProps.v.
    - Ecs.v, CloudWatch.v: the structured AWS tools of internal/edge/awsexec (ecs_snapshot.go;
      cloudwatch.go, cloudwatch_metrics.go, loadConfig, register.go). The polling loop reads a clock
      that is a parameter; a page loop has fuel for the pages. Theorems: CloudWatchProps.v.
    - Transport.v: internal/edge/transport as a client (material.go, pki.go; dial and Run of
      transport.go). Theorems: TransportProps.v. EdgeRuns.v: its streams and runs (serve, startWork,
      cancelWork, finishRun, handleWork) as a state machine: an event is a message for the receive
      loop, the loss of a stream, or one step of a run's goroutine. Theorems: EdgeRunsProps.v.
    - Config.v: internal/config/config.go. Theorems: ConfigProps.v.
    - AgentTLS.v, AgentSources.v, Agent.v, AgentRun.v: internal/agent (clienttls.go, upstreamtls.go;
      credsource.go, overlay_source.go; agent.go up to one connection; the two modes and
      cmd/skybridge-agent). They compose the masking chain, the engines, the postures and the tunnel's
      messages. Theorems: AgentTLSProps.v, AgentProps.v.
    - Cmd.v: cmd/skybridge-edge, cmd/skybridge-gateway, the gateway's accept loops, and the exit
      statuses of the three commands. Theorems: CmdProps.v.
    - EndToEnd.v: the agent's session on a stream, the tunnel and the gateway's relay composed, for a
      native client's session. EdgeCalls.v: the tools that are registered, the envelope and the edge's
      runs composed, for a tool call. What leaves one component is what enters the next; the theorems
      use the components' lemmas and no further assumption about them.

    A definition has the name of the Go function it models. A loop that is not structural takes fuel, and
    its caller gives one more than a measure of the input (the bytes left to read, or the length of the
    document): every turn consumes at least one, so fuel never runs out, and the totality theorems say so.
    A link's theorem covers up to 2^61 steps, within which no 64-bit stream id wraps. Errors keep their
    format string and arguments. Where Go depends on something outside the code, the model has a
    parameter: the masker of an engine, the credential resolver, random bytes, the hash functions, the
    network's cut of a stream into reads ([buffered], [chunks]), the schedule of the goroutines, the rune
    table of [strings.ToLower] (class [Unicode]), HTTP, JSON, the file system, keys, certificates and
    pools of crypto/x509 (a TLS handshake succeeds only with a chain the client's configuration accepts),
    gRPC, the AWS SDK and the process that runs the AWS CLI.

    ** What the theorems show

    - Credential handoff: whatever either peer sends, a client only ever receives the proxy's own
      messages during the login; the upstream is touched only after the resolver accepted what this
      client presented, and then by the minted login alone; SCRAM-SHA-256 authenticates both ways
      against an RFC 5802 server; the MySQL answers pass the server's check; the login always returns.
    - Masking: a result set (Postgres rows, MySQL text rows, OP_MSG batches, however deeply nested the
      documents) reaches the client as the encoding of the masked values, everything else byte for
      byte; with no rules the Postgres proxy is transparent. The MySQL engine fails open: a row goes out
      as it came when the masker fails on it or its masked encoding would need more than one packet,
      and a row of a prepared statement is never masked.
    - Pumps: for every byte stream and every way the client's link breaks, the client has a prefix of
      what a transducer makes of the complete messages (refinement).
    - TLS: a required upstream TLS never continues in clear; nothing sent before a handshake is read as
      if it came after it; the inserted SSL request of MySQL shifts exactly the login's sequence ids.
    - Tunnel: frames round-trip and nothing else is accepted; the session invariant holds under every
      interleaving; streams are FIFO without loss or crosstalk; a stream that is closing leaves the map in
      a step of its own, and gets no data in between; stream ids do not collide; a read
      with a deadline never waits past it. Between two ends, each stream an end accepts is one the
      other opened, with its metadata, and the bytes read at one end are a prefix of those written at
      the other, all of them once everything is read, whatever the interleaving and the break.
    - Gateway: the last registrant of a target serves it as long as it is connected; only acceptable
      registrations enter the registry; recording never changes a relay; the sniffed login is the one
      the agent's parser finds, however the stream is cut.
    - Edge: the policy accepts exactly the read-only invocations, only what it accepted is executed,
      with the arguments it checked, in an environment without the host's five AWS variables of keys and
      profiles, and the result is what that process gave; every call is answered by a result that names
      its tool. The policy does not look into a JSON input, where decryption can be asked for. A metrics call has one series per metric, from all pages, over a
      window of a minute to a day; a logs query ends by its deadline.
    - Edge transport: under every interleaving of messages, runs and lost streams there is one live run
      per id, each run answers on its own stream, once and completely, and ends when it is scheduled,
      unless its own handler never returns or one panics; a failed dial is followed by exactly the pause
      the backoff gives; with a CA bundle every channel is mutual TLS without the bearer token; an
      enrollment is reused.
    - Agent: an overlay rule in force masks its column in every row of a session, whatever else is
      configured; with a required posture no engine runs over a plaintext upstream, and with one that
      verifies none over an upstream that was not verified (`require` authenticates nobody, and a MySQL
      client that asks for TLS itself is passed through as it comes); only configured targets are dialed; nothing is served before an accepted registration, and agent and
      gateway agree on what was registered.
    - End to end: a native client of a listener whose target an agent serves with an overlay receives a
      prefix of what the database sent, whatever its messages are, with every ruled column of every row
      masked, and the database only bytes that client sent; a tool call's stream gets exactly one result and one terminal event, and the
      process it started, if any, was accepted by the policy.
    - Masking by the remote service is best effort: a value is the service's text or is unchanged.
    - Commands: which failures end a process with status 1, that a signal ends none so, and that a
      panic of any session ends the process with status 2.
    - Configuration: whatever the environment holds, the loaded configuration is well formed.

    Some lemmas show defects of the code instead: lengths of 2^63 or more and truncated greetings crash
    the MySQL engine, a stream opened while the session closes waits for ever, a repeated startup
    parameter splits the two readers, the envelope's version is compared after truncation, work
    assigned again after a reconnection is never answered, the masking label names a layer that is off, a CLI
    invocation that asks for decryption in a JSON input passes the policy, an edge
    whose wire proxy has failed keeps running without it.

    ** What is not modelled

    The TLS handshake's own bytes; time, but for the deadlines of a reader, the polling loop and the
    pauses of the edge (elsewhere a deadline is a flag and a timeout an outcome); most log lines (of
    the warnings, the model has which are given). A signal is the flag that a process's context is
    done. Generated protobuf code is left out, and so are the address methods of a stream, which return
    constants. *)
From stdpp Require Export base list gmap strings.
From Stdlib Require Export ZArith Lia.
From Stdlib Require Export Strings.Byte Strings.Ascii.

#[global] Set Default Goal Selector "!".

Declare Scope sky_scope.
Delimit Scope sky_scope with sky.

(** ** Bytes *)

Abbreviation byte := Byte.byte.
Abbreviation bytes := (list Byte.byte).

#[global] Instance byte_eq_dec : EqDecision byte := Byte.byte_eq_dec.

#[global] Program Instance byte_countable : Countable byte :=
  inj_countable Byte.to_N Byte.of_N _.
Next Obligation. intros b. apply Byte.of_to_N. Qed.

(** The unsigned value of a byte, and Go's [byte(x)] conversion (truncation modulo 256). *)
Definition u8 (b : byte) : Z := Z.of_N (Byte.to_N b).

Definition b8 (z : Z) : byte :=
  match Byte.of_N (Z.to_N (z mod 256)) with Some b => b | None => Byte.x00 end.

Lemma u8_range b : (0 <= u8 b < 256)%Z.
Proof. unfold u8. pose proof (Byte.to_N_bounded b). lia. Qed.

Lemma u8_b8 z : u8 (b8 z) = (z mod 256)%Z.
Proof.
  unfold u8, b8. pose proof (Z.mod_pos_bound z 256 ltac:(lia)) as Hz.
  destruct (Byte.of_N (Z.to_N (z mod 256))) as [b|] eqn:Hb.
  - apply Byte.to_of_N in Hb. rewrite Hb. lia.
  - apply Byte.of_N_None_iff in Hb. lia.
Qed.

Lemma u8_inj a b : u8 a = u8 b -> a = b.
Proof.
  unfold u8. intros H%N2Z.inj. pose proof (Byte.of_to_N a) as Ha.
  rewrite H, Byte.of_to_N in Ha. congruence.
Qed.

Lemma b8_u8 b : b8 (u8 b) = b.
Proof.
  apply u8_inj. rewrite u8_b8. apply Z.mod_small, u8_range.
Qed.

Lemma b8_mod z : b8 (z mod 256) = b8 z.
Proof. apply u8_inj. rewrite !u8_b8. apply Z.mod_mod. lia. Qed.

(** Character constants and string literals as byte strings (Go's [string] is a byte string). *)
Definition str (s : string) : bytes := String.list_byte_of_string s.

(** ** Fixed-width integers in byte order *)

Fixpoint le_bytes (n : nat) (z : Z) : bytes :=
  match n with
  | O => []
  | S k => b8 z :: le_bytes k (z / 256)
  end.

Fixpoint le_val (l : bytes) : Z :=
  match l with
  | [] => 0
  | b :: t => (u8 b + 256 * le_val t)%Z
  end.

Definition be_bytes (n : nat) (z : Z) : bytes := reverse (le_bytes n z).
Definition be_val (l : bytes) : Z := le_val (reverse l).

Lemma length_le_bytes n z : length (le_bytes n z) = n.
Proof. revert z. induction n; simpl; auto. Qed.

Lemma length_be_bytes n z : length (be_bytes n z) = n.
Proof. unfold be_bytes. by rewrite length_reverse, length_le_bytes. Qed.

Lemma le_val_range l : (0 <= le_val l < 256 ^ Z.of_nat (length l))%Z.
Proof.
  induction l as [|b l IH]; [simpl; lia|].
  cbn [le_val length]. rewrite Nat2Z.inj_succ, Z.pow_succ_r by lia.
  pose proof (u8_range b). nia.
Qed.

Lemma be_val_range l : (0 <= be_val l < 256 ^ Z.of_nat (length l))%Z.
Proof. unfold be_val. rewrite <- (length_reverse l). apply le_val_range. Qed.

Lemma le_val_le_bytes n z : le_val (le_bytes n z) = (z mod 256 ^ Z.of_nat n)%Z.
Proof.
  revert z. induction n as [|n IH]; intros z.
  - by rewrite Z.mod_1_r.
  - cbn [le_bytes le_val]. rewrite IH, u8_b8, Nat2Z.inj_succ, Z.pow_succ_r by lia.
    rewrite Z.rem_mul_r by (try apply Z.pow_pos_nonneg; lia). lia.
Qed.

Lemma le_bytes_le_val l : le_bytes (length l) (le_val l) = l.
Proof.
  induction l as [|b l IH]; [done|].
  cbn [length le_val le_bytes]. f_equal.
  - apply u8_inj. rewrite u8_b8. pose proof (u8_range b).
    symmetry. apply (Z.mod_unique_pos _ _ (le_val l)); lia.
  - assert ((u8 b + 256 * le_val l) / 256 = le_val l)%Z as ->; [|done].
    pose proof (u8_range b). symmetry. apply (Z.div_unique_pos _ _ _ (u8 b)); lia.
Qed.

Lemma be_val_be_bytes n z : be_val (be_bytes n z) = (z mod 256 ^ Z.of_nat n)%Z.
Proof. unfold be_val, be_bytes. by rewrite reverse_involutive, le_val_le_bytes. Qed.

Lemma be_bytes_be_val n l : length l = n -> be_bytes n (be_val l) = l.
Proof.
  intros <-. unfold be_val, be_bytes.
  rewrite <- (length_reverse l), le_bytes_le_val. apply reverse_involutive.
Qed.

Lemma be_bytes_mod n z : be_bytes n (z mod 256 ^ Z.of_nat n) = be_bytes n z.
Proof.
  rewrite <- be_val_be_bytes. apply be_bytes_be_val, length_be_bytes.
Qed.

(** The codecs compute under [vm_compute]; simplification leaves them alone. *)
#[global] Opaque le_bytes be_bytes le_val be_val b8 u8.

(** ** Lists *)

Lemma take_app_exact {A} (l k : list A) n : n = length l -> take n (l ++ k) = l.
Proof. intros ->. by rewrite take_app_length. Qed.

Lemma drop_app_exact {A} (l k : list A) n : n = length l -> drop n (l ++ k) = k.
Proof. intros ->. by rewrite drop_app_length. Qed.

Definition zlen {A} (l : list A) : Z := Z.of_nat (length l).

Lemma zlen_nonneg {A} (l : list A) : (0 <= zlen l)%Z.
Proof. unfold zlen. lia. Qed.

Lemma zlen_app {A} (l k : list A) : zlen (l ++ k) = (zlen l + zlen k)%Z.
Proof. unfold zlen. rewrite length_app. lia. Qed.

Lemma zlen_app_ge {A} (l k : list A) : (zlen l <= zlen (l ++ k))%Z.
Proof. rewrite zlen_app. pose proof (zlen_nonneg k). lia. Qed.

Lemma zlen_cons {A} (x : A) l : zlen (x :: l) = (1 + zlen l)%Z.
Proof. unfold zlen. simpl length. lia. Qed.

Lemma zlen_nil {A} : zlen (@nil A) = 0%Z.
Proof. done. Qed.

Lemma zlen_be_bytes n z : zlen (be_bytes n z) = Z.of_nat n.
Proof. unfold zlen. by rewrite length_be_bytes. Qed.

Lemma zlen_le_bytes n z : zlen (le_bytes n z) = Z.of_nat n.
Proof. unfold zlen. by rewrite length_le_bytes. Qed.

Create HintDb sky.
#[export] Hint Rewrite @zlen_app @zlen_cons @zlen_nil zlen_be_bytes zlen_le_bytes
  length_be_bytes length_le_bytes @length_app @length_take @length_drop : sky.
#[export] Hint Resolve u8_range le_val_range be_val_range : sky.

(** [invert H] is inversion that leaves only the consequences. *)
Ltac invert H := inversion H; clear H; simplify_eq/=.
(** Linear arithmetic over list lengths. *)
Ltac len := autorewrite with sky in *; unfold zlen in *; simpl in *; lia.
