(* ===== verification/Go.v ===== *)
(** * The part of Go the development relies on

    Outcomes of a Go call (a value, an error, a run-time panic), 64-bit [int] arithmetic and bounds-checked indexing and slicing.  A computation that may fail is a value of
    [go A]; loops take fuel and answer [NoFuel] when it runs out, which the
    theorems of the components exclude. *)
From S2P Require Import Prelude.

(** ** Errors

    Sentinel errors of the source are constructors; an error built by
    [fmt.Errorf] or [errors.New] keeps its format string and its arguments. *)
Inductive gerr : Type :=
| EEOF                                      (* io.EOF *)
| EUnexpectedEOF                            (* io.ErrUnexpectedEOF *)
| ENetClosed                                (* net.ErrClosed *)
| EDeadline                                 (* os.ErrDeadlineExceeded *)
| EFmt (fmt : string) (args : list bytes)   (* errors.New / fmt.Errorf *)
| EWrap (fmt : string) (e : gerr)           (* fmt.Errorf with a %w argument *)
| EOther (what : bytes).                    (* an error of code outside the repository *)

#[global] Instance gerr_eq_dec : EqDecision gerr.
Proof. solve_decision. Defined.

(** [errors.Is(e, target)] looks through the wrapped errors. *)
Fixpoint errors_Is (e target : gerr) : bool :=
  bool_decide (e = target) ||
  match e with EWrap _ e' => errors_Is e' target | _ => false end.

(** ** Outcomes *)
Inductive go (A : Type) : Type :=
| Ok (a : A)
| Err (e : gerr)
| Panic
| NoFuel.
Arguments Ok {A} a.
Arguments Err {A} e.
Arguments Panic {A}.
Arguments NoFuel {A}.

#[global] Instance go_eq_dec {A} `{EqDecision A} : EqDecision (go A).
Proof. solve_decision. Defined.

Definition gbind {A B} (c : go A) (k : A -> go B) : go B :=
  match c with
  | Ok a => k a
  | Err e => Err e
  | Panic => Panic
  | NoFuel => NoFuel
  end.

Declare Scope go_scope.
Delimit Scope go_scope with go.
Notation "'let?' x := c 'in' k" := (gbind c (fun x => k))
  (at level 10, x pattern, c at level 100, k at level 200) : go_scope.
#[global] Open Scope go_scope.

(** The call returned: with a value or with an error, but it did not crash. *)
Definition returns {A} (c : go A) : Prop :=
  match c with Ok _ | Err _ => True | Panic | NoFuel => False end.

Definition is_ok {A} (c : go A) : bool := match c with Ok _ => true | _ => false end.

(** How the [Proxy] methods end: an end of stream or a closed connection is a normal end. *)
Definition quiet (c : go unit) : go unit :=
  match c with
  | Err e => if errors_Is e EEOF || errors_Is e ENetClosed then Ok tt else Err e
  | _ => c
  end.

(** [fmt.Errorf] with a [%w] argument, on the way out. *)
Definition wrap_err {A} (fmt : string) (c : go A) : go A :=
  match c with Err e => Err (EWrap fmt e) | _ => c end.

Lemma returns_ok {A} (a : A) : returns (Ok a).
Proof. done. Qed.

Lemma returns_err {A} e : returns (@Err A e).
Proof. done. Qed.

Lemma returns_gbind {A B} (c : go A) (k : A -> go B) :
  returns c -> (forall a, c = Ok a -> returns (k a)) -> returns (gbind c k).
Proof. destruct c; simpl; auto. Qed.

Lemma gbind_ok {A B} (c : go A) (k : A -> go B) b :
  gbind c k = Ok b <-> exists a, c = Ok a /\ k a = Ok b.
Proof.
  split; [|by intros (a & -> & ?)].
  destruct c; simpl; try done. eauto.
Qed.

#[export] Hint Resolve returns_ok returns_err : sky.

(** ** 64-bit [int] *)

Definition wrap64 (z : Z) : Z := ((z + 2 ^ 63) mod 2 ^ 64 - 2 ^ 63)%Z.

Lemma wrap64_small z : (- 2 ^ 63 <= z < 2 ^ 63)%Z -> wrap64 z = z.
Proof. intros H. unfold wrap64. rewrite Z.mod_small; lia. Qed.

Lemma wrap64_range z : (- 2 ^ 63 <= wrap64 z < 2 ^ 63)%Z.
Proof. unfold wrap64. pose proof (Z.mod_pos_bound (z + 2 ^ 63) (2 ^ 64)). lia. Qed.

(** Signed 32-bit reading of an unsigned word, Go's [int32(x)]. *)
Definition int32 (z : Z) : Z := ((z + 2 ^ 31) mod 2 ^ 32 - 2 ^ 31)%Z.

(** ** Indexing and slicing

    [p[i]], [p[i:]] and [p[i:j]] panic out of range. The upper bound of a slice
    expression is the length here; Go allows up to the capacity, a difference
    that the code never exercises (every slice it takes is guarded by [len]). *)
Definition index {A} (p : list A) (i : Z) : go A :=
  if (i <? 0)%Z then Panic
  else match p !! Z.to_nat i with Some b => Ok b | None => Panic end.

Definition slice {A} (p : list A) (i j : Z) : go (list A) :=
  if ((0 <=? i) && (i <=? j) && (j <=? zlen p))%Z
  then Ok (take (Z.to_nat (j - i)) (drop (Z.to_nat i) p))
  else Panic.

(** [p[i:]] *)
Definition slice_from {A} (p : list A) (i : Z) : go (list A) := slice p i (zlen p).

Lemma slice_ok {A} (p : list A) i j :
  (0 <= i)%Z -> (i <= j)%Z -> (j <= zlen p)%Z ->
  slice p i j = Ok (take (Z.to_nat (j - i)) (drop (Z.to_nat i) p)).
Proof.
  intros. unfold slice.
  by rewrite (proj2 (Z.leb_le _ _)), (proj2 (Z.leb_le _ _)), (proj2 (Z.leb_le _ _)).
Qed.

Lemma slice_from_ok {A} (p : list A) i :
  (0 <= i <= zlen p)%Z -> slice_from p i = Ok (drop (Z.to_nat i) p).
Proof.
  intros. unfold slice_from. rewrite slice_ok by lia.
  rewrite take_ge; [done|]. rewrite length_drop. unfold zlen in *. lia.
Qed.

Lemma slice_inv {A} (p : list A) i j q :
  slice p i j = Ok q ->
  (0 <= i <= j)%Z /\ (j <= zlen p)%Z /\
  q = take (Z.to_nat (j - i)) (drop (Z.to_nat i) p) /\ zlen q = (j - i)%Z.
Proof.
  unfold slice. case_match eqn:Hb; [|done]. intros [= <-].
  rewrite !andb_true_iff, !Z.leb_le in Hb. destruct Hb as [[? ?] ?].
  repeat split; try lia.
  unfold zlen in *. rewrite length_take, length_drop. lia.
Qed.

Lemma index_ok {A} (p : list A) i :
  (0 <= i < zlen p)%Z -> exists b, index p i = Ok b /\ p !! Z.to_nat i = Some b.
Proof.
  intros [? ?]. unfold index. rewrite (proj2 (Z.ltb_ge _ _)) by lia.
  destruct (lookup_lt_is_Some_2 p (Z.to_nat i)) as [b Hb]; [unfold zlen in *; lia|].
  exists b. by rewrite Hb.
Qed.

(** A slice of a concatenation. *)
Lemma slice_app_mid {A} (a b c : list A) i j :
  i = zlen a -> j = (zlen a + zlen b)%Z -> slice (a ++ b ++ c) i j = Ok b.
Proof.
  intros -> ->. pose proof (zlen_nonneg a). pose proof (zlen_nonneg b).
  pose proof (zlen_nonneg c). rewrite slice_ok by (rewrite ?zlen_app; lia).
  f_equal. rewrite drop_app_exact by (unfold zlen; lia).
  apply take_app_exact. unfold zlen. lia.
Qed.

Lemma slice_app_tail {A} (a b : list A) i j :
  i = zlen a -> j = (zlen a + zlen b)%Z -> slice (a ++ b) i j = Ok b.
Proof. intros. rewrite <- (app_nil_r b) at 1. by apply slice_app_mid. Qed.

Lemma index_app_mid {A} (a : list A) x c i : i = zlen a -> index (a ++ x :: c) i = Ok x.
Proof.
  intros ->. unfold index, zlen. rewrite (proj2 (Z.ltb_ge _ _)) by lia.
  by rewrite Nat2Z.id, list_lookup_middle.
Qed.

(** ** Allocation

    [make([]T, n)] and [make([]T, 0, n)] panic when [n] is negative or when the
    [n * size] bytes exceed the address space of a 64-bit runtime ([2^48]). *)
Definition max_alloc : Z := (2 ^ 48)%Z.

Definition make_ok (size n : Z) : bool := ((0 <=? n) && (n * size <=? max_alloc))%Z.

(** ** Words in byte strings *)

(** [binary.BigEndian.Uint16/32/64] and [binary.LittleEndian.*] of a slice of the right length;
    they panic on a shorter one. *)
Definition be_at (n : nat) (p : bytes) (i : Z) : go Z :=
  let? w := slice p i (i + Z.of_nat n) in Ok (be_val w).
Definition le_at (n : nat) (p : bytes) (i : Z) : go Z :=
  let? w := slice p i (i + Z.of_nat n) in Ok (le_val w).

Lemma be_at_ok n p i :
  (0 <= i)%Z -> (i + Z.of_nat n <= zlen p)%Z ->
  be_at n p i = Ok (be_val (take n (drop (Z.to_nat i) p))).
Proof.
  intros. unfold be_at. rewrite slice_ok by lia. simpl.
  by replace (Z.to_nat (i + Z.of_nat n - i)) with n by lia.
Qed.

Lemma le_at_ok n p i :
  (0 <= i)%Z -> (i + Z.of_nat n <= zlen p)%Z ->
  le_at n p i = Ok (le_val (take n (drop (Z.to_nat i) p))).
Proof.
  intros. unfold le_at. rewrite slice_ok by lia. simpl.
  by replace (Z.to_nat (i + Z.of_nat n - i)) with n by lia.
Qed.

Lemma be_at_app n a w c i :
  i = zlen a -> length w = n -> be_at n (a ++ w ++ c) i = Ok (be_val w).
Proof.
  intros -> Hw. unfold be_at. rewrite (slice_app_mid a w c); [done|done|].
  unfold zlen. lia.
Qed.

Lemma le_at_app n a w c i :
  i = zlen a -> length w = n -> le_at n (a ++ w ++ c) i = Ok (le_val w).
Proof.
  intros -> Hw. unfold le_at. rewrite (slice_app_mid a w c); [done|done|].
  unfold zlen. lia.
Qed.

Lemma be_at_head n w c : length w = n -> be_at n (w ++ c) 0 = Ok (be_val w).
Proof. by apply (be_at_app n []). Qed.

Lemma le_at_head n w c : length w = n -> le_at n (w ++ c) 0 = Ok (le_val w).
Proof. by apply (le_at_app n []). Qed.

Lemma slice_head {A} (b c : list A) j : j = zlen b -> slice (b ++ c) 0 j = Ok b.
Proof. intros ->. by apply (slice_app_mid [] b c). Qed.

Lemma slice_from_app {A} (b c : list A) i : i = zlen b -> slice_from (b ++ c) i = Ok c.
Proof.
  intros ->. pose proof (zlen_nonneg b). pose proof (zlen_nonneg c).
  rewrite slice_from_ok by (rewrite zlen_app; lia). f_equal. apply drop_app_exact. unfold zlen. lia.
Qed.

Lemma be_at_range n p i v : be_at n p i = Ok v -> (0 <= v < 256 ^ Z.of_nat n)%Z.
Proof.
  unfold be_at. intros (w & Hw & [= <-])%gbind_ok.
  apply slice_inv in Hw as (? & ? & _ & Hl).
  assert (length w = n) as <- by (unfold zlen in Hl; lia). apply be_val_range.
Qed.

Lemma le_at_range n p i v : le_at n p i = Ok v -> (0 <= v < 256 ^ Z.of_nat n)%Z.
Proof.
  unfold le_at. intros (w & Hw & [= <-])%gbind_ok.
  apply slice_inv in Hw as (? & ? & _ & Hl).
  assert (length w = n) as <- by (unfold zlen in Hl; lia). apply le_val_range.
Qed.
