(* ===== verification/GoStr.v ===== *)
(** * Go's [strings] package on byte strings, as far as the source uses it *)
From S2P Require Import Prelude Go.
Open Scope Z_scope.

(** ** Searching *)

Fixpoint find_byte (b : byte) (s : bytes) : option nat :=
  match s with
  | [] => None
  | c :: t => if decide (c = b) then Some O else S <$> find_byte b t
  end.

(** [bytes.IndexByte] / [strings.IndexByte]: the first position, or -1. *)
Definition IndexByte (s : bytes) (b : byte) : Z :=
  match find_byte b s with Some i => Z.of_nat i | None => -1 end.

Lemma find_byte_Some b s i :
  find_byte b s = Some i -> s = take i s ++ b :: drop (S i) s /\ b ∉ take i s.
Proof.
  revert i. induction s as [|c t IH]; intros i; simpl; [done|].
  case_decide as Hc.
  - intros [= <-]. subst. simpl. split; [done|]. set_solver.
  - destruct (find_byte b t) as [j|] eqn:Hj; [|done]. intros [= <-].
    destruct (IH j eq_refl) as [Ht Hn]. simpl. split.
    + by f_equal.
    + set_solver.
Qed.

Lemma find_byte_None b s : find_byte b s = None <-> b ∉ s.
Proof.
  induction s as [|c t IH]; simpl; [set_solver|].
  case_decide as Hc; [set_solver|]. rewrite elem_of_cons, fmap_None, IH. naive_solver.
Qed.

Lemma find_byte_app b s t :
  b ∉ s -> find_byte b (s ++ b :: t) = Some (length s).
Proof.
  induction s as [|c s IH]; simpl; intros Hn.
  - by rewrite decide_True.
  - rewrite decide_False by set_solver. rewrite IH by set_solver. done.
Qed.

Lemma find_byte_lt b s i : find_byte b s = Some i -> (i < length s)%nat.
Proof.
  revert i. induction s as [|c t IH]; intros i; simpl; [done|].
  case_decide; [intros [= <-]; lia|].
  destruct (find_byte b t) as [j|] eqn:Hj; [|done]. intros [= <-].
  specialize (IH j eq_refl). lia.
Qed.

Lemma IndexByte_range s b : -1 <= IndexByte s b < zlen s.
Proof.
  unfold IndexByte. destruct (find_byte b s) eqn:H.
  - apply find_byte_lt in H. unfold zlen. lia.
  - unfold zlen. lia.
Qed.

Lemma IndexByte_app s b t : b ∉ s -> IndexByte (s ++ b :: t) b = zlen s.
Proof. intros. unfold IndexByte. by rewrite find_byte_app. Qed.

(** [strings.LastIndexByte] *)
Definition LastIndexByte (s : bytes) (b : byte) : Z :=
  match find_byte b (reverse s) with Some i => zlen s - 1 - Z.of_nat i | None => -1 end.

(** [strings.HasPrefix] and [strings.Contains]. *)
Fixpoint HasPrefix (s p : bytes) {struct p} : bool :=
  match p with
  | [] => true
  | a :: p' =>
      match s with
      | b :: s' => bool_decide (a = b) && HasPrefix s' p'
      | [] => false
      end
  end.

Fixpoint Contains (s p : bytes) : bool :=
  HasPrefix s p || match s with [] => false | _ :: t => Contains t p end.

Lemma HasPrefix_spec s p : HasPrefix s p = true <-> exists t, s = p ++ t.
Proof.
  revert s. induction p as [|a p IH]; intros s; simpl; [split; eauto|].
  destruct s as [|b s]; [split; [done|by intros [? ?]]|].
  rewrite andb_true_iff, bool_decide_eq_true, IH. split.
  - intros [-> [t ->]]. eauto.
  - intros [t [= -> ->]]. eauto.
Qed.

Lemma Contains_spec s p : Contains s p = true <-> exists a t, s = a ++ p ++ t.
Proof.
  induction s as [|c s IH]; simpl; rewrite orb_true_iff, HasPrefix_spec.
  - split.
    + intros [[t Ht]|]; [|done]. by exists [], t.
    + intros (a & t & H). symmetry in H. apply app_eq_nil in H as [-> H]. eauto.
  - rewrite IH. split.
    + intros [[t Ht]|(a & t & ->)]; [by exists [], t|by exists (c :: a), t].
    + intros ([|b a] & t & H); simpl in H; [by left; exists t|].
      right. injection H as -> ->. eauto.
Qed.

(** ** Splitting *)

(** [strings.Split(s, sep)] for a one-byte separator. *)
Fixpoint Split (sep : byte) (s : bytes) : list bytes :=
  match s with
  | [] => [[]]
  | c :: t =>
      if decide (c = sep) then [] :: Split sep t
      else match Split sep t with
           | h :: r => (c :: h) :: r
           | [] => [[c]]
           end
  end.

Lemma Split_nonempty sep s : Split sep s <> [].
Proof. destruct s; simpl; [done|]. case_decide; [done|]. by case_match. Qed.

Lemma Split_app sep a t : sep ∉ a -> Split sep (a ++ sep :: t) = a :: Split sep t.
Proof.
  induction a as [|c a IH]; simpl; intros Hn.
  - by rewrite decide_True.
  - rewrite decide_False by set_solver. rewrite IH by set_solver. done.
Qed.

Lemma Split_none sep a : sep ∉ a -> Split sep a = [a].
Proof.
  induction a as [|c a IH]; simpl; intros Hn; [done|].
  rewrite decide_False by set_solver. rewrite IH by set_solver. done.
Qed.

(** ** Trimming *)

(** [strings.TrimRight(s, "\x00")] and the like, with a one-byte cut set. *)
Fixpoint drop_while (b : byte) (s : bytes) : bytes :=
  match s with
  | c :: t => if decide (c = b) then drop_while b t else s
  | [] => []
  end.
Definition TrimRight (s : bytes) (b : byte) : bytes := reverse (drop_while b (reverse s)).

Lemma drop_while_spec b s :
  exists n, s = replicate n b ++ drop_while b s /\ head (drop_while b s) <> Some b.
Proof.
  induction s as [|c t IH]; simpl; [by exists O|].
  case_decide; [|by exists O; simpl; naive_solver].
  destruct IH as (n & H1 & H2). exists (S n). subst. simpl. by rewrite <- H1.
Qed.

Lemma TrimRight_spec b s :
  exists n, s = TrimRight s b ++ replicate n b /\ last (TrimRight s b) <> Some b.
Proof.
  unfold TrimRight. destruct (drop_while_spec b (reverse s)) as (n & H1 & H2).
  exists n. split.
  - rewrite <- (reverse_involutive s) at 1. rewrite H1 at 1.
    by rewrite reverse_app, reverse_replicate.
  - by rewrite last_reverse.
Qed.

Lemma TrimRight_snoc b s : b ∉ s -> TrimRight (s ++ [b]) b = s.
Proof.
  intros Hn. unfold TrimRight. rewrite reverse_snoc. simpl. rewrite decide_True by done.
  assert (drop_while b (reverse s) = reverse s) as ->; [|apply reverse_involutive].
  destruct (reverse s) as [|c t] eqn:E; [done|]. simpl. rewrite decide_False; [done|].
  intros ->. apply Hn. apply elem_of_reverse. rewrite E. set_solver.
Qed.

(** The encodings of the runes [unicode.IsSpace] accepts: six ASCII characters, U+0085, U+00A0,
    U+1680, U+2000..U+200A, U+2028, U+2029, U+202F, U+205F and U+3000. *)
Definition space_runes : list bytes :=
  (map (fun z => [b8 z]) [9; 10; 11; 12; 13; 32]) ++
  [[b8 0xC2; b8 0x85]; [b8 0xC2; b8 0xA0]; [b8 0xE1; b8 0x9A; b8 0x80]] ++
  (map (fun z => [b8 0xE2; b8 0x80; b8 z])
     [0x80; 0x81; 0x82; 0x83; 0x84; 0x85; 0x86; 0x87; 0x88; 0x89; 0x8A; 0xA8; 0xA9; 0xAF]) ++
  [[b8 0xE2; b8 0x81; b8 0x9F]; [b8 0xE3; b8 0x80; b8 0x80]].

(** Remove one rune of [pats] from the front. *)
Fixpoint strip_rune (pats : list bytes) (s : bytes) : option bytes :=
  match pats with
  | [] => None
  | p :: ps => if HasPrefix s p then Some (drop (length p) s) else strip_rune ps s
  end.

Fixpoint strip_runes (fuel : nat) (pats : list bytes) (s : bytes) : bytes :=
  match fuel with
  | O => s
  | S k => match strip_rune pats s with Some t => strip_runes k pats t | None => s end
  end.

Definition TrimLeftSpace (s : bytes) : bytes := strip_runes (length s) space_runes s.
Definition TrimRightSpace (s : bytes) : bytes :=
  reverse (strip_runes (length s) (map reverse space_runes) (reverse s)).

(** [strings.TrimSpace] *)
Definition TrimSpace (s : bytes) : bytes := TrimRightSpace (TrimLeftSpace s).

(** ** Case *)

(** [strings.ToLower] has an ASCII path and, for a string with a byte of [0x80] or more, maps
    [unicode.ToLower] over the runes. The rune table is the only thing left open. *)
Class Unicode := { lower_runes : bytes -> bytes }.

Definition is_ascii (b : byte) : bool := u8 b <? 128.
Definition lower_ascii (b : byte) : byte :=
  if (65 <=? u8 b) && (u8 b <=? 90) then b8 (u8 b + 32) else b.

Definition ToLower `{Unicode} (s : bytes) : bytes :=
  if forallb is_ascii s then map lower_ascii s else lower_runes s.

Lemma lower_ascii_idem b : lower_ascii (lower_ascii b) = lower_ascii b.
Proof. destruct b; vm_compute; reflexivity. Qed.

Lemma ToLower_ascii `{Unicode} s :
  forallb is_ascii s = true -> ToLower s = map lower_ascii s.
Proof. intros Hs. unfold ToLower. by rewrite Hs. Qed.

(** ** Formatting *)

(** The decimal digits of a non-negative number, most significant first ([%d]). *)
Fixpoint digits (fuel : nat) (n : Z) (acc : bytes) : bytes :=
  match fuel with
  | O => acc
  | S k => let acc' := b8 (48 + n mod 10) :: acc in
           if n <? 10 then acc' else digits k (n / 10) acc'
  end.
Definition itoa (n : Z) : bytes :=
  if n <? 0 then str "-" ++ digits 20 (- n) [] else digits 20 n [].

Example itoa_ex : itoa 28000 = str "28000" /\ itoa 0 = str "0".
Proof. split; vm_compute; reflexivity. Qed.
Example TrimSpace_ex : TrimSpace (str "  a b	 ") = str "a b".
Proof. vm_compute. reflexivity. Qed.

(** ** Parsing integers *)

Definition digit_val (b : byte) : option Z :=
  if (48 <=? u8 b) && (u8 b <=? 57) then Some (u8 b - 48) else None.

Fixpoint parse_digits (s : bytes) (acc : Z) : option Z :=
  match s with
  | [] => Some acc
  | c :: t => match digit_val c with Some d => parse_digits t (10 * acc + d) | None => None end
  end.

(** [strconv.Atoi]: an optional sign, decimal digits, the range of a 64-bit [int]. *)
Definition Atoi (s : bytes) : option Z :=
  let '(sign, ds) :=
    match s with
    | c :: t => if decide (u8 c = 45) then (-1, t) else if decide (u8 c = 43) then (1, t) else (1, s)
    | [] => (1, s)
    end in
  match ds with
  | [] => None
  | _ =>
      match parse_digits ds 0 with
      | Some n => let v := sign * n in
                  if (- 2 ^ 63 <=? v) && (v <? 2 ^ 63) then Some v else None
      | None => None
      end
  end.

Example Atoi_ex : Atoi (str "4096") = Some 4096 /\ Atoi (str "-7") = Some (-7) /\
  Atoi (str "1e3") = None /\ Atoi (str "9223372036854775808") = None.
Proof. vm_compute. auto. Qed.
