(* ===== verification/Scan.v ===== *)
(** * The hand-written loops over bytes

    internal/edge/awsexec/cli.go (indexByte), internal/gateway/dbuser.go (indexZeroByte),
    internal/wire/mongo/mongo.go (indexByte, bytesEqual) and internal/wire/mysql/auth.go
    (trimTrailingNul), index by index as they are written. The other files use the functions of GoStr
    in their place; the loops return what those do. *)
From S2P Require Import Prelude Go GoStr.
Open Scope Z_scope.

(** [for i := i; i < len(s); i++ { if s[i] == b { return i } }; return -1] *)
Fixpoint index_loop (fuel : nat) (s : bytes) (b : byte) (i : Z) : go Z :=
  match fuel with
  | O => NoFuel
  | S k =>
      if i <? zlen s then
        let? c := index s i in
        if decide (c = b) then Ok i else index_loop k s b (i + 1)
      else Ok (-1)
  end.

Definition indexByte (s : bytes) (b : byte) : go Z := index_loop (S (length s)) s b 0.
Definition indexZeroByte (p : bytes) : go Z := index_loop (S (length p)) p (b8 0) 0.

Module Mongo.

Definition indexByte (b : bytes) : go Z := index_loop (S (length b)) b (b8 0) 0.

Fixpoint equal_loop (fuel : nat) (a b : bytes) (i : Z) : go bool :=
  match fuel with
  | O => NoFuel
  | S k =>
      if i <? zlen a then
        let? x := index a i in
        let? y := index b i in
        if decide (x <> y) then Ok false else equal_loop k a b (i + 1)
      else Ok true
  end.
Definition bytesEqual (a b : bytes) : go bool :=
  if decide (zlen a <> zlen b) then Ok false else equal_loop (S (length a)) a b 0.

End Mongo.

Fixpoint trim_loop (fuel : nat) (b : bytes) : go bytes :=
  match fuel with
  | O => NoFuel
  | S k =>
      if 0 <? zlen b then
        let? last := index b (zlen b - 1) in
        if decide (last = b8 0) then let? b := slice b 0 (zlen b - 1) in trim_loop k b else Ok b
      else Ok b
  end.
Definition trimTrailingNul (b : bytes) : go bytes := trim_loop (S (length b)) b.

(** ** The loops are the library's functions *)

Lemma index_loop_spec b s : forall pre fuel, (length s < fuel)%nat ->
  index_loop fuel (pre ++ s) b (zlen pre) =
  Ok (match find_byte b s with Some i => zlen pre + Z.of_nat i | None => -1 end).
Proof.
  induction s as [|c s IH]; intros pre fuel Hf; (destruct fuel as [|k]; [simpl in Hf; lia|]); cbn [index_loop].
  - rewrite app_nil_r, (proj2 (Z.ltb_ge _ _)) by lia. done.
  - rewrite (proj2 (Z.ltb_lt _ _)) by (rewrite zlen_app, zlen_cons; pose proof (zlen_nonneg s); lia).
    rewrite index_app_mid by done. cbn [gbind find_byte].
    destruct (decide (c = b)) as [|Hne]; [by rewrite Z.add_0_r|].
    replace (pre ++ c :: s) with ((pre ++ [c]) ++ s) by by rewrite <- app_assoc.
    replace (zlen pre + 1) with (zlen (pre ++ [c])) by by rewrite zlen_app.
    rewrite IH by (simpl in Hf; lia). rewrite zlen_app.
    destruct (find_byte b s); simpl; f_equal. rewrite (zlen_cons c []), zlen_nil. lia.
Qed.

Lemma index_loop_IndexByte s b : index_loop (S (length s)) s b 0 = Ok (IndexByte s b).
Proof. apply (index_loop_spec b s [] (S (length s))). lia. Qed.

Lemma equal_loop_spec a b : forall pre fuel, length a = length b -> (length a < fuel)%nat ->
  Mongo.equal_loop fuel (pre ++ a) (pre ++ b) (zlen pre) = Ok (bool_decide (a = b)).
Proof.
  revert b. induction a as [|x a IH]; intros [|y b] pre fuel Hl Hf; try discriminate Hl;
    (destruct fuel as [|k]; [simpl in Hf; lia|]); cbn [Mongo.equal_loop].
  - by rewrite app_nil_r, (proj2 (Z.ltb_ge _ _)) by lia.
  - rewrite (proj2 (Z.ltb_lt _ _)) by (rewrite zlen_app, zlen_cons; pose proof (zlen_nonneg a); lia).
    rewrite !index_app_mid by done. cbn [gbind]. destruct (decide (x <> y)) as [Hne|He].
    + rewrite bool_decide_eq_false_2; [done|]. congruence.
    + apply dec_stable in He as ->.
      replace (pre ++ y :: a) with ((pre ++ [y]) ++ a) by by rewrite <- app_assoc.
      replace (pre ++ y :: b) with ((pre ++ [y]) ++ b) by by rewrite <- app_assoc.
      replace (zlen pre + 1) with (zlen (pre ++ [y])) by by rewrite zlen_app.
      rewrite IH by (simpl in *; lia). f_equal. apply bool_decide_ext. naive_solver.
Qed.

Lemma bytesEqual_eq a b : Mongo.bytesEqual a b = Ok (bool_decide (a = b)).
Proof.
  unfold Mongo.bytesEqual. case_decide as Hl.
  - rewrite bool_decide_eq_false_2; [done|]. by intros ->.
  - apply (equal_loop_spec a b [] (S (length a))); unfold zlen in Hl; lia.
Qed.

Lemma TrimRight_snoc_eq s b : TrimRight (s ++ [b]) b = TrimRight s b.
Proof. unfold TrimRight. rewrite reverse_snoc. simpl. by rewrite decide_True. Qed.

Lemma TrimRight_snoc_ne s b c : c <> b -> TrimRight (s ++ [c]) b = s ++ [c].
Proof.
  intros Hc. unfold TrimRight. rewrite reverse_snoc. simpl. rewrite decide_False by done.
  by rewrite reverse_cons, reverse_involutive.
Qed.

Lemma trim_loop_spec b : forall fuel, (length b < fuel)%nat -> trim_loop fuel b = Ok (TrimRight b (b8 0)).
Proof.
  induction b as [|c b IH] using rev_ind; intros fuel Hf; (destruct fuel as [|k]; [simpl in Hf; lia|]);
    cbn [trim_loop]; [done|].
  rewrite length_app in Hf. simpl in Hf. pose proof (zlen_nonneg b).
  assert (zlen (b ++ [c]) = zlen b + 1) as -> by by rewrite zlen_app.
  destruct (Z.ltb_spec 0 (zlen b + 1)); [|lia].
  replace (zlen b + 1 - 1) with (zlen b) by lia. rewrite index_app_mid by done. cbn [gbind].
  destruct (decide (c = b8 0)) as [->|Hc].
  - rewrite slice_head by done. cbn [gbind]. by rewrite IH, TrimRight_snoc_eq by lia.
  - by rewrite TrimRight_snoc_ne.
Qed.

(** The hand-written loops return, within the bounds of their arguments, what the library functions
    return that the rest of the development uses in their place: the first position of a byte or -1,
    equality, the bytes without their trailing zeros. *)
Theorem byte_loops (s t : bytes) (b : byte) :
  indexByte s b = Ok (IndexByte s b) /\ indexZeroByte s = Ok (IndexByte s (b8 0)) /\
  Mongo.indexByte s = Ok (IndexByte s (b8 0)) /\ Mongo.bytesEqual s t = Ok (bool_decide (s = t)) /\
  trimTrailingNul s = Ok (TrimRight s (b8 0)).
Proof.
  split_and!; try apply index_loop_IndexByte; [apply bytesEqual_eq|]. apply trim_loop_spec. lia.
Qed.
