(* ===== verification/GoSort.v ===== *)
(** * Sorting, searching and floating-point numbers of Go's standard library

    [strings.Index], the order of strings, [sort.Strings] and [sort.SliceStable] (any stable sort: one
    result), [float64] conversion and division, and [time.RFC3339]. *)
From Stdlib Require Import SpecFloat Sorted.
From S2P Require Import Prelude Go GoStr.
Open Scope Z_scope.

(** [strings.Index] *)
Fixpoint Index (s p : bytes) : option nat :=
  if HasPrefix s p then Some 0%nat
  else match s with [] => None | _ :: s' => S <$> Index s' p end.

(** [s < t] on strings *)
Fixpoint string_lt (s t : bytes) : bool :=
  match s, t with
  | _, [] => false
  | [], _ :: _ => true
  | a :: s', b :: t' => if u8 a <? u8 b then true else if u8 b <? u8 a then false else string_lt s' t'
  end.

Fixpoint insert_by {A} (less : A -> A -> bool) (x : A) (l : list A) : list A :=
  match l with
  | [] => [x]
  | y :: t => if less y x then y :: insert_by less x t else x :: l
  end.

Definition SliceStable {A} (less : A -> A -> bool) (l : list A) : list A := foldr (insert_by less) [] l.

Definition sort_Strings (l : list bytes) : list bytes := SliceStable string_lt l.

(** A Go map used as a set, and its keys in some order. *)
Definition keys_of (l : list bytes) : list bytes := elements (list_to_set l : gset bytes).

(** ** [float64] *)

Definition float64 (z : Z) : spec_float := binary_normalize 53 1024 z 0 false.
Definition float_div (x y : spec_float) : spec_float := SFdiv 53 1024 x y.

(** A finite float as [m * 2^e]; the code's divisions by constants never give an infinity or a NaN. *)
Definition mantissa (f : spec_float) : Z * Z :=
  match f with
  | S754_finite s m e => ((if s then - 1 else 1) * Zpos m, e)
  | _ => (0, 0)
  end.

(** ** [t.UTC().Format(time.RFC3339)] of nanoseconds since 1970 *)

(** Year, month and day of a day number, by 400-year eras starting in March. *)
Definition civil (day : Z) : Z * Z * Z :=
  let z := day + 719468 in
  let era := z / 146097 in
  let doe := z mod 146097 in
  let yoe := (doe - doe / 1460 + doe / 36524 - doe / 146096) / 365 in
  let doy := doe - (365 * yoe + yoe / 4 - yoe / 100) in
  let mp := (5 * doy + 2) / 153 in
  let d := doy - (153 * mp + 2) / 5 + 1 in
  let m := if mp <? 10 then mp + 3 else mp - 9 in
  (yoe + era * 400 + (if m <=? 2 then 1 else 0), m, d).

Definition pad (width : nat) (n : Z) : bytes :=
  let s := itoa (Z.abs n) in
  (if n <? 0 then str "-" else []) ++ repeat (b8 48) (width - length s) ++ s.

Definition RFC3339 (ns : Z) : bytes :=
  let secs := ns / 1000000000 in
  let '(y, m, d) := civil (secs / 86400) in
  let s := secs mod 86400 in
  pad 4 y ++ str "-" ++ pad 2 m ++ str "-" ++ pad 2 d ++ str "T" ++
  pad 2 (s / 3600) ++ str ":" ++ pad 2 (s / 60 mod 60) ++ str ":" ++ pad 2 (s mod 60) ++ str "Z".

(** ** Lemmas *)

Lemma string_lt_irrefl s : string_lt s s = false.
Proof. induction s as [|a s IH]; [done|]. simpl. by rewrite Z.ltb_irrefl. Qed.

Lemma string_lt_trans s t u : string_lt s t = true -> string_lt t u = true -> string_lt s u = true.
Proof.
  revert t u. induction s as [|a s IH]; intros [|b t] [|c u]; simpl; try done.
  destruct (Z.ltb_spec (u8 a) (u8 b)), (Z.ltb_spec (u8 b) (u8 a)), (Z.ltb_spec (u8 b) (u8 c)),
    (Z.ltb_spec (u8 c) (u8 b)), (Z.ltb_spec (u8 a) (u8 c)), (Z.ltb_spec (u8 c) (u8 a)); try done; try lia.
  apply IH.
Qed.

Lemma string_lt_total s t : string_lt s t = false -> string_lt t s = false -> s = t.
Proof.
  revert t. induction s as [|a s IH]; intros [|b t]; simpl; try done.
  destruct (Z.ltb_spec (u8 a) (u8 b)), (Z.ltb_spec (u8 b) (u8 a)); try done; try lia.
  intros. f_equal; [apply u8_inj; lia|by apply IH].
Qed.

Section sorting.
Context {A : Type} (less : A -> A -> bool).

Lemma insert_by_perm x l : insert_by less x l ≡ₚ x :: l.
Proof.
  induction l as [|y l IH]; [done|]. simpl. destruct (less y x); [|done].
  rewrite IH. by constructor.
Qed.

Lemma SliceStable_perm l : SliceStable less l ≡ₚ l.
Proof. induction l as [|x l IH]; [done|]. simpl. by rewrite insert_by_perm, IH. Qed.

(** No element is less than one before it. *)
Definition in_order : list A -> Prop := StronglySorted (fun x y => less y x = false).

Context (Hirr : forall x, less x x = false).
Context (Htr : forall x y z, less x y = true -> less y z = true -> less x z = true).
Context (Hneg : forall x y z, less y x = false -> less z y = false -> less z x = false).

Lemma insert_by_sorted x l : in_order l -> in_order (insert_by less x l).
Proof using Hirr Hneg Htr.
  induction l as [|y l IH]; simpl; [by repeat constructor|]. intros Hs.
  apply StronglySorted_inv in Hs as [Hs Hy]. destruct (less y x) eqn:Hyx.
  - constructor; [by apply IH|]. rewrite insert_by_perm. constructor; [|done].
    destruct (less x y) eqn:Hxy; [|done]. specialize (Hirr y). by rewrite (Htr y x y) in Hirr.
  - constructor; [by constructor|]. constructor; [done|].
    eapply Forall_impl; [exact Hy|]. intros z Hz. by apply (Hneg x y z).
Qed.

Lemma SliceStable_sorted l : in_order (SliceStable less l).
Proof using Hirr Hneg Htr. induction l as [|x l IH]; [constructor|]. simpl. by apply insert_by_sorted. Qed.

(** Elements that the order does not separate keep their order. *)
Lemma insert_by_stable (P : A -> bool) x l :
  (forall a b, P a = true -> P b = true -> less a b = false) ->
  List.filter P (insert_by less x l) = List.filter P (x :: l).
Proof.
  intros HP. induction l as [|y l IH]; [done|]. simpl. destruct (less y x) eqn:Hl; [|done].
  simpl. rewrite IH. simpl. destruct (P y) eqn:Hy, (P x) eqn:Hx; try done. by rewrite HP in Hl.
Qed.

Lemma SliceStable_stable (P : A -> bool) l :
  (forall a b, P a = true -> P b = true -> less a b = false) ->
  List.filter P (SliceStable less l) = List.filter P l.
Proof.
  intros HP. induction l as [|x l IH]; [done|]. simpl SliceStable. rewrite insert_by_stable by done.
  simpl. by rewrite IH.
Qed.
End sorting.

Lemma string_lt_neg x y z :
  string_lt y x = false -> string_lt z y = false -> string_lt z x = false.
Proof.
  intros H1 H2. destruct (string_lt z x) eqn:H; [|done].
  destruct (string_lt x y) eqn:Hxy; [by rewrite (string_lt_trans z x y) in H2|].
  rewrite (string_lt_total x y) in H by done. by rewrite H in H2.
Qed.

(** Strictly increasing: sorted without repetition. *)
Definition increasing : list bytes -> Prop := StronglySorted (fun x y => string_lt x y = true).

Lemma sort_keys_spec l :
  increasing (sort_Strings (keys_of l)) /\ forall x, x ∈ sort_Strings (keys_of l) <-> x ∈ l.
Proof.
  unfold sort_Strings. split; cycle 1.
  { intros x. rewrite SliceStable_perm. unfold keys_of. set_solver. }
  pose proof (SliceStable_sorted string_lt string_lt_irrefl string_lt_trans string_lt_neg (keys_of l)) as Hs.
  assert (Hnd : NoDup (SliceStable string_lt (keys_of l)))
    by (rewrite SliceStable_perm; unfold keys_of; apply NoDup_elements).
  revert Hs Hnd. generalize (SliceStable string_lt (keys_of l)) as k.
  induction k as [|x k IH]; intros Hs Hnd; [constructor|].
  apply StronglySorted_inv in Hs as [Hs Hx]. apply NoDup_cons in Hnd as [Hnin Hnd].
  constructor; [by apply IH|]. apply Forall_forall. intros y Hy. rewrite Forall_forall in Hx.
  destruct (string_lt x y) eqn:Hxy; [done|]. rewrite (string_lt_total x y) in Hnin by auto. done.
Qed.

Example RFC3339_ex : RFC3339 1700000000123456789 = str "2023-11-14T22:13:20Z".
Proof. reflexivity. Qed.
Example RFC3339_leap : RFC3339 1709251199000000000 = str "2024-02-29T23:59:59Z".
Proof. reflexivity. Qed.
