(* ===== verification/GoIO.v ===== *)
(** * Readers, writers and connections

    A reader is the byte string its peer will have sent by the time the reader
    stops, with the error every later read reports; quantifying over it covers
    every peer, adaptive or not, and every way the connection can end. A writer
    is the byte string written so far, with an optional number of bytes after
    which the connection breaks. *)
From S2P Require Import Prelude Go.
Open Scope Z_scope.

(** ** State and outcome *)

Definition St (S A : Type) : Type := S -> go A * S.

Definition sret {S A} (a : A) : St S A := fun s => (Ok a, s).
Definition sfail {S A} (e : gerr) : St S A := fun s => (Err e, s).
Definition slift {S A} (c : go A) : St S A := fun s => (c, s).
Definition sbind {S A B} (c : St S A) (k : A -> St S B) : St S B := fun s =>
  match c s with
  | (Ok a, s') => k a s'
  | (Err e, s') => (Err e, s')
  | (Panic, s') => (Panic, s')
  | (NoFuel, s') => (NoFuel, s')
  end.

Notation "'let!' x := c 'in' k" := (sbind c (fun x => k))
  (at level 10, x pattern, c at level 100, k at level 200) : go_scope.
Notation "c ;;; k" := (sbind c (fun _ => k)) (at level 100, right associativity) : go_scope.

(** Run a computation on a part of the state. *)
Definition zoom {S T A} (get : S -> T) (set : T -> S -> S) (c : St T A) : St S A :=
  fun s => let '(r, t) := c (get s) in (r, set t s).

(** ** Readers *)

Record rd := mkRd { rbuf : bytes; rend : gerr }.

(** [io.ReadFull(r, make([]byte, n))]: a short read in the middle is [io.ErrUnexpectedEOF]. *)
Definition ReadFull (n : Z) : St rd bytes := fun r =>
  if n <=? zlen (rbuf r)
  then (Ok (take (Z.to_nat n) (rbuf r)), mkRd (drop (Z.to_nat n) (rbuf r)) (rend r))
  else (Err (if decide (rbuf r = []) then rend r
             else if decide (rend r = EEOF) then EUnexpectedEOF else rend r),
        mkRd [] (rend r)).

Lemma ReadFull_app n p t e :
  n = zlen p -> ReadFull n (mkRd (p ++ t) e) = (Ok p, mkRd t e).
Proof.
  intros ->. pose proof (zlen_nonneg t). unfold ReadFull. simpl.
  rewrite (proj2 (Z.leb_le _ _)) by (rewrite zlen_app; lia).
  unfold zlen. by rewrite Nat2Z.id, take_app_length, drop_app_length.
Qed.

Lemma ReadFull_inv n r x r' :
  0 <= n -> ReadFull n r = (Ok x, r') ->
  rbuf r = x ++ rbuf r' /\ zlen x = n /\ rend r' = rend r.
Proof.
  unfold ReadFull. intros Hn. case_match eqn:Hl; [|done]. intros [= <- <-]. simpl.
  apply Z.leb_le in Hl. unfold zlen in *. rewrite take_drop.
  split; [done|]. split; [rewrite length_take; lia|done].
Qed.

Lemma ReadFull_fail n r o r' :
  ReadFull n r = (o, r') -> is_ok o = false ->
  (exists e, o = Err e) /\ rbuf r' = [] /\ zlen (rbuf r) < n /\ rend r' = rend r /\
  (rbuf r = [] -> o = Err (rend r)).
Proof.
  unfold ReadFull. case_match eqn:Hl; intros [= <- <-]; [done|]. intros _. simpl.
  apply Z.leb_gt in Hl. repeat split; eauto. intros ->. by rewrite decide_True.
Qed.

Lemma ReadFull_returns n r : returns (fst (ReadFull n r)).
Proof. unfold ReadFull. by case_match. Qed.

(** ** Writers *)

Record wr := mkWr { wout : bytes; wroom : option (Z * gerr) }.

(** [conn.Write(p)] *)
Definition Write (p : bytes) : St wr unit := fun w =>
  match wroom w with
  | None => (Ok tt, mkWr (wout w ++ p) None)
  | Some (k, e) =>
      if zlen p <=? k then (Ok tt, mkWr (wout w ++ p) (Some (k - zlen p, e)))
      else (Err e, mkWr (wout w ++ take (Z.to_nat k) p) (Some (0, e)))
  end.

Lemma Write_ok p w w' : Write p w = (Ok tt, w') -> wout w' = wout w ++ p.
Proof. unfold Write. repeat case_match; intros [= <-]; done. Qed.

Lemma Write_prefix p w o w' :
  Write p w = (o, w') -> exists q, wout w' = wout w ++ q /\ q `prefix_of` p.
Proof.
  unfold Write. repeat case_match; intros [= <- <-]; simpl; eexists; split; try done.
  exists (drop (Z.to_nat z) p). by rewrite take_drop.
Qed.

Lemma Write_returns p w : returns (fst (Write p w)).
Proof. unfold Write. by repeat case_match. Qed.

Lemma Write_unbounded p o : Write p (mkWr o None) = (Ok tt, mkWr (o ++ p) None).
Proof. done. Qed.

(** ** [bufio.Writer] of 64 KiB *)

Definition bufsize : Z := 65536.

Record bufw := mkBw { bpend : bytes; berr : option gerr; bwr : wr }.

Definition newWriter (w : wr) : bufw := mkBw [] None w.

Definition bdirect (p : bytes) : St bufw unit := fun b =>
  match Write p (bwr b) with
  | (Ok _, w) => (Ok tt, mkBw (bpend b) None w)
  | (Err e, w) => (Err e, mkBw (bpend b) (Some e) w)
  | (o, w) => (o, mkBw (bpend b) (berr b) w)
  end.

Definition Flush : St bufw unit := fun b =>
  match berr b with
  | Some e => (Err e, b)
  | None =>
      match bpend b with
      | [] => (Ok tt, b)
      | p => (bdirect p ;;; fun b' => (Ok tt, mkBw [] (berr b') (bwr b'))) b
      end
  end.

Definition BWrite (p : bytes) : St bufw unit := fun b =>
  match berr b with
  | Some e => (Err e, b)
  | None =>
      let avail := bufsize - zlen (bpend b) in
      if zlen p <=? avail then (Ok tt, mkBw (bpend b ++ p) None (bwr b))
      else match bpend b with
           | [] => bdirect p b
           | _ =>
               let n := Z.to_nat avail in
               (Flush ;;; fun b' =>
                  let q := drop n p in
                  if zlen q <=? bufsize then (Ok tt, mkBw q None (bwr b'))
                  else bdirect q b') (mkBw (bpend b ++ take n p) None (bwr b))
           end
  end.

(** Everything accepted so far, flushed or not. *)
Definition ball (b : bufw) : bytes := wout (bwr b) ++ bpend b.

Lemma bdirect_spec p b o b' :
  bdirect p b = (o, b') ->
  returns o /\
  (o = Ok tt -> wout (bwr b') = wout (bwr b) ++ p /\ bpend b' = bpend b /\ berr b' = None) /\
  (exists q, wout (bwr b') = wout (bwr b) ++ q /\ q `prefix_of` p).
Proof.
  unfold bdirect. pose proof (Write_returns p (bwr b)) as Hr.
  destruct (Write p (bwr b)) as [[[]|e| |] w] eqn:Hw; intros [= <- <-]; simpl in *; try done.
  - split_and!; try done; [|by eapply Write_prefix].
    intros _. by apply Write_ok in Hw.
  - split_and!; try done. by eapply Write_prefix.
Qed.

Lemma Flush_spec b o b' :
  Flush b = (o, b') ->
  returns o /\ (o = Ok tt -> wout (bwr b') = ball b /\ bpend b' = [] /\ berr b' = None) /\
  (exists q, wout (bwr b') = wout (bwr b) ++ q /\ q `prefix_of` bpend b).
Proof.
  unfold Flush, ball. destruct (berr b) as [e|] eqn:He.
  { intros [= <- <-]. split_and!; try done. exists []. rewrite app_nil_r.
    split; [done|apply prefix_nil]. }
  destruct (bpend b) as [|c p] eqn:Hp.
  { intros [= <- <-]. rewrite app_nil_r. split_and!; try done.
    exists []. by rewrite app_nil_r. }
  unfold sbind. destruct (bdirect (c :: p) b) as [o1 b1] eqn:Hd.
  destruct (bdirect_spec _ _ _ _ Hd) as (Hr & Hok & Hq).
  destruct o1 as [[]|e| |]; try done; intros [= <- <-]; simpl; split_and!; try done.
  destruct (Hok eq_refl) as (? & ? & ?). done.
Qed.

Lemma BWrite_spec p b o b' :
  BWrite p b = (o, b') ->
  returns o /\ (o = Ok tt -> ball b' = ball b ++ p /\ berr b' = None) /\
  (exists q, wout (bwr b') = wout (bwr b) ++ q /\ q `prefix_of` bpend b ++ p).
Proof.
  unfold BWrite, ball. destruct (berr b) as [e|] eqn:He.
  { intros [= <- <-]. split_and!; try done. exists []. rewrite app_nil_r.
    split; [done|apply prefix_nil]. }
  case_match eqn:Hl.
  { intros [= <- <-]. simpl. rewrite app_assoc. split_and!; try done.
    exists []. rewrite app_nil_r. split; [done|apply prefix_nil]. }
  destruct (bpend b) as [|c p0] eqn:Hp.
  { intros Hd. destruct (bdirect_spec _ _ _ _ Hd) as (Hr & Hok & Hq).
    split_and!; try done. intros Ho. destruct (Hok Ho) as (-> & Hp' & ->).
    by rewrite Hp', Hp, !app_nil_r. }
  set (n := Z.to_nat _). unfold sbind.
  destruct (Flush _) as [o1 b1] eqn:Hf.
  destruct (Flush_spec _ _ _ Hf) as (Hr & Hok & (q & Hq & Hqp)). unfold ball in Hok. simpl in *.
  assert (Hpre : q `prefix_of` (c :: p0) ++ p).
  { etrans; [apply Hqp|]. exists (drop n p).
    change (c :: p0 ++ take n p) with ((c :: p0) ++ take n p).
    by rewrite <- app_assoc, (take_drop n p). }
  destruct o1 as [[]|e| |]; try done.
  - destruct (Hok eq_refl) as (Hw & Hp1 & He1). case_match.
    + intros [= <- <-]. simpl. split_and!; try done.
      * rewrite Hw, <- !app_assoc. simpl. by rewrite <- !app_assoc, (take_drop n p).
      * eauto.
    + intros Hd. destruct (bdirect_spec _ _ _ _ Hd) as (Hr2 & Hok2 & (q2 & Hq2 & Hqp2)).
      split_and!; [done| |].
      * intros Ho. destruct (Hok2 Ho) as (-> & -> & ->).
        rewrite Hp1, Hw, app_nil_r, <- !app_assoc. simpl. by rewrite <- !app_assoc, (take_drop n p).
      * exists (((c :: p0) ++ take n p) ++ q2). rewrite Hq2, Hw, <- !app_assoc.
        split; [by simpl; rewrite <- !app_assoc|]. destruct Hqp2 as [t Ht]. exists t.
        simpl. rewrite <- !app_assoc. simpl. do 2 f_equal. by rewrite <- Ht, take_drop.
  - intros [= <- <-]. split_and!; try done. eauto.
Qed.

(** A buffered writer over a connection that does not break never fails. *)
Definition bw_good (b : bufw) : Prop := berr b = None /\ wroom (bwr b) = None.

Lemma bdirect_good p b : bw_good b -> exists b', bdirect p b = (Ok tt, b') /\ bw_good b'.
Proof.
  intros [He Hw]. unfold bdirect, Write. rewrite Hw. eexists. split; [done|]. done.
Qed.

Lemma Flush_good b : bw_good b -> exists b', Flush b = (Ok tt, b') /\ bw_good b'.
Proof.
  intros Hg. pose proof Hg as [He Hw]. unfold Flush. rewrite He.
  destruct (bpend b); [eauto|]. unfold sbind.
  destruct (bdirect_good (b0 :: l) b Hg) as (b1 & -> & [? ?]).
  eexists. split; [done|]. done.
Qed.

Lemma BWrite_good p b : bw_good b -> exists b', BWrite p b = (Ok tt, b') /\ bw_good b'.
Proof.
  intros Hg. pose proof Hg as [He Hw]. unfold BWrite. rewrite He.
  case_match; [eexists; split; [done|]; done|].
  destruct (bpend b); [by apply bdirect_good|]. unfold sbind.
  match goal with |- context [Flush ?x] =>
    destruct (Flush_good x) as (b1 & -> & Hg1); [by split|] end.
  case_match; [|by apply bdirect_good].
  eexists. split; [done|]. by destruct Hg1.
Qed.

(** ** [io.Copy] *)

(** Copy [src] to its end: the number of bytes written and the error ([nil] at EOF). *)
Definition Copy (src : rd) (dst : wr) : Z * go unit * wr :=
  match Write (rbuf src) dst with
  | (Ok _, w) => (zlen (rbuf src), if decide (rend src = EEOF) then Ok tt else Err (rend src), w)
  | (o, w) => (zlen (wout w) - zlen (wout dst), o, w)
  end.

(** ** Connections *)

(** [c_in]/[c_out] are the current layer: the raw connection, or the TLS session once a handshake
    has completed. [c_sent] keeps what was written on the layers below, [c_hs] what each further
    handshake on this connection will give: an error, or the session's plaintext streams. *)
Record conn := mkConn {
  c_in : rd;
  c_out : wr;
  c_tls : bool;
  c_sent : bytes;
  c_hs : list (gerr + rd * option (Z * gerr));
}.

Definition on_in {A} (m : St rd A) : St conn A :=
  zoom c_in (fun r c => mkConn r (c_out c) (c_tls c) (c_sent c) (c_hs c)) m.
Definition on_out {A} (m : St wr A) : St conn A :=
  zoom c_out (fun w c => mkConn (c_in c) w (c_tls c) (c_sent c) (c_hs c)) m.

(** [tls.Server(conn, cfg).Handshake()] and [tls.Client(conn, cfg).Handshake()]: the bytes of the
    handshake itself are not modelled; what the session will carry is [c_hs]. *)
Definition Handshake : St conn unit := fun c =>
  match c_hs c with
  | inr (r, room) :: hs =>
      (Ok tt, mkConn r (mkWr [] room) true (c_sent c ++ wout (c_out c)) hs)
  | inl e :: hs => (Err e, mkConn (c_in c) (c_out c) (c_tls c) (c_sent c) hs)
  | [] => (Err EEOF, c)
  end.

(** Bytes still readable on any layer of a connection: bounds the negotiation loops. *)
Definition conn_bytes (c : conn) : nat :=
  length (rbuf (c_in c)) +
  sum_list (map (fun h => match h with inr (r, _) => length (rbuf r) | inl _ => O end) (c_hs c)).

(** A connection that never breaks. *)
Definition plain_conn (input : bytes) (e : gerr) : conn :=
  mkConn (mkRd input e) (mkWr [] None) false [] [].

(** ** The two halves of a proxied session

    A pump: what it reads from and the buffered writer it fills. *)
Record pipe := mkPipe { p_in : rd; p_bw : bufw }.

Definition on_bw {A} (m : St bufw A) : St pipe A :=
  zoom p_bw (fun b s => mkPipe (p_in s) b) m.
Definition on_rd {A} (m : St rd A) : St pipe A :=
  zoom p_in (fun r s => mkPipe r (p_bw s)) m.

(** The client's connection and the upstream's. *)
Record net := mkNet { cl : conn; up : conn }.
Definition on_cl {A} (m : St conn A) : St net A := zoom cl (fun c s => mkNet c (up s)) m.
Definition on_up {A} (m : St conn A) : St net A := zoom up (fun c s => mkNet (cl s) c) m.
