(* ===== verification/ConnFacts.v ===== *)
(** * Facts about connections shared by the wire engines

    Computations that return and never read backwards, what has been written to a peer, and the
    projections of a session's two connections. *)
From S2P Require Import Prelude Go GoIO.
Open Scope Z_scope.

(** ** Sequencing *)

Lemma sbind_ok {S A B} (m : St S A) (k : A -> St S B) s a s' :
  m s = (Ok a, s') -> sbind m k s = k a s'.
Proof. unfold sbind. by intros ->. Qed.

Lemma zoom_returns {S T A} (get : S -> T) set (m : St T A) s :
  returns (fst (m (get s))) -> returns (fst (zoom get set m s)).
Proof. unfold zoom. by destruct (m (get s)). Qed.

Lemma sbind_returns {S A B} (m : St S A) (k : A -> St S B) s :
  returns (fst (m s)) -> (forall a s', m s = (Ok a, s') -> returns (fst (k a s'))) ->
  returns (fst (sbind m k s)).
Proof. unfold sbind. destruct (m s) as [[]]; simpl; auto. Qed.

Lemma on_in_app {A} (m : St rd A) c x r :
  m (c_in c) = (x, r) -> on_in m c = (x, mkConn r (c_out c) (c_tls c) (c_sent c) (c_hs c)).
Proof. unfold on_in, zoom. by intros ->. Qed.

Lemma on_in_ReadFull_ok n c x c' :
  0 <= n -> on_in (ReadFull n) c = (Ok x, c') ->
  zlen x = n /\ rbuf (c_in c) = x ++ rbuf (c_in c') /\
  c' = mkConn (mkRd (rbuf (c_in c')) (rend (c_in c))) (c_out c) (c_tls c) (c_sent c) (c_hs c).
Proof.
  unfold on_in, zoom. intros Hn. destruct (ReadFull n (c_in c)) as [o r] eqn:H.
  intros [= -> <-]. destruct (ReadFull_inv _ _ _ _ Hn H) as (? & ? & He). simpl.
  split_and!; try done. destruct r; simpl in *. by rewrite He.
Qed.

Lemma on_in_ReadFull_returns n c : returns (fst (on_in (ReadFull n) c)).
Proof.
  unfold on_in, zoom. pose proof (ReadFull_returns n (c_in c)). by destruct (ReadFull _ _).
Qed.

Lemma on_out_Write_spec p c o c' :
  on_out (Write p) c = (o, c') ->
  returns o /\ c_in c' = c_in c /\ c_tls c' = c_tls c /\ c_sent c' = c_sent c /\ c_hs c' = c_hs c /\
  (o = Ok tt -> wout (c_out c') = wout (c_out c) ++ p).
Proof.
  unfold on_out, zoom. pose proof (Write_returns p (c_out c)) as Hr.
  destruct (Write p (c_out c)) as [o1 w] eqn:H. intros [= <- <-]. simpl.
  split_and!; try done. intros ->. by apply Write_ok in H.
Qed.

(** ** Computations on a connection that return and never read backwards *)

Definition safe {A} (m : St conn A) : Prop := forall c,
  returns (fst (m c)) /\ (length (rbuf (c_in (snd (m c)))) <= length (rbuf (c_in c)))%nat.

Create HintDb safe.

Lemma safe_bind {A B} (m : St conn A) (k : A -> St conn B) :
  safe m -> (forall a c c', m c = (Ok a, c') -> safe (k a)) -> safe (sbind m k).
Proof.
  intros Hm Hk c. destruct (Hm c) as [Hr Hl]. unfold sbind.
  destruct (m c) as [[a|e| |] c'] eqn:E; simpl in *; try done.
  destruct (Hk a c c' E c') as [Hr2 Hl2]. split; [done|lia].
Qed.

Lemma safe_seq {A B} (m : St conn A) (k : St conn B) : safe m -> safe k -> safe (m ;;; k).
Proof. intros ? ?. by apply safe_bind. Qed.

Lemma safe_ret {A} (a : A) : safe (sret a).
Proof. done. Qed.

Lemma safe_fail {A} e : safe (@sfail conn A e).
Proof. done. Qed.

Lemma safe_lift {A} (c : go A) : returns c -> safe (slift c).
Proof. done. Qed.

Lemma safe_on_out {A} (m : St wr A) : (forall w, returns (fst (m w))) -> safe (on_out m).
Proof.
  intros Hm c. unfold on_out, zoom. specialize (Hm (c_out c)).
  destruct (m (c_out c)) as [o w]. by split.
Qed.

Lemma Write_seq_returns p q w : returns (fst ((Write p ;;; Write q) w)).
Proof.
  unfold sbind. pose proof (Write_returns p w). destruct (Write p w) as [[?|?| |] w1]; try done.
  apply Write_returns.
Qed.

#[export] Hint Resolve safe_ret safe_fail safe_on_out Write_returns : safe.

(** A slice or word that the guard before it makes available. *)
Lemma returns_be_at n p i : 0 <= i -> i + Z.of_nat n <= zlen p -> returns (be_at n p i).
Proof. intros. by rewrite be_at_ok. Qed.

Lemma returns_slice {A} (p : list A) i j :
  0 <= i -> i <= j -> j <= zlen p -> returns (slice p i j).
Proof. intros. by rewrite slice_ok. Qed.

(** ** What reaches a peer *)

(** Every byte the proxy has written on a connection, below and inside TLS. *)
Definition sent (c : conn) : bytes := c_sent c ++ wout (c_out c).

Lemma on_out_Write_sent p c o c' :
  on_out (Write p) c = (o, c') ->
  exists q, sent c' = sent c ++ q /\ q `prefix_of` p /\ (o = Ok tt -> q = p).
Proof.
  intros H. pose proof H as H2. apply on_out_Write_spec in H2 as (_ & _ & _ & Hs & _ & Hok).
  unfold on_out, zoom in H. destruct (Write p (c_out c)) as [o1 w] eqn:Hw. injection H as <- <-.
  destruct (Write_prefix _ _ _ _ Hw) as (q & Hq & Hp). exists q. unfold sent. cbn [c_sent c_out].
  rewrite Hq, app_assoc. split_and!; [done|done|]. intros ->. apply Write_ok in Hw.
  rewrite Hw in Hq. by apply app_inv_head in Hq.
Qed.

Lemma on_in_sent {A} (m : St rd A) c o c' : on_in m c = (o, c') -> sent c' = sent c.
Proof. unfold on_in, zoom. destruct (m (c_in c)). by intros [= <- <-]. Qed.

Lemma Handshake_sent c o c' : Handshake c = (o, c') -> sent c' = sent c.
Proof.
  unfold Handshake, sent. destruct (c_hs c) as [|[e|[r room]] hs]; intros [= <- <-]; simpl; try done.
  by rewrite app_nil_r.
Qed.

(** Two writes in a row: a prefix of both reaches the peer. *)
Lemma Write_seq_sent p q c o c' :
  on_out (Write p ;;; Write q) c = (o, c') ->
  exists r, sent c' = sent c ++ r /\ r `prefix_of` p ++ q /\ (o = Ok tt -> r = p ++ q) /\
            c_in c' = c_in c /\ c_hs c' = c_hs c.
Proof.
  unfold on_out, zoom, sbind. destruct (Write p (c_out c)) as [o1 w1] eqn:H1.
  destruct (Write_prefix _ _ _ _ H1) as (q1 & Hq1 & Hp1).
  pose proof (Write_returns p (c_out c)) as Hr. rewrite H1 in Hr.
  destruct o1 as [[]|e| |]; try done.
  - pose proof (Write_ok _ _ _ H1) as Hok. destruct (Write q w1) as [o2 w2] eqn:H2.
    destruct (Write_prefix _ _ _ _ H2) as (q2 & Hq2 & Hp2). intros [= <- <-].
    eexists. unfold sent. cbn [c_sent c_out c_in c_hs]. rewrite Hq2, Hok, <- !app_assoc.
    split; [done|]. split; [by apply prefix_app|]. split; [|done].
    intros ->. apply Write_ok in H2. rewrite H2 in Hq2. by apply app_inv_head in Hq2 as ->.
  - intros [= <- <-]. exists q1. unfold sent. cbn [c_sent c_out c_in c_hs]. rewrite Hq1, app_assoc.
    split; [done|]. split; [by apply prefix_app_r|done].
Qed.

Lemma on_cl_inv {A} (m : St conn A) s o s' :
  on_cl m s = (o, s') -> exists c, m (cl s) = (o, c) /\ s' = mkNet c (up s).
Proof. unfold on_cl, zoom. destruct (m (cl s)) as [o1 c]. intros [= <- <-]. eauto. Qed.

Lemma on_up_inv {A} (m : St conn A) s o s' :
  on_up m s = (o, s') -> exists c, m (up s) = (o, c) /\ s' = mkNet (cl s) c.
Proof. unfold on_up, zoom. destruct (m (up s)) as [o1 c]. intros [= <- <-]. eauto. Qed.

(** ** The TLS layer of a connection *)

(** No handshake on this connection can succeed, and none has. *)
Definition never_tls (c : conn) : Prop :=
  c_tls c = false /\ Forall (fun h => exists e, h = inl e) (c_hs c).

(** A computation that neither leaves TLS nor enters it without a handshake that succeeds. *)
Definition tls_sound {A} (m : St conn A) : Prop := forall c,
  (never_tls c -> never_tls (snd (m c))) /\ (c_tls c = true -> c_tls (snd (m c)) = true).

Create HintDb tls.

Lemma tls_bind {A B} (m : St conn A) (k : A -> St conn B) :
  tls_sound m -> (forall a, tls_sound (k a)) -> tls_sound (sbind m k).
Proof.
  intros Hm Hk c. destruct (Hm c) as [Hn Ht]. unfold sbind.
  destruct (m c) as [[a|e| |] c'] eqn:E; simpl in *; try done.
  destruct (Hk a c') as [Hn2 Ht2]. auto.
Qed.

Lemma tls_seq {A B} (m : St conn A) (k : St conn B) : tls_sound m -> tls_sound k -> tls_sound (m ;;; k).
Proof. intros ? ?. by apply tls_bind. Qed.

Lemma tls_lift {A} (c : go A) : tls_sound (slift c).
Proof. done. Qed.

Lemma tls_ret {A} (a : A) : tls_sound (sret a).
Proof. done. Qed.

Lemma tls_fail {A} e : tls_sound (@sfail conn A e).
Proof. done. Qed.

Lemma tls_on_in {A} (m : St rd A) : tls_sound (on_in m).
Proof. intros c. unfold on_in, zoom. by destruct (m (c_in c)). Qed.

Lemma tls_on_out {A} (m : St wr A) : tls_sound (on_out m).
Proof. intros c. unfold on_out, zoom. by destruct (m (c_out c)). Qed.

Lemma tls_Handshake : tls_sound Handshake.
Proof.
  intros c. unfold Handshake. destruct (c_hs c) as [|[e|[r room]] hs] eqn:Hh.
  - done.
  - split; [|done]. intros [Ht Hf]. rewrite Hh in Hf. split; [done|]. by inversion Hf.
  - split; [|done]. intros [Ht Hf]. rewrite Hh in Hf.
    by apply Forall_cons in Hf as [[? ?] _].
Qed.

(** Wrapping the error of a computation. *)
Lemma tls_wrap {A} (m : St conn A) (f : gerr -> gerr) :
  tls_sound m ->
  tls_sound (fun c => match m c with (Err e, c') => (Err (f e), c') | r => r end).
Proof. intros Hm c. specialize (Hm c). by destruct (m c) as [[]]. Qed.

#[export] Hint Resolve tls_lift tls_ret tls_fail tls_on_in tls_on_out tls_Handshake tls_wrap : tls.

(** A handshake that succeeds is one the peer had in store. *)
Lemma never_tls_false {A} (m : St conn A) c o c' :
  tls_sound m -> m c = (o, c') -> never_tls c -> c_tls c' = false.
Proof. intros Hm Hr Hn. destruct (Hm c) as [H _]. rewrite Hr in H. by apply H. Qed.

Lemma tls_kept {A} (m : St conn A) c o c' :
  tls_sound m -> m c = (o, c') -> c_tls c = true -> c_tls c' = true.
Proof. intros Hm Hr Ht. destruct (Hm c) as [_ H]. rewrite Hr in H. by apply H. Qed.

(** Steps that leave the layer alone. *)
Lemma on_in_tls {A} (m : St rd A) c o c' : on_in m c = (o, c') ->
  c_tls c' = c_tls c /\ c_out c' = c_out c /\ c_sent c' = c_sent c.
Proof. unfold on_in, zoom. destruct (m (c_in c)). by intros [= <- <-]. Qed.

Lemma on_out_tls {A} (m : St wr A) c o c' : on_out m c = (o, c') ->
  c_tls c' = c_tls c /\ c_sent c' = c_sent c.
Proof. unfold on_out, zoom. destruct (m (c_out c)). by intros [= <- <-]. Qed.

Lemma Handshake_tls c o c' : Handshake c = (o, c') -> is_ok o = true -> c_tls c' = true.
Proof. unfold Handshake. destruct (c_hs c) as [|[e|[r room]] hs]; by intros [= <- <-]. Qed.
