(* ===== verification/Codec.v ===== *)
(** * Base64, HMAC and the hash functions the logins use

    Base64 and HMAC are computed; the compression functions behind MD5, SHA-1 and
    SHA-256 stay abstract, with their output lengths. *)
From S2P Require Import Prelude Go GoStr.
Open Scope Z_scope.

(** ** Hash functions *)

Class Hashes := {
  md5 : bytes -> bytes;
  sha1 : bytes -> bytes;
  sha256 : bytes -> bytes;
  md5_length m : length (md5 m) = 16%nat;
  sha1_length m : length (sha1 m) = 20%nat;
  sha256_length m : length (sha256 m) = 32%nat;
}.

Definition bxor (a b : byte) : byte := b8 (Z.lxor (u8 a) (u8 b)).

(** [out[i] = a[i] ^ b[i]] over the first slice; the second is as long in every use. *)
Definition xor_bytes (a b : bytes) : bytes := zip_with bxor a b.

Lemma bxor_cancel a b : bxor (bxor a b) b = a.
Proof.
  unfold bxor. rewrite u8_b8.
  assert (0 <= Z.lxor (u8 a) (u8 b) < 256) as Hx.
  { pose proof (u8_range a). pose proof (u8_range b). split.
    - apply Z.lxor_nonneg. lia.
    - destruct (Z.eq_dec (Z.lxor (u8 a) (u8 b)) 0) as [->|Hne]; [lia|].
      apply (Z.log2_lt_pow2 _ 8); [assert (0 <= Z.lxor (u8 a) (u8 b)); [apply Z.lxor_nonneg|]; lia|].
      eapply Z.le_lt_trans; [apply Z.log2_lxor; lia|].
      apply Z.max_lub_lt; (destruct (Z.eq_dec (u8 a) 0) as [Ha|Ha];
        destruct (Z.eq_dec (u8 b) 0) as [Hb|Hb]; rewrite ?Ha, ?Hb; simpl; try lia;
        apply Z.log2_lt_pow2; lia). }
  rewrite Z.mod_small by lia. rewrite Z.lxor_assoc, Z.lxor_nilpotent, Z.lxor_0_r. apply b8_u8.
Qed.

Lemma xor_bytes_cancel a b : length a = length b -> xor_bytes (xor_bytes a b) b = a.
Proof.
  unfold xor_bytes. revert b. induction a as [|x a IH]; intros [|y b] Hl; try done.
  simpl. rewrite bxor_cancel, IH; [done|]. by injection Hl.
Qed.

Lemma length_xor_bytes a b : length a = length b -> length (xor_bytes a b) = length a.
Proof. intros. unfold xor_bytes. rewrite length_zip_with. lia. Qed.

Section hmac.
Context `{Hashes}.

(** [hmac.New(sha256.New, key)] (RFC 2104, block size 64). *)
Definition hmac_pad (key : bytes) : bytes :=
  let k := if decide (64 < length key)%nat then sha256 key else key in
  k ++ replicate (64 - length k) (b8 0).
Definition hmac_sha256 (key msg : bytes) : bytes :=
  let k := hmac_pad key in
  sha256 (map (bxor (b8 0x5c)) k ++ sha256 (map (bxor (b8 0x36)) k ++ msg)).

Lemma hmac_sha256_length key msg : length (hmac_sha256 key msg) = 32%nat.
Proof. apply sha256_length. Qed.

End hmac.

(** ** Base64 ([encoding/base64.StdEncoding]) *)

Definition b64_alphabet : bytes :=
  str "ABCDEFGHIJKLMNOPQRSTUVWXYZabcdefghijklmnopqrstuvwxyz0123456789+/".

Definition b64_char (i : Z) : byte := default (b8 0) (b64_alphabet !! Z.to_nat i).

Definition b64_val (c : byte) : option Z := Z.of_nat <$> find_byte c b64_alphabet.

Definition eq_sign : byte := Ascii.byte_of_ascii "="%char.

Fixpoint b64_encode (s : bytes) : bytes :=
  match s with
  | [] => []
  | [a] => [b64_char (u8 a / 4); b64_char (u8 a mod 4 * 16); eq_sign; eq_sign]
  | [a; b] => [b64_char (u8 a / 4); b64_char (u8 a mod 4 * 16 + u8 b / 16);
               b64_char (u8 b mod 16 * 4); eq_sign]
  | a :: b :: c :: t =>
      b64_char (u8 a / 4) :: b64_char (u8 a mod 4 * 16 + u8 b / 16) ::
      b64_char (u8 b mod 16 * 4 + u8 c / 64) :: b64_char (u8 c mod 64) :: b64_encode t
  end.

Fixpoint b64_quads (s : bytes) : option bytes :=
  match s with
  | [] => Some []
  | c1 :: c2 :: c3 :: c4 :: t =>
      match b64_val c1, b64_val c2 with
      | Some v1, Some v2 =>
          if decide (c3 = eq_sign) then
            if decide (c4 = eq_sign /\ t = []) then Some [b8 (v1 * 4 + v2 / 16)] else None
          else
            match b64_val c3 with
            | None => None
            | Some v3 =>
                if decide (c4 = eq_sign) then
                  if decide (t = [])
                  then Some [b8 (v1 * 4 + v2 / 16); b8 (v2 mod 16 * 16 + v3 / 4)] else None
                else
                  match b64_val c4, b64_quads t with
                  | Some v4, Some r =>
                      Some (b8 (v1 * 4 + v2 / 16) :: b8 (v2 mod 16 * 16 + v3 / 4) ::
                            b8 (v3 mod 4 * 64 + v4) :: r)
                  | _, _ => None
                  end
            end
      | _, _ => None
      end
  | _ => None
  end.

(** The decoder skips carriage returns and line feeds. *)
Definition b64_decode (s : bytes) : option bytes :=
  b64_quads (filter (fun c => c <> b8 13 /\ c <> b8 10) s).

Lemma b64_char_facts : forall i, 0 <= i < 64 ->
  b64_val (b64_char i) = Some i /\ b64_char i <> eq_sign /\
  b64_char i <> b8 13 /\ b64_char i <> b8 10.
Proof.
  assert (forallb (fun i => bool_decide
    (b64_val (b64_char i) = Some i /\ b64_char i <> eq_sign /\
     b64_char i <> b8 13 /\ b64_char i <> b8 10)) (seqZ 0 64) = true) as Hall.
  { vm_compute. reflexivity. }
  intros i Hi. rewrite forallb_forall in Hall.
  apply (bool_decide_eq_true_1 _). apply Hall.
  apply list_elem_of_In, elem_of_seqZ. lia.
Qed.

Lemma list_ind3 {A} (P : list A -> Prop) :
  P [] -> (forall a, P [a]) -> (forall a b, P [a; b]) ->
  (forall a b c t, P t -> P (a :: b :: c :: t)) -> forall l, P l.
Proof.
  intros H0 H1 H2 H3 l.
  enough (forall n l, (length l <= n)%nat -> P l) by eauto.
  clear l. induction n as [|n IH]; intros l Hl.
  { destruct l; [done|simpl in Hl; lia]. }
  destruct l as [|a [|b [|c t]]]; [done..|]. apply H3, IH. simpl in Hl. lia.
Qed.

Lemma b64_sextets a b c :
  0 <= u8 a / 4 < 64 /\ 0 <= u8 a mod 4 * 16 < 64 /\ 0 <= u8 a mod 4 * 16 + u8 b / 16 < 64 /\
  0 <= u8 b mod 16 * 4 < 64 /\ 0 <= u8 b mod 16 * 4 + u8 c / 64 < 64 /\ 0 <= u8 c mod 64 < 64.
Proof.
  pose proof (u8_range a). pose proof (u8_range b). pose proof (u8_range c).
  Z.div_mod_to_equations. lia.
Qed.

Lemma b64_kept i : 0 <= i < 64 -> b64_char i <> b8 13 /\ b64_char i <> b8 10.
Proof. intros Hi. apply (b64_char_facts i Hi). Qed.

Lemma eq_sign_kept : eq_sign <> b8 13 /\ eq_sign <> b8 10.
Proof. split; intros E; vm_compute in E; discriminate E. Qed.

(** The only bytes of an encoding. *)
Lemma b64_encode_elem s c : c ∈ b64_encode s -> c = eq_sign \/ exists i, 0 <= i < 64 /\ c = b64_char i.
Proof.
  assert (Hcons : forall i (l : bytes), 0 <= i < 64 -> c ∈ b64_char i :: l ->
            (c = eq_sign \/ exists i, 0 <= i < 64 /\ c = b64_char i) \/ c ∈ l).
  { intros i l Hi [->|Hc]%elem_of_cons; eauto. }
  assert (Heq : forall (l : bytes), c ∈ eq_sign :: l ->
            (c = eq_sign \/ exists i, 0 <= i < 64 /\ c = b64_char i) \/ c ∈ l).
  { intros l [->|Hc]%elem_of_cons; eauto. }
  induction s as [|a|a b|a b d t IH] using list_ind3; cbn [b64_encode]; intros Hc.
  - by apply not_elem_of_nil in Hc.
  - pose proof (b64_sextets a a a).
    do 2 (apply Hcons in Hc as [?|Hc]; [done| |lia]). do 2 (apply Heq in Hc as [?|Hc]; [done|]).
    by apply not_elem_of_nil in Hc.
  - pose proof (b64_sextets a b b).
    do 3 (apply Hcons in Hc as [?|Hc]; [done| |lia]). apply Heq in Hc as [?|Hc]; [done|].
    by apply not_elem_of_nil in Hc.
  - pose proof (b64_sextets a b d).
    do 4 (apply Hcons in Hc as [?|Hc]; [done| |lia]). auto.
Qed.

Lemma b64_encode_no_comma s : Ascii.byte_of_ascii ","%char ∉ b64_encode s.
Proof.
  assert (forallb (fun i => bool_decide (b64_char i <> Ascii.byte_of_ascii ","%char)) (seqZ 0 64)
          = true) as Hall by (vm_compute; reflexivity).
  rewrite forallb_forall in Hall.
  intros [Hc|(i & Hi & Hc)]%b64_encode_elem; [vm_compute in Hc; discriminate Hc|].
  assert (Hne : b64_char i <> Ascii.byte_of_ascii ","%char); [|by apply Hne].
  apply (bool_decide_eq_true_1 _), Hall, list_elem_of_In, elem_of_seqZ. lia.
Qed.

Lemma length_b64_encode s : (length (b64_encode s) <= 4 * length s)%nat.
Proof. induction s as [|a|a b|a b c t IH] using list_ind3; simpl in *; lia. Qed.

Lemma b64_encode_nil s : b64_encode s = [] -> s = [].
Proof. by destruct s as [|a [|b [|c t]]]. Qed.

Lemma b8_combine x : forall v, v = u8 x -> b8 v = x.
Proof. intros v ->. apply b8_u8. Qed.

Lemma b64_roundtrip s : b64_decode (b64_encode s) = Some s.
Proof.
  unfold b64_decode.
  assert (filter (fun c => c <> b8 13 /\ c <> b8 10) (b64_encode s) = b64_encode s) as ->.
  { induction s as [|a|a b|a b c t IH] using list_ind3.
    - done.
    - pose proof (b64_sextets a a a) as (? & ? & ? & ? & ? & ?). cbn [b64_encode].
      rewrite !filter_cons_True by (apply eq_sign_kept || (apply b64_kept; lia)). done.
    - pose proof (b64_sextets a b b) as (? & ? & ? & ? & ? & ?). cbn [b64_encode].
      rewrite !filter_cons_True by (apply eq_sign_kept || (apply b64_kept; lia)). done.
    - pose proof (b64_sextets a b c) as (? & ? & ? & ? & ? & ?). cbn [b64_encode].
      rewrite !filter_cons_True by (apply eq_sign_kept || (apply b64_kept; lia)). by rewrite IH. }
  induction s as [|a|a b|a b c t IH] using list_ind3.
  - done.
  - pose proof (b64_sextets a a a) as (H1 & H2 & _). cbn [b64_encode b64_quads].
    destruct (b64_char_facts _ H1) as (-> & _), (b64_char_facts _ H2) as (-> & _).
    rewrite !decide_True by done. do 2 f_equal. apply b8_combine.
    pose proof (u8_range a). Z.div_mod_to_equations. lia.
  - pose proof (b64_sextets a b b) as (H1 & _ & H2 & H3 & _). cbn [b64_encode b64_quads].
    destruct (b64_char_facts _ H1) as (-> & _), (b64_char_facts _ H2) as (-> & _),
      (b64_char_facts _ H3) as (-> & ? & _).
    rewrite decide_False, !decide_True by done.
    pose proof (u8_range a). pose proof (u8_range b).
    f_equal; f_equal; [|f_equal]; apply b8_combine; Z.div_mod_to_equations; lia.
  - pose proof (b64_sextets a b c) as (H1 & _ & H2 & _ & H3 & H4). cbn [b64_encode b64_quads].
    destruct (b64_char_facts _ H1) as (-> & _), (b64_char_facts _ H2) as (-> & _),
      (b64_char_facts _ H3) as (-> & ? & _), (b64_char_facts _ H4) as (-> & ? & _).
    rewrite !decide_False by done. rewrite IH.
    pose proof (u8_range a). pose proof (u8_range b). pose proof (u8_range c).
    f_equal; f_equal; [|f_equal; [|f_equal]]; apply b8_combine; Z.div_mod_to_equations; lia.
Qed.
