(* ===== verification/Mask.v ===== *)
(** * Masking (internal/mask)

    A masker turns one result row into another. [Noop], [Chain], [Overlay] and
    [Remote] are the four implementations; [MaskerOk] is what the interface
    comment of mask.go asks of each of them and what the wire engines rely on. *)
From S2P Require Import Prelude Go GoStr.
Open Scope Z_scope.

(** ** The interface (mask.go) *)

Record Column := mkCol { Name : bytes; Text : bool }.

#[global] Instance Column_eq_dec : EqDecision Column.
Proof. solve_decision. Defined.

(** A row: one value per column, [None] for SQL NULL (a nil slice). *)
Abbreviation row := (list (option bytes)).
Abbreviation masker := (list Column -> list (option bytes) -> go (list (option bytes))).

(** The contract of [Masker]: same length, NULL stays NULL, binary-format values untouched, no crash. *)
Class MaskerOk (m : masker) : Prop := {
  mask_returns cols r : returns (m cols r);
  mask_length cols r r' : m cols r = Ok r' -> length r' = length r;
  mask_null cols r r' i : m cols r = Ok r' -> r !! i = Some None -> r' !! i = Some None;
  mask_binary cols r r' i c :
    m cols r = Ok r' -> cols !! i = Some c -> Text c = false -> r' !! i = r !! i;
}.

Definition Noop : masker := fun _ r => Ok r.

(** The columns an engine hands over with a row of [n] values: a missing one is treated as text. *)
Definition row_columns (n : nat) (cols : list Column) : list Column :=
  map (fun i => default (mkCol [] true) (cols !! i)) (seq 0 n).

(** ** Chain (chain.go) *)

Module Chain.

(** [NewChain] drops the nil maskers. *)
Definition NewChain (ms : list (option masker)) : list masker := omap id ms.

Fixpoint MaskRow (ms : list masker) (cols : list Column) (r : row) : go row :=
  match ms with
  | [] => Ok r
  | m :: ms' => let? r' := m cols r in MaskRow ms' cols r'
  end.

End Chain.

(** ** Overlay (overlay.go) *)

Module Overlay.
Section overlay.
Context `{Unicode}.

(** [o.rules]: the rule set the atomic pointer holds, or nothing before the first [Store]. *)
Record t := mk { rules : option (gmap bytes bytes) }.

(** [for k, v := range rules]: the argument lists the map in the order of the iteration. *)
Definition normalizeRules (rs : list (bytes * bytes)) : gmap bytes bytes :=
  foldl (fun norm '(k, v) =>
           let key := ToLower (TrimSpace k) in
           if decide (key = []) then norm else <[key := v]> norm) ∅ rs.

Definition NewOverlay (rs : list (bytes * bytes)) : t := mk (Some (normalizeRules rs)).

Definition Replace (o : t) (rs : list (bytes * bytes)) : t := mk (Some (normalizeRules rs)).

Definition current (o : t) : gmap bytes bytes := default ∅ (rules o).

Definition Enabled (o : t) : bool := bool_decide (0 < size (current o))%nat.

(** One turn of the loop: the new value of [row[i]]. *)
Definition cell (rules : gmap bytes bytes) (cols : list Column) (i : nat)
    (v : option bytes) : option bytes :=
  match v, cols !! i with
  | Some _, Some c =>
      if Text c then
        match rules !! ToLower (Name c) with Some tok => Some tok | None => v end
      else v
  | _, _ => v
  end.

Definition MaskRow (o : t) : masker := fun cols r =>
  if decide (size (current o) = O) then Ok r
  else Ok (imap (cell (current o) cols) r).

End overlay.
End Overlay.

(** ** Remote (remote.go) *)

Module Remote.
Section remote.

(** The two HTTP services, code outside the repository: [None] covers a transport error, a status
    other than 200 and a body that does not decode. *)
Context {span : Type}.
Context (post_analyze : bytes -> bytes -> bytes -> option (list span)).
Context (post_anonymize : bytes -> bytes -> list span -> option bytes).

Record t := mk { analyzeURL : bytes; anonymizeURL : bytes; language : bytes; minLen : Z }.

Record config := mkConfig {
  AnalyzeURL : bytes; AnonymizeURL : bytes; Language : bytes; MinLen : Z }.

Definition NewRemote (cfg : config) : t :=
  mk (AnalyzeURL cfg) (AnonymizeURL cfg)
     (if decide (Language cfg = []) then str "en" else Language cfg)
     (if MinLen cfg <=? 0 then 4 else MinLen cfg).

Definition Enabled (r : t) : bool :=
  bool_decide (analyzeURL r <> []) && bool_decide (anonymizeURL r <> []).

Definition analyze (r : t) (text : bytes) : option (list span) :=
  post_analyze (analyzeURL r) text (language r).

Definition anonymize (r : t) (text : bytes) : option bytes :=
  match analyze r text with
  | None | Some [] => None
  | Some results => post_anonymize (anonymizeURL r) text results
  end.

Definition cell (r : t) (cols : list Column) (i : nat) (v : option bytes) : option bytes :=
  match v, cols !! i with
  | Some x, Some c =>
      if Text c then
        if zlen x <? minLen r then v
        else match anonymize r x with Some masked => Some masked | None => v end
      else v
  | _, _ => v
  end.

Definition MaskRow (r : t) : masker := fun cols rw =>
  if Enabled r then Ok (imap (cell r cols) rw) else Ok rw.

End remote.

(** The two calls over HTTP: the client's [Do] is given the URL and the body of the POST, and answers a
    status and a body, or an error; a URL that makes no request is one of its errors. *)
Section http.
Context (Do : bytes -> bytes -> go (Z * bytes)) {span : Type}.
Context (marshal_analyze : bytes -> bytes -> go bytes) (marshal_anonymize : bytes -> list span -> go bytes).
Context (decode_spans : bytes -> option (list span)) (decode_text : bytes -> option bytes).

Definition postJSON {A} (url : bytes) (body : go bytes) (decode : bytes -> option A) : option A :=
  match body with
  | Ok buf =>
      match Do url buf with
      | Ok (status, reply) => if negb (status =? 200) then None else decode reply
      | _ => None
      end
  | _ => None
  end.

Definition http_analyze (url text language : bytes) : option (list span) :=
  postJSON url (marshal_analyze text language) decode_spans.
Definition http_anonymize (url text : bytes) (results : list span) : option bytes :=
  postJSON url (marshal_anonymize text results) decode_text.

End http.
End Remote.

(** ** The contract holds of every implementation *)

#[export] Instance Noop_ok : MaskerOk Noop.
Proof. split; unfold Noop; intros; simplify_eq; done. Qed.

(** A masker that rewrites cell by cell, sparing NULLs and binary columns. *)
Lemma imap_masker_ok (f : list Column -> nat -> option bytes -> option bytes) :
  (forall cols i, f cols i None = None) ->
  (forall cols i v c, cols !! i = Some c -> Text c = false -> f cols i v = v) ->
  MaskerOk (fun cols r => Ok (imap (f cols) r)).
Proof.
  intros Hn Hb. split.
  - done.
  - intros cols r r' [= <-]. apply length_imap.
  - intros cols r r' i [= <-] Hi. by rewrite list_lookup_imap, Hi; simpl; rewrite Hn.
  - intros cols r r' i c [= <-] Hc Ht. rewrite list_lookup_imap.
    destruct (r !! i) as [v|]; simpl; [|done]. by erewrite Hb.
Qed.

#[export] Instance Overlay_ok `{Unicode} o : MaskerOk (Overlay.MaskRow o).
Proof.
  unfold Overlay.MaskRow. case_decide; [apply Noop_ok|].
  apply (imap_masker_ok (Overlay.cell (Overlay.current o))); unfold Overlay.cell; [done|].
  intros cols i v c Hc Ht. rewrite Hc, Ht. by destruct v.
Qed.

#[export] Instance Remote_ok {span} an ano (r : Remote.t) :
  MaskerOk (Remote.MaskRow (span := span) an ano r).
Proof.
  unfold Remote.MaskRow. case_match; [|apply Noop_ok].
  apply (imap_masker_ok (Remote.cell an ano r)); unfold Remote.cell; [done|].
  intros cols i v c Hc Ht. rewrite Hc, Ht. by destruct v.
Qed.

#[export] Instance Chain_ok ms : Forall MaskerOk ms -> MaskerOk (Chain.MaskRow ms).
Proof.
  induction 1 as [|m ms Hm Hms IH]; [apply Noop_ok|].
  split; simpl.
  - intros cols r. apply returns_gbind; [apply mask_returns|]. intros. apply mask_returns.
  - intros cols r r' (r1 & H1 & H2)%gbind_ok.
    by rewrite (mask_length _ _ _ H2), (mask_length _ _ _ H1).
  - intros cols r r' i (r1 & H1 & H2)%gbind_ok Hi.
    apply (mask_null _ _ _ _ H2), (mask_null _ _ _ _ H1 Hi).
  - intros cols r r' i c (r1 & H1 & H2)%gbind_ok Hc Ht.
    by rewrite (mask_binary _ _ _ _ _ H2 Hc Ht), (mask_binary _ _ _ _ _ H1 Hc Ht).
Qed.

(** ** The overlay *)

Section overlay_facts.
Context `{Unicode}.

Lemma overlay_lookup o cols r i :
  exists r', Overlay.MaskRow o cols r = Ok r' /\
  r' !! i = Overlay.cell (Overlay.current o) cols i <$> r !! i.
Proof.
  unfold Overlay.MaskRow. case_decide as Hs.
  - apply map_size_empty_inv in Hs. rewrite Hs. eexists. split; [done|].
    destruct (r !! i) as [v|]; [|done]. simpl. unfold Overlay.cell.
    destruct v, (cols !! i) as [c|]; try done. rewrite lookup_empty. by destruct (Text c).
  - eexists. split; [done|]. by rewrite list_lookup_imap.
Qed.

(** The rule of a key is the last one, in iteration order, whose normal form is the key. *)
Definition norm_key (k : bytes) : bytes := ToLower (TrimSpace k).

Lemma normalizeRules_snoc rs k v :
  Overlay.normalizeRules (rs ++ [(k, v)]) =
  (if decide (norm_key k = []) then Overlay.normalizeRules rs
   else <[norm_key k := v]> (Overlay.normalizeRules rs)).
Proof. unfold Overlay.normalizeRules. by rewrite foldl_app. Qed.

Lemma normalizeRules_none rs key :
  key ∉ map (norm_key ∘ fst) rs -> Overlay.normalizeRules rs !! key = None.
Proof.
  induction rs as [|[k v] rs IH] using rev_ind; intros Hn; [done|].
  rewrite normalizeRules_snoc. rewrite map_app, not_elem_of_app in Hn. destruct Hn as [Hn Hk].
  case_decide; [auto|]. rewrite lookup_insert_ne; [auto|]. set_solver.
Qed.

Lemma normalizeRules_lookup rs k v :
  NoDup (map (norm_key ∘ fst) rs) -> norm_key k <> [] -> (k, v) ∈ rs ->
  Overlay.normalizeRules rs !! norm_key k = Some v.
Proof.
  induction rs as [|[k' v'] rs IH] using rev_ind; intros Hnd Hk Hin; [set_solver|].
  rewrite normalizeRules_snoc. rewrite map_app in Hnd.
  apply NoDup_app in Hnd as (Hnd & Hd & _). apply elem_of_app in Hin as [Hin|Hin].
  - assert (norm_key k' <> norm_key k).
    { intros E. apply (Hd (norm_key k)); [|simpl; rewrite E; set_solver].
      apply list_elem_of_In, in_map_iff. exists (k, v). split; [done|].
      by apply list_elem_of_In. }
    case_decide; [auto|]. rewrite lookup_insert_ne by done. auto.
  - apply list_elem_of_singleton in Hin. simplify_eq.
    rewrite decide_False by done. apply lookup_insert_eq.
Qed.

Lemma normalizeRules_nonempty_key rs key v :
  Overlay.normalizeRules rs !! key = Some v -> key <> [].
Proof.
  induction rs as [|[k' v'] rs IH] using rev_ind; [done|].
  rewrite normalizeRules_snoc. case_decide; [done|].
  destruct (decide (norm_key k' = key)) as [<-|]; [done|].
  by rewrite lookup_insert_ne.
Qed.

Lemma ToLower_nil : ToLower [] = [].
Proof. done. Qed.

(** A value beyond the described columns is never matched by a rule. *)
Lemma cell_row_columns rs cols n i v :
  (i < n)%nat ->
  Overlay.cell (Overlay.normalizeRules rs) (row_columns n cols) i v =
  Overlay.cell (Overlay.normalizeRules rs) cols i v.
Proof.
  intros Hi. unfold Overlay.cell, row_columns. destruct v as [x|]; [|done].
  rewrite list_lookup_fmap, lookup_seq_lt by done. simpl.
  destruct (cols !! i) as [c|]; [done|]. simpl. rewrite ToLower_nil.
  destruct (Overlay.normalizeRules rs !! []) eqn:E; [|done].
  by apply normalizeRules_nonempty_key in E.
Qed.

Lemma overlay_MaskRow_imap rs cols r :
  Overlay.MaskRow (Overlay.NewOverlay rs) (row_columns (length r) cols) r =
  Ok (imap (Overlay.cell (Overlay.normalizeRules rs) cols) r).
Proof.
  unfold Overlay.MaskRow. cbn [Overlay.current Overlay.rules Overlay.NewOverlay default].
  case_decide as Hs.
  - apply map_size_empty_inv in Hs. f_equal. apply list_eq. intros i.
    rewrite list_lookup_imap. destruct (r !! i) as [v|]; [|done]. simpl. f_equal.
    unfold Overlay.cell, Overlay.current in *. simpl in Hs. rewrite Hs.
    destruct v, (cols !! i) as [c|]; try done. rewrite lookup_empty. by destruct (Text c).
  - f_equal. apply list_eq. intros i. rewrite !list_lookup_imap.
    destruct (r !! i) as [v|] eqn:Hi; [|done]. simpl. f_equal.
    apply cell_row_columns. by eapply lookup_lt_Some.
Qed.

End overlay_facts.
