(* ===== verification/MaskProps.v ===== *)
(** * What the remote masker does to a row *)
From S2P Require Import Prelude Go GoStr Mask.
Open Scope Z_scope.

Section remote.
Context (Do : bytes -> bytes -> go (Z * bytes)) {span : Type}.
Context (marshal_analyze : bytes -> bytes -> go bytes) (marshal_anonymize : bytes -> list span -> go bytes).
Context (decode_spans : bytes -> option (list span)) (decode_text : bytes -> option bytes).

(** A POST that is answered with status 200 and a body that decodes. *)
Definition answered {A} (url : bytes) (body : go bytes) (decode : bytes -> option A) (a : A) : Prop :=
  exists buf reply, body = Ok buf /\ Do url buf = Ok (200, reply) /\ decode reply = Some a.

(** The service redacts a text: it detects something in it, and rewrites it. *)
Definition redacts (r : Remote.t) (text masked : bytes) : Prop :=
  exists spans, spans <> [] /\
    answered (Remote.analyzeURL r) (marshal_analyze text (Remote.language r)) decode_spans spans /\
    answered (Remote.anonymizeURL r) (marshal_anonymize text spans) decode_text masked.

Lemma postJSON_answered {A} url body (decode : bytes -> option A) a :
  Remote.postJSON Do url body decode = Some a <-> answered url body decode a.
Proof.
  unfold Remote.postJSON, answered. split.
  - destruct body as [buf|e| |]; try done. destruct (Do url buf) as [[status reply]|e| |] eqn:Hd; try done.
    destruct (Z.eqb_spec status 200) as [->|]; [|done]. intros Ha. by exists buf, reply.
  - by intros (buf & reply & -> & -> & ->).
Qed.

Lemma anonymize_redacts r text masked :
  Remote.anonymize (Remote.http_analyze Do marshal_analyze decode_spans)
    (Remote.http_anonymize Do marshal_anonymize decode_text) r text = Some masked <-> redacts r text masked.
Proof.
  unfold Remote.anonymize, Remote.analyze, Remote.http_analyze, Remote.http_anonymize, redacts.
  setoid_rewrite <- postJSON_answered. split.
  - destruct (Remote.postJSON Do (Remote.analyzeURL r) _ _) as [[|s spans]|] eqn:Ha; try done.
    intros Hm. by exists (s :: spans).
  - intros (spans & Hne & -> & Hm). by destruct spans.
Qed.

(** C37: masking by the remote service is best effort and nothing else: a row never fails and keeps its
    length; a value changes only when masking is on, the value is text, is long enough and the service
    detected something in it and rewrote it, both answers with status 200 and a body that decodes, and
    then it is the service's text; in every other case (a transport error, another status, a body that
    does not decode, nothing detected, a NULL, a binary or a short value) it is forwarded as it was. *)
Theorem remote_best_effort (r : Remote.t) (cols : list Column) (row : list (option bytes)) :
  exists masked,
    Remote.MaskRow (Remote.http_analyze Do marshal_analyze decode_spans)
      (Remote.http_anonymize Do marshal_anonymize decode_text) r cols row = Ok masked /\
    length masked = length row /\
    forall i v, row !! i = Some v ->
      let eligible x := Remote.Enabled r = true /\ v = Some x /\ Remote.minLen r <= zlen x /\
        exists c, cols !! i = Some c /\ Text c = true in
      (forall x text, eligible x -> redacts r x text -> masked !! i = Some (Some text)) /\
      ((forall x text, eligible x -> ~ redacts r x text) -> masked !! i = Some v).
Proof.
  unfold Remote.MaskRow. destruct (Remote.Enabled r).
  - eexists. split; [done|]. split; [apply length_imap|]. intros i v Hi. cbv zeta.
    rewrite list_lookup_imap, Hi. cbn [fmap option_fmap option_map]. unfold Remote.cell. split.
    + intros x text (_ & -> & Hmin & c & -> & ->) Hr. rewrite (proj2 (Z.ltb_ge _ _)) by done.
      apply anonymize_redacts in Hr. by rewrite Hr.
    + intros Hno. destruct v as [x|]; [|done]. destruct (cols !! i) as [c|] eqn:Hc; [|done].
      destruct (Text c) eqn:Ht; [|done]. destruct (Z.ltb_spec (zlen x) (Remote.minLen r)); [done|].
      destruct (Remote.anonymize _ _ r x) as [text|] eqn:Ha; [|done]. apply anonymize_redacts in Ha.
      exfalso. apply (Hno x text); [|done]. eauto 10.
  - exists row. split; [done|]. split; [done|]. intros i v Hi. cbv zeta. split; [|done].
    by intros x text (? & _).
Qed.

End remote.
