(* ===== verification/Wire.v ===== *)
(** * The engine interfaces (internal/wire/wire.go)

    What the agent and the wire engines exchange: the minted credential, the resolver that turns
    the startup parameters and the client's session token into one, and the transparent copy. *)
From S2P Require Import Prelude Go GoIO.
Open Scope Z_scope.

(** [wire.UpstreamCredential] (wire.go) *)
Record UpstreamCredential := mkCred { Username : bytes; Password : bytes; Database : bytes }.

(** [wire.CredentialResolver]: code of the agent and of the control plane. *)
Definition CredentialResolver : Type := gmap bytes bytes -> bytes -> go UpstreamCredential.

(** [wire.Passthrough]: both directions copied; the error of the one that ends first. *)
Definition Passthrough (client_first : bool) (n : net) : go unit * wr * wr :=
  let '(_, e_up, w_up) := Copy (c_in (cl n)) (c_out (up n)) in
  let '(_, e_down, w_down) := Copy (c_in (up n)) (c_out (cl n)) in
  (if client_first then e_up else e_down, w_up, w_down).
