(* ===== verification/PgWire.v ===== *)
(** * The Postgres wire engine (internal/wire/postgres/postgres.go, upstream_tls.go)

    The startup negotiation, the backend pump with its row decoder, and the
    messages the proxy itself writes. *)
From S2P Require Import Prelude Go GoStr GoIO Mask.
Open Scope Z_scope.

(** ** Constants *)
Definition sslRequestCode : Z := 80877103.
Definition gssRequestCode : Z := 80877104.
Definition cancelRequestCode : Z := 80877102.

Definition errProtocol : gerr := EFmt "postgres: malformed message" [].

(** Message type bytes, as character constants. *)
Definition chr (c : Ascii.ascii) : byte := Ascii.byte_of_ascii c.
Definition msgAuthentication : byte := chr "R"%char.
Definition msgPassword : byte := chr "p"%char.
Definition msgErrorResponse : byte := chr "E"%char.
Definition tRowDescription : byte := chr "T"%char.
Definition tDataRow : byte := chr "D"%char.
Definition tReadyForQuery : byte := chr "Z"%char.

(** ** Messages *)

(** The bytes [writeMessage] puts on the wire: the length includes itself, not the type byte. *)
Definition message (typ : byte) (payload : bytes) : bytes :=
  typ :: be_bytes 4 (zlen payload + 4) ++ payload.

Definition writeMessage (typ : byte) (payload : bytes) : St bufw unit :=
  BWrite (typ :: be_bytes 4 (zlen payload + 4)) ;;; BWrite payload.

(** The same function over a raw connection, where each [Write] reaches the peer at once. *)
Definition writeMessageConn (typ : byte) (payload : bytes) : St wr unit :=
  Write (typ :: be_bytes 4 (zlen payload + 4)) ;;; Write payload.

(** [writeClientError]: a FATAL ErrorResponse. *)
Definition error_field (field : Ascii.ascii) (val : bytes) : bytes := chr field :: val ++ [b8 0].
Definition clientError (sqlstate msg : bytes) : bytes :=
  error_field "S"%char (str "FATAL") ++ error_field "V"%char (str "FATAL") ++
  error_field "C"%char sqlstate ++ error_field "M"%char msg ++ [b8 0].
Definition writeClientError (sqlstate msg : bytes) : St wr unit :=
  writeMessageConn msgErrorResponse (clientError sqlstate msg).

(** ** Startup negotiation *)

(** Put a read header back in front of the stream ([io.MultiReader]). *)
Definition unread (hdr : bytes) : St conn unit := fun c =>
  (Ok tt, mkConn (mkRd (hdr ++ rbuf (c_in c)) (rend (c_in c)))
                 (c_out c) (c_tls c) (c_sent c) (c_hs c)).

Definition client_handshake : St conn unit := fun c =>
  match Handshake c with
  | (Err e, c') => (Err (EWrap "postgres: client TLS handshake failed: %w" e), c')
  | r => r
  end.

Fixpoint negotiate_loop (fuel : nat) (clientTLS : bool) : St conn unit :=
  match fuel with
  | O => slift NoFuel
  | S k =>
      let! hdr := on_in (ReadFull 8) in
      let! length := slift (be_at 4 hdr 0) in
      let! code := slift (be_at 4 hdr 4) in
      if (length =? 8) && ((code =? sslRequestCode) || (code =? gssRequestCode)) then
        if (code =? sslRequestCode) && clientTLS then
          on_out (Write [chr "S"%char]) ;;; client_handshake ;;; negotiate_loop k clientTLS
        else
          on_out (Write [chr "N"%char]) ;;; negotiate_loop k clientTLS
      else unread hdr
  end.

(** Every turn consumes eight bytes of some layer of the connection. *)
Definition negotiateStartup (clientTLS : bool) : St conn unit := fun c =>
  negotiate_loop (S (conn_bytes c)) clientTLS c.

(** ** Row description *)

Definition indexZero (p : bytes) (from : Z) : Z :=
  let i := IndexByte (drop (Z.to_nat from) p) (b8 0) in
  if i <? 0 then -1 else from + i.

Fixpoint parse_columns (n : nat) (p : bytes) (off : Z) : go (list Column) :=
  match n with
  | O => Ok []
  | S k =>
      let e := indexZero p off in
      if e <? 0 then Ok []
      else
        let? name := slice p off e in
        let off := e + 1 in
        if off + 18 >? zlen p then Ok []
        else
          let? formatCode := be_at 2 p (off + 16) in
          let? rest := parse_columns k p (off + 18) in
          Ok (mkCol name (formatCode =? 0) :: rest)
  end.

Definition parseRowDescription (p : bytes) : go (list Column) :=
  if zlen p <? 2 then Ok []
  else let? n := be_at 2 p 0 in parse_columns (Z.to_nat n) p 2.

(** ** Data rows *)

Fixpoint decode_fields (n : nat) (p : bytes) (off : Z) : go row :=
  match n with
  | O => Ok []
  | S k =>
      if off + 4 >? zlen p then Err errProtocol
      else
        let? w := be_at 4 p off in
        let flen := int32 w in
        let off := off + 4 in
        if flen <? 0 then
          let? rest := decode_fields k p off in Ok (None :: rest)
        else if off + flen >? zlen p then Err errProtocol
        else
          let? v := slice p off (off + flen) in
          let? rest := decode_fields k p (off + flen) in
          Ok (Some v :: rest)
  end.

Definition encode_field (v : option bytes) : bytes :=
  match v with
  | None => be_bytes 4 0xFFFFFFFF
  | Some x => be_bytes 4 (zlen x) ++ x
  end.

Definition encode_row (r : row) : bytes :=
  be_bytes 2 (zlen r) ++ concat (map encode_field r).

Definition maskDataRow (p : bytes) (cols : list Column) (m : masker) : go bytes :=
  if zlen p <? 2 then Ok p
  else
    let? n := be_at 2 p 0 in
    let? r := decode_fields (Z.to_nat n) p 2 in
    let? masked := m (row_columns (Z.to_nat n) cols) r in
    if decide (zlen masked = n) then Ok (encode_row masked) else Err errProtocol.

(** ** The backend pump *)

(** The body of the loop between the read and the write: the columns known afterwards and the
    payload to forward. A row that does not decode or that the masker refuses is forwarded as it came. *)
Definition backend_msg (m : masker) (cols : list Column) (typ : byte) (payload : bytes)
    : go (list Column * bytes) :=
  if decide (typ = tRowDescription) then
    let? cols' := parseRowDescription payload in Ok (cols', payload)
  else if decide (typ = tDataRow) then
    match maskDataRow payload cols m with
    | Ok masked => Ok (cols, masked)
    | Err _ => Ok (cols, payload)
    | Panic => Panic
    | NoFuel => NoFuel
    end
  else Ok (cols, payload).

(** [io.ReadFull] whose failure flushes what is pending and ends the pump. *)
Definition read_or_flush (n : Z) : St pipe bytes := fun s =>
  match on_rd (ReadFull n) s with
  | (Err e, s') => let '(_, s'') := on_bw Flush s' in (Err e, s'')
  | r => r
  end.

Section pump.
(** The masker of the [i]-th message: the overlay may be replaced while the session runs. *)
Context (mk : nat -> masker).
(** [br.Buffered()] as a function of what is left of the stream: it depends on how the network cut it. *)
Context (buffered : bytes -> Z).

(** Flush at a query boundary or when the read buffer is drained. *)
Definition flush_point (typ : byte) : St pipe unit := fun s =>
  if bool_decide (typ = tReadyForQuery) || (buffered (rbuf (p_in s)) =? 0)
  then on_bw Flush s else (Ok tt, s).

Fixpoint pipeBackendReader (fuel : nat) (i : nat) (cols : list Column) : St pipe unit :=
  match fuel with
  | O => slift NoFuel
  | S k =>
      let! header := read_or_flush 5 in
      let! typ := slift (index header 0) in
      let! length := slift (be_at 4 header 1) in
      if length <? 4 then sfail errProtocol
      else
        let! payload := read_or_flush (length - 4) in
        let! (cols', payload') := slift (backend_msg (mk i) cols typ payload) in
        on_bw (writeMessage typ payload') ;;;
        flush_point typ ;;;
        pipeBackendReader k (S i) cols'
  end.

(** [pipeBackend(server, client)] from the first byte: each turn reads at least five. *)
Definition pipeBackend (server : rd) (client : wr) : go unit * pipe :=
  pipeBackendReader (S (length (rbuf server))) O [] (mkPipe server (newWriter client)).

End pump.

(** ** The two directions of a session

    After the negotiation [Proxy] runs an [io.Copy] client to upstream and the pump upstream to
    client, then reports the error of whichever ends first. [uin] is what the pump gets to read:
    when the other side ends first its stream stops at an arbitrary point with [net.ErrClosed]. *)
Record session := mkSession { up_out : wr; down : pipe }.

Definition Proxy (mk : nat -> masker) (buffered : bytes -> Z) (clientTLS client_first : bool)
    (client : conn) (uin : rd) (uout : wr) : go unit * option session :=
  match negotiateStartup clientTLS client with
  | (Ok _, c) =>
      let '(_, e_up, w) := Copy (c_in c) uout in
      let '(e_down, s) := pipeBackend mk buffered uin (c_out c) in
      (quiet (if client_first then e_up else e_down), Some (mkSession w s))
  | (o, _) => (o, None)
  end.

(** ** Upstream TLS (upstream_tls.go) *)

Definition StartUpstreamTLS (required : bool) : St conn unit :=
  on_out (Write (be_bytes 4 8 ++ be_bytes 4 sslRequestCode)) ;;;
  (let! resp := (fun c => match on_in (ReadFull 1) c with
                | (Err e, c') => (Err (EWrap "postgres: reading upstream SSLRequest reply: %w" e), c')
                | r => r
                end) in
   let! b := slift (index resp 0) in
   if decide (b = chr "S"%char) then
     (fun c => match Handshake c with
      | (Err e, c') => (Err (EWrap "postgres: upstream TLS handshake failed: %w" e), c')
      | r => r
      end)
   else if decide (b = chr "N"%char) then
     if required
     then sfail (EFmt "postgres: upstream does not support SSL but upstream TLS is required" [])
     else sret tt
   else sfail (EFmt "postgres: unexpected reply %q to upstream SSLRequest" [[b]])).
