(* ===== verification/PgWireFacts.v ===== *)
(** * Facts about the Postgres wire engine *)
From S2P Require Import Prelude Go GoStr GoIO ConnFacts Mask PgWire.
Open Scope Z_scope.

(** ** The pump against an abstract transducer

    [frames] cuts a byte stream into complete messages, [run_spec] is the transducer the pump
    implements on them, [wire] is their encoding. *)

Fixpoint frames (fuel : nat) (input : bytes) : list (byte * bytes) * bytes :=
  match fuel with
  | O => ([], input)
  | S k =>
      if zlen input <? 5 then ([], input)
      else
        let n := be_val (take 4 (drop 1 input)) in
        let rest := drop 5 input in
        if (n <? 4) || (zlen rest <? n - 4) then ([], input)
        else
          let '(ms, tl) := frames k (drop (Z.to_nat (n - 4)) rest) in
          ((default (b8 0) (head input), take (Z.to_nat (n - 4)) rest) :: ms, tl)
  end.

Definition wire (ms : list (byte * bytes)) : bytes :=
  concat (map (fun '(t, p) => message t p) ms).

Fixpoint run_spec (mk : nat -> masker) (i : nat) (cols : list Column)
    (ms : list (byte * bytes)) : list (byte * bytes) :=
  match ms with
  | [] => []
  | (t, p) :: ms' =>
      match backend_msg (mk i) cols t p with
      | Ok (cols', p') => (t, p') :: run_spec mk (S i) cols' ms'
      | _ => []
      end
  end.

Lemma wire_cons t p ms : wire ((t, p) :: ms) = message t p ++ wire ms.
Proof. done. Qed.

Lemma run_spec_cons mk i cols t p ms cols' p' :
  backend_msg (mk i) cols t p = Ok (cols', p') ->
  run_spec mk i cols ((t, p) :: ms) = (t, p') :: run_spec mk (S i) cols' ms.
Proof. intros H. cbn [run_spec]. by rewrite H. Qed.

(** ** Decoders never crash *)

Lemma int32_range z : 0 <= z < 2 ^ 32 -> - 2 ^ 31 <= int32 z < 2 ^ 31.
Proof. intros. unfold int32. pose proof (Z.mod_pos_bound (z + 2 ^ 31) (2 ^ 32)). lia. Qed.

Lemma int32_small z : 0 <= z < 2 ^ 31 -> int32 z = z.
Proof. intros. unfold int32. rewrite Z.mod_small; lia. Qed.

Lemma indexZero_spec p from e :
  0 <= from <= zlen p -> indexZero p from = e ->
  e = -1 \/ (from <= e < zlen p).
Proof.
  unfold indexZero. intros Hf <-.
  pose proof (IndexByte_range (drop (Z.to_nat from) p) (b8 0)) as Hr.
  unfold zlen in *. rewrite length_drop in Hr.
  case_match eqn:E; [by left|]. apply Z.ltb_ge in E. right. lia.
Qed.

Lemma decode_fields_returns n p off :
  0 <= off -> returns (decode_fields n p off).
Proof.
  revert off. induction n as [|n IH]; intros off Hoff; simpl; [done|].
  case_match eqn:E1; [done|]. rewrite Z.gtb_ltb, Z.ltb_ge in E1.
  rewrite be_at_ok by lia. simpl.
  case_match eqn:E2.
  { apply returns_gbind; [apply IH; lia|done]. }
  apply Z.ltb_ge in E2. case_match eqn:E3; [done|]. rewrite Z.gtb_ltb, Z.ltb_ge in E3.
  rewrite slice_ok by lia. simpl. apply returns_gbind; [apply IH; lia|done].
Qed.

Lemma decode_fields_length n p off r : decode_fields n p off = Ok r -> length r = n.
Proof.
  revert off r. induction n as [|n IH]; intros off r; simpl; [by intros [= <-]|].
  case_match eqn:E1; [done|]. intros (w & _ & H)%gbind_ok. case_match eqn:E2.
  - apply gbind_ok in H as (r1 & H1%IH & [= <-]). simpl. by rewrite H1.
  - case_match eqn:E3; [done|]. apply gbind_ok in H as (v & _ & H).
    apply gbind_ok in H as (r1 & H1%IH & [= <-]). simpl. by rewrite H1.
Qed.

Lemma maskDataRow_returns p cols m : MaskerOk m -> returns (maskDataRow p cols m).
Proof.
  intros Hm. unfold maskDataRow. case_match eqn:E; [done|]. apply Z.ltb_ge in E.
  rewrite be_at_ok by (try lia). simpl.
  apply returns_gbind; [apply decode_fields_returns; lia|]. intros r _.
  apply returns_gbind; [apply mask_returns|]. intros. by case_match.
Qed.

Lemma parse_columns_ok n p off : 0 <= off <= zlen p -> exists cs, parse_columns n p off = Ok cs.
Proof.
  revert off. induction n as [|n IH]; intros off Hoff; simpl; [eauto|].
  destruct (indexZero_spec p off _ Hoff eq_refl) as [->|He]; [simpl; eauto|].
  rewrite (proj2 (Z.ltb_ge _ _)) by lia. rewrite slice_ok by lia. simpl.
  case_match eqn:E; [eauto|]. rewrite Z.gtb_ltb, Z.ltb_ge in E.
  rewrite be_at_ok by lia. simpl.
  destruct (IH (indexZero p off + 1 + 18)) as [cs ->]; [lia|]. simpl. eauto.
Qed.

Lemma parseRowDescription_ok p : exists cs, parseRowDescription p = Ok cs.
Proof.
  unfold parseRowDescription. case_match eqn:E; [eauto|]. apply Z.ltb_ge in E.
  rewrite be_at_ok by lia. simpl. apply parse_columns_ok. lia.
Qed.

Lemma backend_msg_ok m cols t p :
  MaskerOk m -> exists cols' p', backend_msg m cols t p = Ok (cols', p').
Proof.
  intros Hm. unfold backend_msg. case_decide.
  { destruct (parseRowDescription_ok p) as [cs ->]. simpl. eauto. }
  case_decide; [|eauto].
  pose proof (maskDataRow_returns p cols m Hm). by case_match; eauto.
Qed.

(** ** One turn of the pump *)

Lemma writeMessage_spec t p b o b' :
  writeMessage t p b = (o, b') ->
  returns o /\ (o = Ok tt -> ball b' = ball b ++ message t p /\ berr b' = None) /\
  wout (bwr b') `prefix_of` ball b ++ message t p.
Proof.
  unfold writeMessage, sbind.
  assert (message t p = (t :: be_bytes 4 (zlen p + 4)) ++ p) as -> by done.
  destruct (BWrite (t :: _) b) as [o1 b1] eqn:H1.
  destruct (BWrite_spec _ _ _ _ H1) as (Hr1 & Hok1 & (q1 & Hq1 & Hp1)).
  destruct o1 as [[]|e| |]; try done.
  - intros H2. destruct (BWrite_spec _ _ _ _ H2) as (Hr2 & Hok2 & (q2 & Hq2 & Hp2)).
    destruct (Hok1 eq_refl) as [Hb1 He1]. split_and!; [done| |].
    + intros Ho. destruct (Hok2 Ho) as [-> ->]. by rewrite Hb1, <- app_assoc.
    + rewrite Hq2, app_assoc, <- Hb1. unfold ball. rewrite <- app_assoc. by apply prefix_app.
  - intros [= <- <-]. split_and!; [done|done|].
    rewrite Hq1. unfold ball. rewrite app_assoc, <- (app_assoc (wout _)).
    apply prefix_app_r. by apply prefix_app.
Qed.

Lemma writeMessage_good t p b :
  bw_good b -> exists b', writeMessage t p b = (Ok tt, b') /\ bw_good b'.
Proof.
  intros Hg. unfold writeMessage, sbind.
  destruct (BWrite_good (t :: be_bytes 4 (zlen p + 4)) b Hg) as (b1 & -> & Hg1).
  by apply BWrite_good.
Qed.

Lemma wout_ball b : wout (bwr b) `prefix_of` ball b.
Proof. by exists (bpend b). Qed.

Lemma Flush_prefix b o b' : Flush b = (o, b') -> wout (bwr b') `prefix_of` ball b.
Proof.
  intros H. destruct (Flush_spec _ _ _ H) as (_ & _ & (q & -> & Hq)).
  unfold ball. by apply prefix_app.
Qed.

Lemma read_or_flush_fail n s o s' :
  read_or_flush n s = (o, s') -> is_ok o = false ->
  (exists e, o = Err e) /\ wout (bwr (p_bw s')) `prefix_of` ball (p_bw s) /\
  (bw_good (p_bw s) -> wout (bwr (p_bw s')) = ball (p_bw s)) /\ zlen (rbuf (p_in s)) < n.
Proof.
  unfold read_or_flush, on_rd, on_bw, zoom.
  destruct (ReadFull n (p_in s)) as [o1 r1] eqn:H1.
  destruct o1 as [x|e| |]; simpl; try (by intros [= <- <-]).
  2, 3: pose proof (ReadFull_returns n (p_in s)) as Hr; by rewrite H1 in Hr.
  destruct (Flush (p_bw s)) as [o2 b2] eqn:H2. intros [= <- <-] _. simpl.
  split_and!; [eauto|by eapply Flush_prefix| |by eapply ReadFull_fail].
  intros Hg. destruct (Flush_good _ Hg) as (b3 & H3 & _). rewrite H3 in H2. simplify_eq.
  by destruct (Flush_spec _ _ _ H3) as (_ & (Hw & _)%(fun f => f eq_refl) & _).
Qed.

Lemma read_or_flush_ok n s x s' :
  0 <= n -> read_or_flush n s = (Ok x, s') ->
  rbuf (p_in s) = x ++ rbuf (p_in s') /\ zlen x = n /\ p_bw s' = p_bw s.
Proof.
  unfold read_or_flush, on_rd, on_bw, zoom. intros Hn.
  destruct (ReadFull n (p_in s)) as [o1 r1] eqn:H1.
  destruct o1 as [y|e| |]; simpl; [|by destruct (Flush _)|done|done].
  intros [= <- <-]. simpl. by destruct (ReadFull_inv _ _ _ _ Hn H1) as (? & ? & _).
Qed.

Lemma flush_point_spec buffered t s o s' :
  flush_point buffered t s = (o, s') ->
  p_in s' = p_in s /\ returns o /\ (o = Ok tt -> ball (p_bw s') = ball (p_bw s)) /\
  wout (bwr (p_bw s')) `prefix_of` ball (p_bw s) /\
  (bw_good (p_bw s) -> o = Ok tt /\ bw_good (p_bw s')).
Proof.
  unfold flush_point, on_bw, zoom. case_match.
  - destruct (Flush (p_bw s)) as [o1 b1] eqn:H1. intros [= <- <-]. simpl.
    destruct (Flush_spec _ _ _ H1) as (Hr & Hok & _).
    split_and!; [done|done| |by eapply Flush_prefix|].
    + intros Ho. destruct (Hok Ho) as (Hw & Hp & _). unfold ball at 1. by rewrite Hw, Hp, app_nil_r.
    + intros Hg. destruct (Flush_good _ Hg) as (b2 & H2 & Hg2).
      rewrite H2 in H1. by injection H1 as <- <-.
  - intros [= <- <-]. split_and!; try done. apply wout_ball.
Qed.

Lemma frames_cons k t n payload rest :
  0 <= n - 4 -> n < 2 ^ 32 -> zlen payload = n - 4 ->
  frames (S k) (t :: be_bytes 4 n ++ payload ++ rest) =
  ((t, payload) :: fst (frames k rest), snd (frames k rest)).
Proof.
  intros Hn1 Hn2 Hl. cbn [frames].
  pose proof (zlen_nonneg rest). pose proof (zlen_nonneg payload).
  rewrite zlen_cons, !zlen_app, zlen_be_bytes, (proj2 (Z.ltb_ge _ _)) by lia.
  assert (take 4 (drop 1 (t :: be_bytes 4 n ++ payload ++ rest)) = be_bytes 4 n) as ->.
  { cbn [skipn]. apply take_app_exact. by rewrite length_be_bytes. }
  assert (drop 5 (t :: be_bytes 4 n ++ payload ++ rest) = payload ++ rest) as ->.
  { cbn [skipn]. apply drop_app_exact. by rewrite length_be_bytes. }
  rewrite be_val_be_bytes, Z.mod_small by lia.
  rewrite (proj2 (Z.ltb_ge _ _)), zlen_app, (proj2 (Z.ltb_ge _ _)) by lia. simpl.
  rewrite drop_app_exact, take_app_exact by (unfold zlen in Hl; lia).
  by destruct (frames k rest).
Qed.

(** A five-byte header is a type byte and a length word. *)
Lemma header_split h :
  zlen h = 5 -> exists t n, h = t :: be_bytes 4 n /\ 0 <= n < 2 ^ 32 /\
    index h 0 = Ok t /\ be_at 4 h 1 = Ok n.
Proof.
  intros Hh. destruct h as [|t w]; [done|]. exists t, (be_val w).
  rewrite zlen_cons in Hh. assert (length w = 4%nat) as Hw by (unfold zlen in Hh; lia).
  rewrite (be_bytes_be_val 4 w Hw). split; [done|].
  pose proof (be_val_range w) as Hr. rewrite Hw in Hr. split; [lia|]. split; [done|].
  rewrite <- (app_nil_r w) at 1. by apply (be_at_app 4 [t] w []).
Qed.

(** The stream ends inside a message, not on a length word below four. *)
Definition clean_tail (tl : bytes) : Prop := zlen tl < 5 \/ 4 <= be_val (take 4 (drop 1 tl)).

Lemma frames_header_short k t n rest :
  0 <= n < 2 ^ 32 -> (n < 4 \/ zlen rest < n - 4) ->
  frames (S k) (t :: be_bytes 4 n ++ rest) = ([], t :: be_bytes 4 n ++ rest).
Proof.
  intros Hn Hs. cbn [frames]. pose proof (zlen_nonneg rest).
  rewrite zlen_cons, zlen_app, zlen_be_bytes, (proj2 (Z.ltb_ge _ _)) by lia.
  assert (take 4 (drop 1 (t :: be_bytes 4 n ++ rest)) = be_bytes 4 n) as ->.
  { cbn [skipn]. apply take_app_exact. by rewrite length_be_bytes. }
  assert (drop 5 (t :: be_bytes 4 n ++ rest) = rest) as ->.
  { cbn [skipn]. apply drop_app_exact. by rewrite length_be_bytes. }
  rewrite be_val_be_bytes, Z.mod_small by lia.
  destruct Hs as [Hs|Hs]; [by rewrite (proj2 (Z.ltb_lt _ _) Hs)|].
  rewrite (proj2 (Z.ltb_lt (zlen rest) (n - 4))) by done. by rewrite orb_true_r.
Qed.

Lemma clean_tail_header t n rest :
  0 <= n < 2 ^ 32 -> n < 4 -> ~ clean_tail (t :: be_bytes 4 n ++ rest).
Proof.
  intros Hn Hl [Hc|Hc].
  - rewrite zlen_cons, zlen_app, zlen_be_bytes in Hc. pose proof (zlen_nonneg rest). lia.
  - cbn [skipn] in Hc. rewrite drop_0, take_app_exact in Hc by (by rewrite length_be_bytes).
    rewrite be_val_be_bytes, Z.mod_small in Hc by lia. lia.
Qed.

Lemma sbind_assoc {S A B C} (m : St S A) (k : A -> St S B) (h : B -> St S C) s :
  sbind m (fun a => sbind (k a) h) s = sbind (sbind m k) h s.
Proof. unfold sbind. by destruct (m s) as [[]]. Qed.

(** One message, written and, at a flush point, flushed. *)
Lemma forward_spec buffered t p s o s' :
  (on_bw (writeMessage t p) ;;; flush_point buffered t) s = (o, s') ->
  p_in s' = p_in s /\ returns o /\ (o = Ok tt -> ball (p_bw s') = ball (p_bw s) ++ message t p) /\
  wout (bwr (p_bw s')) `prefix_of` ball (p_bw s) ++ message t p /\
  (bw_good (p_bw s) -> o = Ok tt /\ bw_good (p_bw s')).
Proof.
  unfold sbind, on_bw, zoom. destruct (writeMessage t p (p_bw s)) as [o3 b3] eqn:H3.
  destruct (writeMessage_spec _ _ _ _ _ H3) as (Hr3 & Hok3 & Hp3).
  assert (Hgood : bw_good (p_bw s) -> o3 = Ok tt /\ bw_good b3).
  { intros Hg. destruct (writeMessage_good t p (p_bw s) Hg) as (b5 & H6 & ?).
    rewrite H6 in H3. by injection H3 as <- <-. }
  destruct o3 as [[]|e3| |]; try done; cycle 1.
  { intros [= <- <-]. split_and!; try done; intros Hg; by destruct (Hgood Hg). }
  destruct (Hok3 eq_refl) as [Hb3 _]. intros H4.
  destruct (flush_point_spec _ _ _ _ _ H4) as (Hin4 & Hr4 & Hok4 & Hp4 & Hg4). cbn [p_in p_bw] in *.
  rewrite Hb3 in Hok4, Hp4. split_and!; try done. intros Hg. by apply Hg4, Hgood.
Qed.

Lemma pump_spec mk buffered fuel :
  (forall i, MaskerOk (mk i)) ->
  forall i cols s o s', (length (rbuf (p_in s)) < fuel)%nat ->
  pipeBackendReader mk buffered fuel i cols s = (o, s') ->
  let fr := frames fuel (rbuf (p_in s)) in
  let out := ball (p_bw s) ++ wire (run_spec mk i cols (fst fr)) in
  (exists e, o = Err e) /\ wout (bwr (p_bw s')) `prefix_of` out /\
  (bw_good (p_bw s) -> clean_tail (snd fr) -> wout (bwr (p_bw s')) = out).
Proof.
  intros Hmk. induction fuel as [|k IH]; intros i cols s o s' Hf; [lia|].
  cbn [pipeBackendReader]. unfold sbind at 1.
  destruct (read_or_flush 5 s) as [o1 s1] eqn:H1. destruct (is_ok o1) eqn:Ho1; cycle 1.
  { destruct (read_or_flush_fail _ _ _ _ H1 Ho1) as ([e ->] & Hp & Hg & Hlen).
    intros [= <- <-]. cbn [frames]. rewrite (proj2 (Z.ltb_lt _ _) Hlen). simpl.
    rewrite app_nil_r. split_and!; eauto. }
  destruct o1 as [header| | |]; try done. clear Ho1.
  destruct (read_or_flush_ok 5 _ _ _ ltac:(lia) H1) as (Hin1 & Hh & Hb1).
  destruct (header_split _ Hh) as (t & n & -> & Hn & Hidx & Hbe).
  unfold sbind at 1, slift at 1. rewrite Hidx. unfold sbind at 1, slift at 1. rewrite Hbe.
  rewrite Hin1. cbn [app]. case_match eqn:Hn4.
  { apply Z.ltb_lt in Hn4. intros [= <- <-]. rewrite frames_header_short by auto. simpl.
    rewrite app_nil_r, Hb1. split_and!; [eauto|apply wout_ball|].
    intros _ Hc. by apply clean_tail_header in Hc. }
  apply Z.ltb_ge in Hn4. unfold sbind at 1.
  destruct (read_or_flush (n - 4) s1) as [o2 s2] eqn:H2. destruct (is_ok o2) eqn:Ho2; cycle 1.
  { destruct (read_or_flush_fail _ _ _ _ H2 Ho2) as ([e ->] & Hp & Hg & Hlen).
    intros [= <- <-]. rewrite frames_header_short by auto. simpl. rewrite Hb1 in *.
    rewrite app_nil_r. split_and!; eauto. }
  destruct o2 as [payload| | |]; try done. clear Ho2.
  destruct (read_or_flush_ok (n - 4) _ _ _ ltac:(lia) H2) as (Hin2 & Hpl & Hb2).
  destruct (backend_msg_ok (mk i) cols t payload (Hmk i)) as (cols' & p' & Hbm).
  rewrite Hin2, frames_cons by lia. cbn [fst snd]. rewrite (run_spec_cons _ _ _ _ _ _ _ _ Hbm), wire_cons.
  unfold sbind at 1, slift at 1. rewrite Hbm, sbind_assoc. unfold sbind at 1.
  destruct ((on_bw (writeMessage t p') ;;; flush_point buffered t) s2) as [o4 s4] eqn:H4.
  destruct (forward_spec _ _ _ _ _ _ H4) as (Hin4 & Hr4 & Hok4 & Hp4 & Hg4).
  rewrite <- Hb1, <- Hb2. destruct o4 as [[]|e4| |]; try done; cycle 1.
  { intros [= <- <-]. split_and!; [eauto| |].
    - etrans; [apply Hp4|]. rewrite app_assoc. by apply prefix_app_r.
    - intros Hg. by destruct (Hg4 Hg). }
  intros H5. apply IH in H5; [|rewrite Hin4; rewrite Hin1, Hin2 in Hf; simpl in Hf;
    rewrite !length_app, length_be_bytes in Hf; lia].
  rewrite Hin4, Hok4, <- app_assoc in H5 by done. destruct H5 as (He & Hp5 & Hc5).
  split_and!; [done|done|]. intros Hg. destruct (Hg4 Hg). auto.
Qed.

(** ** The row codec *)

(** A value a DataRow can carry: its length word is a non-negative int32. *)
Definition field_fits (v : option bytes) : Prop :=
  match v with Some x => zlen x < 2 ^ 31 | None => True end.

Lemma decode_fields_encode r : Forall field_fits r -> forall pre post off,
  off = zlen pre ->
  decode_fields (length r) (pre ++ concat (map encode_field r) ++ post) off = Ok r.
Proof.
  induction 1 as [|v r Hv Hr IH]; intros pre post off ->; [done|].
  cbn [length decode_fields map concat].
  pose proof (zlen_nonneg (concat (map encode_field r))). pose proof (zlen_nonneg post).
  destruct v as [x|]; cbn [encode_field].
  - pose proof (zlen_nonneg x) as Hx. rewrite <- !app_assoc.
    rewrite !zlen_app, zlen_be_bytes.
    case_match eqn:E1; [rewrite Z.gtb_ltb, Z.ltb_lt in E1; lia|].
    rewrite be_at_app by (done || apply length_be_bytes). cbn [gbind].
    simpl in Hv. rewrite be_val_be_bytes, Z.mod_small, int32_small by lia.
    rewrite (proj2 (Z.ltb_ge _ _)) by lia.
    case_match eqn:E2; [rewrite Z.gtb_ltb, Z.ltb_lt in E2; lia|].
    rewrite (app_assoc pre), (slice_app_mid (pre ++ be_bytes 4 (zlen x)) x)
      by (rewrite zlen_app, zlen_be_bytes; lia). cbn [gbind].
    rewrite (app_assoc (pre ++ _) x).
    by rewrite IH by (rewrite !zlen_app, zlen_be_bytes; lia).
  - rewrite <- !app_assoc, !zlen_app, zlen_be_bytes.
    case_match eqn:E1; [rewrite Z.gtb_ltb, Z.ltb_lt in E1; lia|].
    rewrite be_at_app by (done || apply length_be_bytes). cbn [gbind].
    rewrite be_val_be_bytes. change (int32 _ <? 0) with true. cbv iota.
    rewrite (app_assoc pre).
    by rewrite IH by (rewrite !zlen_app, zlen_be_bytes; lia).
Qed.

(** Masking a well-formed row, with or without trailing bytes, is masking its fields. *)
Lemma maskDataRow_encode m cols r post :
  MaskerOk m -> Forall field_fits r -> zlen r < 2 ^ 16 ->
  maskDataRow (encode_row r ++ post) cols m =
  let? masked := m (row_columns (length r) cols) r in Ok (encode_row masked).
Proof.
  intros Hm Hf Hl. unfold maskDataRow.
  assert (encode_row r ++ post = be_bytes 2 (zlen r) ++ concat (map encode_field r) ++ post) as ->
    by (unfold encode_row; by rewrite app_assoc).
  pose proof (zlen_nonneg (concat (map encode_field r) ++ post)). pose proof (zlen_nonneg r).
  rewrite zlen_app, zlen_be_bytes, (proj2 (Z.ltb_ge _ _)) by lia.
  rewrite be_at_head by apply length_be_bytes. cbn [gbind].
  rewrite be_val_be_bytes, Z.mod_small by lia.
  replace (Z.to_nat (zlen r)) with (length r) by (unfold zlen; lia).
  rewrite (decode_fields_encode r Hf) by (by rewrite zlen_be_bytes). cbn [gbind].
  destruct (m _ r) as [masked| | |] eqn:E; try done. cbn [gbind].
  apply mask_length in E. rewrite decide_True; [done|]. unfold zlen. by rewrite E.
Qed.

(** ** Row descriptions *)

(** What a RowDescription says of a column: its name, sixteen bytes of catalogue data and its format. *)
Record coldesc := mkColdesc { cd_name : bytes; cd_meta : bytes; cd_format : Z }.

Definition coldesc_ok (c : coldesc) : Prop :=
  (b8 0 ∉ cd_name c) /\ zlen (cd_meta c) = 16 /\ 0 <= cd_format c < 2 ^ 16.

Definition encode_coldesc (c : coldesc) : bytes :=
  cd_name c ++ b8 0 :: cd_meta c ++ be_bytes 2 (cd_format c).

Definition column_of (c : coldesc) : Column := mkCol (cd_name c) (cd_format c =? 0).

Definition encode_rowdesc (cs : list coldesc) : bytes :=
  be_bytes 2 (zlen cs) ++ concat (map encode_coldesc cs).

Lemma parse_columns_encode cs : Forall coldesc_ok cs -> forall pre post off,
  off = zlen pre ->
  parse_columns (length cs) (pre ++ concat (map encode_coldesc cs) ++ post) off =
  Ok (map column_of cs).
Proof.
  induction 1 as [|[name meta fmt] cs Hc Hcs IH]; intros pre post off ->; [done|].
  destruct Hc as (Hname & Hmeta & Hfmt). cbn [cd_name cd_meta cd_format] in *.
  cbn [length parse_columns map concat].
  set (rest := concat (map encode_coldesc cs) ++ post).
  assert (pre ++ (encode_coldesc (mkColdesc name meta fmt) ++ concat (map encode_coldesc cs)) ++ post
          = pre ++ name ++ b8 0 :: meta ++ be_bytes 2 fmt ++ rest) as ->.
  { unfold encode_coldesc, rest. cbn [cd_name cd_meta cd_format].
    by rewrite <- !app_assoc, <- app_comm_cons, <- !app_assoc. }
  pose proof (zlen_nonneg rest). pose proof (zlen_nonneg pre). pose proof (zlen_nonneg name).
  assert (indexZero (pre ++ name ++ b8 0 :: meta ++ be_bytes 2 fmt ++ rest) (zlen pre) =
          zlen pre + zlen name) as ->.
  { unfold indexZero. rewrite drop_app_exact by (unfold zlen; lia).
    rewrite IndexByte_app by done. by rewrite (proj2 (Z.ltb_ge _ _)) by lia. }
  rewrite (proj2 (Z.ltb_ge _ _)) by lia.
  rewrite (slice_app_mid pre name) by done. cbn [gbind].
  rewrite !zlen_app, zlen_cons, !zlen_app, zlen_be_bytes, Hmeta.
  case_match eqn:E1; [rewrite Z.gtb_ltb, Z.ltb_lt in E1; lia|].
  assert (pre ++ name ++ b8 0 :: meta ++ be_bytes 2 fmt ++ rest =
          (pre ++ name ++ b8 0 :: meta) ++ be_bytes 2 fmt ++ rest) as ->.
  { by rewrite <- !app_assoc, <- app_comm_cons. }
  rewrite be_at_app by (rewrite ?zlen_app, ?zlen_cons, ?length_be_bytes; lia). cbn [gbind].
  rewrite be_val_be_bytes, Z.mod_small by lia.
  rewrite (app_assoc _ (be_bytes 2 fmt)). unfold rest.
  by rewrite IH by (rewrite !zlen_app, zlen_cons, zlen_be_bytes; lia).
Qed.

Lemma parseRowDescription_encode cs :
  Forall coldesc_ok cs -> zlen cs < 2 ^ 16 ->
  parseRowDescription (encode_rowdesc cs) = Ok (map column_of cs).
Proof.
  intros Hc Hl. unfold parseRowDescription, encode_rowdesc.
  pose proof (zlen_nonneg (concat (map encode_coldesc cs))). pose proof (zlen_nonneg cs).
  rewrite zlen_app, zlen_be_bytes, (proj2 (Z.ltb_ge _ _)) by lia.
  rewrite be_at_head by apply length_be_bytes. cbn [gbind].
  rewrite be_val_be_bytes, Z.mod_small by lia.
  replace (Z.to_nat (zlen cs)) with (length cs) by (unfold zlen; lia).
  rewrite <- (app_nil_r (be_bytes 2 _ ++ _)), <- app_assoc.
  apply (parse_columns_encode cs Hc). by rewrite zlen_be_bytes.
Qed.

(** ** Startup negotiation *)

Definition request (ssl : bool) : bytes :=
  be_bytes 4 8 ++ be_bytes 4 (if ssl then sslRequestCode else gssRequestCode).

Definition is_request (hdr : bytes) : bool :=
  match be_at 4 hdr 0, be_at 4 hdr 4 with
  | Ok l, Ok c => (l =? 8) && ((c =? sslRequestCode) || (c =? gssRequestCode))
  | _, _ => false
  end.

Lemma zlen_request ssl : zlen (request ssl) = 8.
Proof. unfold request. rewrite zlen_app, !zlen_be_bytes. lia. Qed.

Lemma request_words ssl :
  be_at 4 (request ssl) 0 = Ok 8 /\
  be_at 4 (request ssl) 4 = Ok (if ssl then sslRequestCode else gssRequestCode).
Proof. by destruct ssl; vm_compute. Qed.

Lemma header8_words hdr :
  zlen hdr = 8 -> exists l c, be_at 4 hdr 0 = Ok l /\ be_at 4 hdr 4 = Ok c.
Proof. intros H. rewrite !be_at_ok by lia. eauto. Qed.

Lemma Handshake_bytes c o c' :
  Handshake c = (o, c') -> returns o /\ (conn_bytes c' <= conn_bytes c)%nat.
Proof.
  unfold Handshake, conn_bytes. destruct (c_hs c) as [|[e|[r room]] hs] eqn:Hh;
    intros [= <- <-]; simpl; rewrite ?Hh; simpl; lia || (split; [done|lia]).
Qed.




(** The negotiation ends on every connection, whatever the client sends. *)
Lemma negotiate_loop_returns clientTLS fuel : forall c,
  (conn_bytes c < fuel)%nat -> returns (fst (negotiate_loop fuel clientTLS c)).
Proof.
  induction fuel as [|k IH]; intros c Hc; [lia|]. cbn [negotiate_loop]. unfold sbind at 1.
  pose proof (on_in_ReadFull_returns 8 c) as Hr.
  destruct (on_in (ReadFull 8) c) as [[hdr| | |] c1] eqn:H1; try done.
  destruct (on_in_ReadFull_ok 8 _ _ _ ltac:(lia) H1) as (Hh & Hin & Hc1).
  destruct (header8_words hdr Hh) as (l & cd & Hl & Hcd).
  unfold sbind, slift. rewrite Hl, Hcd.
  assert (Hdec : (conn_bytes c1 + 8 <= conn_bytes c)%nat).
  { unfold conn_bytes. rewrite Hin, Hc1. simpl. rewrite length_app. unfold zlen in Hh. lia. }
  case_match; [|done]. case_match.
  - destruct (on_out (Write _) c1) as [o2 c2] eqn:H2.
    destruct (on_out_Write_spec _ _ _ _ H2) as (Hr2 & Hi2 & _ & _ & Hh2 & _).
    destruct o2 as [[]| | |]; try done. unfold client_handshake.
    destruct (Handshake c2) as [o3 c3] eqn:H3. destruct (Handshake_bytes _ _ _ H3) as [Hr3 Hb3].
    destruct o3 as [[]| | |]; try done. apply IH.
    unfold conn_bytes in *. rewrite Hi2, Hh2 in Hb3. lia.
  - destruct (on_out (Write _) c1) as [o2 c2] eqn:H2.
    destruct (on_out_Write_spec _ _ _ _ H2) as (Hr2 & Hi2 & _ & _ & Hh2 & _).
    destruct o2 as [[]| | |]; try done. apply IH. unfold conn_bytes in *. rewrite Hi2, Hh2. lia.
Qed.

(** One turn on a frame that the proxy declines. *)
Lemma negotiate_decline k clientTLS ssl t c :
  clientTLS && ssl = false ->
  rbuf (c_in c) = request ssl ++ t -> wroom (c_out c) = None ->
  negotiate_loop (S k) clientTLS c =
  negotiate_loop k clientTLS
    (mkConn (mkRd t (rend (c_in c))) (mkWr (wout (c_out c) ++ [chr "N"%char]) None)
            (c_tls c) (c_sent c) (c_hs c)).
Proof.
  intros Ht Hin Hw. cbn [negotiate_loop]. unfold sbind at 1, on_in, zoom.
  destruct c as [[buf e] [o room] tls sent hs]; simpl in *. subst.
  rewrite (ReadFull_app 8) by (by rewrite zlen_request).
  destruct (request_words ssl) as [H1 H2]. unfold sbind, slift. rewrite H1, H2.
  by destruct ssl, clientTLS.
Qed.

(** One turn on an SSLRequest that the proxy accepts: [S], then the TLS session's own stream. *)
Lemma negotiate_accept k t c r room hs :
  rbuf (c_in c) = request true ++ t -> wroom (c_out c) = None -> c_hs c = inr (r, room) :: hs ->
  negotiate_loop (S k) true c =
  negotiate_loop k true
    (mkConn r (mkWr [] room) true (c_sent c ++ wout (c_out c) ++ [chr "S"%char]) hs).
Proof.
  intros Hin Hw Hh. cbn [negotiate_loop]. unfold sbind at 1, on_in, zoom.
  destruct c as [[buf e] [o rm] tls sent h]; simpl in *. subst.
  rewrite (ReadFull_app 8) by (by rewrite zlen_request).
  destruct (request_words true) as [H1 H2]. unfold sbind, slift. by rewrite H1, H2.
Qed.

(** The first frame that is not a request ends the negotiation and is put back whole. *)
Lemma negotiate_startup k clientTLS hdr t c :
  zlen hdr = 8 -> is_request hdr = false -> rbuf (c_in c) = hdr ++ t ->
  negotiate_loop (S k) clientTLS c = (Ok tt, c).
Proof.
  intros Hh Hr Hin. cbn [negotiate_loop]. unfold sbind at 1, on_in, zoom.
  destruct c as [[buf e] w tls sent hs]; simpl in *. subst. rewrite (ReadFull_app 8) by done.
  unfold is_request in Hr. destruct (header8_words hdr Hh) as (l & cd & Hl & Hcd).
  rewrite Hl, Hcd in Hr. unfold sbind, slift. rewrite Hl, Hcd, Hr. done.
Qed.

Lemma negotiate_declines clientTLS rs : forall k t c,
  Forall (fun ssl => clientTLS && ssl = false) rs ->
  rbuf (c_in c) = concat (map request rs) ++ t -> wroom (c_out c) = None ->
  negotiate_loop (length rs + k) clientTLS c =
  negotiate_loop k clientTLS
    (mkConn (mkRd t (rend (c_in c))) (mkWr (wout (c_out c) ++ replicate (length rs) (chr "N"%char)) None)
            (c_tls c) (c_sent c) (c_hs c)).
Proof.
  induction rs as [|ssl rs IH]; intros k t c Hrs Hin Hw.
  - destruct c as [[buf e] [o room] tls sent hs]; simpl in *. subst. by rewrite app_nil_r.
  - inversion Hrs as [|? ? Hs Hrs']; subst. simpl in Hin. rewrite <- app_assoc in Hin.
    cbn [length Nat.add]. rewrite (negotiate_decline _ _ ssl _ c Hs Hin Hw), (IH k t) by done.
    simpl. by rewrite <- app_assoc.
Qed.
