(* ===== verification/PgWireProps.v ===== *)
(** * What the Postgres wire engine guarantees *)
From S2P Require Import Prelude Go GoStr GoIO ConnFacts Mask PgWire PgWireFacts.
Open Scope Z_scope.

(** No masker configured, for the witnesses: the rune table is not reached on ASCII names. *)
#[local] Instance ascii_unicode : Unicode := {| lower_runes := id |}.

(** ** The pump *)

(** C15: for every byte stream the upstream sends and however the client link breaks, the pump
    terminates with an error and without a crash; what the client received is a prefix of the
    transducer's output on the complete messages of the stream, and all of it when the client link
    does not break and the stream does not stop on a malformed length word. *)
Theorem pipeBackend_refines (mk : nat -> masker) (buffered : bytes -> Z) (uin : rd) (w : wr)
    (Hmk : forall i, MaskerOk (mk i)) :
  let '(o, s) := pipeBackend mk buffered uin w in
  let '(ms, tl) := frames (S (length (rbuf uin))) (rbuf uin) in
  let out := wout w ++ wire (run_spec mk O [] ms) in
  (exists e, o = Err e) /\ wout (bwr (p_bw s)) `prefix_of` out /\
  (wroom w = None -> clean_tail tl -> wout (bwr (p_bw s)) = out).
Proof.
  destruct (pipeBackend mk buffered uin w) as [o s] eqn:H. unfold pipeBackend in H.
  apply pump_spec in H; [|done|simpl; lia]. simpl p_in in H. simpl p_bw in H.
  destruct (frames _ _) as [ms tl]. simpl in H. unfold ball in H. simpl in H.
  rewrite app_nil_r in H. destruct H as (He & Hp & Hg). split_and!; [done|done|].
  intros Hw. apply Hg. by split.
Qed.

Lemma pipeBackend_refines_witness :
  let uin := mkRd (message (chr "Z"%char) (str "I")) EEOF in
  wout (bwr (p_bw (snd (pipeBackend (fun _ => Noop) (fun _ => 0) uin (mkWr [] None))))) =
  message (chr "Z"%char) (str "I").
Proof.
  pose proof (pipeBackend_refines (fun _ => Noop) (fun _ => 0)
    (mkRd (message (chr "Z"%char) (str "I")) EEOF) (mkWr [] None) (fun _ => Noop_ok)) as H.
  vm_compute in H. destruct H as (_ & _ & H). vm_compute. apply H; [done|by left].
Defined.

(** ** Streams of complete messages *)

Lemma frames_wire k ms :
  Forall (fun '(_, p) => zlen p + 4 < 2 ^ 32) ms -> (length (wire ms) < k)%nat ->
  frames k (wire ms) = (ms, []).
Proof.
  revert k. induction ms as [|[t p] ms IH]; intros k Hms Hk.
  - by destruct k.
  - inversion Hms as [|? ? Hp Hms']; subst. rewrite wire_cons in *. unfold message in *.
    pose proof (zlen_nonneg p). rewrite <- app_comm_cons, <- app_assoc.
    rewrite <- app_comm_cons in Hk. simpl in Hk.
    rewrite !length_app, length_be_bytes in Hk. destruct k as [|k]; [lia|].
    rewrite frames_cons by lia. rewrite IH by (done || lia). done.
Qed.

(** The client's bytes when the upstream sends the messages [ms] and ends. *)
Lemma pipeBackend_wire mk buffered ms e out :
  (forall i, MaskerOk (mk i)) -> Forall (fun '(_, p) => zlen p + 4 < 2 ^ 32) ms ->
  wout (bwr (p_bw (snd (pipeBackend mk buffered (mkRd (wire ms) e) (mkWr out None))))) =
  out ++ wire (run_spec mk O [] ms).
Proof.
  intros Hmk Hms.
  destruct (pipeBackend mk buffered (mkRd (wire ms) e) (mkWr out None)) as [o s] eqn:H.
  unfold pipeBackend in H.
  apply pump_spec in H; [|done|simpl; lia]. cbn [p_in p_bw rbuf] in H.
  rewrite frames_wire in H by (done || lia).
  destruct H as (_ & _ & Hg). cbn [fst snd] in *. rewrite Hg; [|by split|by left].
  unfold ball. cbn. by rewrite app_nil_r.
Qed.

(** ** Masking a result set *)

Section overlay.
Context `{Unicode}.

Lemma backend_msg_rows rs cols r :
  Forall field_fits r -> zlen r < 2 ^ 16 ->
  backend_msg (Overlay.MaskRow (Overlay.NewOverlay rs)) cols tDataRow (encode_row r) =
  Ok (cols, encode_row (imap (Overlay.cell (Overlay.normalizeRules rs) cols) r)).
Proof.
  intros Hf Hl. unfold backend_msg. rewrite decide_False by done. rewrite decide_True by done.
  pose proof (maskDataRow_encode (Overlay.MaskRow (Overlay.NewOverlay rs)) cols r []
    (Overlay_ok _) Hf Hl) as Hm.
  rewrite app_nil_r in Hm. by rewrite Hm, overlay_MaskRow_imap.
Qed.

Lemma run_spec_rows rs cols rows i :
  Forall (fun r => Forall field_fits r /\ zlen r < 2 ^ 16) rows ->
  run_spec (fun _ => Overlay.MaskRow (Overlay.NewOverlay rs)) i cols
    (map (fun r => (tDataRow, encode_row r)) rows) =
  map (fun r => (tDataRow, encode_row (imap (Overlay.cell (Overlay.normalizeRules rs) cols) r))) rows.
Proof.
  intros Hrows. revert i. induction Hrows as [|r rows [Hf Hl] Hrows IH]; intros i; [done|].
  cbn [map]. erewrite run_spec_cons by (by apply backend_msg_rows). by rewrite IH.
Qed.

End overlay.



(** ** Transparency *)

(** A payload the engine leaves as it is when nothing is masked: a canonical row, or anything that
    does not decode as one. *)
Definition canonical (t : byte) (p : bytes) : Prop :=
  t = tDataRow ->
  (exists r, p = encode_row r /\ Forall field_fits r /\ zlen r < 2 ^ 16) \/
  is_ok (maskDataRow p [] Noop) = false.

Lemma maskDataRow_Noop_cols p cols cols' : maskDataRow p cols Noop = maskDataRow p cols' Noop.
Proof. unfold maskDataRow, Noop. done. Qed.

Lemma backend_msg_Noop cols t p :
  canonical t p -> exists cols', backend_msg Noop cols t p = Ok (cols', p).
Proof.
  intros Hc. unfold backend_msg. case_decide.
  { destruct (parseRowDescription_ok p) as [cs ->]. simpl. eauto. }
  case_decide as Ht; [|eauto]. rewrite (maskDataRow_Noop_cols p cols []).
  pose proof (maskDataRow_returns p [] Noop Noop_ok) as Hr.
  destruct (Hc Ht) as [(r & -> & Hf & Hl)|Hn].
  - pose proof (maskDataRow_encode Noop [] r [] Noop_ok Hf Hl) as Hm. rewrite app_nil_r in Hm.
    rewrite Hm. unfold Noop. simpl. eauto.
  - destruct (maskDataRow p [] Noop); try done. eauto.
Qed.

Lemma run_spec_Noop ms : forall i cols,
  Forall (fun '(t, p) => canonical t p) ms -> run_spec (fun _ => Noop) i cols ms = ms.
Proof.
  induction ms as [|[t p] ms IH]; intros i cols Hms; [done|].
  inversion Hms as [|? ? Hc Hms']; subst.
  destruct (backend_msg_Noop cols t p Hc) as [cols' Hm].
  erewrite run_spec_cons by apply Hm. by rewrite IH.
Qed.

(** With no masking configured the proxy is a transparent passthrough: a stream of messages
    whose rows are canonical (or undecodable) reaches the client byte for byte. *)
Theorem pipeBackend_transparent (buffered : bytes -> Z) (ms : list (byte * bytes)) (e : gerr)
    (Hms : Forall (fun '(t, p) => zlen p + 4 < 2 ^ 32 /\ canonical t p) ms) :
  wout (bwr (p_bw (snd (pipeBackend (fun _ => Noop) buffered (mkRd (wire ms) e) (mkWr [] None)))))
  = wire ms.
Proof.
  rewrite pipeBackend_wire; [cbn [app]|..].
  - f_equal. apply run_spec_Noop. eapply Forall_impl; [exact Hms|]. intros [t p]. tauto.
  - intros _. apply Noop_ok.
  - eapply Forall_impl; [exact Hms|]. intros [t p]. tauto.
Qed.

Lemma pipeBackend_transparent_witness :
  let ms := [(chr "C"%char, str "SELECT 1"); (tDataRow, encode_row [None; Some (str "x")])] in
  wout (bwr (p_bw (snd (pipeBackend (fun _ => Noop) (fun _ => 5) (mkRd (wire ms) EEOF) (mkWr [] None)))))
  = wire ms.
Proof.
  intros ms. apply (pipeBackend_transparent (fun _ => 5) ms EEOF).
  apply Forall_cons. split; [split; [vm_compute; reflexivity|intros Ht; discriminate Ht]|].
  apply Forall_singleton. split; [vm_compute; reflexivity|].
  intros _. left. exists [None; Some (str "x")]. split; [reflexivity|].
  split; [|vm_compute; reflexivity].
  apply Forall_cons. split; [exact I|]. apply Forall_singleton. vm_compute. reflexivity.
Defined.

(** ** Negotiation *)

(** C32: with client TLS configured, GSSENCRequests are declined until the client's SSLRequest is
    accepted; nothing but those one-byte answers has crossed in clear, and the StartupMessage the
    proxy then reads, and everything after it, is the TLS session's own stream: no byte sent before
    the handshake is ever taken for part of it. *)
Theorem negotiateStartup_tls (n : nat) (stray startup sess_rest : bytes) (e e' : gerr)
    (room : option (Z * gerr)) (hs : list (gerr + rd * option (Z * gerr)))
    (Hs : zlen startup = 8) (Hr : is_request startup = false) :
  let c := mkConn (mkRd (concat (replicate n (request false)) ++ request true ++ stray) e)
             (mkWr [] None) false [] (inr (mkRd (startup ++ sess_rest) e', room) :: hs) in
  negotiateStartup true c =
  (Ok tt, mkConn (mkRd (startup ++ sess_rest) e') (mkWr [] room) true
            (replicate n (chr "N"%char) ++ [chr "S"%char]) hs).
Proof.
  intros c. unfold negotiateStartup.
  assert (Hf : exists k, S (conn_bytes c) = (n + S (S k))%nat).
  { exists (conn_bytes c - n - 1)%nat. unfold conn_bytes, c. simpl.
    rewrite !length_app. pose proof (zlen_request true) as Hq. unfold zlen in Hq.
    assert (n <= length (concat (replicate n (request false))))%nat; [|lia].
    clear. induction n as [|n IH]; simpl; [lia|]. rewrite length_app.
    pose proof (zlen_request false) as Hz. unfold zlen in Hz. lia. }
  destruct Hf as [k ->]. rewrite <- (length_replicate n false) at 1.
  rewrite (negotiate_declines true (replicate n false) (S (S k)) (request true ++ stray)).
  - cbn [c_in c_out c_tls c_sent c_hs rend wout app].
    erewrite negotiate_accept by done. cbn [c_sent c_out wout app].
    rewrite length_replicate.
    by erewrite negotiate_startup by done.
  - apply Forall_replicate. done.
  - unfold c. simpl. f_equal. f_equal. clear. induction n; simpl; congruence.
  - done.
Qed.

Lemma negotiateStartup_tls_witness :
  negotiateStartup true
    (mkConn (mkRd (request false ++ request true ++ str "stray") EEOF) (mkWr [] None) false []
       [inr (mkRd (be_bytes 4 9 ++ be_bytes 4 196608 ++ [b8 0]) EEOF, None)]) =
  (Ok tt, mkConn (mkRd (be_bytes 4 9 ++ be_bytes 4 196608 ++ [b8 0]) EEOF) (mkWr [] None) true
            [chr "N"%char; chr "S"%char] []).
Proof.
  apply (negotiateStartup_tls 1 (str "stray") (be_bytes 4 9 ++ be_bytes 4 196608) [b8 0]
           EEOF EEOF None []); vm_compute; reflexivity.
Defined.

(** Without client TLS every negotiation request is declined with one [N] and the first other
    frame is handed on intact; and with or without it, whatever the client sends, the negotiation
    ends (its fuel never runs out) without a crash. *)
Theorem negotiateStartup_plain (rs : list bool) (startup rest : bytes) (e : gerr)
    (Hs : zlen startup = 8) (Hr : is_request startup = false) :
  negotiateStartup false (plain_conn (concat (map request rs) ++ startup ++ rest) e) =
    (Ok tt, mkConn (mkRd (startup ++ rest) e)
              (mkWr (replicate (length rs) (chr "N"%char)) None) false [] []) /\
  (forall clientTLS c, returns (fst (negotiateStartup clientTLS c))).
Proof.
  split.
  - unfold negotiateStartup, plain_conn.
    assert (Hf : exists k, S (conn_bytes (plain_conn (concat (map request rs) ++ startup ++ rest) e))
                           = (length rs + S k)%nat).
    { exists (conn_bytes (plain_conn (concat (map request rs) ++ startup ++ rest) e) - length rs)%nat.
      unfold conn_bytes, plain_conn. simpl. rewrite length_app.
      assert (length rs <= length (concat (map request rs)))%nat; [|lia].
      clear. induction rs as [|b rs IH]; simpl; [lia|]. rewrite length_app.
      pose proof (zlen_request b) as Hz. unfold zlen in Hz. lia. }
    unfold plain_conn in Hf. destruct Hf as [k ->].
    rewrite (negotiate_declines false rs (S k) (startup ++ rest)) by
      (done || (apply Forall_forall; by intros [])).
    by erewrite negotiate_startup by done.
  - intros clientTLS c. apply negotiate_loop_returns. lia.
Qed.

Lemma negotiateStartup_plain_witness :
  negotiateStartup false (plain_conn (request true ++ be_bytes 4 8 ++ be_bytes 4 196608) EEOF) =
  (Ok tt, mkConn (mkRd (be_bytes 4 8 ++ be_bytes 4 196608) EEOF)
            (mkWr [chr "N"%char] None) false [] []).
Proof.
  apply (negotiateStartup_plain [true] (be_bytes 4 8 ++ be_bytes 4 196608) [] EEOF);
    vm_compute; reflexivity.
Defined.

(** An upgrade that succeeds. *)
Lemma StartUpstreamTLS_ok (required : bool) (c c' : conn) :
  c_tls c = false -> wout (c_out c) = [] -> StartUpstreamTLS required c = (Ok tt, c') ->
  (c_tls c' = true /\ c_sent c' = c_sent c ++ request true) \/
  (required = false /\ c_tls c' = false /\ rbuf (c_in c) = chr "N"%char :: rbuf (c_in c') /\
   wout (c_out c') = request true).
Proof.
  intros Hc Hw H.
  unfold StartUpstreamTLS, sbind in H.
  destruct (on_out (Write _) c) as [o1 c1] eqn:H1.
  destruct (on_out_Write_spec _ _ _ _ H1) as (_ & Hi1 & Ht1 & Hs1 & Hh1 & Hw1).
  destruct o1 as [[]| | |]; try done. specialize (Hw1 eq_refl). rewrite Hw in Hw1. simpl in Hw1.
  destruct (on_in (ReadFull 1) c1) as [[x| | |] c2] eqn:H2; try done.
  destruct (on_in_ReadFull_ok 1 _ _ _ ltac:(lia) H2) as (Hx & Hin2 & Hc2).
  destruct x as [|b [|? ?]]; [done| |exfalso; rewrite !zlen_cons in Hx; pose proof (zlen_nonneg l); lia].
  change (index [b] 0) with (Ok b) in H. unfold slift in H. cbv beta iota in H.
  destruct (decide (b = chr "S"%char)) as [Hb|Hb].
  - left. subst b. unfold Handshake in H. rewrite Hc2 in H. simpl in H. rewrite Hh1 in H.
    destruct (c_hs c) as [|[e|[r room]] hs]; simplify_eq/=. by rewrite Hs1, Hw1.
  - destruct (decide (b = chr "N"%char)) as [Hb'|Hb']; [|done].
    destruct required; [done|]. simpl in H. unfold sret in H. simplify_eq.
    right. split_and!; try done.
    + by rewrite Hc2; simpl; rewrite Ht1, Hc.
    + by rewrite <- Hi1.
    + by rewrite Hc2.
Qed.

(** Upstream TLS in a required mode never continues in clear: if [StartUpstreamTLS] succeeds
    the connection is the TLS session and the only clear bytes sent are the SSLRequest; in prefer
    mode a plaintext result means the server answered [N], and that answer is all that was read. *)
Theorem StartUpstreamTLS_required (required : bool) (c c' : conn)
    (Hc : c_tls c = false) (Hw : wout (c_out c) = [])
    (H : StartUpstreamTLS required c = (Ok tt, c')) :
  (c_tls c' = true /\ c_sent c' = c_sent c ++ request true) \/
  (required = false /\ c_tls c' = false /\ rbuf (c_in c) = chr "N"%char :: rbuf (c_in c') /\
   wout (c_out c') = request true).
Proof. by apply StartUpstreamTLS_ok. Qed.

Lemma StartUpstreamTLS_required_witness :
  let c := mkConn (mkRd (str "S") EEOF) (mkWr [] None) false [] [inr (mkRd (str "x") EEOF, None)] in
  exists c', StartUpstreamTLS true c = (Ok tt, c') /\
    ((c_tls c' = true /\ c_sent c' = c_sent c ++ request true) \/
     (true = false /\ c_tls c' = false /\ rbuf (c_in c) = chr "N"%char :: rbuf (c_in c') /\
      wout (c_out c') = request true)).
Proof.
  intros c. eexists. split; [vm_compute; reflexivity|].
  apply (StartUpstreamTLS_required true c); [done|done|vm_compute; reflexivity].
Defined.
