(* ===== verification/PgAuth.v ===== *)
(** * Credential handoff for Postgres (internal/wire/postgres/auth.go, ProxyInject in postgres.go)

    The client side of the login (startup parameters, cleartext token) and the
    upstream side (trust, cleartext, md5, SCRAM-SHA-256). *)
From S2P Require Import Prelude Go GoStr GoIO Codec Mask Wire PgWire.
Open Scope Z_scope.

(** ** Constants *)
Definition authOK : Z := 0.
Definition authCleartextPassword : Z := 3.
Definition authMD5Password : Z := 5.
Definition authSASL : Z := 10.
Definition authSASLContinue : Z := 11.
Definition authSASLFinal : Z := 12.
Definition scramSHA256 : bytes := str "SCRAM-SHA-256".
Definition startupProtocolV3 : Z := 196608.
Definition sniffStartupCap : Z := 65536.

(** ** Frontend and backend messages *)

Definition writeFrontend (typ : byte) (payload : bytes) : St wr unit :=
  Write (typ :: be_bytes 4 (zlen payload + 4)) ;;;
  (if decide (payload = []) then sret tt else Write payload).

Definition readBackendMessage : St rd (byte * bytes) :=
  let! hdr := ReadFull 5 in
  let! length := slift (be_at 4 hdr 1) in
  if length <? 4 then sfail errProtocol
  else
    let! payload := ReadFull (length - 4) in
    let! typ := slift (index hdr 0) in
    sret (typ, payload).

Definition writePasswordMessage (password : bytes) : St wr unit :=
  writeFrontend msgPassword (password ++ [b8 0]).

(** ** Startup *)

Definition startup_param (k v : bytes) : bytes := k ++ [b8 0] ++ v ++ [b8 0].

Definition startup_body (user database : bytes) : bytes :=
  startup_param (str "user") user ++
  (if decide (database = []) then [] else startup_param (str "database") database) ++ [b8 0].

Definition startup_message (body : bytes) : bytes :=
  be_bytes 4 (8 + zlen body) ++ be_bytes 4 startupProtocolV3 ++ body.

Definition writeStartupMessage (user database : bytes) : St wr unit :=
  Write (startup_message (startup_body user database)).

(** [for i := 0; i+1 < len(parts); i += 2]: a later key overrides an earlier one. *)
Fixpoint params_of (parts : list bytes) (params : gmap bytes bytes) : gmap bytes bytes :=
  match parts with
  | k :: v :: rest => params_of rest (if decide (k = []) then params else <[k := v]> params)
  | _ => params
  end.

Definition readStartupParams : St rd (gmap bytes bytes) :=
  let! hdr := ReadFull 8 in
  let! length := slift (be_at 4 hdr 0) in
  let! version := slift (be_at 4 hdr 4) in
  if negb (version =? startupProtocolV3) then
    sfail (EFmt "postgres: unsupported startup protocol %d (want %d)"
             [itoa version; itoa startupProtocolV3])
  else if (length <? 8) || (length >? sniffStartupCap) then sfail errProtocol
  else
    let! body := ReadFull (length - 8) in
    sret (params_of (Split (b8 0) body) ∅).

(** ** The client side of the login *)

Definition auth_request (code : Z) : bytes := msgAuthentication :: be_bytes 4 8 ++ be_bytes 4 code.

Definition requestClientPassword : St conn bytes :=
  on_out (Write (auth_request authCleartextPassword)) ;;;
  (let! (typ, payload) := on_in readBackendMessage in
   if decide (typ = msgPassword) then sret (TrimRight payload (b8 0))
   else sfail (EFmt "postgres: expected PasswordMessage from client, got %q" [[typ]])).

Definition sendClientAuthOK : St wr unit := Write (auth_request authOK).

(** ** Challenge responses *)

Section auth.
Context `{Hashes}.

Definition hexdigits : bytes := str "0123456789abcdef".
Definition hex_byte (c : byte) : bytes :=
  [default (b8 0) (hexdigits !! Z.to_nat (u8 c / 16));
   default (b8 0) (hexdigits !! Z.to_nat (u8 c mod 16))].
Definition md5Hex (b : bytes) : bytes := concat (map hex_byte (md5 b)).

Definition md5Password (user password salt : bytes) : bytes :=
  str "md5" ++ md5Hex (md5Hex (password ++ user) ++ salt).

(** *** SCRAM-SHA-256 *)

Definition mechanismOffered (payload mech : bytes) : bool :=
  existsb (fun m => bool_decide (m = mech)) (Split (b8 0) payload).

Definition comma : byte := chr ","%char.

Definition add_attr (out : gmap bytes bytes) (kv : bytes) : gmap bytes bytes :=
  match find_byte eq_sign kv with
  | Some (S i) => <[take (S i) kv := drop (S (S i)) kv]> out
  | _ => out
  end.
Definition parseSCRAMAttrs (s : bytes) : gmap bytes bytes := foldl add_attr ∅ (Split comma s).

Definition attr (m : gmap bytes bytes) (k : string) : bytes := default [] (m !! str k).

Definition pbkdf2_block (password salt : bytes) (iter : Z) (i : Z) : bytes :=
  let u := hmac_sha256 password (salt ++ be_bytes 4 i) in
  snd (Nat.iter (Z.to_nat (iter - 1))
         (fun '(u, t) => let u' := hmac_sha256 password u in (u', xor_bytes t u')) (u, u)).

Definition pbkdf2SHA256 (password salt : bytes) (iter keyLen : Z) : bytes :=
  let numBlocks := (keyLen + 32 - 1) / 32 in
  take (Z.to_nat keyLen)
    (concat (map (fun i => pbkdf2_block password salt iter i) (seqZ 1 numBlocks))).

Definition saslPrep (password : bytes) : bytes := password.

Fixpoint first_message (fields : list bytes) : bytes :=
  match fields with
  | [] => str "unknown error"
  | f :: fs =>
      match f with
      | c :: ((_ :: _) as m) => if decide (c = chr "M"%char) then m else first_message fs
      | _ => first_message fs
      end
  end.
Definition parseErrorResponse (payload : bytes) : bytes := first_message (Split (b8 0) payload).

Definition gs2 : bytes := str "n,,".

(** The values both ends of the exchange compute. *)
Definition client_first_bare (nonce : bytes) : bytes := str "n=,r=" ++ nonce.
Definition client_final_bare (combined : bytes) : bytes :=
  str "c=" ++ b64_encode gs2 ++ str ",r=" ++ combined.
Definition auth_message (nonce serverFirst combined : bytes) : bytes :=
  client_first_bare nonce ++ [comma] ++ serverFirst ++ [comma] ++ client_final_bare combined.
Definition client_proof (salted authMsg : bytes) : bytes :=
  let clientKey := hmac_sha256 salted (str "Client Key") in
  xor_bytes clientKey (hmac_sha256 (sha256 clientKey) authMsg).
Definition server_signature (salted authMsg : bytes) : bytes :=
  hmac_sha256 (hmac_sha256 salted (str "Server Key")) authMsg.

(** The SASLInitialResponse: mechanism name, length of the response, response. *)
Definition sasl_initial (nonce : bytes) : bytes :=
  let initial := gs2 ++ client_first_bare nonce in
  scramSHA256 ++ [b8 0] ++ be_bytes 4 (zlen initial) ++ initial.

(** A reply that must be an authentication message with the given code; its body. *)
Definition sasl_reply (rejected : string) (expected : string) (code : Z) : St conn bytes :=
  let! (typ, payload) := on_in readBackendMessage in
  if decide (typ = msgErrorResponse) then sfail (EFmt rejected [parseErrorResponse payload])
  else if decide (typ = msgAuthentication) then
    if zlen payload <? 4 then sfail (EFmt expected [])
    else
      let! c := slift (be_at 4 payload 0) in
      if c =? code then slift (slice_from payload 4) else sfail (EFmt expected [])
  else sfail (EFmt expected []).

Definition scram_final (nonce password serverFirst combined salt : bytes) (iter : Z) : St conn unit :=
  let salted := pbkdf2SHA256 (saslPrep password) salt iter 32 in
  let authMsg := auth_message nonce serverFirst combined in
  on_out (writeFrontend msgPassword
            (client_final_bare combined ++ str ",p=" ++ b64_encode (client_proof salted authMsg))) ;;;
  (let! final := sasl_reply "postgres upstream rejected SCRAM proof: %s"
                   "postgres: expected AuthenticationSASLFinal" authSASLFinal in
   match b64_decode (attr (parseSCRAMAttrs final) "v") with
   | None => sfail (EFmt "postgres: bad SCRAM server signature: %w" [])
   | Some gotSig =>
       if decide (gotSig = server_signature salted authMsg) then sret tt
       else sfail (EFmt "postgres: SCRAM server signature mismatch (wrong password or MITM)" [])
   end).

(** [nonce]: the base64 of eighteen random bytes ([randomNonce]), or the error of [rand.Read]. *)
Definition scramClientExchange (nonce : go bytes) (saslPayload password : bytes) : St conn unit :=
  if negb (mechanismOffered saslPayload scramSHA256) then
    sfail (EFmt "postgres: upstream did not offer %s (channel binding unsupported)" [scramSHA256])
  else
    let! clientNonce := slift nonce in
    on_out (writeFrontend msgPassword (sasl_initial clientNonce)) ;;;
    (let! serverFirst := sasl_reply "postgres upstream rejected SCRAM: %s"
                           "postgres: expected AuthenticationSASLContinue" authSASLContinue in
     let attrs := parseSCRAMAttrs serverFirst in
     let combined := attr attrs "r" in
     if decide (combined = [] \/ attr attrs "s" = [] \/ attr attrs "i" = []) then
       sfail (EFmt "postgres: malformed SCRAM server-first message" [])
     else if negb (HasPrefix combined clientNonce) then
       sfail (EFmt "postgres: SCRAM server nonce does not extend client nonce" [])
     else
       match b64_decode (attr attrs "s") with
       | None => sfail (EFmt "postgres: bad SCRAM salt: %w" [])
       | Some salt =>
           match Atoi (attr attrs "i") with
           | Some iter =>
               if iter <=? 0 then
                 sfail (EFmt "postgres: bad SCRAM iteration count %q" [attr attrs "i"])
               else scram_final clientNonce password serverFirst combined salt iter
           | None => sfail (EFmt "postgres: bad SCRAM iteration count %q" [attr attrs "i"])
           end
       end).

(** ** The upstream side of the login *)

Definition randomNonce (rnd : go bytes) : go bytes := let? b := rnd in Ok (b64_encode b).

(** [rnd i] is what the [i]-th call of [rand.Read] gives. *)
Fixpoint auth_loop (fuel : nat) (i : nat) (rnd : nat -> go bytes) (creds : UpstreamCredential)
    : St conn unit :=
  match fuel with
  | O => slift NoFuel
  | S k =>
      let! (typ, payload) := on_in readBackendMessage in
      if decide (typ = msgErrorResponse) then
        sfail (EFmt "postgres upstream rejected auth: %s" [parseErrorResponse payload])
      else if decide (typ <> msgAuthentication) then
        sfail (EFmt "postgres: expected Authentication message, got %q" [[typ]])
      else if zlen payload <? 4 then sfail errProtocol
      else
        let! code := slift (be_at 4 payload 0) in
        if code =? authOK then sret tt
        else if code =? authCleartextPassword then
          on_out (writePasswordMessage (Password creds)) ;;; auth_loop k i rnd creds
        else if code =? authMD5Password then
          if zlen payload <? 8 then sfail errProtocol
          else
            let! salt := slift (slice payload 4 8) in
            on_out (writePasswordMessage (md5Password (Username creds) (Password creds) salt)) ;;;
            auth_loop k i rnd creds
        else if code =? authSASL then
          let! mechs := slift (slice_from payload 4) in
          scramClientExchange (randomNonce (rnd i)) mechs (Password creds) ;;;
          auth_loop k (S i) rnd creds
        else sfail (EFmt "postgres: unsupported authentication method %d from upstream" [itoa code])
  end.

Definition authenticateUpstream (rnd : nat -> go bytes) (creds : UpstreamCredential)
    (startupDatabase : bytes) : St conn unit := fun c =>
  let trimmed := TrimSpace (Database creds) in
  let db := if decide (trimmed = []) then startupDatabase else trimmed in
  (on_out (writeStartupMessage (Username creds) db) ;;;
   auth_loop (S (length (rbuf (c_in c)))) O rnd creds) c.

(** ** ProxyInject *)

(** Run [m]; on an error send [report] to the client (whose own failure is ignored). *)
Definition or_report {A} (report : bytes) (m : St net A) : St net A := fun s =>
  match m s with
  | (Err e, s') => (Err e, snd (on_cl (on_out (writeClientError (str "28000") report)) s'))
  | r => r
  end.

Definition denied : bytes := str "curlix: access denied for this session".
Definition upstream_failed : bytes := str "curlix: upstream authentication failed".

Definition inject_login (clientTLS : bool) (resolve : CredentialResolver) (rnd : nat -> go bytes)
    : St net unit :=
  on_cl (negotiateStartup clientTLS) ;;;
  (let! startup := on_cl (on_in readStartupParams) in
   let! token := on_cl requestClientPassword in
   let! cred := or_report denied (slift (resolve startup token)) in
   or_report upstream_failed
     (on_up (authenticateUpstream rnd cred (default [] (startup !! str "database")))) ;;;
   on_cl (on_out sendClientAuthOK)).

(** After the login the two directions run as in [Proxy]. *)
Definition ProxyInject (mk : nat -> masker) (buffered : bytes -> Z) (clientTLS client_first : bool)
    (resolve : option CredentialResolver) (rnd : nat -> go bytes) (s : net)
    : go unit * option session :=
  match resolve with
  | None => (Err (EFmt "postgres: credential injection requires a resolver" []), None)
  | Some resolve =>
      match inject_login clientTLS resolve rnd s with
      | (Ok _, s') =>
          let '(_, e_up, w) := Copy (c_in (cl s')) (c_out (up s')) in
          let '(e_down, p) := pipeBackend mk buffered (c_in (up s')) (c_out (cl s')) in
          (quiet (if client_first then e_up else e_down), Some (mkSession w p))
      | (o, _) => (o, None)
      end
  end.

End auth.
