(* ===== verification/PgAuthFacts.v ===== *)
(** * Facts about the Postgres credential handoff *)
From S2P Require Import Prelude Go GoStr GoIO ConnFacts Codec Mask Wire PgWire PgWireFacts PgAuth.
Open Scope Z_scope.

Lemma writeFrontend_returns t p w : returns (fst (writeFrontend t p w)).
Proof.
  unfold writeFrontend. case_decide; [|apply Write_seq_returns].
  unfold sbind. pose proof (Write_returns (t :: be_bytes 4 (zlen p + 4)) w).
  by destruct (Write _ w) as [[?|?| |] w1].
Qed.

Lemma writePasswordMessage_returns p w : returns (fst (writePasswordMessage p w)).
Proof. apply writeFrontend_returns. Qed.

#[export] Hint Resolve writePasswordMessage_returns writeFrontend_returns : safe.

(** ** Reading messages *)

Lemma readBackendMessage_app t p rest e :
  zlen p + 4 < 2 ^ 32 ->
  readBackendMessage (mkRd (message t p ++ rest) e) = (Ok (t, p), mkRd rest e).
Proof.
  intros Hp. pose proof (zlen_nonneg p). unfold readBackendMessage, message.
  rewrite <- app_comm_cons, <- app_assoc, app_comm_cons. unfold sbind at 1.
  rewrite (ReadFull_app 5) by (by rewrite zlen_cons, zlen_be_bytes).
  unfold sbind at 1, slift at 1.
  assert (be_at 4 (t :: be_bytes 4 (zlen p + 4)) 1 = Ok (zlen p + 4)) as ->.
  { rewrite <- (app_nil_r (be_bytes 4 _)).
    rewrite (be_at_app 4 [t] (be_bytes 4 (zlen p + 4)) []) by (done || apply length_be_bytes).
    by rewrite be_val_be_bytes, Z.mod_small by lia. }
  rewrite (proj2 (Z.ltb_ge _ _)) by lia. unfold sbind at 1.
  rewrite (ReadFull_app _ p) by lia. done.
Qed.

Lemma readBackendMessage_safe : safe (on_in readBackendMessage).
Proof.
  intros c. unfold on_in, zoom, readBackendMessage, sbind.
  destruct (ReadFull 5 (c_in c)) as [o1 r1] eqn:H1.
  destruct (is_ok o1) eqn:Ho1; cycle 1.
  { destruct (ReadFull_fail _ _ _ _ H1 Ho1) as ([e ->] & Hnil & _).
    simpl. rewrite Hnil. simpl. split; [done|lia]. }
  destruct o1 as [hdr| | |]; try done. clear Ho1.
  destruct (ReadFull_inv 5 _ _ _ ltac:(lia) H1) as (Hb1 & Hh & _).
  destruct (header_split _ Hh) as (t & n & -> & Hn & Hidx & Hbe).
  unfold slift. rewrite Hbe. rewrite Hb1. rewrite length_app.
  destruct (n <? 4) eqn:H0; [simpl; split; [done|lia]|].
  destruct (ReadFull (n - 4) r1) as [o2 r2] eqn:H2.
  destruct (is_ok o2) eqn:Ho2; cycle 1.
  { destruct (ReadFull_fail _ _ _ _ H2 Ho2) as ([e ->] & Hnil & _).
    simpl. rewrite Hnil. simpl. split; [done|lia]. }
  destruct o2 as [p| | |]; try done. rewrite Hidx. apply Z.ltb_ge in H0.
  destruct (ReadFull_inv (n - 4) _ _ _ ltac:(lia) H2) as (Hb2 & _).
  simpl. rewrite Hb2, length_app. split; [done|lia].
Qed.

Lemma readBackendMessage_dec c x c' :
  on_in readBackendMessage c = (Ok x, c') ->
  (length (rbuf (c_in c')) + 5 <= length (rbuf (c_in c)))%nat.
Proof.
  unfold on_in, zoom, readBackendMessage, sbind.
  destruct (ReadFull 5 (c_in c)) as [[hdr| | |] r1] eqn:H1; try done.
  destruct (ReadFull_inv 5 _ _ _ ltac:(lia) H1) as (Hb1 & Hh & _).
  destruct (header_split _ Hh) as (t & n & -> & Hn & Hidx & Hbe).
  unfold slift. rewrite Hbe. destruct (n <? 4) eqn:H0; [done|]. apply Z.ltb_ge in H0.
  destruct (ReadFull (n - 4) r1) as [[p| | |] r2] eqn:H2; try done.
  destruct (ReadFull_inv (n - 4) _ _ _ ltac:(lia) H2) as (Hb2 & _).
  rewrite Hidx. intros [= <- <-]. simpl.
  rewrite Hb1, Hb2, !length_app. unfold zlen in Hh. lia.
Qed.

#[export] Hint Resolve readBackendMessage_safe : safe.

Section auth.
Context `{Hashes}.

Lemma sasl_reply_safe a b code : safe (sasl_reply a b code).
Proof.
  unfold sasl_reply. apply safe_bind; [auto with safe|]. intros [t p] _ _ _.
  case_decide; [auto with safe|]. case_decide; [|auto with safe].
  case_match eqn:E; [auto with safe|]. apply Z.ltb_ge in E.
  apply safe_bind; [apply safe_lift, returns_be_at; lia|]. intros.
  case_match; [|auto with safe]. apply safe_lift, returns_slice; lia.
Qed.

Lemma scram_safe nonce mechs pw : returns nonce -> safe (scramClientExchange nonce mechs pw).
Proof.
  intros Hn. unfold scramClientExchange. case_match; [auto with safe|].
  apply safe_bind; [by apply safe_lift|]. intros n _ _ _.
  apply safe_seq; [auto with safe|]. apply safe_bind; [apply sasl_reply_safe|]. intros sf _ _ _.
  case_decide; [auto with safe|]. case_match; [auto with safe|].
  case_match; [|auto with safe]. case_match; [|auto with safe]. case_match; [auto with safe|].
  unfold scram_final. apply safe_seq; [auto with safe|].
  apply safe_bind; [apply sasl_reply_safe|]. intros fin _ _ _.
  case_match; [|auto with safe]. case_decide; auto with safe.
Qed.

Lemma auth_loop_returns rnd creds : (forall i, returns (rnd i)) ->
  forall fuel i c, (length (rbuf (c_in c)) < fuel)%nat -> returns (fst (auth_loop fuel i rnd creds c)).
Proof.
  intros Hrnd. induction fuel as [|k IH]; intros i c Hc; [lia|]. cbn [auth_loop]. unfold sbind at 1.
  pose proof (readBackendMessage_safe c) as [Hr _].
  destruct (on_in readBackendMessage c) as [[[t p]|e| |] c1] eqn:H1; try done.
  apply readBackendMessage_dec in H1.
  case_decide; [done|]. case_decide; [done|]. case_match eqn:E1; [done|]. apply Z.ltb_ge in E1.
  unfold sbind at 1, slift at 1. rewrite be_at_ok by lia.
  assert (Hstep : forall (m : St conn unit) (j : nat), safe m ->
            returns (fst ((m ;;; auth_loop k j rnd creds) c1))).
  { intros m j Hm. unfold sbind. destruct (Hm c1) as [Hr1 Hl1].
    destruct (m c1) as [[[]|e| |] c2]; try done. apply IH. simpl in Hl1. lia. }
  case_match; [done|]. case_match; [by apply Hstep; auto with safe|]. case_match.
  - case_match eqn:E2; [done|]. apply Z.ltb_ge in E2. unfold sbind at 1, slift at 1.
    rewrite slice_ok by lia. apply Hstep. auto with safe.
  - case_match; [|done]. unfold sbind at 1, slift at 1. rewrite slice_from_ok by lia.
    apply Hstep, scram_safe. unfold randomNonce. apply returns_gbind; [apply Hrnd|done].
Qed.

Lemma authenticateUpstream_returns rnd creds db c :
  (forall i, returns (rnd i)) -> returns (fst (authenticateUpstream rnd creds db c)).
Proof.
  intros Hrnd. unfold authenticateUpstream, sbind.
  destruct (on_out _ c) as [o1 c1] eqn:H1.
  destruct (on_out_Write_spec _ _ _ _ H1) as (Hr & Hi & _).
  destruct o1 as [[]| | |]; try done. apply auth_loop_returns; [done|]. rewrite Hi. lia.
Qed.

End auth.

(** The answers of the negotiation are single bytes [S] and [N]. *)
Definition negotiation_byte (b : byte) : Prop := b = chr "S"%char \/ b = chr "N"%char.

Lemma prefix_singleton (q : bytes) b : q `prefix_of` [b] -> q = [] \/ q = [b].
Proof.
  intros [t Ht]. destruct q as [|x q]; [by left|]. right. simpl in Ht. injection Ht as -> Ht.
  symmetry in Ht. by apply app_nil in Ht as [-> _].
Qed.

Lemma negotiate_loop_sent clientTLS fuel : forall c o c',
  negotiate_loop fuel clientTLS c = (o, c') ->
  exists neg, sent c' = sent c ++ neg /\ Forall negotiation_byte neg.
Proof.
  induction fuel as [|k IH]; intros c o c'; cbn [negotiate_loop].
  { intros [= <- <-]. exists []. by rewrite app_nil_r. }
  assert (Hnone : forall o1 c1, (o1, c1) = (o, c') -> sent c1 = sent c ->
            exists neg, sent c' = sent c ++ neg /\ Forall negotiation_byte neg).
  { intros o1 c1 [= -> ->] Hs. exists []. by rewrite app_nil_r. }
  unfold sbind at 1. destruct (on_in (ReadFull 8) c) as [o1 c1] eqn:H1.
  apply on_in_sent in H1. destruct o1 as [hdr|e| |]; try (intros Hr; exact (Hnone _ _ Hr H1)).
  unfold sbind at 1, slift at 1.
  destruct (be_at 4 hdr 0); try (intros Hr; exact (Hnone _ _ Hr H1)).
  unfold sbind at 1, slift at 1.
  destruct (be_at 4 hdr 4); try (intros Hr; exact (Hnone _ _ Hr H1)).
  assert (Hstep : forall b m, negotiation_byte b ->
    (forall c2 o3 c3, m c2 = (o3, c3) -> exists neg, sent c3 = sent c2 ++ neg /\
                                          Forall negotiation_byte neg) ->
    (on_out (Write [b]) ;;; m) c1 = (o, c') ->
    exists neg, sent c' = sent c ++ neg /\ Forall negotiation_byte neg).
  { intros b m Hb Hm. unfold sbind. destruct (on_out (Write [b]) c1) as [o2 c2] eqn:H2.
    destruct (on_out_Write_sent _ _ _ _ H2) as (q & Hq & Hp & _). rewrite H1 in Hq.
    assert (Hqf : Forall negotiation_byte q).
    { apply prefix_singleton in Hp as [-> | ->]; auto. }
    destruct o2 as [[]|e| |]; try (intros [= <- <-]; eauto).
    intros (neg & Hn & Hf)%Hm. exists (q ++ neg). rewrite Hn, Hq, app_assoc.
    split; [done|]. by apply Forall_app. }
  case_match; [case_match|].
  - apply Hstep; [by left|]. intros c2 o3 c3. unfold sbind, client_handshake.
    destruct (Handshake c2) as [o4 c4] eqn:H4. apply Handshake_sent in H4.
    destruct o4 as [[]|e| |]; try (intros [= <- <-]; exists []; by rewrite app_nil_r).
    intros (neg & Hn & Hf)%IH. exists neg. by rewrite Hn, H4.
  - apply Hstep; [by right|]. intros c2 o3 c3 Hr. by apply IH in Hr.
  - unfold unread. intros Hr. by apply (Hnone _ _ Hr).
Qed.

(** ** SCRAM attributes *)

Lemma parseSCRAMAttrs_cons kv rest :
  comma ∉ kv -> parseSCRAMAttrs (kv ++ comma :: rest) = foldl add_attr (add_attr ∅ kv) (Split comma rest).
Proof. intros Hk. unfold parseSCRAMAttrs. by rewrite Split_app. Qed.

Lemma add_attr_kv m (k v : bytes) :
  k <> [] -> eq_sign ∉ k -> add_attr m (k ++ eq_sign :: v) = <[k := v]> m.
Proof.
  intros Hk He. unfold add_attr. rewrite find_byte_app by done.
  destruct k as [|x k]; [done|]. cbn [length].
  rewrite take_app_exact by done.
  replace (S (S (length k))) with (length ((x :: k) ++ [eq_sign]))
    by (rewrite length_app; simpl; lia).
  replace ((x :: k) ++ eq_sign :: v) with (((x :: k) ++ [eq_sign]) ++ v)
    by (by rewrite <- app_assoc).
  by rewrite drop_app_length.
Qed.

Section scram.
Context `{Hashes}.

(** The server-first message of RFC 5802, and its attributes. *)
Definition server_first (combined salt iterStr : bytes) : bytes :=
  (str "r" ++ eq_sign :: combined) ++ comma ::
  (str "s" ++ eq_sign :: b64_encode salt) ++ comma :: (str "i" ++ eq_sign :: iterStr).

Lemma str1_facts c : c <> "="%char -> c <> ","%char ->
  str (String c EmptyString) <> [] /\ (eq_sign ∉ str (String c EmptyString)) /\
  comma ∉ str (String c EmptyString).
Proof.
  intros He Hc. change (str (String c EmptyString)) with [Ascii.byte_of_ascii c].
  rewrite !list_elem_of_singleton. split_and!; [done| |]; intros E;
    apply (f_equal Ascii.ascii_of_byte) in E; unfold eq_sign, comma, chr in E;
    rewrite !Ascii.ascii_of_byte_of_ascii in E; congruence.
Qed.

Lemma server_first_attrs combined salt iterStr :
  comma ∉ combined -> comma ∉ iterStr ->
  let attrs := parseSCRAMAttrs (server_first combined salt iterStr) in
  attr attrs "r" = combined /\ attr attrs "s" = b64_encode salt /\ attr attrs "i" = iterStr.
Proof.
  intros Hc Hi. unfold server_first.
  destruct (str1_facts "r"%char ltac:(done) ltac:(done)) as (Hr1 & Hr2 & Hr3).
  destruct (str1_facts "s"%char ltac:(done) ltac:(done)) as (Hs1 & Hs2 & Hs3).
  destruct (str1_facts "i"%char ltac:(done) ltac:(done)) as (Hi1 & Hi2 & Hi3).
  assert (Hne : comma <> eq_sign) by done.
  pose proof (b64_encode_no_comma salt) as Hb. fold comma in Hb.
  rewrite parseSCRAMAttrs_cons by set_solver.
  rewrite Split_app by set_solver. rewrite Split_none by set_solver. cbn [foldl].
  rewrite !add_attr_kv by done. unfold attr. cbv zeta.
  rewrite lookup_insert_eq, !lookup_insert_ne, lookup_insert_eq by done.
  rewrite !lookup_insert_ne, lookup_insert_eq by done. done.
Qed.

Lemma final_attr v :
  comma ∉ v -> attr (parseSCRAMAttrs (str "v" ++ eq_sign :: v)) "v" = v.
Proof.
  intros Hv. destruct (str1_facts "v"%char ltac:(done) ltac:(done)) as (H1 & H2 & H3).
  assert (comma <> eq_sign) by done.
  unfold parseSCRAMAttrs. rewrite Split_none by set_solver. cbn [foldl].
  rewrite add_attr_kv by done. unfold attr. by rewrite lookup_insert_eq.
Qed.

(** The check an RFC 5802 server makes on the proof: it holds [StoredKey], not the password. *)
Definition server_accepts (storedKey authMsg proof : bytes) : bool :=
  bool_decide (sha256 (xor_bytes proof (hmac_sha256 storedKey authMsg)) = storedKey).

Lemma server_accepts_proof salted authMsg :
  server_accepts (sha256 (hmac_sha256 salted (str "Client Key"))) authMsg
    (client_proof salted authMsg) = true.
Proof.
  apply bool_decide_eq_true. unfold client_proof.
  by rewrite xor_bytes_cancel by (by rewrite !hmac_sha256_length).
Qed.

(** ** One exchange with an honest server *)

Lemma writeFrontend_unbounded t p o :
  p <> [] -> writeFrontend t p (mkWr o None) = (Ok tt, mkWr (o ++ message t p) None).
Proof.
  intros Hp. unfold writeFrontend, sbind. rewrite Write_unbounded, decide_False by done.
  rewrite Write_unbounded. by rewrite <- app_assoc.
Qed.

Definition auth_reply (code : Z) (body : bytes) : bytes :=
  message msgAuthentication (be_bytes 4 code ++ body).


Lemma sasl_reply_app a b code body rest e out tls snt hs :
  0 <= code < 2 ^ 32 -> zlen body + 8 < 2 ^ 32 ->
  sasl_reply a b code (mkConn (mkRd (auth_reply code body ++ rest) e) out tls snt hs) =
  (Ok body, mkConn (mkRd rest e) out tls snt hs).
Proof.
  intros Hc Hb. unfold sasl_reply, auth_reply. unfold sbind at 1.
  erewrite on_in_app; cycle 1.
  { apply readBackendMessage_app. rewrite zlen_app, zlen_be_bytes. lia. }
  cbn [c_out c_tls c_sent c_hs].
  rewrite decide_False, decide_True by done. pose proof (zlen_nonneg body).
  rewrite zlen_app, zlen_be_bytes, (proj2 (Z.ltb_ge _ _)) by lia.
  unfold sbind, slift. rewrite be_at_head by apply length_be_bytes.
  rewrite be_val_be_bytes, Z.mod_small, Z.eqb_refl by lia.
  rewrite slice_from_ok by (rewrite zlen_app, zlen_be_bytes; lia).
  by rewrite drop_app_exact by (by rewrite length_be_bytes).
Qed.

Lemma scram_honest password nonce mechs ext salt iterStr iter rest e out tls snt hs :
  let combined := nonce ++ ext in
  let sf := server_first combined salt iterStr in
  let salted := pbkdf2SHA256 password salt iter 32 in
  let authMsg := auth_message nonce sf combined in
  mechanismOffered mechs scramSHA256 = true ->
  comma ∉ combined -> combined <> [] -> salt <> [] ->
  comma ∉ iterStr -> Atoi iterStr = Some iter -> 0 < iter -> zlen sf + 8 < 2 ^ 32 ->
  scramClientExchange (Ok nonce) mechs password
    (mkConn (mkRd (auth_reply authSASLContinue sf ++
                   auth_reply authSASLFinal (str "v" ++ eq_sign :: b64_encode (server_signature salted authMsg)) ++
                   rest) e) (mkWr out None) tls snt hs) =
  (Ok tt, mkConn (mkRd rest e)
     (mkWr (out ++ message msgPassword (sasl_initial nonce) ++
            message msgPassword (client_final_bare combined ++ str ",p=" ++
                                 b64_encode (client_proof salted authMsg))) None) tls snt hs).
Proof.
  intros combined sf salted authMsg Hm Hc Hcn Hs Hi Ha Hp Hl.
  destruct (server_first_attrs combined salt iterStr Hc Hi) as (Hr & Hsa & Hia).
  unfold scramClientExchange. rewrite Hm. cbn [negb]. unfold sbind at 1, slift at 1.
  unfold sbind at 1, on_out at 1, zoom. cbn [c_out c_in c_tls c_sent c_hs].
  rewrite writeFrontend_unbounded by done. unfold sbind at 1.
  rewrite sasl_reply_app by (done || lia). cbv zeta. fold sf in Hr, Hsa, Hia.
  rewrite Hr, Hsa, Hia.
  rewrite decide_False; cycle 1.
  { intros [?|[?%b64_encode_nil | ->]]; [done|done|]. by vm_compute in Ha. }
  rewrite (proj2 (HasPrefix_spec combined nonce)) by (by exists ext). cbn [negb].
  rewrite b64_roundtrip, Ha, (proj2 (Z.leb_gt iter 0)) by lia.
  unfold scram_final. unfold saslPrep. fold salted authMsg.
  unfold sbind at 1, on_out at 1, zoom. cbn [c_out c_in c_tls c_sent c_hs].
  rewrite writeFrontend_unbounded by done. unfold sbind at 1.
  assert (Hsig : length (server_signature salted authMsg) = 32%nat) by apply hmac_sha256_length.
  rewrite sasl_reply_app; cycle 1.
  { done. }
  { pose proof (length_b64_encode (server_signature salted authMsg)) as Hle.
    rewrite Hsig in Hle. rewrite zlen_app, zlen_cons. unfold zlen.
    change (length (str "v")) with 1%nat. lia. }
  rewrite final_attr by apply b64_encode_no_comma. rewrite b64_roundtrip, decide_True by done.
  unfold sret. by rewrite <- app_assoc.
Qed.

End scram.

(** ** Reading back what was accepted *)

Lemma readBackendMessage_inv c t p c' :
  on_in readBackendMessage c = (Ok (t, p), c') ->
  rbuf (c_in c) = message t p ++ rbuf (c_in c') /\ c_out c' = c_out c /\ c_tls c' = c_tls c.
Proof.
  unfold on_in, zoom, readBackendMessage, sbind.
  destruct (ReadFull 5 (c_in c)) as [[hdr| | |] r1] eqn:H1; try done.
  destruct (ReadFull_inv 5 _ _ _ ltac:(lia) H1) as (Hb1 & Hh & _).
  destruct (header_split _ Hh) as (t' & n & -> & Hn & Hidx & Hbe).
  unfold slift. rewrite Hbe. destruct (n <? 4) eqn:H0; [done|]. apply Z.ltb_ge in H0.
  destruct (ReadFull (n - 4) r1) as [[p'| | |] r2] eqn:H2; try done.
  destruct (ReadFull_inv (n - 4) _ _ _ ltac:(lia) H2) as (Hb2 & Hp & _).
  rewrite Hidx. unfold sret. intros [= -> -> <-]. simpl. split; [|done].
  rewrite Hb1, Hb2. unfold message. replace (zlen p + 4) with n by lia. simpl.
  by rewrite <- app_assoc.
Qed.

Lemma sasl_reply_inv a b code c body c' :
  0 <= code < 2 ^ 32 -> sasl_reply a b code c = (Ok body, c') ->
  rbuf (c_in c) = auth_reply code body ++ rbuf (c_in c') /\ c_out c' = c_out c.
Proof.
  intros Hcode. unfold sasl_reply. unfold sbind at 1.
  destruct (on_in readBackendMessage c) as [[[t p]| | |] c1] eqn:H1; try done.
  apply readBackendMessage_inv in H1 as (Hin & Hout & _).
  destruct (decide (t = msgErrorResponse)); [done|].
  destruct (decide (t = msgAuthentication)) as [Ht|]; [|done].
  destruct (zlen p <? 4) eqn:Hl; [done|].
  apply Z.ltb_ge in Hl. unfold sbind, slift. rewrite be_at_ok by lia.
  destruct (_ =? code) eqn:Hc; [|done]. apply Z.eqb_eq in Hc.
  rewrite slice_from_ok by lia. intros [= <- <-]. split; [|done].
  rewrite Hin, Ht. unfold auth_reply. do 2 f_equal.
  rewrite <- (take_drop 4 p) at 1. f_equal.
  change (drop (Z.to_nat 0) p) with p in Hc. rewrite <- Hc.
  rewrite be_bytes_be_val; [done|]. rewrite length_take. unfold zlen in Hl. lia.
Qed.

Section mutual.
Context `{Hashes}.

Lemma on_out_in {A} (m : St wr A) c o c' : on_out m c = (o, c') -> c_in c' = c_in c.
Proof. unfold on_out, zoom. destruct (m (c_out c)). by intros [= <- <-]. Qed.

Lemma scram_verified nonce mechs pw c c' :
  scramClientExchange nonce mechs pw c = (Ok tt, c') ->
  exists n sf final salt iter,
    let attrs := parseSCRAMAttrs sf in
    nonce = Ok n /\ mechanismOffered mechs scramSHA256 = true /\
    rbuf (c_in c) = auth_reply authSASLContinue sf ++ auth_reply authSASLFinal final ++
                    rbuf (c_in c') /\
    HasPrefix (attr attrs "r") n = true /\
    b64_decode (attr attrs "s") = Some salt /\ Atoi (attr attrs "i") = Some iter /\ 0 < iter /\
    b64_decode (attr (parseSCRAMAttrs final) "v") =
      Some (server_signature (pbkdf2SHA256 pw salt iter 32) (auth_message n sf (attr attrs "r"))).
Proof.
  unfold scramClientExchange. destruct (mechanismOffered _ _) eqn:Hm; simpl; [|done].
  unfold sbind at 1, slift at 1. destruct nonce as [n| | |]; try done.
  unfold sbind at 1. destruct (on_out _ c) as [[[]| | |] c1] eqn:H1; try done.
  apply on_out_in in H1. unfold sbind at 1.
  destruct (sasl_reply _ _ _ c1) as [[sf| | |] c2] eqn:H2; try done.
  apply sasl_reply_inv in H2 as [Hin2 _]; [|done].
  case_decide; [done|]. destruct (HasPrefix _ n) eqn:Hp; simpl; [|done].
  destruct (b64_decode (attr _ "s")) as [salt|] eqn:Hs; [|done].
  destruct (Atoi _) as [iter|] eqn:Hi; [|done].
  destruct (iter <=? 0) eqn:Hi0; [done|]. apply Z.leb_gt in Hi0.
  unfold scram_final, saslPrep. unfold sbind at 1.
  destruct (on_out _ c2) as [[[]| | |] c3] eqn:H3; try done.
  apply on_out_in in H3. unfold sbind at 1.
  destruct (sasl_reply _ _ _ c3) as [[final| | |] c4] eqn:H4; try done.
  apply sasl_reply_inv in H4 as [Hin4 _]; [|done].
  destruct (b64_decode (attr (parseSCRAMAttrs final) "v")) as [sig|] eqn:Hv; [|done].
  case_decide as Hsig; [|done]. unfold sret. intros [= <-].
  exists n, sf, final, salt, iter. cbv zeta. rewrite Hsig in Hv. split_and!; try done.
  by rewrite <- H1, Hin2, <- H3, Hin4.
Qed.

(** ** The login of a session *)

Lemma readStartupParams_safe : safe (on_in readStartupParams).
Proof.
  intros c. unfold on_in, zoom, readStartupParams, sbind.
  destruct (ReadFull 8 (c_in c)) as [o1 r1] eqn:H1. destruct (is_ok o1) eqn:Ho1; cycle 1.
  { destruct (ReadFull_fail _ _ _ _ H1 Ho1) as ([e ->] & Hnil & _).
    simpl. rewrite Hnil. simpl. split; [done|lia]. }
  destruct o1 as [hdr| | |]; try done.
  destruct (ReadFull_inv 8 _ _ _ ltac:(lia) H1) as (Hb1 & Hh & _).
  unfold slift. rewrite !be_at_ok by lia. rewrite Hb1, length_app.
  destruct (negb _); [simpl; split; [done|lia]|].
  destruct (_ || _); [simpl; split; [done|lia]|].
  destruct (ReadFull _ r1) as [o2 r2] eqn:H2. destruct (is_ok o2) eqn:Ho2; cycle 1.
  { destruct (ReadFull_fail _ _ _ _ H2 Ho2) as ([e ->] & Hnil & _).
    simpl. rewrite Hnil. simpl. split; [done|lia]. }
  destruct o2 as [body| | |]; try done.
  assert (Hle : (length (rbuf r2) <= length (rbuf r1))%nat); [|simpl; split; [done|lia]].
  unfold ReadFull in H2. destruct (_ <=? _); [|done]. injection H2 as _ Hr2.
  rewrite <- Hr2. cbn [rbuf]. rewrite length_drop. lia.
Qed.

(** Any startup message of a legal size is read whole. *)
Lemma readStartupParams_app body rest e :
  8 + zlen body <= sniffStartupCap ->
  readStartupParams (mkRd (startup_message body ++ rest) e) =
  (Ok (params_of (Split (b8 0) body) ∅), mkRd rest e).
Proof.
  intros Hsz. pose proof (zlen_nonneg body) as Hnn. unfold sniffStartupCap in Hsz.
  unfold readStartupParams, startup_message. rewrite <- !app_assoc, (app_assoc (be_bytes 4 _)).
  set (l := be_bytes 4 (8 + zlen body)).
  unfold sbind at 1. rewrite ReadFull_app by (by rewrite zlen_app; unfold l; rewrite !zlen_be_bytes).
  unfold sbind at 1, slift at 1. rewrite be_at_head by apply length_be_bytes.
  unfold sbind at 1, slift at 1. rewrite <- (app_nil_r (be_bytes 4 startupProtocolV3)).
  rewrite be_at_app by (apply length_be_bytes || by unfold l; rewrite zlen_be_bytes).
  unfold l. rewrite !be_val_be_bytes, (Z.mod_small (8 + _)) by lia.
  change (startupProtocolV3 mod _) with startupProtocolV3. rewrite Z.eqb_refl. cbn [negb].
  rewrite (proj2 (Z.ltb_ge _ _)) by lia. rewrite Z.gtb_ltb.
  rewrite (proj2 (Z.ltb_ge _ _)) by (unfold sniffStartupCap; lia). cbn [orb].
  unfold sbind. by rewrite ReadFull_app by lia.
Qed.

Lemma requestClientPassword_returns c : returns (fst (requestClientPassword c)).
Proof.
  apply safe_seq; [auto with safe|]. apply safe_bind; [auto with safe|].
  intros [t p] _ _ _. case_decide; auto with safe.
Qed.



Lemma or_report_returns {A} report (m : St net A) s :
  returns (fst (m s)) -> returns (fst (or_report report m s)).
Proof. unfold or_report. by destruct (m s) as [[]]. Qed.

Lemma inject_login_returns clientTLS resolve rnd s :
  (forall params token, returns (resolve params token)) -> (forall i, returns (rnd i)) ->
  returns (fst (inject_login clientTLS resolve rnd s)).
Proof.
  intros Hres Hrnd. unfold inject_login.
  apply sbind_returns; [apply zoom_returns, negotiate_loop_returns; lia|]. intros _ s1 _.
  apply sbind_returns; [apply zoom_returns, readStartupParams_safe|]. intros startup s2 _.
  apply sbind_returns; [apply zoom_returns, requestClientPassword_returns|]. intros token s3 _.
  apply sbind_returns; [apply or_report_returns, Hres|]. intros cred s4 _.
  apply sbind_returns.
  { by apply or_report_returns, zoom_returns, authenticateUpstream_returns. }
  intros _ s5 _. apply zoom_returns, zoom_returns, Write_returns.
Qed.

(** The reports are whole ErrorResponses, cut only by a broken client link. *)
Definition refusal (report : bytes) : bytes :=
  message msgErrorResponse (clientError (str "28000") report).

Lemma writeClientError_sent report c o c' :
  on_out (writeClientError (str "28000") report) c = (o, c') ->
  exists q, sent c' = sent c ++ q /\ q `prefix_of` refusal report.
Proof.
  unfold writeClientError, writeMessageConn. intros (q & Hq & Hp & _)%Write_seq_sent.
  exists q. split; [done|]. by rewrite <- app_comm_cons in Hp.
Qed.

Lemma requestClientPassword_sent c o c' :
  requestClientPassword c = (o, c') ->
  exists q, sent c' = sent c ++ q /\ q `prefix_of` auth_request authCleartextPassword /\
            (is_ok o = true -> q = auth_request authCleartextPassword).
Proof.
  unfold requestClientPassword. unfold sbind at 1.
  destruct (on_out _ c) as [o1 c1] eqn:H1.
  destruct (on_out_Write_sent _ _ _ _ H1) as (q & Hq & Hp & Hok).
  destruct o1 as [[]| | |]; try (intros [= <- <-]; exists q; split_and!; done).
  unfold sbind. destruct (on_in readBackendMessage c1) as [o2 c2] eqn:H2.
  apply on_in_sent in H2. rewrite Hq, Hok in H2 by done. rewrite <- (Hok eq_refl) in Hp.
  assert (Hend : sent c2 = sent c ++ auth_request authCleartextPassword) by by rewrite H2.
  destruct o2 as [[t p]| | |]; [destruct (decide (t = msgPassword))| | |]; intros [= <- <-];
    exists (auth_request authCleartextPassword); split_and!; done.
Qed.

End mutual.
