(* ===== verification/PgAuthProps.v ===== *)
(** * What the Postgres credential handoff guarantees *)
From S2P Require Import Prelude Go GoStr GoIO ConnFacts Codec Mask Wire PgWire PgWireFacts PgAuth PgAuthFacts.
Open Scope Z_scope.

(** Hash functions for the witnesses only: they have the right output lengths and nothing else. *)
#[local] Instance flat_hashes : Hashes.
Proof.
  refine {| md5 := fun _ => replicate 16 (b8 1); sha1 := fun _ => replicate 20 (b8 2);
            sha256 := fun b => replicate 31 (b8 3) ++ [b8 (zlen b)] |}; intros; done.
Defined.

(** ** The upstream side *)

Section upstream.
Context `{Hashes}.

(** One turn of [auth_loop] on a plain (not TLS-layered) stream. *)
Lemma auth_loop_ok k i rnd creds rest e out tls snt hs :
  auth_loop (S k) i rnd creds (mkConn (mkRd (auth_reply authOK [] ++ rest) e) out tls snt hs) =
  (Ok tt, mkConn (mkRd rest e) out tls snt hs).
Proof.
  cbn [auth_loop]. unfold sbind at 1. erewrite on_in_app by (by apply readBackendMessage_app).
  done.
Qed.

Lemma auth_loop_sasl k i rnd creds mechs rest e out tls snt hs :
  zlen mechs + 8 < 2 ^ 32 ->
  auth_loop (S k) i rnd creds (mkConn (mkRd (auth_reply authSASL mechs ++ rest) e) out tls snt hs) =
  (scramClientExchange (randomNonce (rnd i)) mechs (Password creds) ;;;
   auth_loop k (S i) rnd creds) (mkConn (mkRd rest e) out tls snt hs).
Proof.
  intros Hm. pose proof (zlen_nonneg mechs). cbn [auth_loop]. unfold sbind at 1.
  erewrite on_in_app; cycle 1.
  { apply readBackendMessage_app. rewrite zlen_app, zlen_be_bytes. lia. }
  cbn [c_out c_tls c_sent c_hs]. rewrite decide_False, decide_False by naive_solver.
  rewrite zlen_app, zlen_be_bytes, (proj2 (Z.ltb_ge _ _)) by lia.
  unfold sbind at 1, slift at 1. rewrite be_at_head by apply length_be_bytes.
  rewrite be_val_be_bytes. unfold sbind at 1, slift at 1.
  rewrite slice_from_ok by (rewrite zlen_app, zlen_be_bytes; lia).
  by rewrite drop_app_exact by (by rewrite length_be_bytes).
Qed.

End upstream.





(** ** The startup message *)

(** The startup message the proxy writes is read back by the proxy's own reader with the same
    user and database, for names without NUL, and the reader stops at its end. *)
Theorem startup_roundtrip (user database rest : bytes) (e : gerr)
    (Hu : b8 0 ∉ user) (Hd : b8 0 ∉ database)
    (Hsz : 8 + zlen (startup_body user database) <= sniffStartupCap) :
  exists params,
    readStartupParams (mkRd (startup_message (startup_body user database) ++ rest) e) =
    (Ok params, mkRd rest e) /\
    params !! str "user" = Some user /\
    params !! str "database" = (if decide (database = []) then None else Some database).
Proof.
  assert (Hsp : exists params, params_of (Split (b8 0) (startup_body user database)) ∅ = params /\
    params !! str "user" = Some user /\
    params !! str "database" = (if decide (database = []) then None else Some database)).
  { eexists. split; [done|]. unfold startup_body, startup_param.
    assert ((b8 0 ∉ str "user") /\ (b8 0 ∉ str "database")) as [H1 H2].
    { split; apply find_byte_None; by vm_compute. }
    rewrite <- !app_assoc. cbn [app]. rewrite Split_app by done. rewrite Split_app by done.
    destruct (decide (database = [])) as [->|Hne].
    - cbn [app Split]. rewrite decide_True by done. cbn [params_of].
      rewrite (decide_True (P := [] = [])), decide_False by done. split; [by rewrite lookup_insert_eq|].
      rewrite lookup_insert_ne by (by vm_compute). apply lookup_empty.
    - rewrite <- !app_assoc. cbn [app]. rewrite <- !app_assoc. cbn [app]. rewrite Split_app by done. rewrite Split_app by done.
      cbn [app Split]. rewrite decide_True by done. cbn [params_of].
      rewrite (decide_True (P := [] = [])), !decide_False by done. split; [|by rewrite lookup_insert_eq].
      rewrite lookup_insert_ne by (by vm_compute). by rewrite lookup_insert_eq. }
  destruct Hsp as (params & Hsp & Hp). exists params. split; [|done].
  by rewrite readStartupParams_app, Hsp.
Qed.

Lemma startup_roundtrip_witness :
  exists params,
    readStartupParams (mkRd (startup_message (startup_body (str "bob") (str "db")) ++ []) EEOF) =
    (Ok params, mkRd [] EEOF).
Proof.
  destruct (startup_roundtrip (str "bob") (str "db") [] EEOF) as (params & Hr & _).
  - apply find_byte_None. by vm_compute.
  - apply find_byte_None. by vm_compute.
  - by vm_compute.
  - by exists params.
Defined.

(** ** A session's login *)

Section login.
Context `{Hashes}.

(** What a client may have received when the login is over. *)
Inductive client_transcript : go unit -> bytes -> Prop :=
| saw_nothing_yet o q :
    is_ok o = false -> q `prefix_of` auth_request authCleartextPassword -> client_transcript o q
| saw_refusal o report q :
    is_ok o = false -> report = denied \/ report = upstream_failed ->
    q `prefix_of` refusal report ->
    client_transcript o (auth_request authCleartextPassword ++ q)
| saw_auth_ok o q :
    q `prefix_of` auth_request authOK -> (is_ok o = true -> q = auth_request authOK) ->
    client_transcript o (auth_request authCleartextPassword ++ q).

Lemma or_report_inv {A} report (m : St net A) s o s' :
  or_report report m s = (o, s') ->
  exists s1, m s = (o, s1) /\ up s' = up s1 /\
  ((is_ok o = true /\ s' = s1) \/
   (is_ok o = false /\ exists q, sent (cl s') = sent (cl s1) ++ q /\ q `prefix_of` refusal report)).
Proof.
  unfold or_report. destruct (m s) as [[a|e| |] s1].
  - intros [= <- <-]. exists s1. split_and!; auto.
  - unfold on_cl, zoom. destruct (on_out _ (cl s1)) as [o2 c2] eqn:Ho. cbn [snd].
    intros [= <- <-]. exists s1. apply writeClientError_sent in Ho.
    split_and!; [done|done|]. right. done.
  - intros [= <- <-]. exists s1. split_and!; [done|done|]. right. split; [done|].
    exists []. rewrite app_nil_r. split; [done|apply prefix_nil].
  - intros [= <- <-]. exists s1. split_and!; [done|done|]. right. split; [done|].
    exists []. rewrite app_nil_r. split; [done|apply prefix_nil].
Qed.


(** The client's side of the login: its startup parameters and its token. *)
Definition client_login (clientTLS : bool) : St conn (gmap bytes bytes * bytes) :=
  negotiateStartup clientTLS ;;;
  (let! startup := on_in readStartupParams in
   let! token := requestClientPassword in
   sret (startup, token)).

(** What follows: the resolver, the upstream's login, the acknowledgement. *)
Definition minted_login (rnd : nat -> go bytes) (cred : UpstreamCredential) (params : gmap bytes bytes)
    : St conn unit :=
  authenticateUpstream rnd cred (default [] (params !! str "database")).

Definition resolved (resolve : CredentialResolver) (rnd : nat -> go bytes)
    (login : gmap bytes bytes * bytes) : St net unit :=
  let! cred := or_report denied (slift (resolve login.1 login.2)) in
  or_report upstream_failed (on_up (minted_login rnd cred login.1)) ;;;
  on_cl (on_out sendClientAuthOK).

Lemma inject_login_split clientTLS resolve rnd s :
  inject_login clientTLS resolve rnd s = sbind (on_cl (client_login clientTLS)) (resolved resolve rnd) s.
Proof.
  unfold inject_login, client_login, sbind, on_cl, zoom.
  destruct (negotiateStartup clientTLS (cl s)) as [[[]| | |] c1]; try done. cbn [cl up].
  destruct (on_in readStartupParams c1) as [[params| | |] c2]; try done. cbn [cl up].
  by destruct (requestClientPassword c2) as [[token| | |] c3].
Qed.

Lemma client_login_sent clientTLS c o c' :
  client_login clientTLS c = (o, c') ->
  exists neg q, sent c' = sent c ++ neg ++ q /\ Forall negotiation_byte neg /\
    q `prefix_of` auth_request authCleartextPassword /\
    (is_ok o = true -> q = auth_request authCleartextPassword).
Proof.
  intros Hrun. unfold client_login in Hrun. unfold sbind at 1 in Hrun.
  destruct (negotiateStartup clientTLS c) as [o1 c1] eqn:H1.
  apply negotiate_loop_sent in H1 as (neg & Hneg & Hnf). exists neg.
  assert (Hearly : forall (o' : go (gmap bytes bytes * bytes)) c2, sent c2 = sent c1 -> is_ok o' = false ->
    exists q, sent c2 = sent c ++ neg ++ q /\ Forall negotiation_byte neg /\
      q `prefix_of` auth_request authCleartextPassword /\
      (is_ok o' = true -> q = auth_request authCleartextPassword)).
  { intros o' c2 Hs Ho. exists []. rewrite app_nil_r, Hs. split_and!; [done|done|apply prefix_nil|congruence]. }
  destruct o1 as [[]| | |]; try (injection Hrun as <- <-; by apply Hearly).
  unfold sbind at 1 in Hrun. destruct (on_in readStartupParams c1) as [o2 c2] eqn:H2. apply on_in_sent in H2.
  destruct o2 as [params| | |]; try (injection Hrun as <- <-; by apply Hearly).
  unfold sbind in Hrun. destruct (requestClientPassword c2) as [o3 c3] eqn:H3.
  apply requestClientPassword_sent in H3 as (q & Hq & Hqp & Hqo). rewrite H2, Hneg, <- app_assoc in Hq.
  destruct o3 as [token| | |]; injection Hrun as <- <-; exists q; by split_and!.
Qed.

(** The transcript [q] comes after the request; the upstream is touched by the minted login alone. *)
Lemma resolved_spec resolve rnd login s o s' :
  resolved resolve rnd login s = (o, s') ->
  (exists q, sent (cl s') = sent (cl s) ++ q /\
             client_transcript o (auth_request authCleartextPassword ++ q)) /\
  ((up s' = up s /\ is_ok o = false) \/
   exists cred, resolve login.1 login.2 = Ok cred /\ up s' = snd (minted_login rnd cred login.1 (up s)) /\
     (is_ok o = true -> fst (minted_login rnd cred login.1 (up s)) = Ok tt)).
Proof.
  intros Hrun. unfold resolved in Hrun. unfold sbind at 1 in Hrun.
  destruct (or_report denied _ _) as [o4 s4] eqn:H4.
  apply or_report_inv in H4 as (s4' & H4 & Hu4 & Hc4). injection H4 as Hres <-. cbn [cl up] in *.
  assert (Hrep : forall (o' : go unit) report s2, is_ok o' = false -> report = denied \/ report = upstream_failed ->
    (exists q, sent (cl s2) = sent (cl s) ++ q /\ q `prefix_of` refusal report) ->
    exists q, sent (cl s2) = sent (cl s) ++ q /\
              client_transcript o' (auth_request authCleartextPassword ++ q)).
  { intros o' report s2 Ho' Hr (q & Hs & Hp). exists q. split; [done|]. by eapply saw_refusal. }
  destruct o4 as [cred|e| |];
    try (injection Hrun as <- <-; split; [|by left]; destruct Hc4 as [[? _]|[_ Hs4]]; [done|];
         by apply (Hrep _ denied); auto).
  destruct Hc4 as [[_ ->]|[? _]]; [|done]. clear Hu4. unfold sbind at 1 in Hrun.
  destruct (or_report upstream_failed _ _) as [o5 s5] eqn:H5.
  apply or_report_inv in H5 as (s5' & H5 & Hu5 & Hc5).
  apply on_up_inv in H5 as (cu & H5 & ->). cbn [cl up] in *.
  assert (Hup : forall (o' : go unit) s6, up s6 = up s5 -> (is_ok o' = true -> o5 = Ok tt) ->
    exists cred, resolve login.1 login.2 = Ok cred /\ up s6 = snd (minted_login rnd cred login.1 (up s)) /\
     (is_ok o' = true -> fst (minted_login rnd cred login.1 (up s)) = Ok tt)).
  { intros o' s6 Hs6 Ho'. exists cred. by rewrite H5, Hs6. }
  destruct o5 as [[]|e| |];
    try (injection Hrun as <- <-; split; [|right; by apply Hup]; destruct Hc5 as [[? _]|[_ Hs5]]; [done|];
         by apply (Hrep _ upstream_failed); auto).
  destruct Hc5 as [[_ ->]|[? _]]; [|done]. clear Hrep. cbn [cl up] in *.
  apply on_cl_inv in Hrun as (c6 & H6 & ->). cbn [cl up] in *.
  apply on_out_Write_sent in H6 as (q & Hs6 & Hp & Hok).
  split; [|right; by apply (Hup o (mkNet c6 cu))].
  exists q. split; [done|]. apply saw_auth_ok; [done|]. by destruct o as [[]| | |]; auto.
Qed.

Lemma inject_login_spec clientTLS resolve rnd s o s' :
  inject_login clientTLS resolve rnd s = (o, s') ->
  (exists neg q, sent (cl s') = sent (cl s) ++ neg ++ q /\ Forall negotiation_byte neg /\
                 client_transcript o q) /\
  ((up s' = up s /\ is_ok o = false) \/
   exists params token c cred, client_login clientTLS (cl s) = (Ok (params, token), c) /\
     resolve params token = Ok cred /\ up s' = snd (minted_login rnd cred params (up s)) /\
     (is_ok o = true -> fst (minted_login rnd cred params (up s)) = Ok tt)).
Proof.
  rewrite inject_login_split. unfold sbind.
  destruct (on_cl (client_login clientTLS) s) as [o1 s1] eqn:H1.
  apply on_cl_inv in H1 as (c1 & H1 & ->).
  pose proof (client_login_sent _ _ _ _ H1) as (neg & q & Hs1 & Hneg & Hp & Hok).
  destruct o1 as [[params token]| | |];
    try (intros [= <- <-]; split; [|by left]; exists neg, q; split_and!; [done|done|by constructor]).
  rewrite (Hok eq_refl) in Hs1. intros Hrun.
  destruct (resolved_spec _ _ _ _ _ _ Hrun) as [(q2 & Hs2 & Htr) Hup]. cbn [cl up] in *. split.
  - eexists neg, _. rewrite Hs2, Hs1, <- !app_assoc. split_and!; [done|done|exact Htr].
  - destruct Hup as [?|(cred & ?)]; [by left|]. right. by exists params, token, c1, cred.
Qed.

End login.

(** C2: whatever the client and the upstream do, the bytes the client receives during the login are
    one-byte negotiation answers followed by a prefix of: the request for a cleartext password, then
    either one of the two fixed refusals or AuthenticationOk. Nothing of the upstream's answers and
    nothing of the minted credential reaches the client, and a login that succeeds ends with exactly
    the request and AuthenticationOk. *)
Theorem inject_login_client `{Hashes} (clientTLS : bool) (resolve : CredentialResolver)
    (rnd : nat -> go bytes) (s : net) :
  let '(o, s') := inject_login clientTLS resolve rnd s in
  exists neg q, sent (cl s') = sent (cl s) ++ neg ++ q /\ Forall negotiation_byte neg /\
                client_transcript o q.
Proof.
  destruct (inject_login _ _ _ _) as [o s'] eqn:Hrun. by apply inject_login_spec in Hrun as [? _].
Qed.

(** C1: the upstream is contacted only after the resolver accepted the parameters and the token that
    this client presented, and what it gets is exactly the login of the minted credential (with the
    client's database as default); the login as a whole succeeds only if that one did. In particular a refused token leaves the upstream
    connection untouched. *)
Theorem inject_login_upstream `{Hashes} (clientTLS : bool) (resolve : CredentialResolver)
    (rnd : nat -> go bytes) (s : net) :
  let '(o, s') := inject_login clientTLS resolve rnd s in
  (up s' = up s /\ is_ok o = false) \/
  exists params token c cred,
    client_login clientTLS (cl s) = (Ok (params, token), c) /\ resolve params token = Ok cred /\
    up s' = snd (minted_login rnd cred params (up s)) /\
    (is_ok o = true -> fst (minted_login rnd cred params (up s)) = Ok tt).
Proof.
  destruct (inject_login _ _ _ _) as [o s'] eqn:Hrun.
  by apply inject_login_spec in Hrun as [_ Hup].
Qed.

(** The login always returns, with success or an error, whatever either peer sends and however
    the connections end: no panic on malformed input and no endless negotiation or authentication. *)
Theorem inject_login_total `{Hashes} (clientTLS : bool) (resolve : CredentialResolver)
    (rnd : nat -> go bytes) (s : net)
    (Hres : forall params token, returns (resolve params token)) (Hrnd : forall i, returns (rnd i)) :
  returns (fst (inject_login clientTLS resolve rnd s)).
Proof. by apply inject_login_returns. Qed.

Lemma inject_login_total_witness :
  returns (fst (inject_login false (fun _ _ => Err EEOF) (fun _ => Ok (str "x"))
    (mkNet (plain_conn (startup_message (startup_body (str "u") []) ++
                        message msgPassword (str "tok")) EEOF) (plain_conn [] EEOF)))).
Proof. by apply inject_login_total. Defined.
