(* ===== verification/MyWire.v ===== *)
(** * The MySQL wire engine (internal/wire/mysql/mysql.go)

    Packets, length-encoded integers, the text-row codec, the result-set pump and the two relays of
    a session with the sequence-id shift of upstream TLS. *)
From S2P Require Import Prelude Go GoStr GoIO Mask.
Open Scope Z_scope.

(** ** Constants *)
Definition comQuery : Z := 0x03.
Definition capClientSSL : Z := 0x800.
Definition capClientProtocol41 : Z := 0x200.
Definition capClientDeprecateEOF : Z := 0x1000000.
Definition pktOK : Z := 0x00.
Definition pktLocalInfile : Z := 0xFB.
Definition pktEOF : Z := 0xFE.
Definition pktERR : Z := 0xFF.
Definition statusMoreResults : Z := 0x8.
Definition maxPacket : Z := 0xFFFFFF.
Definition sslRequestLen : Z := 32.

(** [p[0] == b] for a packet known to be non-empty, false on an empty one. *)
Definition starts (p : bytes) (b : Z) : bool :=
  match p with c :: _ => u8 c =? b | [] => false end.

(** ** Packets *)

Record pkt := mkPkt { p_seq : byte; p_payload : bytes; p_full : bool }.

(** The bytes of a packet: a 24-bit little-endian length (truncated), the sequence id, the payload. *)
Definition packet (seq : byte) (payload : bytes) : bytes :=
  le_bytes 3 (zlen payload) ++ seq :: payload.

Definition readPacket : St rd pkt :=
  let! hdr := ReadFull 4 in
  let! n := slift (le_at 3 hdr 0) in
  let! seq := slift (index hdr 3) in
  let! payload := ReadFull n in
  sret (mkPkt seq payload (n =? maxPacket)).

(** Over a raw connection and over a buffered writer. *)
Definition writePacket (seq : byte) (payload : bytes) : St wr unit :=
  Write (le_bytes 3 (zlen payload) ++ [seq]) ;;; Write payload.
Definition writePacketBuf (seq : byte) (payload : bytes) : St bufw unit :=
  BWrite (le_bytes 3 (zlen payload) ++ [seq]) ;;; BWrite payload.

(** Arithmetic on sequence ids is modulo 256. *)
Definition seq_add (seq : byte) (d : Z) : byte := b8 (u8 seq + d).

(** ** Length-encoded integers and strings *)

Definition readLenEncInt (p : bytes) (off : Z) : go (option (Z * Z)) :=
  if off >=? zlen p then Ok None
  else
    let? c := index p off in
    let b := u8 c in
    if b <? 0xFB then Ok (Some (b, 1))
    else if b =? 0xFC then
      if off + 3 >? zlen p then Ok None
      else let? v := le_at 2 p (off + 1) in Ok (Some (v, 3))
    else if b =? 0xFD then
      if off + 4 >? zlen p then Ok None
      else let? v := le_at 3 p (off + 1) in Ok (Some (v, 4))
    else if b =? 0xFE then
      if off + 9 >? zlen p then Ok None
      else let? v := le_at 8 p (off + 1) in Ok (Some (v, 9))
    else Ok None.

Definition appendLenEncInt (b : bytes) (v : Z) : bytes :=
  if v <? 0xFB then b ++ [b8 v]
  else if v <=? 0xFFFF then b ++ b8 0xFC :: le_bytes 2 v
  else if v <=? 0xFFFFFF then b ++ b8 0xFD :: le_bytes 3 v
  else b ++ b8 0xFE :: le_bytes 8 v.

(** [int(l)] of a 64-bit length is a signed reading, and so are the sums with it. *)
Definition lenEncStrSpan (p : bytes) (off : Z) : go (option Z) :=
  let? r := readLenEncInt p off in
  match r with
  | None => Ok None
  | Some (l, n) =>
      let total := wrap64 (n + wrap64 l) in
      if wrap64 (off + total) >? zlen p then Ok None else Ok (Some total)
  end.

(** Skip [k] length-encoded strings. *)
Fixpoint skip_strings (k : nat) (p : bytes) (off : Z) : go (option Z) :=
  match k with
  | O => Ok (Some off)
  | S k' =>
      let? span := lenEncStrSpan p off in
      match span with
      | None => Ok None
      | Some s => skip_strings k' p (wrap64 (off + s))
      end
  end.

Definition columnName (p : bytes) : go bytes :=
  let? o := skip_strings 4 p 0 in
  match o with
  | None => Ok []
  | Some off =>
      let? r := readLenEncInt p off in
      match r with
      | None => Ok []
      | Some (l, n) =>
          let off := off + n in
          let e := wrap64 (off + wrap64 l) in
          if e >? zlen p then Ok [] else slice p off e
      end
  end.

(** ** Terminators *)

Definition isTerminator (p : bytes) (deprecateEOF : bool) : bool :=
  starts p pktEOF && (deprecateEOF || (zlen p <? 9)).

Definition resultStatus (p : bytes) (deprecateEOF : bool) : go Z :=
  if negb (starts p pktEOF) then Ok 0
  else if negb deprecateEOF then
    if 5 <=? zlen p then le_at 2 p 3 else Ok 0
  else
    let? r1 := readLenEncInt p 1 in
    match r1 with
    | None => Ok 0
    | Some (_, n1) =>
        let? r2 := readLenEncInt p (1 + n1) in
        match r2 with
        | None => Ok 0
        | Some (_, n2) =>
            let off := 1 + n1 + n2 in
            if off + 2 <=? zlen p then le_at 2 p off else Ok 0
        end
    end.

(** ** Text rows *)

(** The decoding loop: every turn moves [off] forward or crashes on a negative length. *)
Fixpoint text_values (fuel : nat) (p : bytes) (off : Z) : go (option row) :=
  match fuel with
  | O => NoFuel
  | S k =>
      if off <? zlen p then
        let? b := index p off in
        if u8 b =? 0xFB then
          let? rest := text_values k p (off + 1) in Ok (cons None <$> rest)
        else
          let? r := readLenEncInt p off in
          match r with
          | None => Ok None
          | Some (l, n) =>
              let off := off + n in
              let e := wrap64 (off + wrap64 l) in
              if e >? zlen p then Ok None
              else if negb (make_ok 1 l) then Panic
              else
                let? v := slice p off e in
                let? rest := text_values k p e in Ok (cons (Some v) <$> rest)
          end
      else Ok (Some [])
  end.

Definition encode_text (v : option bytes) : bytes :=
  match v with
  | None => [b8 0xFB]
  | Some x => appendLenEncInt [] (zlen x) ++ x
  end.

Definition encode_text_row (r : row) : bytes := concat (map encode_text r).

Definition maskTextRow (payload : bytes) (cols : list Column) (m : masker) : go (option bytes) :=
  let? vals := text_values (S (length payload)) payload 0 in
  match vals with
  | None => Ok None
  | Some vals =>
      match m (row_columns (length vals) cols) vals with
      | Ok masked =>
          if decide (length masked = length vals) then Ok (Some (encode_text_row masked)) else Ok None
      | Err _ => Ok None
      | Panic => Panic
      | NoFuel => NoFuel
      end
  end.

(** ** Result sets *)

(** Bytes a [mask.Column] takes: a string header and a bool, padded. *)
Definition sizeof_Column : Z := 24.

Definition forwardRest : St pipe unit :=
  on_bw Flush ;;;
  (fun s =>
     match on_bw (BWrite (rbuf (p_in s))) s with
     | (Ok _, s') =>
         let s'' := mkPipe (mkRd [] (rend (p_in s'))) (p_bw s') in
         if decide (rend (p_in s') = EEOF) then on_bw Flush s'' else (Err (rend (p_in s')), s'')
     | r => r
     end).

Section pump.
(** The masker's rules may be replaced at any time: [mk n] is the masker in force when [n] bytes of the
    upstream's stream are left to read, a different number at every row. *)
Context (mk : nat -> masker).
Context (deprecateEOF : bool).

(** The column definitions: [Some cols] once all [n] are read, [None] after a fallback. *)
Fixpoint read_columns (fuel : nat) (i n : Z) (cols : list Column) : St pipe (option (list Column)) :=
  match fuel with
  | O => slift NoFuel
  | S k =>
      if i <? n then
        let! c := on_rd readPacket in
        if p_full c then
          on_bw (writePacketBuf (p_seq c) (p_payload c)) ;;; forwardRest ;;; sret None
        else
          let! name := slift (columnName (p_payload c)) in
          on_bw (writePacketBuf (p_seq c) (p_payload c)) ;;;
          read_columns k (i + 1) n (cols ++ [mkCol name true])
      else sret (Some cols)
  end.

Definition mask_now (payload : bytes) (cols : list Column) : St pipe (option bytes) := fun s =>
  (maskTextRow payload cols (mk (length (rbuf (p_in s)))), s).

(** The rows, up to the terminator: [Some more], or [None] after a fallback. *)
Fixpoint mask_rows (fuel : nat) (cols : list Column) : St pipe (option bool) :=
  match fuel with
  | O => slift NoFuel
  | S k =>
      let! c := on_rd readPacket in
      if p_full c then
        on_bw (writePacketBuf (p_seq c) (p_payload c)) ;;; forwardRest ;;; sret None
      else if isTerminator (p_payload c) deprecateEOF then
        let! status := slift (resultStatus (p_payload c) deprecateEOF) in
        on_bw (writePacketBuf (p_seq c) (p_payload c)) ;;;
        sret (Some (negb (Z.land status statusMoreResults =? 0)))
      else
        let! masked := mask_now (p_payload c) cols in
        let payload := match masked with
                       | Some q => if zlen q <? maxPacket then q else p_payload c
                       | None => p_payload c
                       end in
        on_bw (writePacketBuf (p_seq c) payload) ;;; mask_rows k cols
  end.

(** [(more, done)] *)
Definition handleOneResultSet (seq : byte) (payload : bytes) : St pipe (bool * bool) := fun s =>
  let raw := (on_bw (writePacketBuf seq payload) ;;; sret (false, true)) in
  let fuel := S (length (rbuf (p_in s))) in
  (if bool_decide (payload = []) || starts payload pktOK || starts payload pktERR ||
      starts payload pktLocalInfile then raw
   else
     let! r := slift (readLenEncInt payload 0) in
     match r with
     | None => raw
     | Some (colCount, _) =>
         on_bw (writePacketBuf seq payload) ;;;
         (if negb (make_ok sizeof_Column colCount) then slift Panic
          else
            let! cols := read_columns fuel 0 colCount [] in
            match cols with
            | None => sret (false, true)
            | Some cols =>
                (if deprecateEOF then sret tt
                 else let! e := on_rd readPacket in on_bw (writePacketBuf (p_seq e) (p_payload e))) ;;;
                (let! more := mask_rows fuel cols in
                 match more with
                 | None => sret (false, true)
                 | Some more => sret (more, false)
                 end)
            end)
     end) s.

(** Another result set follows as long as the terminators announce one. *)
Fixpoint result_sets (fuel : nat) (seq : byte) (payload : bytes) : St pipe unit :=
  match fuel with
  | O => slift NoFuel
  | S k =>
      let! (more, done) := handleOneResultSet seq payload in
      if done || negb more then sret tt
      else let! p := on_rd readPacket in result_sets k (p_seq p) (p_payload p)
  end.

Definition handleResultResponse (seq : byte) (payload : bytes) : St pipe unit := fun s =>
  result_sets (S (length (rbuf (p_in s)))) seq payload s.

End pump.

(** ** The two relays

    The two goroutines of a session share a channel of 64 query tokens and the sequence offset. Each
    alternates between a blocking read and the processing of what it read, and between these steps
    the other one may run: a schedule picks who runs next. *)
Record sess := mkSess {
  cb : rd;                      (* the client's bytes *)
  uw : wr;                      (* towards the upstream *)
  dn : pipe;                    (* the upstream's bytes, and the buffered writer to the client *)
  queries : Z;                  (* tokens in the channel *)
  offset : Z;                   (* the sequence-id shift *)
  c_hold : option pkt;          (* what each goroutine has read and not yet processed *)
  s_hold : option pkt;
  c_end : option (go unit);     (* how each goroutine ended *)
  s_end : option (go unit);
}.

Definition is_query (p : pkt) : bool :=
  negb (p_full p) && (u8 (p_seq p) =? 0) && starts (p_payload p) comQuery.

Definition with_cb (r : rd) (p : option pkt) (e : option (go unit)) (q : Z) (s : sess) : sess :=
  mkSess r (uw s) (dn s) q (offset s) p (s_hold s) e (s_end s).

Definition clientToServer_read (s : sess) : sess :=
  match readPacket (cb s) with
  | (Ok p, r) =>
      let q := if is_query p && (queries s <? 64) then queries s + 1 else queries s in
      with_cb r (Some p) None q s
  | (Err e, r) => with_cb r None (Some (Err e)) (queries s) s
  | (Panic, r) => with_cb r None (Some Panic) (queries s) s
  | (NoFuel, r) => with_cb r None (Some NoFuel) (queries s) s
  end.

Definition ended (o : go unit) : option (go unit) :=
  match o with Ok _ => None | _ => Some o end.

Definition clientToServer_write (p : pkt) (s : sess) : sess :=
  let '(o, w) := writePacket (seq_add (p_seq p) (offset s)) (p_payload p) (uw s) in
  mkSess (cb s) w (dn s) (queries s) (offset s) None (s_hold s) (ended o) (s_end s).

Definition clientToServer (s : sess) : sess :=
  match c_end s with
  | Some _ => s
  | None => match c_hold s with
            | None => clientToServer_read s
            | Some p => clientToServer_write p s
            end
  end.

Section relay.
Context (deprecateEOF : bool).
(** [br.Buffered()] of the upstream's reader, as a function of what is left of the stream. *)
Context (buffered : bytes -> Z).

Definition with_dn (o : go unit) (p : pipe) (q off : Z) (s : sess) : sess :=
  mkSess (cb s) (uw s) p q off (c_hold s) None (c_end s) (ended o).

(** A failed read flushes what is pending and ends the relay. *)
Definition flush_end (o : go unit) (p : pipe) : go unit * pipe := (o, snd (on_bw Flush p)).

Definition serverToClient_read (s : sess) : sess :=
  match on_rd readPacket (dn s) with
  | (Ok p, d) => mkSess (cb s) (uw s) d (queries s) (offset s) (c_hold s) (Some p) (c_end s) None
  | (Err e, d) => let '(o, d') := flush_end (Err e) d in with_dn o d' (queries s) (offset s) s
  | (Panic, d) => with_dn Panic d (queries s) (offset s) s
  | (NoFuel, d) => with_dn NoFuel d (queries s) (offset s) s
  end.

(** The connection phase of an upstream-TLS session: relay with the id shifted back. *)
Definition relay_auth (p : pkt) (s : sess) : sess :=
  let done := starts (p_payload p) pktOK || starts (p_payload p) pktERR in
  let '(o, d) := (on_bw (writePacketBuf (seq_add (p_seq p) (-1)) (p_payload p)) ;;; on_bw Flush) (dn s) in
  with_dn o d (queries s) (if done then 0 else offset s) s.

(** The command phase: a token in the channel says that this packet starts a result set. *)
Definition relay_command (mk : nat -> masker) (p : pkt) (s : sess) : sess :=
  let pending := 0 <? queries s in
  let q := if pending then queries s - 1 else queries s in
  let '(o, d) :=
    if pending && negb (p_full p) then
      match handleResultResponse mk deprecateEOF (p_seq p) (p_payload p) (dn s) with
      | (Ok _, d) => on_bw Flush d
      | (Err e, d) => flush_end (Err e) d
      | r => r
      end
    else
      (on_bw (writePacketBuf (p_seq p) (p_payload p)) ;;;
       (fun d => if buffered (rbuf (p_in d)) =? 0 then on_bw Flush d else (Ok tt, d))) (dn s) in
  with_dn o d q (offset s) s.

Definition serverToClient (mk : nat -> masker) (s : sess) : sess :=
  match s_end s with
  | Some _ => s
  | None =>
      match s_hold s with
      | None => serverToClient_read s
      | Some p => if negb (offset s =? 0) then relay_auth p s else relay_command mk p s
      end
  end.

(** [true] runs the client's relay, [false] the server's. *)
Fixpoint relays (mk : nat -> masker) (sched : list bool) (s : sess) : sess :=
  match sched with
  | [] => s
  | true :: rest => relays mk rest (clientToServer s)
  | false :: rest => relays mk rest (serverToClient mk s)
  end.

End relay.

(** ** Upstream TLS *)

(** The position of the NUL that ends the string starting at 1, or the end of the packet. *)
Definition version_end (g : bytes) : Z :=
  match find_byte (b8 0) (drop 1 g) with Some i => 1 + Z.of_nat i | None => zlen g end.

Definition serverSupportsSSL (g : bytes) : go bool :=
  if negb (starts g 0x0a) then Ok false
  else
    let off := version_end g + 1 + (4 + 8 + 1) in
    if off + 2 >? zlen g then Ok false
    else let? lowerCaps := le_at 2 g off in Ok (negb (Z.land lowerCaps capClientSSL =? 0)).

Definition tlsUnavailableReason (supports : bool) (caps : Z) (cpayload : bytes) : bytes :=
  if negb supports then str "the server does not advertise CLIENT_SSL"
  else if Z.land caps capClientProtocol41 =? 0 then str "the client is not using PROTOCOL_41"
  else if zlen cpayload <? sslRequestLen
  then str "the client handshake response is too short to derive an SSL request"
  else str "TLS is unavailable".

(** [binary.LittleEndian.PutUint32(p[0:4], v)] *)
Definition put_caps (v : Z) (p : bytes) : bytes := le_bytes 4 v ++ drop 4 p.

(** The reader made over the new connection starts where the old one stopped: the server sends
    nothing between its greeting and the response it waits for. *)
Definition startUpstreamTLS (required : bool) (greeting : bytes) (cseq : byte) (cpayload : bytes)
    (caps : Z) : St conn Z :=
  let! supports := slift (serverSupportsSSL greeting) in
  let canTLS := supports && negb (Z.land caps capClientProtocol41 =? 0) &&
                (sslRequestLen <=? zlen cpayload) in
  if negb canTLS then
    if required then
      sfail (EFmt "mysql: upstream TLS required but %s" [tlsUnavailableReason supports caps cpayload])
    else on_out (writePacket cseq cpayload) ;;; sret 0
  else
    let caps' := Z.lor caps capClientSSL in
    on_out (writePacket cseq (put_caps caps' (take (Z.to_nat sslRequestLen) cpayload))) ;;;
    (fun c => match Handshake c with
              | (Err e, c') => (Err (EWrap "mysql: upstream TLS handshake failed: %w" e), c')
              | r => r
              end) ;;;
    on_out (writePacket (seq_add cseq 1) (put_caps caps' cpayload)) ;;;
    sret 1.

(** ** The handshake of the verbatim path *)

Inductive handshaken :=
| Passthrough                            (* the client negotiated TLS: the stream is opaque *)
| Relay (deprecate : bool) (off : Z).    (* [s.deprecateEOF()] and the initial offset *)

Definition deprecateEOF_of (caps : Z) : bool := negb (Z.land caps capClientDeprecateEOF =? 0).

Definition handshake (upstreamTLS required : bool) : St net handshaken :=
  let! g := on_up (on_in readPacket) in
  on_cl (on_out (writePacket (p_seq g) (p_payload g))) ;;;
  (let! c := on_cl (on_in readPacket) in
   let! caps := slift (if 4 <=? zlen (p_payload c) then le_at 4 (p_payload c) 0 else Ok 0) in
   if negb (Z.land caps capClientSSL =? 0) then
     on_up (on_out (writePacket (p_seq c) (p_payload c))) ;;; sret Passthrough
   else if upstreamTLS then
     let! off := on_up (startUpstreamTLS required (p_payload g) (p_seq c) (p_payload c) caps) in
     sret (Relay (deprecateEOF_of caps) off)
   else
     on_up (on_out (writePacket (p_seq c) (p_payload c))) ;;; sret (Relay (deprecateEOF_of caps) 0)).

Definition initial (n : net) (off : Z) : sess :=
  mkSess (c_in (cl n)) (c_out (up n)) (mkPipe (c_in (up n)) (newWriter (c_out (cl n)))) 0 off
         None None None None.

(** The end states of a session: both directions copied verbatim, or the relays after a schedule. *)
Inductive outcome :=
| Copied (to_upstream to_client : wr)
| Relayed (s : sess).

(** [err = <-errc]: the error of the goroutine that ended first. *)
Definition first_end (client_first : bool) (s : sess) : go unit :=
  default (Ok tt) (if client_first then c_end s else s_end s).

Definition Proxy (buffered : bytes -> Z) (mk : nat -> masker) (sched : list bool)
    (upstreamTLS required client_first : bool) (n : net) : go unit * option outcome :=
  match handshake upstreamTLS required n with
  | (Ok Passthrough, n') =>
      let '(_, e_up, w_up) := Copy (c_in (cl n')) (c_out (up n')) in
      let '(_, e_down, w_down) := Copy (c_in (up n')) (c_out (cl n')) in
      (quiet (if client_first then e_up else e_down), Some (Copied w_up w_down))
  | (Ok (Relay d off), n') =>
      let s := relays d buffered mk sched (initial n' off) in
      (quiet (first_end client_first s), Some (Relayed s))
  | (Err e, _) => (Err e, None)
  | (Panic, _) => (Panic, None)
  | (NoFuel, _) => (NoFuel, None)
  end.
