(* ===== verification/MyWireFacts.v ===== *)
(** * Facts about the MySQL wire engine: codecs, rows, result sets *)
From S2P Require Import Prelude Go GoStr GoIO ConnFacts Mask MyWire.
Open Scope Z_scope.

(** ** Packets *)

Lemma packet_split seq p : packet seq p = (le_bytes 3 (zlen p) ++ [seq]) ++ p.
Proof. unfold packet. by rewrite <- app_assoc. Qed.

Lemma readPacket_app seq p rest e :
  zlen p <= maxPacket ->
  readPacket (mkRd (packet seq p ++ rest) e) =
  (Ok (mkPkt seq p (zlen p =? maxPacket)), mkRd rest e).
Proof.
  unfold maxPacket. intros Hp. pose proof (zlen_nonneg p). unfold readPacket.
  rewrite packet_split, <- app_assoc. unfold sbind at 1.
  rewrite ReadFull_app by (by rewrite zlen_app, zlen_le_bytes, zlen_cons, zlen_nil).
  unfold sbind at 1, slift at 1. rewrite le_at_head by apply length_le_bytes.
  rewrite le_val_le_bytes, Z.mod_small by lia.
  unfold sbind at 1, slift at 1. rewrite index_app_mid by (by rewrite zlen_le_bytes).
  unfold sbind. by rewrite ReadFull_app by lia.
Qed.

(** What a successful read took off the stream, and that a failed one ends the relay. *)
Lemma readPacket_inv r p r' :
  readPacket r = (Ok p, r') ->
  rbuf r = packet (p_seq p) (p_payload p) ++ rbuf r' /\ zlen (p_payload p) <= maxPacket /\
  rend r' = rend r /\ p_full p = (zlen (p_payload p) =? maxPacket).
Proof.
  unfold readPacket, sbind. destruct (ReadFull 4 r) as [[hdr| | |] r1] eqn:H1; try done.
  destruct (ReadFull_inv 4 _ _ _ ltac:(lia) H1) as (Hb & Hh & He1).
  assert (exists n3 seq, hdr = n3 ++ [seq] /\ length n3 = 3%nat) as (n3 & seq & -> & Hn3).
  { destruct hdr as [|a [|b [|c [|d [|]]]]]; try (unfold zlen in Hh; simpl in Hh; lia).
    by exists [a; b; c], d. }
  unfold slift. rewrite le_at_head by done. rewrite index_app_mid by (unfold zlen; lia).
  pose proof (le_val_range n3) as Hr. rewrite Hn3 in Hr. change (256 ^ Z.of_nat 3) with 16777216 in Hr.
  destruct (ReadFull (le_val n3) r1) as [[p'| | |] r2] eqn:H2; try done.
  destruct (ReadFull_inv (le_val n3) _ _ _ ltac:(lia) H2) as (Hb2 & Hp & He2).
  intros [= <- <-]. cbn [p_seq p_payload p_full]. unfold maxPacket. rewrite <- Hp.
  split_and!; [|lia|congruence|done].
  rewrite Hb, Hb2, packet_split, Hp, <- Hn3, le_bytes_le_val. by rewrite <- !app_assoc.
Qed.

Lemma readPacket_returns r : returns (fst (readPacket r)).
Proof.
  unfold readPacket, sbind. pose proof (ReadFull_returns 4 r) as Hr.
  destruct (ReadFull 4 r) as [[hdr| | |] r1] eqn:H1; try done.
  destruct (ReadFull_inv 4 _ _ _ ltac:(lia) H1) as (Hb & Hh & He1).
  unfold slift. rewrite le_at_ok by lia.
  destruct (index_ok hdr 3 ltac:(lia)) as (b & -> & _).
  pose proof (ReadFull_returns (le_val (take 3 (drop (Z.to_nat 0) hdr))) r1).
  by destruct (ReadFull _ r1) as [[]].
Qed.

Lemma packet_length seq p : length (packet seq p) = (4 + length p)%nat.
Proof. unfold packet. rewrite length_app, length_le_bytes. simpl. lia. Qed.

(** ** Length-encoded integers *)

Definition lenenc (v : Z) : bytes := appendLenEncInt [] v.

Lemma appendLenEncInt_app b v : appendLenEncInt b v = b ++ lenenc v.
Proof. unfold lenenc, appendLenEncInt. by repeat case_match. Qed.

Lemma lenenc_range v : 1 <= zlen (lenenc v) <= 9.
Proof.
  unfold lenenc, appendLenEncInt. repeat case_match;
    rewrite zlen_app, ?zlen_cons, ?zlen_le_bytes, ?zlen_nil; lia.
Qed.

Lemma lenenc_head v :
  0 <= v -> exists b t, lenenc v = b :: t /\
  (u8 b = v /\ v < 0xFB \/ u8 b = 0xFC \/ u8 b = 0xFD \/ (u8 b = 0xFE /\ 0xFFFFFF < v)).
Proof.
  intros Hv. unfold lenenc, appendLenEncInt. cbn [app].
  destruct (v <? 0xFB) eqn:E1.
  { eexists _, _. split; [done|]. left. rewrite u8_b8, Z.mod_small; lia. }
  destruct (v <=? 0xFFFF) eqn:E2; [eexists _, _; split; [done|]; rewrite u8_b8; by auto|].
  destruct (v <=? 0xFFFFFF) eqn:E3; [eexists _, _; split; [done|]; rewrite u8_b8; by auto|].
  eexists _, _. split; [done|]. rewrite u8_b8. do 3 right. apply Z.leb_gt in E3. by split.
Qed.

Lemma readLenEncInt_word n tag pre w post off :
  off = zlen pre -> length w = n -> (n = 2%nat /\ tag = 0xFC) \/ (n = 3%nat /\ tag = 0xFD) \/
  (n = 8%nat /\ tag = 0xFE) ->
  readLenEncInt (pre ++ (b8 tag :: w) ++ post) off = Ok (Some (le_val w, 1 + Z.of_nat n)).
Proof.
  intros -> Hw Hn. pose proof (zlen_nonneg pre). pose proof (zlen_nonneg post).
  assert (Hwl : zlen w = Z.of_nat n) by (unfold zlen; lia).
  unfold readLenEncInt. rewrite Z.geb_leb, (proj2 (Z.leb_gt _ _)); cycle 1.
  { rewrite !zlen_app, zlen_cons. lia. }
  cbn [app]. rewrite index_app_mid by done. cbn [gbind]. rewrite u8_b8.
  assert (Hat : forall k, k = n -> le_at k (pre ++ b8 tag :: w ++ post) (zlen pre + 1) = Ok (le_val w)).
  { intros k ->. change (b8 tag :: w ++ post) with ([b8 tag] ++ w ++ post). rewrite app_assoc.
    apply le_at_app; [|done]. by rewrite zlen_app. }
  assert (Hlen : zlen (pre ++ b8 tag :: w ++ post) = zlen pre + 1 + Z.of_nat n + zlen post)
    by (rewrite zlen_app, zlen_cons, zlen_app; lia).
  rewrite Hlen. destruct Hn as [[-> ->]|[[-> ->]|[-> ->]]];
    rewrite !(Z.mod_small _ 256) by lia; cbn -[le_at Z.add];
    rewrite Z.gtb_ltb, (proj2 (Z.ltb_ge _ _)) by lia; by rewrite Hat.
Qed.

Lemma readLenEncInt_lenenc pre v post off :
  off = zlen pre -> 0 <= v < 2 ^ 64 ->
  readLenEncInt (pre ++ lenenc v ++ post) off = Ok (Some (v, zlen (lenenc v))).
Proof.
  intros -> Hv. unfold lenenc, appendLenEncInt. cbn [app].
  destruct (v <? 0xFB) eqn:E1.
  { apply Z.ltb_lt in E1. unfold readLenEncInt. pose proof (zlen_nonneg pre).
    rewrite Z.geb_leb, (proj2 (Z.leb_gt _ _)); cycle 1.
    { rewrite zlen_app. cbn [app]. rewrite zlen_cons. pose proof (zlen_nonneg post). lia. }
    cbn [app]. rewrite index_app_mid by done. cbn [gbind].
    rewrite u8_b8, Z.mod_small by lia. by rewrite (proj2 (Z.ltb_lt _ _)). }
  destruct (v <=? 0xFFFF) eqn:E2.
  { rewrite (readLenEncInt_word 2) by (done || apply length_le_bytes || auto).
    rewrite le_val_le_bytes, Z.mod_small by lia. by rewrite zlen_cons, zlen_le_bytes. }
  destruct (v <=? 0xFFFFFF) eqn:E3.
  { rewrite (readLenEncInt_word 3) by (done || apply length_le_bytes || auto).
    rewrite le_val_le_bytes, Z.mod_small by lia. by rewrite zlen_cons, zlen_le_bytes. }
  rewrite (readLenEncInt_word 8) by (done || apply length_le_bytes || auto).
  rewrite le_val_le_bytes, Z.mod_small by lia. by rewrite zlen_cons, zlen_le_bytes.
Qed.

(** A length-encoded string. *)
Definition lenencStr (s : bytes) : bytes := lenenc (zlen s) ++ s.

Lemma lenEncStrSpan_str pre s post off :
  off = zlen pre -> zlen (pre ++ lenencStr s ++ post) < 2 ^ 62 ->
  lenEncStrSpan (pre ++ lenencStr s ++ post) off = Ok (Some (zlen (lenencStr s))).
Proof.
  intros -> Hl. unfold lenencStr in *. rewrite !zlen_app in Hl.
  pose proof (zlen_nonneg pre). pose proof (zlen_nonneg s). pose proof (zlen_nonneg post).
  pose proof (lenenc_range (zlen s)). unfold lenEncStrSpan. rewrite <- app_assoc.
  rewrite readLenEncInt_lenenc by (done || lia). cbn [gbind].
  rewrite (wrap64_small (zlen s)) by lia. rewrite (wrap64_small (zlen (lenenc (zlen s)) + zlen s)) by lia.
  rewrite wrap64_small by lia. rewrite Z.gtb_ltb, (proj2 (Z.ltb_ge _ _)); cycle 1.
  { rewrite !zlen_app. lia. }
  by rewrite zlen_app.
Qed.

Lemma skip_strings_strs ss : forall pre post off,
  off = zlen pre -> zlen (pre ++ concat (map lenencStr ss) ++ post) < 2 ^ 62 ->
  skip_strings (length ss) (pre ++ concat (map lenencStr ss) ++ post) off =
  Ok (Some (off + zlen (concat (map lenencStr ss)))).
Proof.
  induction ss as [|s ss IH]; intros pre post off -> Hl; cbn [map concat length skip_strings] in *.
  { by rewrite zlen_nil, Z.add_0_r. }
  rewrite <- app_assoc in *. rewrite lenEncStrSpan_str by done. cbn [gbind].
  rewrite app_assoc in *. rewrite !zlen_app in Hl.
  pose proof (zlen_nonneg pre). pose proof (zlen_nonneg (lenencStr s)).
  pose proof (zlen_nonneg (concat (map lenencStr ss))). pose proof (zlen_nonneg post).
  rewrite wrap64_small by lia.
  rewrite IH by (rewrite !zlen_app; lia). rewrite zlen_app. do 2 f_equal. lia.
Qed.

(** ** Column definitions *)

(** Catalog, schema, table and original table; the name; what follows. *)
Record coldef := mkColdef { cd_head : list bytes; cd_name : bytes; cd_tail : bytes }.

Definition encode_coldef (c : coldef) : bytes :=
  concat (map lenencStr (cd_head c)) ++ lenencStr (cd_name c) ++ cd_tail c.

Lemma columnName_encode c :
  length (cd_head c) = 4%nat -> zlen (encode_coldef c) < 2 ^ 62 ->
  columnName (encode_coldef c) = Ok (cd_name c).
Proof.
  intros H4 Hl. unfold columnName, encode_coldef in *.
  set (h := concat _) in *. set (s := cd_name c) in *.
  pose proof (skip_strings_strs (cd_head c) [] (lenencStr s ++ cd_tail c) 0 eq_refl Hl) as Hs.
  cbn [app] in Hs. fold h in Hs. rewrite H4 in Hs. rewrite Hs. cbn [gbind]. rewrite Z.add_0_l.
  unfold lenencStr in *. rewrite <- app_assoc.
  rewrite !zlen_app in Hl. pose proof (zlen_nonneg h). pose proof (zlen_nonneg s).
  pose proof (zlen_nonneg (cd_tail c)). pose proof (lenenc_range (zlen s)).
  rewrite readLenEncInt_lenenc by (done || lia). cbn [gbind].
  rewrite (wrap64_small (zlen s)) by lia. rewrite wrap64_small by lia.
  rewrite Z.gtb_ltb, (proj2 (Z.ltb_ge _ _)) by (rewrite !zlen_app; lia).
  rewrite app_assoc. apply slice_app_mid; rewrite zlen_app; lia.
Qed.

(** ** Text rows *)

Definition small_field (v : option bytes) : Prop :=
  match v with Some x => zlen x <= 0xFFFFFF | None => True end.

Lemma encode_text_pos v : 1 <= zlen (encode_text v).
Proof.
  destruct v as [x|]; [|done]. unfold encode_text. rewrite zlen_app.
  pose proof (lenenc_range (zlen x)). pose proof (zlen_nonneg x). unfold lenenc in *. lia.
Qed.

(** A text field never starts with 0xFB unless it is NULL, nor with 0xFE. *)
Lemma encode_text_head v :
  small_field v -> exists b t, encode_text v = b :: t /\ u8 b <> 0xFE /\
    (u8 b = 0xFB <-> v = None).
Proof.
  destruct v as [x|]; cbn [encode_text small_field].
  - intros Hx. destruct (lenenc_head (zlen x) (zlen_nonneg x)) as (b & t & Hb & Hc).
    unfold lenenc in Hb. rewrite Hb. eexists _, _. split; [done|].
    split; [lia|]. split; [lia|done].
  - intros _. by exists (b8 0xFB), [].
Qed.

Lemma text_values_field k pre v post :
  small_field v -> zlen (pre ++ encode_text v ++ post) < 2 ^ 32 ->
  text_values (S k) (pre ++ encode_text v ++ post) (zlen pre) =
  (let? rest := text_values k (pre ++ encode_text v ++ post) (zlen (pre ++ encode_text v)) in
   Ok (cons v <$> rest)).
Proof.
  intros Hv Hl. cbn [text_values]. pose proof (zlen_nonneg pre). pose proof (zlen_nonneg post).
  pose proof (encode_text_pos v). rewrite !zlen_app in Hl.
  rewrite (proj2 (Z.ltb_lt _ _)) by (rewrite !zlen_app; lia).
  destruct (encode_text_head v Hv) as (b & t & Hb & _ & Hnull).
  assert (index (pre ++ encode_text v ++ post) (zlen pre) = Ok b) as ->.
  { rewrite Hb. by apply index_app_mid. }
  cbn [gbind]. destruct v as [x|].
  - assert ((u8 b =? 0xFB) = false) as -> by (apply Z.eqb_neq; intros ?%Hnull; done).
    cbn [encode_text small_field] in *. rewrite zlen_app in Hl.
    fold (lenenc (zlen x)) in *. pose proof (lenenc_range (zlen x)). pose proof (zlen_nonneg x).
    rewrite <- (app_assoc (lenenc _)). rewrite readLenEncInt_lenenc by (done || lia). cbn [gbind].
    rewrite (wrap64_small (zlen x)) by lia. rewrite wrap64_small by lia.
    rewrite Z.gtb_ltb, (proj2 (Z.ltb_ge _ _)) by (rewrite !zlen_app; lia).
    assert (make_ok 1 (zlen x) = true) as ->.
    { unfold make_ok, max_alloc. rewrite !(proj2 (Z.leb_le _ _)) by lia. done. }
    cbn [negb]. rewrite (app_assoc pre). rewrite slice_app_mid by (rewrite ?zlen_app; lia).
    cbn [gbind]. rewrite !zlen_app, <- !app_assoc. do 2 f_equal. lia.
  - assert ((u8 b =? 0xFB) = true) as -> by (apply Z.eqb_eq; by apply Hnull).
    cbn [encode_text]. by rewrite zlen_app.
Qed.

Lemma text_values_encode r : forall k pre,
  Forall small_field r -> (length r < k)%nat -> zlen (pre ++ encode_text_row r) < 2 ^ 32 ->
  text_values k (pre ++ encode_text_row r) (zlen pre) = Ok (Some r).
Proof.
  induction r as [|v r IH]; intros k pre Hr Hk Hl; (destruct k as [|k]; [simpl in Hk; lia|]).
  { cbn [text_values encode_text_row map concat]. rewrite app_nil_r, Z.ltb_irrefl. done. }
  inversion Hr as [|? ? Hv Hr']; subst. unfold encode_text_row in *. cbn [map concat] in *.
  rewrite text_values_field by done. rewrite app_assoc in *.
  rewrite IH by (done || (simpl in Hk; lia)). done.
Qed.

Lemma length_encode_text_row r : (length r <= length (encode_text_row r))%nat.
Proof.
  induction r as [|v r IH]; [done|]. unfold encode_text_row in *. cbn [map concat length].
  rewrite length_app. pose proof (encode_text_pos v). unfold zlen in *. lia.
Qed.

Lemma row_fields_small r : zlen (encode_text_row r) <= 0xFFFFFF -> Forall small_field r.
Proof.
  induction r as [|v r IH]; intros Hl; [done|]. unfold encode_text_row in *.
  cbn [map concat] in Hl. rewrite zlen_app in Hl.
  pose proof (zlen_nonneg (concat (map encode_text r))). pose proof (zlen_nonneg (encode_text v)).
  constructor; [|apply IH; lia]. destruct v as [x|]; [|done]. cbn [encode_text small_field] in *.
  rewrite zlen_app in *. pose proof (zlen_nonneg (appendLenEncInt [] (zlen x))). lia.
Qed.

(** The row that leaves the proxy for a row that enters it: the masked row, unless the masker fails or
    the masked row does not fit a single packet; then the row as it came. *)
Definition masked_payload (m : masker) (cols : list Column) (r : row) : bytes :=
  match m (row_columns (length r) cols) r with
  | Ok r' => if zlen (encode_text_row r') <? maxPacket then encode_text_row r' else encode_text_row r
  | _ => encode_text_row r
  end.

Lemma maskTextRow_encode m cols r :
  MaskerOk m -> zlen (encode_text_row r) <= 0xFFFFFF ->
  maskTextRow (encode_text_row r) cols m =
  match m (row_columns (length r) cols) r with
  | Ok r' => Ok (Some (encode_text_row r'))
  | _ => Ok None
  end.
Proof.
  intros Hm Hl. unfold maskTextRow.
  pose proof (text_values_encode r (S (length (encode_text_row r))) []
    (row_fields_small r Hl)) as Ht. cbn [app] in Ht. rewrite zlen_nil in Ht. rewrite Ht; cycle 1.
  { pose proof (length_encode_text_row r). lia. }
  { lia. }
  cbn [gbind]. pose proof (mask_returns (m := m) (row_columns (length r) cols) r) as Hr.
  destruct (m _ r) as [r'|e| |] eqn:Hmr; try done.
  by rewrite decide_True by (by eapply mask_length).
Qed.

(** An encoded row is never taken for a terminator. *)
Lemma row_not_terminator r d :
  zlen (encode_text_row r) <= 0xFFFFFF -> isTerminator (encode_text_row r) d = false.
Proof.
  intros Hl. pose proof (row_fields_small r Hl) as Hf. unfold isTerminator.
  destruct r as [|v r]; [done|]. inversion Hf as [|? ? Hv _]; subst.
  destruct (encode_text_head v Hv) as (b & t & Hb & Hne & _).
  unfold encode_text_row. cbn [map concat]. rewrite Hb. cbn [app starts].
  by rewrite (proj2 (Z.eqb_neq _ _)).
Qed.

(** ** Pumping packets

    A pump whose client does not break: what is left to read, how the stream ends, and everything
    accepted for the client so far. *)
Definition pipe_at (rest : bytes) (e : gerr) (out : bytes) (s : pipe) : Prop :=
  p_in s = mkRd rest e /\ ball (p_bw s) = out /\ bw_good (p_bw s).

Lemma read_at seq p rest e out s :
  pipe_at (packet seq p ++ rest) e out s -> zlen p < maxPacket ->
  exists s', on_rd readPacket s = (Ok (mkPkt seq p false), s') /\ pipe_at rest e out s'.
Proof.
  intros (Hi & Ho & Hg) Hp. unfold on_rd, zoom. rewrite Hi, readPacket_app by lia.
  rewrite (proj2 (Z.eqb_neq _ _)) by lia. eexists. by split.
Qed.

Lemma writePacketBuf_good seq p b :
  bw_good b -> exists b', writePacketBuf seq p b = (Ok tt, b') /\ ball b' = ball b ++ packet seq p /\
                          bw_good b'.
Proof.
  intros Hg. unfold writePacketBuf, sbind.
  destruct (BWrite_good (le_bytes 3 (zlen p) ++ [seq]) b Hg) as (b1 & H1 & Hg1). rewrite H1.
  destruct (BWrite_good p b1 Hg1) as (b2 & H2 & Hg2). rewrite H2. exists b2. split; [done|].
  split; [|done]. destruct (BWrite_spec _ _ _ _ H1) as (_ & Hb1 & _).
  destruct (BWrite_spec _ _ _ _ H2) as (_ & Hb2 & _).
  destruct (Hb2 eq_refl) as [-> _]. destruct (Hb1 eq_refl) as [-> _].
  by rewrite packet_split, <- app_assoc.
Qed.

Lemma write_at seq p rest e out s :
  pipe_at rest e out s ->
  exists s', on_bw (writePacketBuf seq p) s = (Ok tt, s') /\ pipe_at rest e (out ++ packet seq p) s'.
Proof.
  intros (Hi & <- & Hg). destruct (writePacketBuf_good seq p (p_bw s) Hg) as (b & Hw & Hb & Hgb).
  unfold on_bw, zoom. rewrite Hw. eexists. split; [done|]. by split_and!.
Qed.

Definition wire (ps : list (byte * bytes)) : bytes :=
  concat (map (fun '(seq, p) => packet seq p) ps).

Lemma packets_cons seq p ps : wire ((seq, p) :: ps) = packet seq p ++ wire ps.
Proof. done. Qed.

Lemma wire_app ps qs : wire (ps ++ qs) = wire ps ++ wire qs.
Proof. unfold wire. by rewrite map_app, concat_app. Qed.

(** *** Terminators *)

Record term := mkTerm {
  t_status : Z; t_warnings : Z; t_affected : Z; t_insert_id : Z; t_info : bytes }.

Definition term_ok (t : term) : Prop :=
  0 <= t_status t < 2 ^ 16 /\ 0 <= t_affected t < 2 ^ 64 /\ 0 <= t_insert_id t < 2 ^ 64 /\
  zlen (t_info t) < 2 ^ 16.

(** An EOF packet, or with DEPRECATE_EOF an OK packet with the 0xFE header. *)
Definition encode_term (d : bool) (t : term) : bytes :=
  if d then b8 0xFE :: lenenc (t_affected t) ++ lenenc (t_insert_id t) ++ le_bytes 2 (t_status t) ++
            t_info t
  else b8 0xFE :: le_bytes 2 (t_warnings t) ++ le_bytes 2 (t_status t).

Lemma encode_term_facts d t :
  term_ok t -> isTerminator (encode_term d t) d = true /\
  resultStatus (encode_term d t) d = Ok (t_status t) /\ zlen (encode_term d t) < maxPacket.
Proof.
  intros (Hs & Ha & Hi & Hn).
  assert (Hst : starts (encode_term d t) pktEOF = true).
  { unfold encode_term. by destruct d. }
  unfold isTerminator, resultStatus. rewrite Hst. cbn [negb andb].
  pose proof (lenenc_range (t_affected t)) as La. pose proof (lenenc_range (t_insert_id t)) as Li.
  destruct d; cbn [encode_term orb negb].
  - split; [done|]. split; [|rewrite zlen_cons, !zlen_app, zlen_le_bytes; unfold maxPacket; lia].
    change (b8 0xFE :: lenenc (t_affected t) ++ lenenc (t_insert_id t) ++ le_bytes 2 (t_status t) ++ t_info t)
      with ([b8 0xFE] ++ lenenc (t_affected t) ++ lenenc (t_insert_id t) ++
            le_bytes 2 (t_status t) ++ t_info t).
    rewrite readLenEncInt_lenenc by done. cbn [gbind]. rewrite app_assoc.
    rewrite readLenEncInt_lenenc by (done || by rewrite zlen_app). cbn [gbind]. rewrite app_assoc.
    rewrite (proj2 (Z.leb_le _ _)); cycle 1.
    { rewrite !zlen_app, zlen_le_bytes, zlen_cons, zlen_nil. pose proof (zlen_nonneg (t_info t)). lia. }
    rewrite le_at_app; [|by rewrite !zlen_app, zlen_cons, zlen_nil|apply length_le_bytes].
    by rewrite le_val_le_bytes, Z.mod_small by lia.
  - split; [by rewrite zlen_cons, zlen_app, !zlen_le_bytes|].
    split; [|by rewrite zlen_cons, zlen_app, !zlen_le_bytes].
    rewrite zlen_cons, zlen_app, !zlen_le_bytes. rewrite (proj2 (Z.leb_le _ _)) by lia.
    change (b8 0xFE :: le_bytes 2 (t_warnings t) ++ le_bytes 2 (t_status t))
      with ([b8 0xFE] ++ le_bytes 2 (t_warnings t) ++ le_bytes 2 (t_status t)).
    rewrite app_assoc, <- (app_nil_r (le_bytes 2 (t_status t))).
    rewrite le_at_app; [|by rewrite !zlen_app, zlen_le_bytes|apply length_le_bytes].
    by rewrite le_val_le_bytes, Z.mod_small by lia.
Qed.

(** *** One result set *)

Record rset := mkRset {
  rs_seq : byte;                         (* of the column count *)
  rs_cols : list (byte * coldef);
  rs_eof : byte * bytes;                 (* after the columns, without DEPRECATE_EOF *)
  rs_rows : list (byte * row);
  rs_end : byte * term;
}.

Definition more_of (t : term) : bool := negb (Z.land (t_status t) statusMoreResults =? 0).

Definition columns_of (rs : rset) : list Column :=
  map (fun '(_, c) => mkCol (cd_name c) true) (rs_cols rs).

Definition rset_ok (d : bool) (rs : rset) : Prop :=
  1 <= zlen (rs_cols rs) < 2 ^ 32 /\
  Forall (fun '(_, c) => length (cd_head c) = 4%nat /\ zlen (encode_coldef c) < maxPacket) (rs_cols rs) /\
  (d = false -> zlen (snd (rs_eof rs)) < maxPacket) /\
  Forall (fun '(_, r) => zlen (encode_text_row r) < maxPacket) (rs_rows rs) /\
  term_ok (snd (rs_end rs)).

Definition cols_packets (cs : list (byte * coldef)) : list (byte * bytes) :=
  map (fun '(seq, c) => (seq, encode_coldef c)) cs.

(** The packets of a result set, with [f] applied to the rows; the column count comes first. *)
Definition rset_tail (d : bool) (f : row -> bytes) (rs : rset) : list (byte * bytes) :=
  cols_packets (rs_cols rs) ++ (if d then [] else [rs_eof rs]) ++
  map (fun '(seq, r) => (seq, f r)) (rs_rows rs) ++
  [(fst (rs_end rs), encode_term d (snd (rs_end rs)))].

Definition rset_head (rs : rset) : bytes := lenenc (zlen (rs_cols rs)).

(** The rows as they leave the proxy when [after] bytes of the stream follow them: each by the masker in
    force once it has been read. *)
Fixpoint rows_out (mk : nat -> masker) (cols : list Column) (rows : list (byte * row)) (after : nat)
    : list (byte * bytes) :=
  match rows with
  | [] => []
  | (seq, r) :: rest =>
      let left := (length (wire (map (fun '(seq, r) => (seq, encode_text_row r)) rest)) + after)%nat in
      (seq, masked_payload (mk left) cols r) :: rows_out mk cols rest after
  end.

Definition rset_out (d : bool) (mk : nat -> masker) (rs : rset) (after : nat) : list (byte * bytes) :=
  let last := (fst (rs_end rs), encode_term d (snd (rs_end rs))) in
  (rs_seq rs, rset_head rs) :: cols_packets (rs_cols rs) ++ (if d then [] else [rs_eof rs]) ++
  rows_out mk (columns_of rs) (rs_rows rs) (length (wire [last]) + after) ++ [last].

Definition rset_packets (d : bool) (f : row -> bytes) (rs : rset) : list (byte * bytes) :=
  (rs_seq rs, rset_head rs) :: rset_tail d f rs.


Lemma read_columns_spec cs : forall fuel i n cols s out rest e,
  Forall (fun '(_, c) => length (cd_head c) = 4%nat /\ zlen (encode_coldef c) < maxPacket) cs ->
  n = i + zlen cs -> (length cs < fuel)%nat ->
  pipe_at (wire (cols_packets cs) ++ rest) e out s ->
  exists s', read_columns fuel i n cols s =
      (Ok (Some (cols ++ map (fun '(_, c) => mkCol (cd_name c) true) cs)), s') /\
    pipe_at rest e (out ++ wire (cols_packets cs)) s'.
Proof.
  induction cs as [|[seq c] cs IH]; intros fuel i n cols s out rest e Hcs -> Hk Hs;
    (destruct fuel as [|k]; [simpl in Hk; lia|]); cbn [read_columns].
  { rewrite zlen_nil, Z.add_0_r, Z.ltb_irrefl. exists s. unfold cols_packets, wire in *.
    cbn [map concat] in *. rewrite !app_nil_r. by split. }
  inversion Hcs as [|? ? Hh Hcs']; subst. cbn beta iota in Hh. destruct Hh as [H4 Hl].
  pose proof (zlen_nonneg cs). rewrite zlen_cons, (proj2 (Z.ltb_lt _ _)) by lia.
  unfold cols_packets in *. cbn [map] in *. rewrite packets_cons in *.
  rewrite <- app_assoc in Hs.
  destruct (read_at _ _ _ _ _ _ Hs Hl) as (s1 & H1 & Hs1). rewrite (sbind_ok _ _ _ _ _ H1).
  cbn [p_full p_payload p_seq].
  rewrite columnName_encode by (done || (unfold maxPacket in Hl; lia)).
  unfold sbind at 1, slift at 1. destruct (write_at seq (encode_coldef c) _ _ _ _ Hs1) as (s2 & H2 & Hs2).
  rewrite (sbind_ok _ _ _ _ _ H2).
  destruct (IH k (i + 1) (i + (1 + zlen cs)) (cols ++ [mkCol (cd_name c) true]) s2 _ _ _ Hcs'
    ltac:(lia) ltac:(simpl in Hk; lia) Hs2) as (s3 & H3 & Hs3).
  exists s3. rewrite H3. rewrite <- !app_assoc in *. by split.
Qed.

Lemma mask_rows_spec mk d cols t tseq (Hm : forall n, MaskerOk (mk n)) (Ht : term_ok t) rows :
  forall fuel s out rest e,
  Forall (fun '(_, r) => zlen (encode_text_row r) < maxPacket) rows -> (length rows < fuel)%nat ->
  pipe_at (wire (map (fun '(seq, r) => (seq, encode_text_row r)) rows ++ [(tseq, encode_term d t)])
           ++ rest) e out s ->
  exists s', mask_rows mk d fuel cols s = (Ok (Some (more_of t)), s') /\
    pipe_at rest e (out ++ wire (rows_out mk cols rows (length (wire [(tseq, encode_term d t)]) + length rest) ++
                                 [(tseq, encode_term d t)])) s'.
Proof.
  destruct (encode_term_facts d t Ht) as (Hterm & Hstat & Htl).
  induction rows as [|[seq r] rows IH]; intros fuel s out rest e Hrows Hk Hs;
    (destruct fuel as [|k]; [simpl in Hk; lia|]); cbn [mask_rows map app rows_out] in *;
    rewrite packets_cons, <- app_assoc in Hs.
  { destruct (read_at _ _ _ _ _ _ Hs Htl) as (s1 & H1 & Hs1). rewrite (sbind_ok _ _ _ _ _ H1).
    cbn [p_full p_payload p_seq]. rewrite Hterm, Hstat. unfold sbind at 1, slift at 1.
    destruct (write_at tseq (encode_term d t) _ _ _ _ Hs1) as (s2 & H2 & Hs2).
    rewrite (sbind_ok _ _ _ _ _ H2). exists s2. rewrite packets_cons. unfold wire. cbn [map concat].
    by rewrite app_nil_r. }
  inversion Hrows as [|? ? Hl Hrows']; subst. cbn beta iota in Hl.
  destruct (read_at _ _ _ _ _ _ Hs Hl) as (s1 & H1 & Hs1). rewrite (sbind_ok _ _ _ _ _ H1).
  cbn [p_full p_payload p_seq]. unfold maxPacket in Hl. rewrite row_not_terminator by lia.
  set (left := (length (wire (map (fun '(seq, r) => (seq, encode_text_row r)) rows)) +
               (length (wire [(tseq, encode_term d t)]) + length rest))%nat).
  assert (Hleft : length (rbuf (p_in s1)) = left).
  { destruct Hs1 as (-> & _). cbn [rbuf]. rewrite wire_app, !length_app. subst left. lia. }
  unfold sbind at 1, mask_now. rewrite Hleft, maskTextRow_encode by (done || lia).
  assert (Hstep : exists s', (on_bw (writePacketBuf seq (masked_payload (mk left) cols r)) ;;;
            mask_rows mk d k cols) s1 = (Ok (Some (more_of t)), s') /\
    pipe_at rest e (out ++ wire ((seq, masked_payload (mk left) cols r) ::
       rows_out mk cols rows (length (wire [(tseq, encode_term d t)]) + length rest) ++ [(tseq, encode_term d t)])) s').
  { destruct (write_at seq (masked_payload (mk left) cols r) _ _ _ _ Hs1) as (s2 & H2 & Hs2).
    rewrite (sbind_ok _ _ _ _ _ H2).
    destruct (IH k s2 _ _ _ Hrows' ltac:(simpl in Hk; lia) Hs2) as (s3 & H3 & Hs3).
    exists s3. rewrite packets_cons, app_assoc. by split. }
  unfold masked_payload in Hstep at 1. by destruct (mk left (row_columns (length r) cols) r).
Qed.

Lemma rset_head_facts rs d :
  rset_ok d rs ->
  zlen (rset_head rs) < maxPacket /\ rset_head rs <> [] /\
  starts (rset_head rs) pktOK = false /\ starts (rset_head rs) pktERR = false /\
  starts (rset_head rs) pktLocalInfile = false /\
  readLenEncInt (rset_head rs) 0 = Ok (Some (zlen (rs_cols rs), zlen (rset_head rs))).
Proof.
  intros ([H1 H2] & _). unfold rset_head.
  pose proof (lenenc_range (zlen (rs_cols rs))).
  pose proof (readLenEncInt_lenenc [] (zlen (rs_cols rs)) [] 0 eq_refl ltac:(lia)) as Hr.
  rewrite app_nil_r in Hr. cbn [app] in Hr.
  destruct (lenenc_head (zlen (rs_cols rs)) ltac:(lia)) as (b & t & Hb & Hc).
  assert (Hst : forall z, u8 b <> z -> starts (lenenc (zlen (rs_cols rs))) z = false).
  { intros z Hz. rewrite Hb. cbn [starts]. by apply Z.eqb_neq. }
  split; [unfold maxPacket; lia|]. split; [by rewrite Hb|].
  unfold pktOK, pktERR, pktLocalInfile. split_and!; try (apply Hst; lia). done.
Qed.

Lemma handleOneResultSet_spec mk d rs s out rest e :
  (forall n, MaskerOk (mk n)) -> rset_ok d rs ->
  pipe_at (wire (rset_tail d encode_text_row rs) ++ rest) e out s ->
  exists s', handleOneResultSet mk d (rs_seq rs) (rset_head rs) s =
      (Ok (more_of (snd (rs_end rs)), false), s') /\
    pipe_at rest e (out ++ wire (rset_out d mk rs (length rest))) s'.
Proof.
  intros Hm Hok Hs. destruct (rset_head_facts rs d Hok) as (Hl & Hne & S1 & S2 & S3 & Hr).
  destruct Hok as ([Hc1 Hc2] & Hcs & Heof & Hrows & Hterm).
  unfold handleOneResultSet. rewrite bool_decide_eq_false_2 by done. rewrite S1, S2, S3. cbn [orb].
  rewrite Hr. unfold sbind at 1, slift at 1.
  assert (Hfuel : (length (rs_cols rs) + length (rs_rows rs) < S (length (rbuf (p_in s))))%nat).
  { destruct Hs as (-> & _). cbn [rbuf]. unfold rset_tail, cols_packets.
    rewrite length_app, !wire_app, !length_app.
    assert (Hw : forall {T} (f : T -> byte * bytes) l, (length l <= length (wire (map f l)))%nat).
    { intros T f l. induction l as [|x l IH]; [done|]. cbn [map]. destruct (f x) as [q p].
      rewrite packets_cons, length_app, packet_length. simpl. lia. }
    pose proof (Hw _ (fun '(seq, c) => (seq, encode_coldef c)) (rs_cols rs)).
    pose proof (Hw _ (fun '(seq, r) => (seq, encode_text_row r)) (rs_rows rs)). lia. }
  destruct (write_at (rs_seq rs) (rset_head rs) _ _ _ _ Hs) as (s1 & H1 & Hs1).
  rewrite (sbind_ok _ _ _ _ _ H1).
  assert (make_ok sizeof_Column (zlen (rs_cols rs)) = true) as ->.
  { unfold make_ok, sizeof_Column, max_alloc. rewrite !(proj2 (Z.leb_le _ _)) by lia. done. }
  cbn [negb]. unfold rset_tail in Hs1. rewrite wire_app, <- app_assoc in Hs1.
  destruct (read_columns_spec (rs_cols rs) (S (length (rbuf (p_in s)))) 0 (zlen (rs_cols rs)) [] s1 _ _ _
    Hcs ltac:(lia) ltac:(lia) Hs1) as (s2 & H2 & Hs2).
  rewrite (sbind_ok _ _ _ _ _ H2). cbn [app]. fold (columns_of rs).
  assert (Hmid : exists s3, (if d then sret tt
             else let! e := on_rd readPacket in on_bw (writePacketBuf (p_seq e) (p_payload e))) s2 =
             (Ok tt, s3) /\ pipe_at (wire (map (fun '(seq, r) => (seq, encode_text_row r)) (rs_rows rs) ++
               [(fst (rs_end rs), encode_term d (snd (rs_end rs)))]) ++ rest) e
             ((out ++ packet (rs_seq rs) (rset_head rs)) ++ wire (cols_packets (rs_cols rs)) ++
              wire (if d then [] else [rs_eof rs])) s3).
  { destruct d.
    - exists s2. cbn [app] in Hs2. unfold wire at 3. cbn [map concat]. rewrite app_nil_r. by split.
    - destruct (rs_eof rs) as [eseq ep] eqn:He. cbn [app] in Hs2. rewrite packets_cons, <- app_assoc in Hs2.
      destruct (read_at _ _ _ _ _ _ Hs2 (Heof eq_refl)) as (s3 & H3 & Hs3).
      destruct (write_at eseq ep _ _ _ _ Hs3) as (s4 & H4 & Hs4). exists s4.
      rewrite (sbind_ok _ _ _ _ _ H3). split; [done|].
      unfold wire at 3. cbn [map concat]. by rewrite app_nil_r, app_assoc. }
  destruct Hmid as (s3 & H3 & Hs3). rewrite (sbind_ok _ _ _ _ _ H3).
  destruct (mask_rows_spec mk d (columns_of rs) _ _ Hm Hterm (rs_rows rs)
    (S (length (rbuf (p_in s)))) s3 _ _ _ Hrows ltac:(lia) Hs3) as (s4 & H4 & Hs4).
  rewrite (sbind_ok _ _ _ _ _ H4). exists s4. split; [done|].
  unfold rset_out. rewrite packets_cons, !wire_app. rewrite wire_app in Hs4. by rewrite <- !app_assoc in *.
Qed.
