(* ===== verification/MyWireProps.v ===== *)
(** * What the MySQL wire engine guarantees *)
From S2P Require Import Prelude Go GoStr GoIO ConnFacts Mask MyWire MyWireFacts.
Open Scope Z_scope.

(** ** Codecs *)

(** A length-encoded integer is read back wherever it stands in a packet, for every 64-bit
    value, with the number of bytes it took. *)
Theorem lenenc_roundtrip (pre post : bytes) (v : Z) (Hv : 0 <= v < 2 ^ 64) :
  readLenEncInt (appendLenEncInt pre v ++ post) (zlen pre) =
  Ok (Some (v, zlen (appendLenEncInt pre v) - zlen pre)).
Proof.
  rewrite appendLenEncInt_app, <- app_assoc, readLenEncInt_lenenc by done.
  rewrite zlen_app. do 3 f_equal. lia.
Qed.

Lemma lenenc_roundtrip_witness :
  readLenEncInt (appendLenEncInt (str "ab") 70000 ++ str "c") 2 = Ok (Some (70000, 4)).
Proof. apply (lenenc_roundtrip (str "ab") (str "c") 70000). lia. Defined.

(** A text row is decoded to its values, masked, and re-encoded: for every row that fits a
    packet and every masker that keeps the contract, the outcome is the encoding of what the masker
    makes of exactly these values, or a refusal (the caller then forwards the row) when it fails. *)
Theorem maskTextRow_spec (m : masker) (cols : list Column) (r : row)
    (Hm : MaskerOk m) (Hl : zlen (encode_text_row r) <= 0xFFFFFF) :
  maskTextRow (encode_text_row r) cols m =
  match m (row_columns (length r) cols) r with
  | Ok r' => Ok (Some (encode_text_row r'))
  | _ => Ok None
  end.
Proof. by apply maskTextRow_encode. Qed.

Lemma maskTextRow_spec_witness :
  maskTextRow (encode_text_row [Some (str "a"); None]) [] Noop =
  Ok (Some (encode_text_row [Some (str "a"); None])).
Proof. apply (maskTextRow_spec Noop [] [Some (str "a"); None] Noop_ok). by vm_compute. Defined.

(** A length of [2^63] or more is negative as an [int]. *)
Lemma wrap64_negative l : 2 ^ 63 <= l < 2 ^ 64 -> wrap64 l = l - 2 ^ 64.
Proof.
  intros Hl. unfold wrap64. rewrite (Z.mod_eq _ _) by lia.
  assert ((l + 2 ^ 63) / 2 ^ 64 = 1) as ->; [|lia].
  symmetry. apply (Z.div_unique_pos _ _ _ (l - 2 ^ 63)); lia.
Qed.

(** The decoder of rows crashes on a row whose first field announces a length of [2^63] or
    more, whatever follows: the signed sum passes the bounds check and [make] panics. *)
Theorem maskTextRow_negative_length (l : Z) (rest : bytes) (cols : list Column) (m : masker)
    (Hl : 2 ^ 63 <= l < 2 ^ 64) :
  maskTextRow (appendLenEncInt [] l ++ rest) cols m = Panic.
Proof.
  unfold maskTextRow. cbn [text_values]. pose proof (lenenc_range l) as Hr.
  destruct (lenenc_head l ltac:(lia)) as (b & t & Hb & Hc).
  assert (Hfe : u8 b = 0xFE).
  { unfold lenenc, appendLenEncInt in Hb. cbn [app] in Hb.
    rewrite !(proj2 (Z.ltb_ge l _)), !(proj2 (Z.leb_gt _ _)) in Hb by lia.
    injection Hb as <- _. done. }
  fold (lenenc l). pose proof (zlen_nonneg rest).
  rewrite (proj2 (Z.ltb_lt _ _)) by (rewrite zlen_app; lia).
  assert (index (lenenc l ++ rest) 0 = Ok b) as -> by by rewrite Hb.
  cbn [gbind]. rewrite Hfe. cbn [Z.eqb Pos.eqb].
  pose proof (readLenEncInt_lenenc [] l rest 0 eq_refl ltac:(lia)) as Hd. cbn [app] in Hd.
  rewrite Hd. cbn [gbind]. rewrite (wrap64_negative l), wrap64_small by lia.
  rewrite Z.gtb_ltb, (proj2 (Z.ltb_ge _ _)) by (rewrite zlen_app; lia).
  unfold make_ok, max_alloc. rewrite andb_comm, (proj2 (Z.leb_gt _ _)) by lia. done.
Qed.

Lemma maskTextRow_negative_length_witness :
  maskTextRow (appendLenEncInt [] (2 ^ 63) ++ str "x") [] Noop = Panic.
Proof. apply maskTextRow_negative_length. lia. Defined.

Lemma readLenEncInt_inv p off r :
  0 <= off -> readLenEncInt p off = r ->
  r = Ok None \/ exists v n, r = Ok (Some (v, n)) /\ 0 <= v < 2 ^ 64 /\ 1 <= n <= 9 /\
                             off + n <= zlen p.
Proof.
  intros Ho <-. unfold readLenEncInt. rewrite Z.geb_leb. destruct (_ <=? _) eqn:E; [by left|].
  apply Z.leb_gt in E. destruct (index_ok p off ltac:(lia)) as (b & -> & _). cbn [gbind].
  pose proof (u8_range b) as Hb.
  assert (Hw : forall k : nat, (k <= 8)%nat -> off + 1 + Z.of_nat k <= zlen p ->
    exists v, le_at k p (off + 1) = Ok v /\ 0 <= v < 2 ^ 64).
  { intros k Hk Hle. rewrite le_at_ok by lia. eexists. split; [done|].
    pose proof (le_val_range (take k (drop (Z.to_nat (off + 1)) p))) as Hv.
    assert ((length (take k (drop (Z.to_nat (off + 1)) p)) <= k)%nat) by (rewrite length_take; lia).
    assert (256 ^ Z.of_nat (length (take k (drop (Z.to_nat (off + 1)) p))) <= 256 ^ 8)
      by (apply Z.pow_le_mono_r; lia).
    change (256 ^ 8) with (2 ^ 64) in *. lia. }
  destruct (u8 b <? 0xFB) eqn:E1.
  { right. exists (u8 b), 1. split_and!; lia || done. }
  destruct (u8 b =? 0xFC).
  { rewrite Z.gtb_ltb. destruct (zlen p <? _) eqn:E2; [by left|]. apply Z.ltb_ge in E2.
    destruct (Hw 2%nat ltac:(lia) ltac:(lia)) as (v & -> & ?). right. exists v, 3. split_and!; done || lia. }
  destruct (u8 b =? 0xFD).
  { rewrite Z.gtb_ltb. destruct (zlen p <? _) eqn:E2; [by left|]. apply Z.ltb_ge in E2.
    destruct (Hw 3%nat ltac:(lia) ltac:(lia)) as (v & -> & ?). right. exists v, 4. split_and!; done || lia. }
  destruct (u8 b =? 0xFE); [|by left].
  rewrite Z.gtb_ltb. destruct (zlen p <? _) eqn:E2; [by left|]. apply Z.ltb_ge in E2.
  destruct (Hw 8%nat ltac:(lia) ltac:(lia)) as (v & -> & ?). right. exists v, 9. split_and!; done || lia.
Qed.

(** The decoding loop terminates, and crashes on an oversized length only. *)
Definition oversized (p : bytes) : Prop :=
  exists o v n, readLenEncInt p o = Ok (Some (v, n)) /\ 2 ^ 62 <= v.

Lemma text_values_returns fuel : forall p off,
  0 <= off -> zlen p <= maxPacket -> (Z.to_nat (zlen p - off) < fuel)%nat ->
  returns (text_values fuel p off) \/ (text_values fuel p off = Panic /\ oversized p).
Proof.
  unfold maxPacket. induction fuel as [|k IH]; intros p off Ho Hp Hk; [lia|]. cbn [text_values].
  destruct (off <? zlen p) eqn:E; [|by left]. apply Z.ltb_lt in E.
  destruct (index_ok p off ltac:(lia)) as (b & -> & _). cbn [gbind].
  assert (Hrec : forall v off', off < off' ->
    returns (let? rest := text_values k p off' in Ok (cons v <$> rest)) \/
    ((let? rest := text_values k p off' in Ok (cons v <$> rest)) = Panic /\ oversized p)).
  { intros v off' Hoff. destruct (IH p off' ltac:(lia) Hp ltac:(lia)) as [Hr|[-> Hr]]; [|by right].
    left. by apply returns_gbind. }
  destruct (u8 b =? 0xFB); [by apply Hrec; lia|].
  destruct (readLenEncInt_inv p off _ Ho eq_refl) as [->|(l & n & Hl & Hv & Hn & Hle)]; [by left|].
  rewrite Hl. cbn [gbind]. destruct (decide (l < 2 ^ 62)) as [Hs|Hs].
  - rewrite (wrap64_small l), wrap64_small by lia. rewrite Z.gtb_ltb.
    destruct (_ <? _) eqn:E3; [by left|]. apply Z.ltb_ge in E3.
    assert (make_ok 1 l = true) as ->.
    { unfold make_ok, max_alloc. rewrite !(proj2 (Z.leb_le _ _)) by lia. done. }
    cbn [negb]. rewrite slice_ok by lia. cbn [gbind]. apply Hrec. lia.
  - destruct (_ >? _); [by left|].
    assert (make_ok 1 l = false) as ->.
    { unfold make_ok, max_alloc. rewrite andb_comm, (proj2 (Z.leb_gt _ _)) by lia. done. }
    right. split; [done|]. exists off, l, n. split; [done|lia].
Qed.

(** That is the only way the row decoder can crash: on every packet it returns, unless the
    packet announces a length of [2^62] or more; the loop always terminates. *)
Theorem maskTextRow_returns (p : bytes) (cols : list Column) (m : masker)
    (Hm : MaskerOk m) (Hp : zlen p <= maxPacket) :
  returns (maskTextRow p cols m) \/ (maskTextRow p cols m = Panic /\ oversized p).
Proof.
  unfold maskTextRow. pose proof (zlen_nonneg p).
  destruct (text_values_returns (S (length p)) p 0 ltac:(lia) Hp) as [Hr|[-> Ho]];
    [unfold zlen; lia| |by right].
  left. destruct (text_values _ _ _) as [[vals|]|e| |]; try done. cbn [gbind].
  pose proof (mask_returns (m := m) (row_columns (length vals) cols) vals) as Hmr.
  destruct (m _ vals) as [r'|e| |]; try done. by case_decide.
Qed.

Lemma maskTextRow_returns_witness :
  returns (maskTextRow (str "garbage") [] Noop) \/
  (maskTextRow (str "garbage") [] Noop = Panic /\ oversized (str "garbage")).
Proof. apply (maskTextRow_returns (str "garbage") [] Noop Noop_ok). by vm_compute. Defined.

(** ** Responses *)

(** The packets of the result sets of one response. *)
Definition response (d : bool) (f : rset -> row -> bytes) (rss : list rset) : list (byte * bytes) :=
  concat (map (fun rs => rset_packets d (f rs) rs) rss).

(** Every terminator but the last announces another result set. *)
Fixpoint chained (rs : rset) (rss : list rset) : Prop :=
  match rss with
  | [] => more_of (snd (rs_end rs)) = false
  | rs' :: rest => more_of (snd (rs_end rs)) = true /\ chained rs' rest
  end.

Definition verbatim (rs : rset) : row -> bytes := encode_text_row.

(** The same packets as the proxy sends them, when [after] bytes of the stream follow the response. *)
Fixpoint response_out (d : bool) (mk : nat -> masker) (rss : list rset) (after : nat) : list (byte * bytes) :=
  match rss with
  | [] => []
  | rs :: rest => rset_out d mk rs (length (wire (response d verbatim rest)) + after) ++
                  response_out d mk rest after
  end.

Lemma result_sets_spec mk d rss : (forall n, MaskerOk (mk n)) -> forall rs fuel s out rest e,
  Forall (rset_ok d) (rs :: rss) -> chained rs rss -> (length rss < fuel)%nat ->
  pipe_at (wire (rset_tail d encode_text_row rs ++ response d verbatim rss) ++ rest) e out s ->
  exists s', result_sets mk d fuel (rs_seq rs) (rset_head rs) s = (Ok tt, s') /\
    pipe_at rest e (out ++ wire (response_out d mk (rs :: rss) (length rest))) s'.
Proof.
  intros Hm. induction rss as [|rs' rss IH]; intros rs fuel s out rest e Hok Hch Hk Hs;
    (destruct fuel as [|k]; [simpl in Hk; lia|]); cbn [result_sets];
    inversion Hok as [|? ? Hok1 Hok2]; subst; rewrite wire_app, <- app_assoc in Hs;
    destruct (handleOneResultSet_spec mk d rs s _ _ _ Hm Hok1 Hs) as (s1 & H1 & Hs1);
    rewrite (sbind_ok _ _ _ _ _ H1); cbn beta iota.
  - cbn [chained] in Hch. rewrite Hch. cbn [negb orb]. exists s1. split; [done|].
    cbn [response_out app]. unfold response in *. cbn [map concat app] in *. by rewrite app_nil_r.
  - destruct Hch as [Hmore Hch]. rewrite Hmore. cbn [negb orb].
    inversion Hok2 as [|? ? Hok' _]; subst. destruct (rset_head_facts rs' d Hok') as (Hl & _).
    rewrite length_app in Hs1. remember (length (wire (response d verbatim (rs' :: rss)))) as n eqn:Hn in Hs1.
    unfold response in Hs1. cbn [map concat] in Hs1. fold (response d verbatim rss) in Hs1.
    unfold rset_packets at 1 in Hs1. cbn [app] in Hs1. rewrite packets_cons, <- app_assoc in Hs1.
    destruct (read_at _ _ _ _ _ _ Hs1 Hl) as (s2 & H2 & Hs2). rewrite (sbind_ok _ _ _ _ _ H2).
    cbn [p_seq p_payload].
    destruct (IH rs' k s2 _ _ _ Hok2 Hch ltac:(simpl in Hk; lia) Hs2) as (s3 & H3 & Hs3).
    exists s3. split; [done|]. cbn [response_out] in *.
    by rewrite <- Hn, !wire_app, <- !app_assoc in *.
Qed.

(** The number of result sets is bounded by the bytes of the stream. *)
Lemma response_length d f rss : (length rss <= length (wire (response d f rss)))%nat.
Proof.
  induction rss as [|rs rss IH]; [done|]. unfold response in *. cbn [map concat length].
  rewrite wire_app, length_app. unfold rset_packets at 1. rewrite packets_cons, length_app, packet_length.
  lia.
Qed.

(** C4: when a query token is pending, a whole response, made of one or more result sets of either
    terminator style, reaches the client packet for packet with its sequence ids: column counts,
    column definitions and terminators as they came, and every row as the masker in force at that
    moment (its rules may change from row to row) rewrites it under the columns the definitions name;
    a row is forwarded as it came, unmasked, exactly when the masker fails on it or when the masked
    row would need more than one packet. The relay then stands right behind the response, everything
    is flushed, and one token is consumed. *)
Theorem relay_command_masks (mk : nat -> masker) (d : bool) (buffered : bytes -> Z) (rs : rset)
    (rss : list rset) (s : sess) (out rest : bytes) (e : gerr)
    (Hm : forall n, MaskerOk (mk n)) (Hok : Forall (rset_ok d) (rs :: rss)) (Hch : chained rs rss)
    (Hq : 0 < queries s) (Hoff : offset s = 0) (Hend : s_end s = None)
    (Hhold : s_hold s = Some (mkPkt (rs_seq rs) (rset_head rs) false))
    (Hdn : pipe_at (wire (rset_tail d encode_text_row rs ++ response d verbatim rss) ++ rest) e out
                   (dn s)) :
  let s' := serverToClient d buffered mk s in
  wout (bwr (p_bw (dn s'))) = out ++ wire (response_out d mk (rs :: rss) (length rest)) /\
  p_in (dn s') = mkRd rest e /\ queries s' = queries s - 1 /\ s_hold s' = None /\ s_end s' = None /\
  forall n cols r,
    let p := masked_payload (mk n) cols r in
    match mk n (row_columns (length r) cols) r with
    | Ok r' => p = encode_text_row r' /\ zlen p < maxPacket \/
               p = encode_text_row r /\ maxPacket <= zlen (encode_text_row r')
    | _ => p = encode_text_row r
    end.
Proof.
  unfold serverToClient. rewrite Hend, Hhold, Hoff. cbn [Z.eqb negb].
  unfold relay_command. rewrite (proj2 (Z.ltb_lt _ _)) by done. cbn [p_full p_seq p_payload negb andb].
  unfold handleResultResponse.
  destruct (result_sets_spec mk d rss Hm rs (S (length (rbuf (p_in (dn s))))) (dn s) out rest e Hok Hch)
    as (s1 & H1 & Hi & Ho & Hg); [|done|].
  { destruct Hdn as (-> & _). cbn [rbuf]. pose proof (response_length d verbatim rss).
    rewrite wire_app, !length_app. lia. }
  rewrite H1. unfold on_bw, zoom. destruct (Flush_good (p_bw s1) Hg) as (b & Hf & Hgb). rewrite Hf.
  destruct (Flush_spec _ _ _ Hf) as (_ & Hw & _). destruct (Hw eq_refl) as (Hwo & _).
  cbn -[response_out masked_payload]. split_and!; try done; [by rewrite Hwo, Ho|].
  intros n cols r. unfold masked_payload. destruct (mk n _ r) as [r'|e'| |]; [|done..].
  destruct (Z.ltb_spec (zlen (encode_text_row r')) maxPacket); [left|right]; by split.
Qed.

(** A two-column result set under classic terminators, for the witness: one row, masked by the rules in
    force when it is read. *)
Definition demo_rset : rset :=
  mkRset (b8 1)
    [(b8 2, mkColdef [str "def"; []; []; []] (str "id") []);
     (b8 3, mkColdef [str "def"; []; []; []] (str "email") (str "meta"))]
    (b8 4, b8 0xFE :: le_bytes 4 0) [(b8 5, [Some (str "7"); Some (str "a@b")])]
    (b8 6, mkTerm 2 0 0 0 []).

#[local] Instance same_case : Unicode := {| lower_runes := fun s => s |}.

Definition demo_masker : masker := Overlay.MaskRow (Overlay.NewOverlay [(str "Email", str "[redacted]")]).

Definition demo_sess : sess :=
  mkSess (mkRd [] EEOF) (mkWr [] None)
    (mkPipe (mkRd (wire (rset_tail false encode_text_row demo_rset ++ response false verbatim []) ++ []) EEOF)
            (newWriter (mkWr [] None)))
    1 0 None (Some (mkPkt (rs_seq demo_rset) (rset_head demo_rset) false)) None None.

Lemma relay_command_masks_witness :
  wout (bwr (p_bw (dn (serverToClient false (fun _ => 0) (fun _ => demo_masker) demo_sess)))) =
  wire ((b8 1, [b8 2]) :: cols_packets (rs_cols demo_rset) ++
        [rs_eof demo_rset; (b8 5, encode_text_row [Some (str "7"); Some (str "[redacted]")]);
         (b8 6, encode_term false (mkTerm 2 0 0 0 []))]).
Proof.
  destruct (relay_command_masks (fun _ => demo_masker) false (fun _ => 0) demo_rset [] demo_sess [] [] EEOF)
    as (Hw & _).
  - intros _. apply Overlay_ok.
  - repeat (constructor; cbn [rs_cols rs_rows demo_rset fst snd]); by vm_compute.
  - vm_compute. reflexivity.
  - vm_compute. reflexivity.
  - reflexivity.
  - reflexivity.
  - reflexivity.
  - by vm_compute.
  - rewrite Hw. vm_compute. reflexivity.
Defined.

(** ** The relay towards the upstream *)

Lemma serverToClient_other d buffered m s :
  let s' := serverToClient d buffered m s in
  cb s' = cb s /\ uw s' = uw s /\ c_hold s' = c_hold s /\ c_end s' = c_end s /\
  (offset s' = offset s \/ offset s' = 0).
Proof.
  unfold serverToClient, serverToClient_read, relay_auth, relay_command.
  repeat case_match; cbn; split_and!; try done; auto.
Qed.

Definition shift (off : Z) (ps : list (byte * bytes)) : list (byte * bytes) :=
  map (fun '(seq, p) => (seq_add seq off, p)) ps.

Lemma shift_0 ps : shift 0 ps = ps.
Proof.
  unfold shift. induction ps as [|[seq p] ps IH]; [done|]. cbn [map]. rewrite IH. unfold seq_add.
  by rewrite Z.add_0_r, b8_u8.
Qed.

Lemma writePacket_unbounded seq p o :
  writePacket seq p (mkWr o None) = (Ok tt, mkWr (o ++ packet seq p) None).
Proof.
  unfold writePacket, sbind. rewrite Write_unbounded, Write_unbounded.
  by rewrite packet_split, <- app_assoc.
Qed.

(** Where the client's relay stands: what it has left to relay, one packet perhaps in hand. *)
Definition client_at (ps : list (byte * bytes)) (e : gerr) (s : sess) : Prop :=
  wroom (uw s) = None /\
  ((c_hold s = None /\ cb s = mkRd (wire ps) e /\ (c_end s = None \/ ps = [])) \/
   (exists seq p ps' full, ps = (seq, p) :: ps' /\ c_hold s = Some (mkPkt seq p full) /\
      cb s = mkRd (wire ps') e /\ c_end s = None)).

Definition turns_left (ps : list (byte * bytes)) (s : sess) : nat :=
  2 * length ps - match c_hold s with Some _ => 1 | None => 0 end.

Lemma clientToServer_step ps e s :
  Forall (fun '(_, p) => zlen p <= maxPacket) ps -> client_at ps e s ->
  let s' := clientToServer s in
  offset s' = offset s /\
  ((client_at ps e s' /\ uw s' = uw s /\ (turns_left ps s' <= turns_left ps s - 1)%nat) \/
   (exists seq p ps', ps = (seq, p) :: ps' /\ client_at ps' e s' /\
      wout (uw s') = wout (uw s) ++ packet (seq_add seq (offset s)) p /\
      (turns_left ps' s' <= turns_left ps s - 1)%nat)).
Proof.
  intros Hps [Hw [(Hh & Hcb & Hce)|(seq & p & ps' & full & -> & Hh & Hcb & Hce)]]; cbv zeta;
    unfold clientToServer.
  - destruct (c_end s) as [o|] eqn:He.
    { destruct Hce as [?| ->]; [done|]. split; [done|]. left. split; [|split; [done|unfold turns_left; rewrite Hh; simpl; lia]].
      split; [done|]. left. split_and!; auto. }
    rewrite Hh. unfold clientToServer_read. rewrite Hcb. destruct ps as [|[seq p] ps].
    + unfold wire. cbn [map concat]. unfold readPacket, sbind, ReadFull. cbn. split; [done|]. left.
      split; [|split; [done|]]; [|unfold turns_left; simpl; lia]. split; [done|]. left. by auto.
    + inversion Hps as [|? ? Hp _]; subst. rewrite packets_cons, readPacket_app by done. cbn.
      split; [done|]. left. split; [|split; [done|unfold turns_left; simpl; rewrite Hh; lia]].
      split; [done|]. right. by eexists _, _, _, _.
  - rewrite Hce, Hh. unfold clientToServer_write. cbn [p_seq p_payload].
    destruct (uw s) as [o room] eqn:Huw. cbn [wroom] in Hw. subst room.
    rewrite writePacket_unbounded. cbn. split; [done|]. right. exists seq, p, ps'. split; [done|].
    split; [|split; [done|unfold turns_left; simpl; rewrite Hh; lia]].
    split; [done|]. left. split_and!; auto.
Qed.

Lemma client_relay_spec d buffered mk e sched : forall ps s,
  Forall (fun '(_, p) => zlen p <= maxPacket) ps -> client_at ps e s ->
  exists j k, (j + k <= length ps)%nat /\
    wout (uw (relays d buffered mk sched s)) =
      wout (uw s) ++ wire (shift (offset s) (take j ps) ++ take k (drop j ps)) /\
    ((turns_left ps s <= length (filter (fun b => b = true) sched))%nat -> (j + k = length ps)%nat).
Proof.
  induction sched as [|[] sched IH]; intros ps s Hps Hs; cbn [relays].
  - exists O, O. cbn. rewrite app_nil_r. split_and!; [lia|done|]. unfold turns_left.
    destruct Hs as [_ [(Hh & _)|(seq & p & ps' & full & -> & Hh & _)]]; rewrite Hh; simpl; lia.
  - destruct (clientToServer_step ps e s Hps Hs) as [Ho [(Hc & Hu & Ht)|(seq & p & ps' & -> & Hc & Hu & Ht)]].
    + destruct (IH ps (clientToServer s) Hps Hc) as (j & k & Hjk & Hw & Hall).
      exists j, k. rewrite Hw, Hu, Ho. split_and!; [done|done|]. intros Hlen. apply Hall.
      rewrite filter_cons_True in Hlen by done. cbn [length] in Hlen. lia.
    + inversion Hps as [|? ? _ Hps']; subst.
      destruct (IH ps' (clientToServer s) Hps' Hc) as (j & k & Hjk & Hw & Hall).
      exists (S j), k. cbn [length take drop]. split; [lia|]. split.
      * rewrite Hw, Hu, Ho, <- app_assoc. unfold shift. cbn [map app]. by rewrite packets_cons.
      * intros Hlen. rewrite filter_cons_True in Hlen by done. cbn [length] in Hlen.
        rewrite Nat.add_succ_l. f_equal. apply Hall. lia.
  - pose proof (serverToClient_other d buffered mk s) as (Hcb & Hu & Hh & He & Ho).
    set (s1 := serverToClient d buffered mk s) in *.
    destruct (IH ps s1 Hps) as (j & k & Hjk & Hw & Hall).
    { unfold client_at in *. by rewrite Hcb, Hu, Hh, He. }
    assert (Ht : turns_left ps s1 = turns_left ps s) by (unfold turns_left; by rewrite Hh).
    rewrite filter_cons_False, <- Ht by done.
    destruct Ho as [Ho|Ho]; rewrite Hw, Hu, Ho; [by exists j, k|].
    exists O, (j + k)%nat. split_and!; [done| |done].
    rewrite shift_0. cbn [take shift map app]. rewrite drop_0. do 2 f_equal.
    by rewrite <- take_take_drop.
Qed.

(** C31: for every interleaving of the two relays, the upstream receives the client's packets
    complete, in order and unchanged but for the sequence id, which is shifted by the initial offset
    on a first stretch of the stream and not at all afterwards; once the client's relay has had two
    turns per packet, all of them. Without upstream TLS the relay is therefore verbatim. *)
Theorem client_relay (d : bool) (buffered : bytes -> Z) (mk : nat -> masker) (sched : list bool)
    (n : net) (off : Z) (ps : list (byte * bytes)) (e : gerr)
    (Hps : Forall (fun '(_, p) => zlen p <= maxPacket) ps)
    (Hin : c_in (cl n) = mkRd (wire ps) e) (Hroom : wroom (c_out (up n)) = None) :
  let s' := relays d buffered mk sched (initial n off) in
  exists j k, (j + k <= length ps)%nat /\
    wout (uw s') = wout (c_out (up n)) ++ wire (shift off (take j ps) ++ take k (drop j ps)) /\
    ((2 * length ps <= length (filter (fun b => b = true) sched))%nat -> (j + k = length ps)%nat).
Proof.
  destruct (client_relay_spec d buffered mk e sched ps (initial n off) Hps) as (j & k & H1 & H2 & H3).
  { split; [done|]. left. cbn. auto. }
  exists j, k. split_and!; [done|done|]. intros Hl. apply H3. unfold turns_left, initial. cbn [c_hold]. lia.
Qed.

Lemma client_relay_witness :
  let n := mkNet (plain_conn (wire [(b8 0, b8 3 :: str "select 1")]) EEOF) (plain_conn [] EEOF) in
  exists j k, (j + k)%nat = 1%nat /\
    wout (uw (relays false (fun _ => 0) (fun _ => Noop) [true; false; true] (initial n 0))) =
    wire (shift 0 (take j [(b8 0, b8 3 :: str "select 1")]) ++
          take k (drop j [(b8 0, b8 3 :: str "select 1")])).
Proof.
  destruct (client_relay false (fun _ => 0) (fun _ => Noop) [true; false; true]
    (mkNet (plain_conn (wire [(b8 0, b8 3 :: str "select 1")]) EEOF) (plain_conn [] EEOF)) 0
    [(b8 0, b8 3 :: str "select 1")] EEOF) as (j & k & _ & Hw & Hall).
  - constructor; [by vm_compute|done].
  - done.
  - done.
  - exists j, k. split; [apply Hall; vm_compute; lia|exact Hw].
Defined.

(** ** The connection phase over upstream TLS *)

Definition auth_result (p : bytes) : bool := starts p pktOK || starts p pktERR.

(** One packet of the phase takes the server's relay two turns: the read and the rewrite. *)
Lemma relay_auth_step d buffered m m' seq p rest e out s :
  c_hold s = None -> s_hold s = None -> s_end s = None -> offset s = 1 -> zlen p < maxPacket ->
  pipe_at (packet seq p ++ rest) e out (dn s) ->
  let s' := serverToClient d buffered m' (serverToClient d buffered m s) in
  s_hold s' = None /\ s_end s' = None /\ c_hold s' = None /\ queries s' = queries s /\
  offset s' = (if auth_result p then 0 else 1) /\
  pipe_at rest e (out ++ packet (seq_add seq (-1)) p) (dn s') /\
  wout (bwr (p_bw (dn s'))) = out ++ packet (seq_add seq (-1)) p.
Proof.
  intros Hc Hh He Ho Hp Hs. cbv zeta.
  destruct (read_at _ _ _ _ _ _ Hs Hp) as (d1 & H1 & Hd1).
  assert (serverToClient d buffered m s =
          mkSess (cb s) (uw s) d1 (queries s) 1 None (Some (mkPkt seq p false)) (c_end s) None) as ->.
  { unfold serverToClient. rewrite He, Hh. unfold serverToClient_read. by rewrite H1, Ho, Hc. }
  destruct (write_at (seq_add seq (-1)) p _ _ _ _ Hd1) as (d2 & H2 & Hi2 & Ho2 & Hg2).
  destruct (Flush_good (p_bw d2) Hg2) as (b & Hf & Hgb).
  destruct (Flush_spec _ _ _ Hf) as (_ & Hw & _). destruct (Hw eq_refl) as (Hwo & Hpe & _).
  unfold serverToClient. cbn [s_end s_hold offset Z.eqb negb].
  unfold relay_auth. cbn [p_payload p_seq dn]. rewrite (sbind_ok _ _ _ _ _ H2).
  unfold on_bw, zoom. rewrite Hf.
  cbn [with_dn s_hold s_end c_hold queries offset dn p_bw].
  split; [done|]. split; [done|]. split; [done|]. split; [done|]. split; [done|]. split.
  - unfold pipe_at. cbn. split_and!; [done| |done]. unfold ball. by rewrite Hwo, Hpe, app_nil_r, Ho2.
  - by rewrite Hwo, Ho2.
Qed.

Lemma connection_phase_spec d buffered mk auth fseq final rest e :
  zlen final < maxPacket /\ auth_result final = true -> forall s out,
  Forall (fun '(_, p) => zlen p < maxPacket /\ auth_result p = false) auth ->
  c_hold s = None /\ s_hold s = None /\ s_end s = None /\ offset s = 1 ->
  pipe_at (wire (auth ++ [(fseq, final)]) ++ rest) e out (dn s) ->
  let s' := relays d buffered mk (replicate (2 * S (length auth)) false) s in
  offset s' = 0 /\ p_in (dn s') = mkRd rest e /\ s_end s' = None /\
  wout (bwr (p_bw (dn s'))) = out ++ wire (shift (-1) (auth ++ [(fseq, final)])).
Proof.
  intros Hfin. cbv zeta. induction auth as [|[seq p] auth IH]; intros s out Hauth (Hc & Hh & He & Ho) Hdn;
    cbn [app length] in *; rewrite packets_cons, <- app_assoc in Hdn.
  - destruct Hfin as [Hl Ha]. cbn [Nat.mul Nat.add replicate relays].
    destruct (relay_auth_step d buffered mk mk fseq final _ _ _ s Hc Hh He Ho Hl Hdn)
      as (Hh' & He' & Hc' & _ & Ho' & (Hi & _) & Hw). rewrite Ha in Ho'.
    split_and!; [done|done|done|]. rewrite Hw. unfold shift, wire. cbn. by rewrite app_nil_r.
  - inversion Hauth as [|? ? Hpa Hauth']; subst. cbn beta iota in Hpa. destruct Hpa as [Hl Ha].
    destruct (relay_auth_step d buffered mk mk seq p _ _ _ s Hc Hh He Ho Hl Hdn)
      as (Hh' & He' & Hc' & _ & Ho' & Hp' & _). rewrite Ha in Ho'.
    replace (2 * S (S (length auth)))%nat with (S (S (2 * S (length auth)))) by lia.
    rewrite !replicate_S. cbn [relays].
    specialize (IH _ _ Hauth' (conj Hc' (conj Hh' (conj He' Ho'))) Hp').
    destruct IH as (I1 & I2 & I3 & I4). split_and!; [done..|].
    rewrite I4. unfold shift. cbn [map]. by rewrite packets_cons, <- app_assoc.
Qed.

(** After the proxy has inserted its SSL request, the packets of the upstream's login, up to and
    including the first OK or ERR, reach the client at once with their sequence ids taken back by
    one, so the client sees the numbering of a login without TLS; then the shift is off. *)
Theorem connection_phase (d : bool) (buffered : bytes -> Z) (mk : nat -> masker)
    (auth : list (byte * bytes)) (fseq : byte) (final rest : bytes) (e : gerr)
    (s : sess) (out : bytes)
    (Hauth : Forall (fun '(_, p) => zlen p < maxPacket /\ auth_result p = false) auth)
    (Hfin : zlen final < maxPacket /\ auth_result final = true)
    (Hst : c_hold s = None /\ s_hold s = None /\ s_end s = None /\ offset s = 1)
    (Hdn : pipe_at (wire (auth ++ [(fseq, final)]) ++ rest) e out (dn s)) :
  let s' := relays d buffered mk (replicate (2 * S (length auth)) false) s in
  offset s' = 0 /\ p_in (dn s') = mkRd rest e /\ s_end s' = None /\
  wout (bwr (p_bw (dn s'))) = out ++ wire (shift (-1) (auth ++ [(fseq, final)])).
Proof. by apply connection_phase_spec. Qed.

Lemma connection_phase_witness :
  let s := mkSess (mkRd [] EEOF) (mkWr [] None)
             (mkPipe (mkRd (wire [(b8 3, b8 0xFE :: str "mysql_native_password"); (b8 5, [b8 0])] ++ [])
                        EEOF) (newWriter (mkWr [] None))) 0 1 None None None None in
  offset (relays false (fun _ => 0) (fun _ => Noop) (replicate 4 false) s) = 0.
Proof.
  cbv zeta. match goal with |- offset (relays _ _ _ _ ?s) = 0 =>
    destruct (connection_phase false (fun _ => 0) (fun _ => Noop) [(b8 3, b8 0xFE :: str "mysql_native_password")]
      (b8 5) [b8 0] [] EEOF s []) as (H & _) end; [|by vm_compute|done| |exact H].
  - constructor; [by vm_compute|done].
  - by vm_compute.
Defined.

(** ** Upstream TLS *)

(** Negotiating TLS with the upstream. If the greeting advertises it and the client speaks the
    4.1 protocol, the only thing sent in the clear is the 32-byte SSL request, with the client's
    sequence id and CLIENT_SSL set: the fixed part of the response and none of the user name or
    authentication data behind it; the whole response follows inside TLS with the next id and the
    relay starts with offset 1. Otherwise a required TLS refuses without sending a byte, and a
    preferred one forwards the response as it came with offset 0. *)
Theorem startUpstreamTLS_spec (required : bool) (greeting : bytes) (cseq : byte) (cpayload : bytes)
    (caps : Z) (c : conn) (b : bool)
    (Hs : serverSupportsSSL greeting = Ok b) (Hroom : wroom (c_out c) = None) :
  let can := b && negb (Z.land caps capClientProtocol41 =? 0) && (sslRequestLen <=? zlen cpayload) in
  let caps' := Z.lor caps capClientSSL in
  let clear := wout (c_out c) ++ packet cseq (put_caps caps' (take 32 cpayload)) in
  let '(o, c') := startUpstreamTLS required greeting cseq cpayload caps c in
  if can then
    match c_hs c with
    | inr (r, None) :: hs =>
        o = Ok 1 /\ c' = mkConn r (mkWr (packet (seq_add cseq 1) (put_caps caps' cpayload)) None) true
                                (c_sent c ++ clear) hs
    | inl e :: _ => o = Err (EWrap "mysql: upstream TLS handshake failed: %w" e) /\
                    c_out c' = mkWr clear None /\ c_tls c' = c_tls c
    | _ => True
    end
  else if required then (exists msg, o = Err msg) /\ c' = c
  else o = Ok 0 /\ c' = mkConn (c_in c) (mkWr (wout (c_out c) ++ packet cseq cpayload) None) (c_tls c)
                               (c_sent c) (c_hs c).
Proof.
  cbv zeta. unfold startUpstreamTLS. unfold sbind at 1, slift at 1. rewrite Hs.
  destruct (b && _ && _) eqn:Hcan; cbn [negb]; cycle 1.
  { destruct required; [by unfold sfail; eauto|]. destruct c as [i [o room] tls snt hs]. cbn [c_out wroom] in Hroom.
    subst room. unfold sbind, on_out, zoom. cbn [c_out]. rewrite writePacket_unbounded. done. }
  change (Z.to_nat sslRequestLen) with 32%nat.
  destruct c as [i [o room] tls snt hs]. cbn [c_out wroom] in Hroom. subst room.
  unfold sbind at 1, on_out at 1, zoom. cbn [c_out c_in c_tls c_sent c_hs].
  rewrite writePacket_unbounded. unfold sbind at 1, Handshake. cbn [c_out c_in c_tls c_sent c_hs wout].
  destruct hs as [|[he|[r [room|]]] hs]; try done.
  - unfold sbind, on_out, zoom. by destruct (writePacket _ _ _) as [[]].
Qed.

(** A greeting that advertises CLIENT_SSL. *)
Definition demo_greeting : bytes :=
  b8 10 :: str "8.0" ++ [b8 0] ++ replicate 13 (b8 1) ++ le_bytes 2 capClientSSL.

Lemma startUpstreamTLS_spec_witness :
  let c := mkConn (mkRd [] EEOF) (mkWr [] None) false [] [] in
  snd (startUpstreamTLS true [] (b8 1) [] 0 c) = c.
Proof.
  pose proof (startUpstreamTLS_spec true [] (b8 1) [] 0
    (mkConn (mkRd [] EEOF) (mkWr [] None) false [] []) false eq_refl eq_refl) as H.
  vm_compute in H. vm_compute. by destruct H as [_ H].
Defined.
