(* ===== verification/MyAuth.v ===== *)
(** * Credential handoff for MySQL (internal/wire/mysql/auth.go)

    The proxy as a MySQL server towards the client (greeting, switch to the cleartext plugin) and
    as a MySQL client towards the upstream (native password and caching_sha2). *)
From S2P Require Import Prelude Go GoStr GoIO Codec Mask Wire MyWire.
Open Scope Z_scope.

(** ** Constants *)
Definition authSwitchRequest : Z := 0xFE.
Definition authMoreData : Z := 0x01.
Definition cachingSha2FastAuthSuccess : Z := 0x03.
Definition cachingSha2FullAuth : Z := 0x04.
Definition capLongPassword : Z := 0x1.
Definition capConnectWithDB : Z := 0x8.
Definition capSecureConnection : Z := 0x8000.
Definition capPluginAuth : Z := 0x80000.
Definition capPluginAuthLenEncData : Z := 0x200000.
Definition pluginNativePassword : bytes := str "mysql_native_password".
Definition pluginCachingSha2 : bytes := str "caching_sha2_password".
Definition pluginClearPassword : bytes := str "mysql_clear_password".

(** [caps & bit != 0] *)
Definition has (caps bit : Z) : bool := negb (Z.land caps bit =? 0).

Record clientHandshake := mkHandshake {
  hs_username : bytes; hs_database : bytes; hs_caps : Z; hs_nextSeq : byte }.

(** ** NUL-terminated strings *)

(** The loop starts at [off]: a negative offset is an index out of range at once. *)
Definition readNulString (p : bytes) (off : Z) : go (option (bytes * Z)) :=
  if off <? 0 then Panic
  else match find_byte (b8 0) (drop (Z.to_nat off) p) with
       | Some i => Ok (Some (take i (drop (Z.to_nat off) p), off + Z.of_nat i + 1))
       | None => Ok None
       end.

(** ** The client's side of the login *)

Definition authSwitchToClear : bytes := b8 authSwitchRequest :: pluginClearPassword ++ [b8 0].

Definition serverGreeting (clientTLS : bool) (nonce : bytes) : bytes :=
  let capLower := Z.lor (Z.lor capLongPassword capClientProtocol41) capSecureConnection in
  let capLower := if clientTLS then Z.lor capLower capClientSSL else capLower in
  let capUpper := Z.shiftr capPluginAuth 16 in
  [b8 0x0a] ++ str "8.0.0-curlix" ++ [b8 0] ++ [b8 1; b8 0; b8 0; b8 0] ++ take 8 nonce ++ [b8 0] ++
  le_bytes 2 capLower ++ [b8 0x21] ++ [b8 2; b8 0] ++ le_bytes 2 capUpper ++
  [b8 (zlen nonce + 1)] ++ replicate 10 (b8 0) ++ take 12 (drop 8 nonce) ++ [b8 0] ++
  pluginNativePassword ++ [b8 0].

(** Skip the authentication data, in one of its three encodings; [None] is an early return. *)
Definition skip_auth (p : bytes) (caps off : Z) : go (option Z) :=
  if has caps capPluginAuthLenEncData then
    let? r := readLenEncInt p off in
    match r with
    | None => Ok None
    | Some (l, n) => Ok (Some (wrap64 (off + wrap64 (n + wrap64 l))))
    end
  else if has caps capSecureConnection then
    if off >=? zlen p then Ok None
    else let? l := index p off in Ok (Some (off + 1 + u8 l))
  else
    let? r := readNulString p off in
    match r with Some (_, off') => Ok (Some off') | None => Ok (Some off) end.

Definition parseHandshakeResponse (p : bytes) (caps : Z) : go clientHandshake :=
  let? u := readNulString p 32 in
  match u with
  | None => Ok (mkHandshake [] [] caps (b8 0))
  | Some (user, off) =>
      let? a := skip_auth p caps off in
      match a with
      | None => Ok (mkHandshake user [] caps (b8 0))
      | Some off =>
          if has caps capConnectWithDB then
            let? d := readNulString p off in
            match d with
            | Some (db, _) => Ok (mkHandshake user db caps (b8 0))
            | None => Ok (mkHandshake user [] caps (b8 0))
            end
          else Ok (mkHandshake user [] caps (b8 0))
      end
  end.

(** The capability word of a packet, when it is long enough to have one. *)
Definition caps_of (payload : bytes) (dflt : Z) : go Z :=
  if 4 <=? zlen payload then le_at 4 payload 0 else Ok dflt.

(** After an SSL request the real response is read from the TLS session. *)
Definition client_tls (clientTLS : bool) (first : pkt) (caps : Z) : St conn (pkt * Z) :=
  if negb (has caps capClientSSL) then sret (first, caps)
  else if negb clientTLS then
    sfail (EFmt "mysql: client requested TLS but no client cert is configured" [])
  else
    (fun c => match Handshake c with
              | (Err e, c') => (Err (EWrap "mysql: client TLS handshake failed: %w" e), c')
              | r => r
              end) ;;;
    (let! p := on_in readPacket in
     let! caps' := slift (caps_of (p_payload p) caps) in
     sret (p, caps')).

(** [nonce]: the twenty bytes of [rand.Read], or its error. *)
Definition terminateClient (clientTLS : bool) (nonce : go bytes) : St conn (clientHandshake * bytes) :=
  let! nonce := slift nonce in
  on_out (writePacket (b8 0) (serverGreeting clientTLS nonce)) ;;;
  (let! first := on_in readPacket in
   let! caps := slift (caps_of (p_payload first) 0) in
   let! (resp, caps) := client_tls clientTLS first caps in
   let! info := slift (parseHandshakeResponse (p_payload resp) caps) in
   on_out (writePacket (seq_add (p_seq resp) 1) authSwitchToClear) ;;;
   (let! tok := on_in readPacket in
    sret (mkHandshake (hs_username info) (hs_database info) (hs_caps info) (seq_add (p_seq tok) 1),
          TrimRight (p_payload tok) (b8 0)))).

(** [writeClientError] and [okPayload] *)
Definition errorPacket (code : Z) (sqlState message : bytes) : bytes :=
  [b8 pktERR] ++ le_bytes 2 code ++ [Ascii.byte_of_ascii "#"%char] ++ sqlState ++ message.
Definition writeClientError (seq : byte) (code : Z) (sqlState message : bytes) : St wr unit :=
  writePacket seq (errorPacket code sqlState message).
Definition okPayload : bytes := [b8 pktOK; b8 0; b8 0; b8 2; b8 0; b8 0; b8 0].

(** ** The upstream's side of the login *)

Section auth.
Context `{Hashes}.

Definition nativePasswordScramble (password nonce : bytes) : bytes :=
  if decide (password = []) then []
  else
    let h1 := sha1 password in
    let h2 := sha1 h1 in
    let token := sha1 (nonce ++ h2) in
    xor_bytes h1 token.

Definition cachingSha2Scramble (password nonce : bytes) : bytes :=
  if decide (password = []) then []
  else
    let d1 := sha256 password in
    let d2 := sha256 d1 in
    let d3 := sha256 (d2 ++ nonce) in
    xor_bytes d1 d3.

Definition authResponse (plugin password nonce : bytes) : go bytes :=
  if decide (plugin = pluginNativePassword \/ plugin = []) then Ok (nativePasswordScramble password nonce)
  else if decide (plugin = pluginCachingSha2) then Ok (cachingSha2Scramble password nonce)
  else if decide (plugin = pluginClearPassword) then Ok (password ++ [b8 0])
  else Err (EFmt "mysql: unsupported upstream auth plugin %q" [plugin]).

(** The nonce ([nil] and empty are the same to every caller), the plugin and the capabilities. *)
Definition parseServerGreeting (g : bytes) : go (bytes * bytes * Z) :=
  if negb (starts g 0x0a) then Ok ([], [], 0)
  else
    let off := version_end g + 1 in
    if off + 8 + 1 + 2 >? zlen g then Ok ([], [], 0)
    else
      let off := off + 4 in
      let? part1 := slice g off (off + 8) in
      let off := off + 8 + 1 in
      let? capLower := le_at 2 g off in
      let off := off + 2 in
      if off + 1 + 2 + 2 >? zlen g then Ok (part1, [], capLower)
      else
        let off := off + 1 + 2 in
        let? capUpper := le_at 2 g off in
        let off := off + 2 in
        let caps := Z.lor capLower (Z.shiftl capUpper 16) in
        let? authLen := (if off <? zlen g then let? b := index g off in Ok (u8 b) else Ok 0) in
        let off := off + 1 + 10 in
        let part2Len := if authLen - 8 >? 13 then authLen - 8 else 13 in
        let? part2 := (if off + 12 <=? zlen g then slice g off (off + 12) else Ok []) in
        let? name := (if has caps capPluginAuth then readNulString g (off + part2Len) else Ok None) in
        Ok (part1 ++ part2, match name with Some (n, _) => n | None => [] end, caps).

Definition parseAuthSwitch (p : bytes) : go (bytes * bytes) :=
  if zlen p <? 2 then Ok (pluginNativePassword, [])
  else
    let? r := readNulString p 1 in
    match r with
    | None => Ok (pluginNativePassword, [])
    | Some (name, off) => Ok (name, TrimRight (drop (Z.to_nat off) p) (b8 0))
    end.

Definition base_caps : Z :=
  Z.lor (Z.lor (Z.lor capLongPassword capClientProtocol41) capSecureConnection) capPluginAuth.

Definition upstreamCaps (serverCaps : Z) (database : bytes) : Z :=
  let caps := if decide (database = []) then base_caps else Z.lor base_caps capConnectWithDB in
  Z.land caps (Z.lor serverCaps (Z.lor base_caps capConnectWithDB)).

Definition buildHandshakeResponse (user database plugin authResp : bytes) (secure : bool) : bytes :=
  let caps := if decide (database = []) then base_caps else Z.lor base_caps capConnectWithDB in
  let caps := if secure then Z.lor caps capClientSSL else caps in
  le_bytes 4 caps ++ le_bytes 4 maxPacket ++ [b8 0x21] ++ replicate 23 (b8 0) ++
  user ++ [b8 0] ++ [b8 (zlen authResp)] ++ authResp ++
  (if decide (database = []) then [] else database ++ [b8 0]) ++ plugin ++ [b8 0].

Definition errMessage (p : bytes) : bytes :=
  if (9 <=? zlen p) && bool_decide (p !! 3%nat = Some (Ascii.byte_of_ascii "#"%char)) then drop 9 p
  else if 3 <? zlen p then drop 3 p
  else str "unknown error".

Definition errProtocolMySQL : gerr := EFmt "mysql: malformed auth packet" [].

(** [payload[1] == b] on a packet of at least two bytes. *)
Definition second (p : bytes) (b : Z) : bool :=
  match p with _ :: c :: _ => u8 c =? b | _ => false end.

Fixpoint auth_exchange (fuel : nat) (password nonce : bytes) (secure : bool) : St conn unit :=
  match fuel with
  | O => slift NoFuel
  | S k =>
      let! p := on_in readPacket in
      let payload := p_payload p in
      if decide (payload = []) then sfail errProtocolMySQL
      else if starts payload pktOK then sret tt
      else if starts payload pktERR then
        sfail (EFmt "mysql: upstream rejected auth: %s" [errMessage payload])
      else if starts payload authSwitchRequest then
        let! (plugin, switchNonce) := slift (parseAuthSwitch payload) in
        let nonce := if decide (switchNonce = []) then nonce else switchNonce in
        let! resp := slift (authResponse plugin password nonce) in
        on_out (writePacket (seq_add (p_seq p) 1) resp) ;;; auth_exchange k password nonce secure
      else if starts payload authMoreData then
        if second payload cachingSha2FastAuthSuccess then auth_exchange k password nonce secure
        else if second payload cachingSha2FullAuth then
          if negb secure then
            sfail (EFmt "mysql: caching_sha2_password full authentication requires upstream TLS (set SKYBRIDGE_UPSTREAM_TLS); RSA key exchange is unsupported" [])
          else
            on_out (writePacket (seq_add (p_seq p) 1) (password ++ [b8 0])) ;;;
            auth_exchange k password nonce secure
        else sfail (EFmt "mysql: unexpected AuthMoreData payload %v" [payload])
      else sfail (EFmt "mysql: unexpected auth packet type 0x%02x" [take 1 payload])
  end.

Definition completeUpstreamAuth (password nonce : bytes) (secure : bool) : St conn unit := fun c =>
  auth_exchange (S (length (rbuf (c_in c)))) password nonce secure c.

(** The SSL request of the proxy's own login. *)
Definition ssl_request (serverCaps : Z) (database : bytes) : bytes :=
  le_bytes 4 (Z.lor (upstreamCaps serverCaps database) capClientSSL) ++ le_bytes 4 maxPacket ++
  [b8 0x21] ++ replicate 23 (b8 0).

(** Negotiate TLS when it is configured: whether the channel is secure. *)
Definition upstream_tls (upstreamTLS required : bool) (serverCaps : Z) (database : bytes)
    : St conn bool :=
  if negb upstreamTLS then sret false
  else if negb (has serverCaps capClientSSL) then
    if required then
      sfail (EFmt "mysql: upstream TLS required but the server does not advertise CLIENT_SSL" [])
    else sret false
  else
    on_out (writePacket (b8 1) (ssl_request serverCaps database)) ;;;
    (fun c => match Handshake c with
              | (Err e, c') => (Err (EWrap "mysql: upstream TLS handshake failed: %w" e), c')
              | r => r
              end) ;;;
    sret true.

Definition authenticateUpstream (upstreamTLS required : bool) (cred : UpstreamCredential)
    (database : bytes) : St conn unit :=
  let! g := on_in readPacket in
  let! (nonce, plugin, serverCaps) := slift (parseServerGreeting (p_payload g)) in
  let! secure := upstream_tls upstreamTLS required serverCaps database in
  let plugin := if decide (plugin = []) then pluginNativePassword else plugin in
  let! resp := slift (authResponse plugin (Password cred) nonce) in
  on_out (writePacket (if secure then b8 2 else b8 1)
            (buildHandshakeResponse (Username cred) database plugin resp secure)) ;;;
  completeUpstreamAuth (Password cred) nonce secure.

(** ** ProxyInject *)

Definition denied : bytes := str "curlix: access denied for this session".
Definition upstream_failed : bytes := str "curlix: upstream authentication failed".

(** On an error, an ERR packet to the client, whose own failure is ignored. *)
Definition or_report {A} (seq : byte) (report : bytes) (m : St net A) : St net A := fun s =>
  match m s with
  | (Err e, s') =>
      (Err e, snd (on_cl (on_out (writeClientError seq 1045 (str "28000") report)) s'))
  | r => r
  end.

Definition startup_params (info : clientHandshake) : gmap bytes bytes :=
  <[str "user" := hs_username info]> (<[str "database" := hs_database info]> ∅).

Definition inject_login (clientTLS upstreamTLS required : bool) (resolve : CredentialResolver)
    (nonce : go bytes) : St net clientHandshake :=
  let! (info, token) := on_cl (terminateClient clientTLS nonce) in
  let! cred := or_report (hs_nextSeq info) denied (slift (resolve (startup_params info) token)) in
  let trimmed := TrimSpace (Database cred) in
  let db := if decide (trimmed = []) then hs_database info else trimmed in
  or_report (hs_nextSeq info) upstream_failed
    (on_up (authenticateUpstream upstreamTLS required cred db)) ;;;
  on_cl (on_out (writePacket (hs_nextSeq info) okPayload)) ;;;
  sret info.

(** The command phase is that of the verbatim path, with no offset. *)
Definition ProxyInject (buffered : bytes -> Z) (mk : nat -> masker) (sched : list bool)
    (clientTLS upstreamTLS required client_first : bool) (resolve : option CredentialResolver)
    (nonce : go bytes) (n : net) : go unit * option sess :=
  match resolve with
  | None => (Err (EFmt "mysql: credential injection requires a resolver" []), None)
  | Some resolve =>
      match inject_login clientTLS upstreamTLS required resolve nonce n with
      | (Ok info, n') =>
          let s := relays (deprecateEOF_of (hs_caps info)) buffered mk sched (initial n' 0) in
          (quiet (first_end client_first s), Some s)
      | (Err e, _) => (Err e, None)
      | (Panic, _) => (Panic, None)
      | (NoFuel, _) => (NoFuel, None)
      end
  end.

End auth.
