(* ===== verification/MyAuthProps.v ===== *)
(** * What the MySQL credential handoff guarantees *)
From S2P Require Import Prelude Go GoStr GoIO ConnFacts Codec Mask Wire MyWire MyWireFacts MyWireProps MyAuth.
Open Scope Z_scope.

(** Hash functions for the witnesses only. *)
#[local] Instance flat_hashes : Hashes.
Proof.
  refine {| md5 := fun _ => replicate 16 (b8 1); sha1 := fun _ => replicate 20 (b8 2);
            sha256 := fun b => replicate 31 (b8 3) ++ [b8 (zlen b)] |}; intros; done.
Defined.

(** ** Challenge responses *)

Section responses.
Context `{Hashes}.

(** What a server stores for a user of each plugin. *)
Definition verifier (plugin password : bytes) : bytes :=
  if decide (plugin = pluginCachingSha2) then sha256 (sha256 password)
  else if decide (plugin = pluginClearPassword) then password
  else sha1 (sha1 password).

(** The documented check of each plugin: it recovers the first hash from the response. *)
Definition server_accepts (plugin verifier nonce resp : bytes) : bool :=
  if decide (plugin = pluginCachingSha2) then
    bool_decide (sha256 (xor_bytes resp (sha256 (verifier ++ nonce))) = verifier)
  else if decide (plugin = pluginClearPassword) then
    bool_decide (resp = verifier ++ [b8 0])
  else bool_decide (sha1 (xor_bytes resp (sha1 (nonce ++ verifier))) = verifier).

End responses.

(** The response to a challenge passes the server's own check of it, for each plugin the proxy
    supports, every nonce and every password (an empty one is answered by an empty response). *)
Theorem authResponse_accepted `{Hashes} (plugin password nonce resp : bytes)
    (Hr : authResponse plugin password nonce = Ok resp) :
  (password = [] /\ plugin <> pluginClearPassword /\ resp = []) \/
  server_accepts plugin (verifier plugin password) nonce resp = true.
Proof.
  unfold authResponse in Hr. unfold server_accepts, verifier.
  destruct (decide (plugin = pluginNativePassword \/ plugin = [])) as [Hp|Hp].
  - assert (plugin <> pluginCachingSha2 /\ plugin <> pluginClearPassword) as [H1 H2].
    { by destruct Hp as [-> | ->]. }
    rewrite !decide_False by done. injection Hr as <-. unfold nativePasswordScramble.
    destruct (decide (password = [])); [by left|right]. apply bool_decide_eq_true.
    by rewrite xor_bytes_cancel by (by rewrite !sha1_length).
  - destruct (decide (plugin = pluginCachingSha2)) as [Hc|Hc].
    + injection Hr as <-. unfold cachingSha2Scramble.
      destruct (decide (password = [])); [left; subst; done|right]. apply bool_decide_eq_true.
      by rewrite xor_bytes_cancel by (by rewrite !sha256_length).
    + destruct (decide (plugin = pluginClearPassword)); [|done]. injection Hr as <-. right.
      by apply bool_decide_eq_true.
Qed.

Lemma authResponse_accepted_witness :
  server_accepts pluginNativePassword (verifier pluginNativePassword (str "pw")) (str "nonce")
    (nativePasswordScramble (str "pw") (str "nonce")) = true.
Proof.
  destruct (authResponse_accepted pluginNativePassword (str "pw") (str "nonce")
    (nativePasswordScramble (str "pw") (str "nonce")) eq_refl) as [(? & _)|H]; [done|exact H].
Defined.

(** ** NUL-terminated strings *)

Lemma readNulString_app pre s post off :
  off = zlen pre -> b8 0 ∉ s ->
  readNulString (pre ++ s ++ b8 0 :: post) off = Ok (Some (s, off + zlen s + 1)).
Proof.
  intros -> Hs. unfold readNulString. pose proof (zlen_nonneg pre).
  rewrite (proj2 (Z.ltb_ge _ _)) by lia. unfold zlen at 1 2. rewrite Nat2Z.id, drop_app_length.
  rewrite find_byte_app by done. by rewrite take_app_length.
Qed.

Lemma readNulString_returns p off : 0 <= off -> exists r, readNulString p off = Ok r.
Proof.
  intros Ho. unfold readNulString. rewrite (proj2 (Z.ltb_ge _ _)) by lia. case_match; eauto.
Qed.

(** ** The proxy's handshake response *)

(** The capability word of the response, and the 32 fixed bytes it opens. *)
Definition response_caps (database : bytes) (secure : bool) : Z :=
  let caps := if decide (database = []) then base_caps else Z.lor base_caps capConnectWithDB in
  if secure then Z.lor caps capClientSSL else caps.
Definition fixed_part (caps : Z) : bytes :=
  le_bytes 4 caps ++ le_bytes 4 maxPacket ++ [b8 0x21] ++ replicate 23 (b8 0).

Lemma response_caps_facts database secure :
  let caps := response_caps database secure in
  0 <= caps < 2 ^ 32 /\ has caps capClientSSL = secure /\
  has caps capPluginAuthLenEncData = false /\ has caps capSecureConnection = true /\
  has caps capConnectWithDB = bool_decide (database <> []).
Proof.
  cbv zeta. unfold response_caps. destruct (decide (database = [])) as [->|Hne];
    [rewrite bool_decide_eq_false_2 by naive_solver|rewrite bool_decide_eq_true_2 by done];
    by destruct secure; vm_compute.
Qed.

Lemma zlen_fixed_part caps : zlen (fixed_part caps) = 32.
Proof. unfold fixed_part. rewrite !zlen_app, !zlen_le_bytes. by vm_compute. Qed.

Lemma handshake_response_shape user database plugin authResp secure :
  buildHandshakeResponse user database plugin authResp secure =
  fixed_part (response_caps database secure) ++ user ++ b8 0 :: b8 (zlen authResp) :: authResp ++
    (if decide (database = []) then [] else database ++ [b8 0]) ++ plugin ++ [b8 0].
Proof. unfold buildHandshakeResponse, fixed_part, response_caps. by rewrite <- !app_assoc. Qed.

(** Behind the user name, a one-byte length skips the authentication data. *)
Lemma skip_auth_byte caps pre authResp tail off :
  has caps capPluginAuthLenEncData = false -> has caps capSecureConnection = true ->
  zlen authResp < 256 -> off = zlen pre ->
  skip_auth (pre ++ b8 (zlen authResp) :: authResp ++ tail) caps off =
  Ok (Some (off + 1 + zlen authResp)).
Proof.
  intros H1 H2 Ha ->. pose proof (zlen_nonneg authResp). unfold skip_auth. rewrite H1, H2.
  rewrite Z.geb_leb, (proj2 (Z.leb_gt _ _)); cycle 1.
  { rewrite zlen_app, zlen_cons. pose proof (zlen_nonneg (authResp ++ tail)). lia. }
  rewrite index_app_mid by done. cbn [gbind]. by rewrite u8_b8, Z.mod_small by lia.
Qed.

(** The handshake response the proxy writes is read back, by the parser the proxy itself uses
    for clients, with the same user and database. *)
Theorem handshake_response_roundtrip (user database plugin authResp : bytes) (secure : bool)
    (Hu : b8 0 ∉ user) (Hd : b8 0 ∉ database) (Ha : zlen authResp < 256) :
  let p := buildHandshakeResponse user database plugin authResp secure in
  exists caps, caps_of p 0 = Ok caps /\ has caps capClientSSL = secure /\
    parseHandshakeResponse p caps = Ok (mkHandshake user database caps (b8 0)).
Proof.
  destruct (response_caps_facts database secure) as (Hc & Hssl & H1 & H2 & H3).
  cbv zeta. rewrite handshake_response_shape. set (caps := response_caps database secure) in *.
  exists caps. split; [|split; [done|]].
  - unfold caps_of. rewrite (proj2 (Z.leb_le _ _)); cycle 1.
    { etrans; [|apply zlen_app_ge]. rewrite zlen_fixed_part. lia. }
    unfold fixed_part. rewrite <- app_assoc, le_at_head by apply length_le_bytes.
    by rewrite le_val_le_bytes, Z.mod_small by lia.
  - unfold parseHandshakeResponse. rewrite readNulString_app by apply zlen_fixed_part || done. cbn [gbind].
    set (pre := fixed_part caps ++ user ++ [b8 0]).
    assert (Hz : zlen pre = 32 + zlen user + 1).
    { unfold pre. rewrite !zlen_app, zlen_fixed_part, zlen_cons, zlen_nil. lia. }
    match goal with |- context [skip_auth ?p _ _] =>
      replace p with (pre ++ b8 (zlen authResp) :: authResp ++
        (if decide (database = []) then [] else database ++ [b8 0]) ++ plugin ++ [b8 0])
        by (unfold pre; by rewrite <- !app_assoc) end.
    rewrite skip_auth_byte by done. cbn [gbind]. rewrite H3.
    destruct (decide (database = [])) as [->|Hne]; [by rewrite bool_decide_eq_false_2 by naive_solver|].
    rewrite bool_decide_eq_true_2 by done. unfold pre.
    match goal with |- context [readNulString ?p _] =>
      replace p with ((pre ++ b8 (zlen authResp) :: authResp) ++ database ++ b8 0 :: plugin ++ [b8 0])
        by (unfold pre; rewrite <- !app_assoc; done) end.
    rewrite readNulString_app by (done || (rewrite zlen_app, zlen_cons, Hz; lia)). done.
Qed.

Lemma handshake_response_roundtrip_witness :
  exists caps, parseHandshakeResponse
    (buildHandshakeResponse (str "app") (str "db") pluginNativePassword (str "x") true) caps =
    Ok (mkHandshake (str "app") (str "db") caps (b8 0)).
Proof.
  destruct (handshake_response_roundtrip (str "app") (str "db") pluginNativePassword (str "x") true)
    as (caps & _ & _ & H).
  - apply find_byte_None. by vm_compute.
  - apply find_byte_None. by vm_compute.
  - by vm_compute.
  - by exists caps.
Defined.

(** A client's handshake response in which the length of the authentication data is [2^63] or
    more crashes the proxy before any authentication: the offset it computes is negative. *)
Theorem parseHandshakeResponse_negative_length (fixed user rest : bytes) (caps l : Z)
    (Hf : zlen fixed = 32) (Hu : (b8 0 ∉ user) /\ zlen user <= maxPacket)
    (Hl : 2 ^ 63 <= l <= 2 ^ 64 - 2 ^ 32)
    (Hcaps : has caps capPluginAuthLenEncData = true /\ has caps capConnectWithDB = true) :
  parseHandshakeResponse (fixed ++ user ++ b8 0 :: appendLenEncInt [] l ++ rest) caps = Panic.
Proof.
  destruct Hu as [Hu Hul]. destruct Hcaps as [H1 H2]. unfold maxPacket in Hul.
  unfold parseHandshakeResponse. rewrite readNulString_app by done. cbn [gbind].
  unfold skip_auth. rewrite H1. fold (lenenc l). pose proof (zlen_nonneg user).
  change (fixed ++ user ++ b8 0 :: lenenc l ++ rest)
    with (fixed ++ user ++ [b8 0] ++ lenenc l ++ rest).
  rewrite !app_assoc, <- (app_assoc _ (lenenc l)).
  rewrite readLenEncInt_lenenc by (lia || (rewrite !zlen_app, Hf, zlen_cons, zlen_nil; lia)).
  cbn [gbind]. pose proof (lenenc_range l). rewrite H2.
  rewrite (wrap64_negative l), (wrap64_small (zlen (lenenc l) + _)), wrap64_small by lia.
  unfold readNulString. by rewrite (proj2 (Z.ltb_lt _ _)) by lia.
Qed.

Lemma parseHandshakeResponse_negative_length_witness :
  parseHandshakeResponse (replicate 32 (b8 0) ++ str "u" ++ b8 0 :: appendLenEncInt [] (2 ^ 63) ++ [])
    (Z.lor capPluginAuthLenEncData capConnectWithDB) = Panic.
Proof.
  apply parseHandshakeResponse_negative_length.
  - done.
  - split; [apply find_byte_None; by vm_compute|by vm_compute].
  - lia.
  - by vm_compute.
Defined.

(** ** The greeting *)

(** Where the version string of a v10 greeting ends. *)
Lemma version_end_app v t :
  b8 0 ∉ v -> version_end (b8 0x0a :: v ++ b8 0 :: t) = 1 + zlen v.
Proof.
  intros Hv. unfold version_end.
  change (drop 1 (b8 0x0a :: v ++ b8 0 :: t)) with (v ++ b8 0 :: t). by rewrite find_byte_app.
Qed.

Lemma zlen_greeting (v t : bytes) : zlen (b8 0x0a :: v ++ b8 0 :: t) = 2 + zlen v + zlen t.
Proof. rewrite zlen_cons, zlen_app, zlen_cons. lia. Qed.

(** The greeting the proxy presents to clients, read by the proxy's own parser of upstream
    greetings, gives back the nonce, the native plugin, and TLS support exactly when it is
    configured. *)
Theorem greeting_roundtrip (clientTLS : bool) (nonce : bytes) (Hn : length nonce = 20%nat) :
  exists caps, parseServerGreeting (serverGreeting clientTLS nonce) =
    Ok (nonce, pluginNativePassword, caps) /\ has caps capClientSSL = clientTLS.
Proof.
  do 20 (destruct nonce as [|? nonce]; [done|]). destruct nonce; [|done].
  destruct clientTLS; eexists; (split; [vm_compute; reflexivity|by vm_compute]).
Qed.

Lemma greeting_roundtrip_witness :
  exists caps, parseServerGreeting (serverGreeting true (replicate 20 (b8 7))) =
    Ok (replicate 20 (b8 7), pluginNativePassword, caps).
Proof.
  destruct (greeting_roundtrip true (replicate 20 (b8 7)) eq_refl) as (caps & H & _). by exists caps.
Defined.

(** The parser of upstream greetings is guarded by a bound that leaves out the four bytes of the
    connection id: of the greetings with a version string, it crashes on exactly those with 11 to 14
    bytes behind it, and returns on all others. *)
Theorem parseServerGreeting_gap (v t : bytes) (Hv : b8 0 ∉ v) :
  (11 <= zlen t <= 14 <-> parseServerGreeting (b8 0x0a :: v ++ b8 0 :: t) = Panic) /\
  (returns (parseServerGreeting (b8 0x0a :: v ++ b8 0 :: t)) \/ 11 <= zlen t <= 14).
Proof.
  set (g := b8 0x0a :: v ++ b8 0 :: t).
  assert (Hg : zlen g = 2 + zlen v + zlen t) by apply zlen_greeting.
  assert (Hve : version_end g = 1 + zlen v) by by apply version_end_app.
  assert (Hlow : 11 <= zlen t <= 14 -> parseServerGreeting g = Panic).
  { intros Ht. unfold parseServerGreeting. change (starts g 0x0a) with true. cbn [negb].
    rewrite !Hve. pose proof (zlen_nonneg v).
    rewrite Z.gtb_ltb, (proj2 (Z.ltb_ge _ _)) by lia.
    destruct (decide (zlen t = 11)) as [H11|H11].
    - unfold slice. rewrite andb_comm, (proj2 (Z.leb_gt _ _)) by lia. done.
    - rewrite slice_ok by lia. cbn [gbind]. unfold le_at at 1, slice.
      rewrite andb_comm, (proj2 (Z.leb_gt _ _)) by lia. done. }
  assert (Hhigh : ~ (11 <= zlen t <= 14) -> returns (parseServerGreeting g)).
  { intros Ht. unfold parseServerGreeting. change (starts g 0x0a) with true. cbn [negb].
    rewrite !Hve. pose proof (zlen_nonneg v).
    pose proof (zlen_nonneg t). rewrite Z.gtb_ltb. destruct (zlen g <? _) eqn:E1; [done|].
    apply Z.ltb_ge in E1. rewrite slice_ok by lia. cbn [gbind]. rewrite le_at_ok by lia. cbn [gbind].
    rewrite Z.gtb_ltb. destruct (zlen g <? _) eqn:E2; [done|]. apply Z.ltb_ge in E2.
    rewrite le_at_ok by lia. cbn [gbind]. set (o := 1 + zlen v + 1 + 4 + 8 + 1 + 2 + (1 + 2) + 2) in *.
    assert (Ha : exists a, (if o <? zlen g then let? b := index g o in Ok (u8 b) else Ok 0) = Ok a).
    { destruct (o <? zlen g) eqn:E3; [|eauto]. apply Z.ltb_lt in E3.
      destruct (index_ok g o ltac:(lia)) as (b & -> & _). cbn [gbind]. eauto. }
    destruct Ha as [a Ha]. apply returns_gbind; [|intros al _].
    { replace (1 + zlen v + 1 + 4 + 8 + 1 + 2 + 1 + 2 + 2) with o by lia. by rewrite Ha. }
    apply returns_gbind; [|intros part2 _].
    { destruct (_ <=? zlen g) eqn:E4; [|done]. apply Z.leb_le in E4. by rewrite slice_ok by lia. }
    apply returns_gbind; [|done]. destruct (has _ _); [|done].
    match goal with |- returns (readNulString g ?o) =>
      destruct (readNulString_returns g o) as [? ->] end; [|done].
    assert (Hp2 : 13 <= (if al - 8 >? 13 then al - 8 else 13)).
    { destruct (al - 8 >? 13) eqn:E5; [|lia]. rewrite Z.gtb_ltb, Z.ltb_lt in E5. lia. }
    lia. }
  split; [split; [done|]|].
  - intros HP. destruct (decide (11 <= zlen t <= 14)) as [|Hn]; [done|].
    apply Hhigh in Hn. by rewrite HP in Hn.
  - destruct (decide (11 <= zlen t <= 14)); [by right|left; auto].
Qed.

Lemma parseServerGreeting_gap_witness :
  parseServerGreeting (b8 0x0a :: str "8.0" ++ b8 0 :: replicate 12 (b8 1)) = Panic.
Proof.
  apply (parseServerGreeting_gap (str "8.0") (replicate 12 (b8 1))).
  - apply find_byte_None. by vm_compute.
  - by vm_compute.
Defined.

(** ** The exchange after the handshake response *)

Section exchange.
Context `{Hashes}.

(** What an upstream may ask before its OK: another plugin (with a new challenge), or one of the two
    continuations of caching_sha2. *)
Inductive ask :=
| Switch (plugin data : bytes)
| FastSuccess
| FullAuth.

Definition encode_ask (a : ask) : bytes :=
  match a with
  | Switch plugin data => b8 authSwitchRequest :: plugin ++ b8 0 :: data ++ [b8 0]
  | FastSuccess => [b8 authMoreData; b8 cachingSha2FastAuthSuccess]
  | FullAuth => [b8 authMoreData; b8 cachingSha2FullAuth]
  end.

Definition ask_ok (a : ask) : Prop :=
  match a with
  | Switch plugin data => (b8 0 ∉ plugin) /\ (b8 0 ∉ data) /\ zlen plugin + zlen data + 3 <= maxPacket
  | _ => True
  end.

(** The specification: the packets the proxy sends in answer, or [None] where it must give up. The
    password leaves in clear only for the cleartext plugin, and for the full authentication of
    caching_sha2, which needs a secure channel. *)
Fixpoint answers (password nonce : bytes) (secure : bool) (asks : list (byte * ask))
    : option (list (byte * bytes)) :=
  match asks with
  | [] => Some []
  | (seq, Switch plugin data) :: rest =>
      let nonce := if decide (data = []) then nonce else data in
      match authResponse plugin password nonce with
      | Ok resp => cons (seq_add seq 1, resp) <$> answers password nonce secure rest
      | _ => None
      end
  | (_, FastSuccess) :: rest => answers password nonce secure rest
  | (seq, FullAuth) :: rest =>
      if secure then cons (seq_add seq 1, password ++ [b8 0]) <$> answers password nonce secure rest
      else None
  end.

Definition encode_asks (asks : list (byte * ask)) : list (byte * bytes) :=
  map (fun '(seq, a) => (seq, encode_ask a)) asks.

Lemma parseAuthSwitch_encode plugin data :
  (b8 0 ∉ plugin) -> (b8 0 ∉ data) ->
  parseAuthSwitch (encode_ask (Switch plugin data)) = Ok (plugin, data).
Proof.
  intros Hp Hd. unfold parseAuthSwitch, encode_ask. pose proof (zlen_nonneg plugin).
  pose proof (zlen_nonneg data).
  rewrite (proj2 (Z.ltb_ge _ _)) by (rewrite zlen_cons, zlen_app, zlen_cons, zlen_app, zlen_cons, zlen_nil; lia).
  change (b8 authSwitchRequest :: plugin ++ b8 0 :: data ++ [b8 0])
    with ([b8 authSwitchRequest] ++ plugin ++ b8 0 :: data ++ [b8 0]).
  rewrite readNulString_app by done. cbn [gbind]. do 2 f_equal.
  rewrite cons_middle, !app_assoc, <- (app_assoc _ data).
  rewrite drop_app_exact; [by apply TrimRight_snoc|]. rewrite !length_app. unfold zlen.
  cbn [length]. lia.
Qed.

Lemma conn_read seq p rest e out tls snt hs :
  zlen p <= maxPacket ->
  on_in readPacket (mkConn (mkRd (packet seq p ++ rest) e) out tls snt hs) =
  (Ok (mkPkt seq p (zlen p =? maxPacket)), mkConn (mkRd rest e) out tls snt hs).
Proof. intros Hp. by erewrite on_in_app by (by apply readPacket_app). Qed.

Lemma on_out_packet seq p i out tls snt hs :
  on_out (writePacket seq p) (mkConn i (mkWr out None) tls snt hs) =
  (Ok tt, mkConn i (mkWr (out ++ packet seq p) None) tls snt hs).
Proof. unfold on_out, zoom. cbn [c_out c_in c_tls c_sent c_hs]. by rewrite writePacket_unbounded. Qed.

(** The first byte of each ask. *)
Lemma ask_first a :
  starts (encode_ask a) pktOK = false /\ starts (encode_ask a) pktERR = false /\
  starts (encode_ask a) authSwitchRequest = (match a with Switch _ _ => true | _ => false end) /\
  starts (encode_ask a) authMoreData = (match a with Switch _ _ => false | _ => true end).
Proof. by destruct a. Qed.

Lemma auth_exchange_answers password secure asks : forall nonce fuel fseq rest e out tls snt hs,
  Forall (fun '(_, a) => ask_ok a) asks -> (length asks < fuel)%nat ->
  let run := auth_exchange fuel password nonce secure
    (mkConn (mkRd (wire (encode_asks asks ++ [(fseq, okPayload)]) ++ rest) e) (mkWr out None) tls snt hs) in
  match answers password nonce secure asks with
  | Some replies => run = (Ok tt, mkConn (mkRd rest e) (mkWr (out ++ wire replies) None) tls snt hs)
  | None => exists err, fst run = Err err
  end.
Proof.
  induction asks as [|[seq a] asks IH]; intros nonce fuel fseq rest e out tls snt hs Hok Hk;
    (destruct fuel as [|k]; [simpl in Hk; lia|]); unfold encode_asks in *;
    cbn [map app answers auth_exchange] in *; rewrite packets_cons, <- app_assoc.
  { rewrite (sbind_ok _ _ _ _ _ (conn_read fseq okPayload _ _ _ _ _ _ ltac:(done))).
    unfold wire. cbn [map concat]. by rewrite app_nil_r. }
  inversion Hok as [|? ? Ha Hok']; subst. cbn beta iota in Ha. simpl length in Hk.
  assert (Hl : zlen (encode_ask a) <= maxPacket).
  { destruct a; try done. destruct Ha as (_ & _ & Ha). cbn [encode_ask].
    rewrite zlen_cons, zlen_app, zlen_cons, zlen_app, zlen_cons, zlen_nil. lia. }
  rewrite (sbind_ok _ _ _ _ _ (conn_read seq (encode_ask a) _ _ _ _ _ _ Hl)).
  cbn [p_payload p_seq]. rewrite decide_False by (by destruct a).
  destruct (ask_first a) as (-> & -> & -> & ->). destruct a as [plugin data| |]; cbn iota.
  - destruct Ha as (Hp & Hd & _). rewrite parseAuthSwitch_encode by done.
    rewrite (sbind_ok (slift (Ok (plugin, data))) _ _ _ _ eq_refl). cbn beta iota.
    set (nonce' := if decide (data = []) then _ else _).
    destruct (authResponse plugin password nonce') as [resp|err| |] eqn:Hr;
      [|by eexists|..]; try (by unfold authResponse in Hr; repeat case_decide).
    rewrite (sbind_ok (slift (Ok resp)) _ _ _ _ eq_refl), (sbind_ok _ _ _ _ _ (on_out_packet _ _ _ _ _ _ _)).
    specialize (IH nonce' k fseq rest e (out ++ packet (seq_add seq 1) resp) tls snt hs Hok' ltac:(lia)).
    cbv zeta in IH. destruct (answers password nonce' secure asks) as [rs|]; [|done].
    cbn [fmap option_fmap option_map]. rewrite IH, packets_cons, app_assoc. done.
  - change (second (encode_ask FastSuccess) cachingSha2FastAuthSuccess) with true. cbn iota.
    apply IH; [done|lia].
  - change (second (encode_ask FullAuth) cachingSha2FastAuthSuccess) with false.
    change (second (encode_ask FullAuth) cachingSha2FullAuth) with true. cbn iota.
    destruct secure; cbn [negb]; [|by eexists].
    rewrite (sbind_ok _ _ _ _ _ (on_out_packet _ _ _ _ _ _ _)).
    specialize (IH nonce k fseq rest e (out ++ packet (seq_add seq 1) (password ++ [b8 0])) tls snt hs
      Hok' ltac:(lia)).
    cbv zeta in IH. destruct (answers password nonce true asks) as [rs|]; [|done].
    cbn [fmap option_fmap option_map]. rewrite IH, packets_cons, app_assoc. done.
Qed.

Lemma encode_asks_length asks fseq rest :
  (length asks < S (length (wire (encode_asks asks ++ [(fseq, okPayload)]) ++ rest)))%nat.
Proof.
  rewrite length_app. induction asks as [|[seq a] asks IH]; [simpl; lia|].
  unfold encode_asks in *. cbn [map app length] in *. rewrite packets_cons, length_app, packet_length. lia.
Qed.

End exchange.

(** C24: the exchange after the handshake response implements the specification [answers], for every
    sequence of plugin switches and caching_sha2 continuations the upstream asks for before its OK:
    it sends exactly the answers and stops behind the OK, or fails where the specification gives up,
    in particular on a full authentication over an insecure channel. *)
Theorem completeUpstreamAuth_refines `{Hashes} (password nonce : bytes) (secure : bool)
    (asks : list (byte * ask)) (fseq : byte) (rest out snt : bytes) (e : gerr) (tls : bool)
    (hs : list (gerr + rd * option (Z * gerr)))
    (Hok : Forall (fun '(_, a) => ask_ok a) asks) :
  let run := completeUpstreamAuth password nonce secure
    (mkConn (mkRd (wire (encode_asks asks ++ [(fseq, okPayload)]) ++ rest) e) (mkWr out None) tls snt hs) in
  match answers password nonce secure asks with
  | Some replies => run = (Ok tt, mkConn (mkRd rest e) (mkWr (out ++ wire replies) None) tls snt hs)
  | None => exists err, fst run = Err err
  end.
Proof.
  unfold completeUpstreamAuth. cbn [c_in rbuf].
  apply auth_exchange_answers; [done|]. apply encode_asks_length.
Qed.

Lemma completeUpstreamAuth_refines_witness :
  exists err, fst (completeUpstreamAuth (str "pw") (str "n") false
    (mkConn (mkRd (wire (encode_asks [(b8 2, FastSuccess); (b8 3, FullAuth)] ++ [(b8 4, okPayload)]) ++ [])
               EEOF) (mkWr [] None) false [] [])) = Err err.
Proof.
  exact (completeUpstreamAuth_refines (str "pw") (str "n") false [(b8 2, FastSuccess); (b8 3, FullAuth)]
    (b8 4) [] [] [] EEOF false [] ltac:(by repeat constructor)).
Defined.

(** ** A session's login *)

Lemma on_out_packet_sent seq p c o c' :
  on_out (writePacket seq p) c = (o, c') ->
  exists q, sent c' = sent c ++ q /\ q `prefix_of` packet seq p /\ (o = Ok tt -> q = packet seq p).
Proof.
  unfold writePacket. intros (q & Hq & Hp & Hok & _)%Write_seq_sent. exists q.
  by rewrite packet_split.
Qed.

Lemma client_tls_sent clientTLS first caps c o c' :
  client_tls clientTLS first caps c = (o, c') -> sent c' = sent c.
Proof.
  unfold client_tls. destruct (negb (has _ _)); [by intros [= <- <-]|].
  destruct (negb clientTLS); [by intros [= <- <-]|]. unfold sbind at 1.
  destruct (Handshake c) as [o1 c1] eqn:H1. apply Handshake_sent in H1.
  destruct o1 as [[]|e| |]; try (by intros [= <- <-]).
  unfold sbind at 1. destruct (on_in readPacket c1) as [o2 c2] eqn:H2. apply on_in_sent in H2.
  destruct o2 as [p|e| |]; try (intros [= <- <-]; congruence).
  unfold sbind, slift. destruct (caps_of _ _); intros [= <- <-]; congruence.
Qed.

(** What a client is sent before it presents its token. *)
Definition hello (clientTLS : bool) (nonce : bytes) (seq : byte) : bytes :=
  packet (b8 0) (serverGreeting clientTLS nonce) ++ packet seq authSwitchToClear.

Lemma terminateClient_sent clientTLS nonce c o c' :
  terminateClient clientTLS nonce c = (o, c') ->
  exists n seq q, sent c' = sent c ++ q /\ q `prefix_of` hello clientTLS n seq /\
                  (is_ok o = true -> q = hello clientTLS n seq).
Proof.
  unfold terminateClient. unfold sbind at 1, slift at 1. destruct nonce as [n|e| |];
    try (intros [= <- <-]; exists [], (b8 0), []; rewrite app_nil_r; split_and!;
         [done|apply prefix_nil|done]).
  unfold sbind at 1. destruct (on_out _ c) as [o1 c1] eqn:H1.
  apply on_out_packet_sent in H1 as (q1 & Hq1 & Hp1 & Hok1).
  assert (Hpre : forall seq, q1 `prefix_of` hello clientTLS n seq).
  { intros. by apply prefix_app_r. }
  destruct o1 as [[]|e| |]; try (intros [= <- <-]; exists n, (b8 0), q1; by auto).
  rewrite (Hok1 eq_refl) in Hq1, Hpre. clear Hok1 Hp1 q1.
  assert (Hstay : forall {A} (o0 : go A) c0, sent c0 = sent c1 -> is_ok o0 = false ->
    exists n0 seq q, sent c0 = sent c ++ q /\ q `prefix_of` hello clientTLS n0 seq /\
                  (is_ok o0 = true -> q = hello clientTLS n0 seq)).
  { intros A o0 c0 Hs Hf. eexists n, (b8 0), _. rewrite Hs, Hq1.
    split_and!; [done|apply Hpre|congruence]. }
  unfold sbind at 1. destruct (on_in readPacket c1) as [o2 c2] eqn:H2. apply on_in_sent in H2.
  destruct o2 as [first|e| |]; try (intros [= <- <-]; by apply Hstay).
  unfold sbind at 1, slift at 1. destruct (caps_of _ 0) as [caps|e| |];
    try (intros [= <- <-]; by apply Hstay).
  unfold sbind at 1. destruct (client_tls clientTLS first caps c2) as [o3 c3] eqn:H3.
  apply client_tls_sent in H3. rewrite H2 in H3.
  destruct o3 as [[resp caps']|e| |]; try (intros [= <- <-]; by apply Hstay).
  unfold sbind at 1, slift at 1. destruct (parseHandshakeResponse _ _) as [info|e| |];
    try (intros [= <- <-]; by apply Hstay).
  unfold sbind at 1. destruct (on_out _ c3) as [o4 c4] eqn:H4.
  apply on_out_packet_sent in H4 as (q2 & Hq2 & Hp2 & Hok2).
  rewrite H3, Hq1, <- app_assoc in Hq2.
  assert (Hp2' : packet (b8 0) (serverGreeting clientTLS n) ++ q2 `prefix_of`
                 hello clientTLS n (seq_add (p_seq resp) 1)) by by apply prefix_app.
  destruct o4 as [[]|e| |]; 
    try (intros [= <- <-]; eexists n, (seq_add (p_seq resp) 1), _; split; [exact Hq2|by split]).
  rewrite (Hok2 eq_refl) in Hq2. unfold sbind.
  destruct (on_in readPacket c4) as [o5 c5] eqn:H5. apply on_in_sent in H5. rewrite <- H5 in Hq2.
  destruct o5 as [tok|e| |]; intros [= <- <-]; eexists n, (seq_add (p_seq resp) 1), _;
    (split; [exact Hq2|]); by split.
Qed.

(** The bytes a client may have received when the login is over. *)
Inductive client_transcript (clientTLS : bool) : go clientHandshake -> bytes -> Prop :=
| in_hello o n seq q :
    is_ok o = false -> q `prefix_of` hello clientTLS n seq -> client_transcript clientTLS o q
| refused o n seq report seq' q :
    is_ok o = false -> report = denied \/ report = upstream_failed ->
    q `prefix_of` packet seq' (errorPacket 1045 (str "28000") report) ->
    client_transcript clientTLS o (hello clientTLS n seq ++ q)
| accepted o n seq seq' q :
    q `prefix_of` packet seq' okPayload -> (is_ok o = true -> q = packet seq' okPayload) ->
    client_transcript clientTLS o (hello clientTLS n seq ++ q).

Section login.
Context `{Hashes}.

Lemma my_report_inv {A} seq report (m : St net A) s o s' :
  or_report seq report m s = (o, s') ->
  exists s1, m s = (o, s1) /\ up s' = up s1 /\
  ((is_ok o = true /\ s' = s1) \/
   (is_ok o = false /\ exists q, sent (cl s') = sent (cl s1) ++ q /\
      q `prefix_of` packet seq (errorPacket 1045 (str "28000") report))).
Proof.
  unfold or_report. destruct (m s) as [[a|e| |] s1].
  - intros [= <- <-]. exists s1. split_and!; auto.
  - unfold on_cl, zoom. destruct (on_out _ (cl s1)) as [o2 c2] eqn:Ho. cbn [snd].
    intros [= <- <-]. exists s1. apply on_out_packet_sent in Ho as (q & Hq & Hp & _).
    split_and!; [done|done|]. right. eauto.
  - intros [= <- <-]. exists s1. split_and!; [done|done|]. right. split; [done|].
    exists []. rewrite app_nil_r. split; [done|apply prefix_nil].
  - intros [= <- <-]. exists s1. split_and!; [done|done|]. right. split; [done|].
    exists []. rewrite app_nil_r. split; [done|apply prefix_nil].
Qed.

(** The upstream login of a minted credential. *)
Definition minted_login (upstreamTLS required : bool) (info : clientHandshake)
    (cred : UpstreamCredential) : St conn unit :=
  authenticateUpstream upstreamTLS required cred
    (if decide (TrimSpace (Database cred) = []) then hs_database info else TrimSpace (Database cred)).

Lemma my_login_spec clientTLS upstreamTLS required resolve nonce s o s' :
  inject_login clientTLS upstreamTLS required resolve nonce s = (o, s') ->
  (exists q, sent (cl s') = sent (cl s) ++ q /\ client_transcript clientTLS o q) /\
  ((up s' = up s /\ is_ok o = false) \/
   exists info token cred c, terminateClient clientTLS nonce (cl s) = (Ok (info, token), c) /\
     resolve (startup_params info) token = Ok cred /\
     up s' = snd (minted_login upstreamTLS required info cred (up s)) /\
     (is_ok o = true -> fst (minted_login upstreamTLS required info cred (up s)) = Ok tt)).
Proof.
  intros Hrun. unfold inject_login in Hrun. unfold sbind at 1 in Hrun.
  destruct (on_cl (terminateClient clientTLS nonce) s) as [o1 s1] eqn:H1.
  apply on_cl_inv in H1 as (c1 & H1 & ->).
  pose proof (terminateClient_sent _ _ _ _ _ H1) as (n & seq & q & Hq & Hp & Hok).
  destruct o1 as [[info token]|e| |]; try (injection Hrun as <- <-; split;
    [exists q; split; [done|]; by apply (in_hello _ _ n seq)|by left]).
  rewrite (Hok eq_refl) in Hq. clear Hp Hok. cbn [cl up] in *. unfold sbind at 1 in Hrun.
  destruct (or_report _ denied _ _) as [o4 s4] eqn:H4.
  apply my_report_inv in H4 as (s4' & H4 & Hu4 & Hc4). injection H4 as Hres <-. cbn [cl up] in *.
  assert (Hrep : forall (o0 o' : go clientHandshake) report s2,
    is_ok o' = false -> report = denied \/ report = upstream_failed ->
    (exists q, sent (cl s2) = sent c1 ++ q /\
      q `prefix_of` packet (hs_nextSeq info) (errorPacket 1045 (str "28000") report)) ->
    exists q, sent (cl s2) = sent (cl s) ++ q /\ client_transcript clientTLS o' q).
  { intros _ o' report s2 Ho' Hrep (q2 & Hs2 & Hp). exists (hello clientTLS n seq ++ q2).
    rewrite Hs2, Hq, <- app_assoc. split; [done|]. by eapply refused. }
  destruct o4 as [cred|e| |]; try (injection Hrun as <- <-; split; [|by left];
    destruct Hc4 as [[? _]|[_ Hs4]]; [done|]; by apply (Hrep (Err EEOF) _ denied); auto).
  destruct Hc4 as [[_ ->]|[? _]]; [|done]. clear Hu4. unfold sbind at 1 in Hrun.
  destruct (or_report _ upstream_failed _ _) as [o5 s5] eqn:H5.
  apply my_report_inv in H5 as (s5' & H5 & Hu5 & Hc5).
  apply on_up_inv in H5 as (cu & H5 & ->). cbn [cl up] in *. fold (minted_login upstreamTLS required info cred) in H5.
  assert (Hup : forall (o' : go clientHandshake) s6, up s6 = up s5 -> (is_ok o' = true -> o5 = Ok tt) ->
    exists info token cred c, terminateClient clientTLS nonce (cl s) = (Ok (info, token), c) /\
     resolve (startup_params info) token = Ok cred /\
     up s6 = snd (minted_login upstreamTLS required info cred (up s)) /\
     (is_ok o' = true -> fst (minted_login upstreamTLS required info cred (up s)) = Ok tt)).
  { intros o' s6 Hs6 Ho'. exists info, token, cred, c1. rewrite H5, Hs6. cbn [fst snd].
    split_and!; [done|done|done|]. intros Hok. by apply Ho'. }
  destruct o5 as [[]|e| |]; try (injection Hrun as <- <-; split; [|right; by apply Hup];
    destruct Hc5 as [[? _]|[_ Hs5]]; [done|]; by apply (Hrep (Err EEOF) _ upstream_failed); auto).
  destruct Hc5 as [[_ ->]|[? _]]; [|done]. clear Hrep. cbn [cl up] in *. unfold sbind in Hrun.
  destruct (on_cl _ _) as [o6 s6] eqn:H6. apply on_cl_inv in H6 as (c6 & H6 & ->).
  cbn [cl up] in *. apply on_out_packet_sent in H6 as (q6 & Hs6 & Hp6 & Hok6).
  assert (Hend : forall o' : go clientHandshake, (is_ok o' = true -> o6 = Ok tt) ->
    exists q, sent c6 = sent (cl s) ++ q /\ client_transcript clientTLS o' q).
  { intros o' Ho'. exists (hello clientTLS n seq ++ q6). rewrite Hs6, Hq, <- app_assoc.
    split; [done|]. eapply accepted; [done|]. auto. }
  destruct o6 as [[]|e| |]; injection Hrun as <- <-;
    (split; [by apply Hend|right; by apply Hup]).
Qed.

End login.

(** C21: whatever the client and the upstream do, the bytes the client receives during the login are
    a prefix of the proxy's own greeting and switch to the cleartext plugin, followed at most by one
    of the two fixed refusals or by OK; a login that succeeds ends with exactly OK. Nothing of the
    upstream's packets and nothing of the minted credential reaches the client. *)
Theorem mysql_login_client `{Hashes} (clientTLS upstreamTLS required : bool)
    (resolve : CredentialResolver) (nonce : go bytes) (s : net) :
  let '(o, s') := inject_login clientTLS upstreamTLS required resolve nonce s in
  exists q, sent (cl s') = sent (cl s) ++ q /\ client_transcript clientTLS o q.
Proof.
  destruct (inject_login _ _ _ _ _ _) as [o s'] eqn:Hrun. by apply my_login_spec in Hrun as [? _].
Qed.

(** C20: the upstream connection is touched only after the resolver accepted the token recovered from
    the client, and then by exactly the login of the minted credential, whose success the success of
    the whole login needs. *)
Theorem mysql_login_upstream `{Hashes} (clientTLS upstreamTLS required : bool)
    (resolve : CredentialResolver) (nonce : go bytes) (s : net) :
  let '(o, s') := inject_login clientTLS upstreamTLS required resolve nonce s in
  (up s' = up s /\ is_ok o = false) \/
  exists info token cred c, terminateClient clientTLS nonce (cl s) = (Ok (info, token), c) /\
    resolve (startup_params info) token = Ok cred /\
    up s' = snd (minted_login upstreamTLS required info cred (up s)) /\
    (is_ok o = true -> fst (minted_login upstreamTLS required info cred (up s)) = Ok tt).
Proof.
  destruct (inject_login _ _ _ _ _ _) as [o s'] eqn:Hrun. by apply my_login_spec in Hrun as [_ ?].
Qed.
