(* ===== verification/Mongo.v ===== *)
(** * The MongoDB wire engine (internal/wire/mongo/mongo.go, bson.go)

    The BSON walker, the masking of result batches and the pump of OP_MSG replies. *)
From S2P Require Import Prelude Go GoStr GoIO Mask.
Open Scope Z_scope.

(** ** BSON element types *)
Definition bsonDouble : Z := 0x01.
Definition bsonString : Z := 0x02.
Definition bsonDoc : Z := 0x03.
Definition bsonArray : Z := 0x04.
Definition bsonBinary : Z := 0x05.
Definition bsonUndefined : Z := 0x06.
Definition bsonObjectID : Z := 0x07.
Definition bsonBool : Z := 0x08.
Definition bsonDatetime : Z := 0x09.
Definition bsonNull : Z := 0x0A.
Definition bsonRegex : Z := 0x0B.
Definition bsonDBPointer : Z := 0x0C.
Definition bsonJS : Z := 0x0D.
Definition bsonSymbol : Z := 0x0E.
Definition bsonCodeScope : Z := 0x0F.
Definition bsonInt32 : Z := 0x10.
Definition bsonTimestamp : Z := 0x11.
Definition bsonInt64 : Z := 0x12.
Definition bsonDecimal : Z := 0x13.
Definition bsonMinKey : Z := 0xFF.
Definition bsonMaxKey : Z := 0x7F.

Definition errBadBSON : gerr := EFmt "malformed bson" [].

(** [switch typ { case ts...: }] *)
Definition one_of (t : Z) (ts : list Z) : bool := existsb (Z.eqb t) ts.

(** A length word at the start of [b], at least [low]; the comparison with [low] is never negative
    because the word is unsigned. *)
Definition le32 (b : bytes) (low : Z) : go Z :=
  if zlen b <? 4 then Err errBadBSON
  else let? l := le_at 4 b 0 in if l <? low then Err errBadBSON else Ok l.

Definition valueLen (typ : byte) (b : bytes) : go Z :=
  let t := u8 typ in
  if one_of t [bsonDouble; bsonDatetime; bsonTimestamp; bsonInt64] then Ok 8
  else if one_of t [bsonInt32] then Ok 4
  else if one_of t [bsonObjectID] then Ok 12
  else if one_of t [bsonBool] then Ok 1
  else if one_of t [bsonNull; bsonUndefined; bsonMinKey; bsonMaxKey] then Ok 0
  else if one_of t [bsonDecimal] then Ok 16
  else if one_of t [bsonString; bsonJS; bsonSymbol] then let? l := le32 b 0 in Ok (4 + l)
  else if one_of t [bsonBinary] then let? l := le32 b 0 in Ok (4 + 1 + l)
  else if one_of t [bsonDoc; bsonArray; bsonCodeScope] then le32 b 5
  else if one_of t [bsonDBPointer] then let? l := le32 b 0 in Ok (4 + l + 12)
  else if one_of t [bsonRegex] then
    let a := IndexByte b (b8 0) in
    if a <? 0 then Err errBadBSON
    else
      let? tail := slice_from b (a + 1) in
      let c := IndexByte tail (b8 0) in
      if c <? 0 then Err errBadBSON else Ok (a + 1 + c + 1)
  else Err errBadBSON.

(** ** Walking a document *)

Definition elemFn : Type := byte -> bytes -> bytes -> go bytes.

(** The loop over the elements; [rest] is [body[off:]]. *)
Fixpoint rewrite_elems (fuel : nat) (fn : elemFn) (rest : bytes) : go bytes :=
  match rest with
  | [] => Ok []
  | typ :: after =>
      match fuel with
      | O => NoFuel
      | S k =>
          let nend := IndexByte after (b8 0) in
          if nend <? 0 then Err errBadBSON
          else
            let? name := slice after 0 nend in
            let? after := slice_from after (nend + 1) in
            let? vlen := valueLen typ after in
            if vlen >? zlen after then Err errBadBSON
            else
              let? value := slice after 0 vlen in
              let? after := slice_from after vlen in
              let? nv := fn typ name value in
              let? more := rewrite_elems k fn after in
              Ok (typ :: name ++ [b8 0] ++ nv ++ more)
      end
  end.

(** A document around its elements: total length, elements, NUL. *)
Definition document (elems : bytes) : bytes := le_bytes 4 (zlen elems + 5) ++ elems ++ [b8 0].

Definition rewriteDoc (doc : bytes) (fn : elemFn) : go bytes :=
  if zlen doc <? 5 then Err errBadBSON
  else
    let? total := le_at 4 doc 0 in
    if negb (total =? zlen doc) then Err errBadBSON
    else
      let? trailer := index doc (total - 1) in
      if decide (trailer = b8 0) then
        let? body := slice doc 4 (total - 1) in
        let? elems := rewrite_elems (length body) fn body in
        Ok (document elems)
      else Err errBadBSON.

(** ** Masking *)

Section masking.
Context (m : masker).

(** An empty string is handed to the masker as a nil slice, which stands for NULL. *)
Definition maskString (name value : bytes) : go bytes :=
  if zlen value <? 5 then Ok value
  else
    let? l := le_at 4 value 0 in
    if (l <? 1) || (4 + l >? zlen value) then Ok value
    else
      let? s := slice value 4 (4 + l - 1) in
      match m [mkCol name true] [if decide (s = []) then None else Some s] with
      | Ok [Some x] => if decide (x = s) then Ok value else Ok (le_bytes 4 (zlen x + 1) ++ x ++ [b8 0])
      | Ok _ | Err _ => Ok value
      | Panic => Panic
      | NoFuel => NoFuel
      end.

(** Every turn descends into a strictly shorter value. *)
Fixpoint result (fuel : nat) (doc : bytes) : go bytes :=
  match fuel with
  | O => NoFuel
  | S k =>
      rewriteDoc doc (fun typ name value =>
        if u8 typ =? bsonString then maskString name value
        else if one_of (u8 typ) [bsonDoc; bsonArray] then result k value
        else Ok value)
  end.

Definition maskResult (doc : bytes) : go bytes := result (S (length doc)) doc.

Definition batch (arr : bytes) : go bytes :=
  rewriteDoc arr (fun typ _ value => if u8 typ =? bsonDoc then maskResult value else Ok value).

Definition cursor (doc : bytes) : go bytes :=
  rewriteDoc doc (fun typ name value =>
    if (u8 typ =? bsonArray) &&
       (bool_decide (name = str "firstBatch") || bool_decide (name = str "nextBatch"))
    then batch value else Ok value).

Definition body (doc : bytes) : go bytes :=
  rewriteDoc doc (fun typ name value =>
    if (u8 typ =? bsonDoc) && bool_decide (name = str "cursor") then cursor value else Ok value).

(** ** Document sequences *)

(** The documents of a sequence, masked; [rest] is [rest[off:]]. *)
Fixpoint sequence_docs (fuel : nat) (rest : bytes) : go (bytes * bool) :=
  match rest with
  | [] => Ok ([], false)
  | _ =>
      match fuel with
      | O => NoFuel
      | S k =>
          if 4 >? zlen rest then Err errBadBSON
          else
            let? dl := le_at 4 rest 0 in
            if (dl <? 5) || (dl >? zlen rest) then Err errBadBSON
            else
              let? doc := slice rest 0 dl in
              let? nd := maskResult doc in
              let? tail := slice_from rest dl in
              let? (docs, changed) := sequence_docs k tail in
              Ok (nd ++ docs, negb (bool_decide (nd = doc)) || changed)
      end
  end.

Definition sequence (sec : bytes) : go (bytes * bool) :=
  if zlen sec <? 5 then Err errBadBSON
  else
    let? after := slice_from sec 4 in
    let idEnd := IndexByte after (b8 0) in
    if idEnd <? 0 then Err errBadBSON
    else
      let idEnd := idEnd + 4 in
      let? ident := slice sec 4 (idEnd + 1) in
      let? rest := slice_from sec (idEnd + 1) in
      let? (docs, changed) := sequence_docs (length rest) rest in
      Ok (le_bytes 4 (4 + zlen ident + zlen docs) ++ ident ++ docs, changed).

(** ** OP_MSG *)

Definition opMsg : Z := 2013.
Definition headerLen : Z := 16.
Definition flagChecksumPresent : Z := 1.
Definition maxMessageBytes : Z := Z.shiftl 64 20.

(** The sections; [rest] is [msg[off:end]]. [None] is a return of the original message. *)
Fixpoint sections (fuel : nat) (rest : bytes) : go (option (bytes * bool)) :=
  match rest with
  | [] => Ok (Some ([], false))
  | kind :: after =>
      match fuel with
      | O => NoFuel
      | S k =>
          let next (nd : bytes) (changed : bool) (tail : bytes) :=
            let? r := sections k tail in
            match r with
            | None => Ok None
            | Some (more, ch) => Ok (Some (kind :: nd ++ more, changed || ch))
            end in
          if u8 kind =? 0 then
            if 4 >? zlen after then Ok None
            else
              let? dl := le_at 4 after 0 in
              if (dl <? 5) || (dl >? zlen after) then Ok None
              else
                let? doc := slice after 0 dl in
                let? tail := slice_from after dl in
                match body doc with
                | Ok nd => next nd (negb (bool_decide (nd = doc))) tail
                | Err _ => Ok None
                | Panic => Panic
                | NoFuel => NoFuel
                end
          else if u8 kind =? 1 then
            if 4 >? zlen after then Ok None
            else
              let? ss := le_at 4 after 0 in
              if (ss <? 4) || (ss >? zlen after) then Ok None
              else
                let? sec := slice after 0 ss in
                let? tail := slice_from after ss in
                match sequence sec with
                | Ok (ns, ch) => next ns ch tail
                | Err _ => Ok None
                | Panic => Panic
                | NoFuel => NoFuel
                end
          else Ok None
      end
  end.

Definition transformMessage (msg : bytes) : go bytes :=
  if zlen msg <? headerLen + 4 then Ok msg
  else
    let? opcode := le_at 4 msg 12 in
    if negb (opcode =? opMsg) then Ok msg
    else
      let? flags := le_at 4 msg 16 in
      let summed := negb (Z.land flags flagChecksumPresent =? 0) in
      let e := if summed then zlen msg - 4 else zlen msg in
      if summed && (e <? 20) then Ok msg
      else
        let? rest := slice msg 20 e in
        let? r := sections (length rest) rest in
        match r with
        | None | Some (_, false) => Ok msg
        | Some (secs, true) =>
            let? ids := slice msg 4 headerLen in
            Ok (le_bytes 4 (headerLen + 4 + zlen secs) ++ ids ++
                le_bytes 4 (Z.ldiff flags flagChecksumPresent) ++ secs)
        end.

End masking.

(** ** The pump *)

Definition readMessage : St rd bytes :=
  let! hdr := ReadFull 4 in
  let! total := slift (le_at 4 hdr 0) in
  if (total <? headerLen) || (total >? maxMessageBytes) then
    sfail (EFmt "mongo: implausible message length" [])
  else
    let! rest := ReadFull (total - 4) in
    sret (hdr ++ rest).

Record mpipe := mkMpipe { m_in : rd; m_out : wr }.

Section pump.
(** The masker in force at the [i]-th message. *)
Context (mk : nat -> masker).

Fixpoint maskServer_loop (fuel : nat) (i : nat) : St mpipe unit :=
  match fuel with
  | O => slift NoFuel
  | S k =>
      let! msg := zoom m_in (fun r s => mkMpipe r (m_out s)) readMessage in
      let! out := slift (transformMessage (mk i) msg) in
      zoom m_out (fun w s => mkMpipe (m_in s) w) (Write out) ;;;
      maskServer_loop k (S i)
  end.

Definition maskServer (server : rd) (client : wr) : go unit * mpipe :=
  maskServer_loop (S (length (rbuf server))) O (mkMpipe server client).

(** Requests verbatim one way, masked replies the other. *)
Definition Proxy (client_first : bool) (n : net) : go unit * wr * mpipe :=
  let '(_, e_up, w) := Copy (c_in (cl n)) (c_out (up n)) in
  let '(e_down, p) := maskServer (c_in (up n)) (c_out (cl n)) in
  (quiet (if client_first then e_up else e_down), w, p).

End pump.
