(* ===== verification/MongoFacts.v ===== *)
(** * Facts about the MongoDB wire engine *)
From S2P Require Import Prelude Go GoStr GoIO Mask Mongo.
Open Scope Z_scope.

(** ** The walk always returns *)

Lemma le32_returns b low : returns (le32 b low).
Proof.
  unfold le32. destruct (zlen b <? 4) eqn:E; [done|]. apply Z.ltb_ge in E.
  rewrite le_at_ok by lia. cbn [gbind]. by case_match.
Qed.

Lemma le32_nonneg b low l : le32 b low = Ok l -> 0 <= l /\ low <= l.
Proof.
  unfold le32. destruct (zlen b <? 4) eqn:E; [done|]. apply Z.ltb_ge in E.
  rewrite le_at_ok by lia. cbn [gbind]. destruct (_ <? low) eqn:E2; [done|]. intros [= <-].
  apply Z.ltb_ge in E2. split; [apply le_val_range|done].
Qed.

Lemma valueLen_returns t b : returns (valueLen t b).
Proof.
  assert (Hle : forall k : Z -> Z, returns (let? l := le32 b 0 in Ok (k l))).
  { intros k. apply returns_gbind; [apply le32_returns|done]. }
  unfold valueLen.
  repeat (destruct (one_of _ _); [try done; try apply Hle; try apply le32_returns|]); [|done].
  pose proof (IndexByte_range b (b8 0)). destruct (IndexByte b _ <? 0) eqn:E; [done|].
  apply Z.ltb_ge in E. rewrite slice_from_ok by lia. cbn [gbind]. by case_match.
Qed.

Lemma valueLen_nonneg t b n : valueLen t b = Ok n -> 0 <= n.
Proof.
  assert (Hle : forall k : Z -> Z, (forall l, 0 <= l -> 0 <= k l) ->
            (let? l := le32 b 0 in Ok (k l)) = Ok n -> 0 <= n).
  { intros k Hk (l & [Hl _]%le32_nonneg & [= <-])%gbind_ok. auto. }
  unfold valueLen.
  repeat (destruct (one_of _ _);
    [try (intros [= <-]; lia); try (apply Hle; lia); try (intros [? _]%le32_nonneg; done)|]); [|done].
  pose proof (IndexByte_range b (b8 0)). destruct (IndexByte b _ <? 0) eqn:E; [done|].
  apply Z.ltb_ge in E. rewrite slice_from_ok by lia. cbn [gbind].
  destruct (_ <? 0) eqn:E2; [done|]. apply Z.ltb_ge in E2. intros [= <-]. lia.
Qed.

(** The callbacks are only called on strictly shorter values. *)
Lemma rewrite_elems_returns fn fuel : forall rest,
  (length rest <= fuel)%nat ->
  (forall t n v, (length v < length rest)%nat -> returns (fn t n v)) ->
  returns (rewrite_elems fuel fn rest).
Proof.
  induction fuel as [|k IH]; intros [|t after] Hk Hfn; try done; [simpl in Hk; lia|].
  cbn [rewrite_elems length] in *. pose proof (IndexByte_range after (b8 0)) as Hi.
  destruct (IndexByte after _ <? 0) eqn:E; [done|]. apply Z.ltb_ge in E.
  rewrite slice_ok by lia. cbn [gbind]. rewrite slice_from_ok by lia. cbn [gbind].
  set (a := drop _ after). pose proof (valueLen_returns t a) as Hr.
  destruct (valueLen t a) as [n|e| |] eqn:Hv; try done. cbn [gbind]. apply valueLen_nonneg in Hv.
  destruct (n >? zlen a) eqn:E2; [done|]. rewrite Z.gtb_ltb, Z.ltb_ge in E2.
  rewrite slice_ok by lia. cbn [gbind]. rewrite slice_from_ok by lia. cbn [gbind].
  assert (Ha : (length a <= length after)%nat) by (unfold a; rewrite length_drop; lia).
  apply returns_gbind.
  { apply Hfn. rewrite length_take, !length_drop. lia. }
  intros nv _. apply returns_gbind; [|done]. apply IH.
  - rewrite length_drop. lia.
  - intros t' n' v' Hv'. apply Hfn. rewrite length_drop in Hv'. lia.
Qed.

Lemma rewriteDoc_returns doc fn :
  (forall t n v, (length v < length doc)%nat -> returns (fn t n v)) -> returns (rewriteDoc doc fn).
Proof.
  intros Hfn. unfold rewriteDoc. destruct (zlen doc <? 5) eqn:E; [done|]. apply Z.ltb_ge in E.
  rewrite le_at_ok by lia. cbn [gbind]. destruct (negb _) eqn:E2; [done|].
  apply negb_false_iff, Z.eqb_eq in E2. rewrite E2.
  destruct (index_ok doc (zlen doc - 1) ltac:(lia)) as (b & -> & _). cbn [gbind].
  case_decide; [|done]. rewrite slice_ok by lia. cbn [gbind].
  apply returns_gbind; [|done]. apply rewrite_elems_returns; [done|].
  intros t n v Hv. apply Hfn. rewrite length_take, length_drop in Hv. lia.
Qed.

Section returns.
Context (m : masker) `{Hm : !MaskerOk m}.

Lemma maskString_returns name value : returns (maskString m name value).
Proof.
  unfold maskString. destruct (zlen value <? 5) eqn:E; [done|]. apply Z.ltb_ge in E.
  rewrite le_at_ok by lia. cbn [gbind]. destruct (_ || _) eqn:E2; [done|].
  apply orb_false_iff in E2 as [E2 E3]. rewrite Z.ltb_ge in E2. rewrite Z.gtb_ltb, Z.ltb_ge in E3.
  rewrite slice_ok by lia. cbn [gbind].
  match goal with |- context [m ?c ?r] => pose proof (mask_returns (m := m) c r); destruct (m c r) end;
    try done.
  destruct a as [|[x|] [|]]; try done. by case_decide.
Qed.

Lemma result_returns fuel : forall doc, (length doc < fuel)%nat -> returns (result m fuel doc).
Proof.
  induction fuel as [|k IH]; intros doc Hk; [lia|]. cbn [result]. apply rewriteDoc_returns.
  intros t n v Hv. case_match; [apply maskString_returns|]. case_match; [|done]. apply IH. lia.
Qed.

Lemma maskResult_returns doc : returns (maskResult m doc).
Proof. apply result_returns. lia. Qed.

Lemma batch_returns arr : returns (batch m arr).
Proof. apply rewriteDoc_returns. intros. case_match; [apply maskResult_returns|done]. Qed.

Lemma cursor_returns doc : returns (cursor m doc).
Proof. apply rewriteDoc_returns. intros. case_match; [apply batch_returns|done]. Qed.

Lemma body_returns doc : returns (body m doc).
Proof. apply rewriteDoc_returns. intros. case_match; [apply cursor_returns|done]. Qed.

Lemma sequence_docs_returns fuel : forall rest,
  (length rest <= fuel)%nat -> returns (sequence_docs m fuel rest).
Proof.
  induction fuel as [|k IH]; intros rest Hk; (destruct rest as [|b rest]; [done|]); [simpl in Hk; lia|].
  cbn [sequence_docs]. set (l := b :: rest) in *.
  rewrite Z.gtb_ltb. destruct (zlen l <? 4) eqn:E; [done|]. apply Z.ltb_ge in E.
  rewrite le_at_ok by lia. cbn [gbind]. destruct (_ || _) eqn:E2; [done|].
  apply orb_false_iff in E2 as [E2 E3]. rewrite Z.ltb_ge in E2. rewrite Z.gtb_ltb, Z.ltb_ge in E3.
  rewrite slice_ok by lia. cbn [gbind]. apply returns_gbind; [apply maskResult_returns|]. intros nd _.
  rewrite slice_from_ok by lia. cbn [gbind]. apply returns_gbind; [|by intros [? ?]].
  apply IH. rewrite length_drop. lia.
Qed.

Lemma sequence_returns sec : returns (sequence m sec).
Proof.
  unfold sequence. destruct (zlen sec <? 5) eqn:E; [done|]. apply Z.ltb_ge in E.
  rewrite slice_from_ok by lia. cbn [gbind].
  pose proof (IndexByte_range (drop (Z.to_nat 4) sec) (b8 0)) as Hi.
  destruct (_ <? 0) eqn:E2; [done|]. apply Z.ltb_ge in E2.
  assert (zlen (drop (Z.to_nat 4) sec) = zlen sec - 4) as Hl.
  { unfold zlen. rewrite length_drop. unfold zlen in E. lia. }
  rewrite slice_ok by lia. cbn [gbind]. rewrite slice_from_ok by lia. cbn [gbind].
  apply returns_gbind; [|by intros [? ?]]. by apply sequence_docs_returns.
Qed.

(** The sections return, and they never fail: a malformed one gives up with [None]. *)
Lemma sections_ok fuel : forall rest,
  (length rest <= fuel)%nat -> exists r, sections m fuel rest = Ok r.
Proof.
  induction fuel as [|k IH]; intros [|b after] Hk; cbn [sections]; try (by eauto);
    [simpl in Hk; lia|].
  simpl length in Hk. rewrite !Z.gtb_ltb.
  assert (Hnext : forall (nd : bytes) (ch : bool) n, exists r : option (bytes * bool),
    (let? r := sections m k (drop n after) in
     match r with None => Ok None | Some (more, c) => Ok (Some (b :: nd ++ more, ch || c)) end) = Ok r).
  { intros nd ch n. destruct (IH (drop n after)) as [r Hr]; [rewrite length_drop; lia|]. rewrite Hr.
    cbn [gbind]. destruct r as [[more c]|]; eauto. }
  destruct (u8 b =? 0); [|destruct (u8 b =? 1); [|by eauto]].
  - destruct (zlen after <? 4) eqn:E; [by eauto|]. apply Z.ltb_ge in E.
    rewrite le_at_ok by lia. cbn [gbind]. destruct (_ || _) eqn:E2; [by eauto|].
    apply orb_false_iff in E2 as [E2 E3]. rewrite Z.ltb_ge in E2. rewrite Z.gtb_ltb, Z.ltb_ge in E3.
    rewrite slice_ok by lia. cbn [gbind]. rewrite slice_from_ok by lia. cbn [gbind].
    match goal with |- context [body m ?d] => pose proof (body_returns d); destruct (body m d) end;
      try done; by eauto.
  - destruct (zlen after <? 4) eqn:E; [by eauto|]. apply Z.ltb_ge in E.
    rewrite le_at_ok by lia. cbn [gbind]. destruct (_ || _) eqn:E2; [by eauto|].
    apply orb_false_iff in E2 as [E2 E3]. rewrite Z.ltb_ge in E2. rewrite Z.gtb_ltb, Z.ltb_ge in E3.
    rewrite slice_ok by lia. cbn [gbind]. rewrite slice_from_ok by lia. cbn [gbind].
    match goal with |- context [sequence m ?d] =>
      pose proof (sequence_returns d); destruct (sequence m d) as [[ns c]|e| |] end;
      try done; by eauto.
Qed.

(** A message is either passed on as it came or rebuilt from its masked sections. *)
Lemma transformMessage_cases msg :
  exists out, transformMessage m msg = Ok out /\
  (out = msg \/
   (headerLen + 4 <= zlen msg /\ le_at 4 msg 12 = Ok opMsg /\
    exists flags secs, le_at 4 msg 16 = Ok flags /\
      out = le_bytes 4 (headerLen + 4 + zlen secs) ++ take 12 (drop 4 msg) ++
            le_bytes 4 (Z.ldiff flags flagChecksumPresent) ++ secs)).
Proof.
  unfold transformMessage, headerLen. destruct (zlen msg <? 16 + 4) eqn:E; [by eauto|]. apply Z.ltb_ge in E.
  rewrite (le_at_ok 4 msg 12), (le_at_ok 4 msg 16) by lia. cbn [gbind].
  destruct (negb _) eqn:E1; [by eauto|]. apply negb_false_iff, Z.eqb_eq in E1.
  set (flags := le_val (take 4 (drop (Z.to_nat 16) msg))).
  set (summed := negb (Z.land flags flagChecksumPresent =? 0)).
  set (e := if summed then zlen msg - 4 else zlen msg).
  destruct (summed && _) eqn:E2; [by eauto|].
  assert (He : 20 <= e <= zlen msg).
  { unfold e in *. destruct summed; [apply Z.ltb_ge in E2|]; lia. }
  rewrite slice_ok by lia. cbn [gbind].
  match goal with |- context [sections m ?n ?r] =>
    destruct (sections_ok n r ltac:(done)) as [[[secs []]|] ->] end; cbn [gbind]; try (by eauto).
  rewrite slice_ok by lia. cbn [gbind]. eexists. split; [done|]. right.
  rewrite <- E1. split_and!; [done|done|]. by exists flags, secs.
Qed.

End returns.

(** ** BSON values *)

(** The encodings of the BSON specification. Strings and the two container types are what masking looks
    into; every other value is opaque, and its bytes follow the grammar of its type. *)
Definition bson_string (s : bytes) : bytes := le_bytes 4 (zlen s + 1) ++ s ++ [b8 0].

Definition bson_document (elems : bytes) : bytes := le_bytes 4 (zlen elems + 5) ++ elems ++ [b8 0].

(** Sizes of the types whose values have a fixed one: double, datetime, timestamp, int64; int32; object
    id; boolean; null, undefined and the two keys; decimal128. *)
Definition fixed_sizes : list (Z * Z) :=
  [(0x01, 8); (0x09, 8); (0x11, 8); (0x12, 8); (0x10, 4); (0x07, 12); (0x08, 1); (0x0A, 0); (0x06, 0);
   (0xFF, 0); (0x7F, 0); (0x13, 16)].

Inductive raw_value : Z -> bytes -> Prop :=
| raw_fixed t n v : (t, n) ∈ fixed_sizes -> zlen v = n -> raw_value t v
| raw_binary subtype d : zlen d < 2 ^ 32 -> raw_value 0x05 (le_bytes 4 (zlen d) ++ subtype :: d)
| raw_regex pattern options : b8 0 ∉ pattern -> b8 0 ∉ options ->
    raw_value 0x0B (pattern ++ b8 0 :: options ++ [b8 0])
| raw_pointer name id : zlen name + 1 < 2 ^ 32 -> zlen id = 12 -> raw_value 0x0C (bson_string name ++ id)
| raw_script code : zlen code + 1 < 2 ^ 32 -> raw_value 0x0D (bson_string code)
| raw_symbol s : zlen s + 1 < 2 ^ 32 -> raw_value 0x0E (bson_string s)
| raw_code_scope code scope : 4 + zlen (bson_string code ++ scope) < 2 ^ 32 ->
    raw_value 0x0F (le_bytes 4 (4 + zlen (bson_string code ++ scope)) ++ bson_string code ++ scope).

Inductive bval : Type :=
| BString (s : bytes)
| BNode (typ : byte) (fields : list (bytes * bval))
| BRaw (typ : byte) (raw : bytes).

Definition typ_of (v : bval) : byte :=
  match v with BString _ => b8 0x02 | BNode t _ => t | BRaw t _ => t end.

Fixpoint encode_val (v : bval) : bytes :=
  match v with
  | BString s => bson_string s
  | BNode _ fs =>
      bson_document ((fix elems (fs : list (bytes * bval)) : bytes :=
                   match fs with
                   | [] => []
                   | (n, v) :: fs => typ_of v :: n ++ [b8 0] ++ encode_val v ++ elems fs
                   end) fs)
  | BRaw _ raw => raw
  end.

Fixpoint encode_elems (fs : list (bytes * bval)) : bytes :=
  match fs with
  | [] => []
  | (n, v) :: fs => typ_of v :: n ++ [b8 0] ++ encode_val v ++ encode_elems fs
  end.

Definition encode_doc (fs : list (bytes * bval)) : bytes := bson_document (encode_elems fs).

Lemma encode_node t fs : encode_val (BNode t fs) = encode_doc fs.
Proof.
  done.
Qed.

(** Well-formed: names without NUL, sizes that fit a length word, opaque values of their type's form. *)
Fixpoint bval_ok (v : bval) : Prop :=
  match v with
  | BString s => zlen s + 1 < 2 ^ 32
  | BNode t fs =>
      (u8 t = 0x03 \/ u8 t = 0x04) /\ zlen (encode_elems fs) + 5 < 2 ^ 32 /\
      (fix all (fs : list (bytes * bval)) : Prop :=
         match fs with [] => True | (n, v) :: fs => (b8 0 ∉ n) /\ bval_ok v /\ all fs end) fs
  | BRaw t raw => raw_value (u8 t) raw
  end.

Definition fields_ok (fs : list (bytes * bval)) : Prop :=
  zlen (encode_elems fs) + 5 < 2 ^ 32 /\ Forall (fun '(n, v) => (b8 0 ∉ n) /\ bval_ok v) fs.

Lemma node_ok t fs :
  bval_ok (BNode t fs) <-> (u8 t = 0x03 \/ u8 t = 0x04) /\ fields_ok fs.
Proof.
  unfold fields_ok. cbn [bval_ok].
  assert (H : (fix all (fs : list (bytes * bval)) : Prop :=
     match fs with [] => True | (n, v) :: fs => (b8 0 ∉ n) /\ bval_ok v /\ all fs end) fs <->
     Forall (fun '(n, v) => (b8 0 ∉ n) /\ bval_ok v) fs).
  { induction fs as [|[n v] fs IH]; [by split|]. rewrite Forall_cons, IH. tauto. }
  rewrite H. tauto.
Qed.

Lemma zlen_document elems : zlen (document elems) = zlen elems + 5.
Proof. unfold document. rewrite !zlen_app, zlen_le_bytes, zlen_cons, zlen_nil. lia. Qed.

Lemma le32_app v low tail :
  0 <= v < 2 ^ 32 -> low <= v -> le32 (le_bytes 4 v ++ tail) low = Ok v.
Proof.
  intros Hv Hl. unfold le32. pose proof (zlen_nonneg tail).
  rewrite (proj2 (Z.ltb_ge _ _)) by (rewrite zlen_app, zlen_le_bytes; lia).
  rewrite le_at_head by apply length_le_bytes. cbn [gbind].
  rewrite le_val_le_bytes, Z.mod_small by lia. by rewrite (proj2 (Z.ltb_ge _ _)) by lia.
Qed.

Lemma container_types t : u8 t = 0x03 \/ u8 t = 0x04 -> one_of (u8 t) [bsonDoc; bsonArray] = true.
Proof. by intros [-> | ->]. Qed.

Lemma raw_value_opaque t v : raw_value t v -> one_of t [bsonString; bsonDoc; bsonArray] = false.
Proof.
  intros Hv. inversion Hv as [t' n v' Hin| | | | | |]; subst; try done. unfold fixed_sizes in Hin.
  repeat (apply elem_of_cons in Hin as [[= -> _]|Hin]; [done|]). by apply not_elem_of_nil in Hin.
Qed.

Lemma zlen_bson_string s : zlen (bson_string s) = zlen s + 5.
Proof. unfold bson_string. rewrite !zlen_app, zlen_le_bytes, zlen_cons, zlen_nil. lia. Qed.

Lemma le32_string s tail : zlen s + 1 < 2 ^ 32 -> le32 (bson_string s ++ tail) 0 = Ok (zlen s + 1).
Proof. intros Hs. pose proof (zlen_nonneg s). unfold bson_string. rewrite <- app_assoc. apply le32_app; lia. Qed.

Lemma valueLen_node t v tail :
  u8 t = 0x03 \/ u8 t = 0x04 -> 5 <= v < 2 ^ 32 ->
  valueLen t (le_bytes 4 v ++ tail) = Ok v.
Proof.
  intros Ht Hv. unfold valueLen. destruct Ht as [-> | ->]; cbn -[le32 le_bytes]; apply le32_app; lia.
Qed.

(** The code's length of a value is that of its grammar, whatever follows it. *)
Lemma valueLen_raw t v tail : raw_value (u8 t) v -> valueLen t (v ++ tail) = Ok (zlen v).
Proof.
  unfold valueLen. generalize (u8 t). intros z Hv. destruct Hv as [z n v Hin Hn|sub d Hd|p o Hp Ho|s id Hs Hid|s Hs|s Hs|s sc Hs].
  - unfold fixed_sizes in Hin. repeat (apply elem_of_cons in Hin as [[= -> ->]|Hin]; [by cbn; rewrite <- Hn|]). by apply not_elem_of_nil in Hin.
  - cbn -[le32 le_bytes]. pose proof (zlen_nonneg d). rewrite <- app_assoc, le32_app by lia. cbn [gbind].
    rewrite zlen_app, zlen_le_bytes, zlen_cons. f_equal; lia.
  - cbn -[IndexByte slice_from]. pose proof (zlen_nonneg p). pose proof (zlen_nonneg o).
    rewrite <- app_assoc. cbn [app]. rewrite IndexByte_app by done. rewrite (proj2 (Z.ltb_ge _ _)) by lia.
    rewrite cons_middle, app_assoc, slice_from_app by (by rewrite zlen_app). cbn [gbind].
    rewrite <- app_assoc. cbn [app]. rewrite IndexByte_app by done. rewrite (proj2 (Z.ltb_ge _ _)) by lia.
    rewrite zlen_app, zlen_cons, zlen_app, zlen_cons, zlen_nil. f_equal; lia.
  - cbn -[le32 bson_string]. rewrite <- app_assoc, le32_string by done. cbn [gbind].
    rewrite zlen_app, zlen_bson_string, Hid. f_equal; lia.
  - cbn -[le32 bson_string]. rewrite le32_string by done. cbn [gbind]. rewrite zlen_bson_string. f_equal; lia.
  - cbn -[le32 bson_string]. rewrite le32_string by done. cbn [gbind]. rewrite zlen_bson_string. f_equal; lia.
  - cbn -[le32 le_bytes bson_string]. rewrite zlen_app, zlen_bson_string in *. pose proof (zlen_nonneg s). pose proof (zlen_nonneg sc).
    rewrite <- app_assoc, le32_app by lia. rewrite !zlen_app, zlen_le_bytes, zlen_bson_string. f_equal; lia.
Qed.

Lemma valueLen_val v tail : bval_ok v -> valueLen (typ_of v) (encode_val v ++ tail) = Ok (zlen (encode_val v)).
Proof.
  destruct v as [s|t fs|t raw].
  - cbn [bval_ok typ_of encode_val]. intros Hs. pose proof (zlen_nonneg s).
    unfold valueLen. change (u8 (b8 0x02)) with 0x02. cbn -[le32 bson_string].
    rewrite le32_string by done. cbn [gbind]. rewrite zlen_bson_string. f_equal; lia.
  - rewrite node_ok. intros (Ht & Hsz & _). rewrite encode_node. cbn [typ_of]. unfold encode_doc.
    change (bson_document (encode_elems fs)) with (document (encode_elems fs)).
    rewrite zlen_document. unfold document. rewrite <- app_assoc.
    pose proof (zlen_nonneg (encode_elems fs)). apply valueLen_node; [done|lia].
  - apply valueLen_raw.
Qed.

(** One walk over well-formed fields: each value goes to the callback, once, under its name. *)
Lemma rewrite_elems_fields fn out fs :
  Forall (fun '(n, v) => (b8 0 ∉ n) /\ bval_ok v) fs ->
  Forall2 (fun '(n, v) '(n', o) => n' = n /\ fn (typ_of v) n (encode_val v) = Ok o) fs out ->
  forall fuel, (length (encode_elems fs) <= fuel)%nat ->
  rewrite_elems fuel fn (encode_elems fs) =
  Ok (concat (zip_with (fun '(n, v) '(_, o) => typ_of v :: n ++ [b8 0] ++ o) fs out)).
Proof.
  intros Hok Hfn. induction Hfn as [|[n v] [n' o] fs out [-> Ho] Hfn IH]; intros fuel Hk.
  { by destruct fuel. }
  inversion Hok as [|? ? Hnv Hok']; subst. destruct Hnv as [Hn Hv].
  cbn [encode_elems] in *. cbn [length] in Hk. destruct fuel as [|k]; [lia|]. cbn [rewrite_elems].
  change ([b8 0] ++ encode_val v ++ encode_elems fs) with (b8 0 :: encode_val v ++ encode_elems fs) in *.
  rewrite IndexByte_app by done. pose proof (zlen_nonneg n).
  rewrite (proj2 (Z.ltb_ge _ _)) by lia. rewrite slice_head by done. cbn [gbind].
  rewrite cons_middle, app_assoc. rewrite slice_from_app by (by rewrite zlen_app). cbn [gbind].
  rewrite valueLen_val by done. cbn [gbind].
  rewrite Z.gtb_ltb, (proj2 (Z.ltb_ge _ _)) by apply zlen_app_ge.
  rewrite slice_head by done. cbn [gbind]. rewrite slice_from_app by done. cbn [gbind].
  rewrite Ho. cbn [gbind]. rewrite IH; [|done|].
  - cbn [gbind zip_with concat]. cbn [app]. by rewrite <- app_assoc.
  - rewrite !length_app in Hk. simpl in Hk. rewrite !length_app in Hk. lia.
Qed.

Lemma rewriteDoc_document elems fn :
  zlen elems + 5 < 2 ^ 32 ->
  rewriteDoc (document elems) fn =
  (let? elems' := rewrite_elems (length elems) fn elems in Ok (document elems')).
Proof.
  intros Hsz. pose proof (zlen_nonneg elems). unfold rewriteDoc. rewrite zlen_document.
  rewrite (proj2 (Z.ltb_ge _ _)) by lia. unfold document at 1.
  rewrite le_at_head by apply length_le_bytes. cbn [gbind].
  rewrite le_val_le_bytes, Z.mod_small, Z.eqb_refl by lia. cbn [negb].
  unfold document at 1. rewrite app_assoc, index_app_mid by (rewrite zlen_app, zlen_le_bytes; lia).
  cbn [gbind]. rewrite decide_True by done. unfold document at 1.
  rewrite slice_app_mid by (rewrite ?zlen_le_bytes; lia). done.
Qed.

(** A walk whose callback maps encodings to encodings maps the document to the document. *)
Lemma rewriteDoc_map fn (g : bytes -> bval -> bval) fs :
  fields_ok fs ->
  (forall n v, (n, v) ∈ fs ->
     typ_of (g n v) = typ_of v /\ fn (typ_of v) n (encode_val v) = Ok (encode_val (g n v))) ->
  rewriteDoc (encode_doc fs) fn = Ok (encode_doc (map (fun '(n, v) => (n, g n v)) fs)).
Proof.
  intros [Hsz Hok] Hg. change (rewriteDoc (document (encode_elems fs)) fn =
    Ok (document (encode_elems (map (fun '(n, v) => (n, g n v)) fs)))). rewrite rewriteDoc_document by done.
  rewrite (rewrite_elems_fields fn (map (fun '(n, v) => (n, encode_val (g n v))) fs)); [|done| |done].
  - cbn [gbind]. do 2 f_equal. clear Hsz Hok. induction fs as [|[n v] fs IH]; [done|].
    cbn [map zip_with concat encode_elems]. rewrite IH by set_solver.
    destruct (Hg n v) as [-> _]; [set_solver|]. cbn [app]. by rewrite <- app_assoc.
  - clear Hsz Hok. induction fs as [|[n v] fs IH]; constructor.
    + split; [done|]. apply Hg. set_solver.
    + apply IH. set_solver.
Qed.

(** ** The specification of masking on values *)

Section spec.
Context (m : masker).

(** A string under a name, through the masker; an empty one is NULL to it and stays. *)
Definition mask_string (name s : bytes) : bytes :=
  if decide (s = []) then s
  else match m [mkCol name true] [Some s] with Ok [Some x] => x | _ => s end.

(** Every string below, with the name of the element it stands under. *)
Fixpoint mask_val (name : bytes) (v : bval) : bval :=
  match v with
  | BString s => BString (mask_string name s)
  | BNode t fs => BNode t (map (fun '(n, v) => (n, mask_val n v)) fs)
  | BRaw t raw => BRaw t raw
  end.

Definition mask_doc (fs : list (bytes * bval)) : list (bytes * bval) :=
  map (fun '(n, v) => (n, mask_val n v)) fs.

(** In a reply: [cursor] / [firstBatch] or [nextBatch] / each document. *)
Definition mask_batch_item (_ : bytes) (v : bval) : bval :=
  match v with
  | BNode t fs => if u8 t =? bsonDoc then BNode t (mask_doc fs) else v
  | _ => v
  end.
Definition mask_cursor_field (n : bytes) (v : bval) : bval :=
  match v with
  | BNode t fs =>
      if (u8 t =? bsonArray) && (bool_decide (n = str "firstBatch") || bool_decide (n = str "nextBatch"))
      then BNode t (map (fun '(n, v) => (n, mask_batch_item n v)) fs) else v
  | _ => v
  end.
Definition mask_body_field (n : bytes) (v : bval) : bval :=
  match v with
  | BNode t fs =>
      if (u8 t =? bsonDoc) && bool_decide (n = str "cursor")
      then BNode t (map (fun '(n, v) => (n, mask_cursor_field n v)) fs) else v
  | _ => v
  end.
Definition mask_body (fs : list (bytes * bval)) : list (bytes * bval) :=
  map (fun '(n, v) => (n, mask_body_field n v)) fs.

Context `{Hm : !MaskerOk m}.

Lemma typ_mask_val n v : typ_of (mask_val n v) = typ_of v.
Proof. by destruct v. Qed.

Lemma maskString_encode name s :
  zlen s + 1 < 2 ^ 32 ->
  maskString m name (encode_val (BString s)) = Ok (encode_val (BString (mask_string name s))).
Proof.
  intros Hs. pose proof (zlen_nonneg s). cbn [encode_val]. unfold bson_string at 1. set (v := le_bytes 4 _ ++ _).
  assert (Hv : zlen v = zlen s + 5).
  { unfold v. rewrite !zlen_app, zlen_le_bytes, zlen_cons, zlen_nil. lia. }
  unfold maskString. rewrite Hv. rewrite (proj2 (Z.ltb_ge _ _)) by lia. unfold v at 1.
  rewrite le_at_head by apply length_le_bytes. cbn [gbind].
  rewrite le_val_le_bytes, Z.mod_small by lia.
  rewrite (proj2 (Z.ltb_ge _ _)) by lia. rewrite Z.gtb_ltb, (proj2 (Z.ltb_ge _ _)) by lia. cbn [orb].
  unfold v at 1. rewrite slice_app_mid by (rewrite ?zlen_le_bytes; lia). cbn [gbind].
  unfold mask_string. destruct (decide (s = [])) as [->|Hne].
  - pose proof (mask_returns (m := m) [mkCol name true] [None]) as Hr.
    destruct (m [mkCol name true] [None]) as [r|e| |] eqn:E; try done.
    pose proof (mask_null _ _ _ 0%nat E eq_refl) as Hnil.
    destruct r as [|[x|] [|]]; try done.
  - pose proof (mask_returns (m := m) [mkCol name true] [Some s]) as Hr.
    destruct (m [mkCol name true] [Some s]) as [r|e| |] eqn:E; try done.
    pose proof (mask_length _ _ _ E) as Hlen.
    destruct r as [|[x|] [|]]; try done. by destruct (decide (x = s)) as [->|].
Qed.

Lemma encode_doc_length_val n v fs :
  (n, v) ∈ fs -> (length (encode_val v) < length (encode_doc fs))%nat.
Proof.
  intros Hin. unfold encode_doc, bson_document. rewrite !length_app, length_le_bytes.
  assert ((length (encode_val v) <= length (encode_elems fs))%nat); [|lia].
  induction fs as [|[n' v'] fs IH]; [set_solver|]. cbn [encode_elems length]. rewrite !length_app.
  apply elem_of_cons in Hin as [[= <- <-]|Hin]; [lia|]. specialize (IH Hin). lia.
Qed.

Lemma not_container t : one_of t [bsonString; bsonDoc; bsonArray] = false ->
  (t =? bsonString) = false /\ one_of t [bsonDoc; bsonArray] = false.
Proof. unfold one_of. cbn [existsb]. intros H%orb_false_iff. tauto. Qed.

Lemma result_encode fuel : forall fs,
  fields_ok fs -> (length (encode_doc fs) < fuel)%nat ->
  result m fuel (encode_doc fs) = Ok (encode_doc (mask_doc fs)).
Proof.
  induction fuel as [|k IH]; intros fs Hok Hk; [lia|]. cbn [result]. unfold mask_doc.
  apply rewriteDoc_map; [done|]. intros n v Hin. split; [apply typ_mask_val|].
  pose proof (encode_doc_length_val _ _ _ Hin) as Hl.
  destruct Hok as [_ Hok]. rewrite Forall_forall in Hok. specialize (Hok _ Hin) as [_ Hv].
  destruct v as [s|t fs'|t raw].
  - cbn [typ_of mask_val]. change (u8 (b8 0x02) =? bsonString) with true. cbn iota.
    by apply maskString_encode.
  - apply node_ok in Hv as [Ht Hf]. cbn [typ_of mask_val].
    assert ((u8 t =? bsonString) = false) as ->.
    { by destruct Ht as [-> | ->]. }
    rewrite (container_types t Ht), !encode_node. rewrite encode_node in Hl. apply IH; [done|lia].
  - apply raw_value_opaque in Hv as Ht. cbn [typ_of mask_val encode_val].
    destruct (not_container _ Ht) as [-> ->]. done.
Qed.

Lemma maskResult_encode fs :
  fields_ok fs -> maskResult m (encode_doc fs) = Ok (encode_doc (mask_doc fs)).
Proof. intros Hok. apply result_encode; [done|lia]. Qed.

(** A field that a level does not look into is kept. *)
Lemma batch_encode fs :
  fields_ok fs ->
  batch m (encode_doc fs) = Ok (encode_doc (map (fun '(n, v) => (n, mask_batch_item n v)) fs)).
Proof.
  intros Hok. unfold batch. apply (rewriteDoc_map _ mask_batch_item); [done|]. intros n v Hin.
  destruct Hok as [_ Hok]. rewrite Forall_forall in Hok. specialize (Hok _ Hin) as [_ Hv].
  destruct v as [s|t fs'|t raw]; cbn [typ_of mask_batch_item].
  - split; [done|]. by change (u8 (b8 0x02) =? bsonDoc) with false.
  - apply node_ok in Hv as [Ht Hf]. destruct (u8 t =? bsonDoc); [|done]. split; [done|].
    by rewrite !encode_node, maskResult_encode.
  - split; [done|]. apply raw_value_opaque, not_container in Hv as [_ Ht].
    unfold one_of in Ht. cbn [existsb] in Ht. by apply orb_false_iff in Ht as [-> _].
Qed.

Lemma raw_types t : one_of (u8 t) [bsonString; bsonDoc; bsonArray] = false ->
  (u8 t =? bsonDoc) = false /\ (u8 t =? bsonArray) = false.
Proof.
  intros Ht. apply not_container in Ht as [_ Ht].
  unfold one_of in Ht. cbn [existsb] in Ht. rewrite orb_false_r in Ht. by apply orb_false_iff in Ht.
Qed.

Lemma cursor_encode fs :
  fields_ok fs ->
  cursor m (encode_doc fs) = Ok (encode_doc (map (fun '(n, v) => (n, mask_cursor_field n v)) fs)).
Proof.
  intros Hok. unfold cursor. apply (rewriteDoc_map _ mask_cursor_field); [done|]. intros n v Hin.
  destruct Hok as [_ Hok]. rewrite Forall_forall in Hok. specialize (Hok _ Hin) as [_ Hv].
  destruct v as [s|t fs'|t raw]; cbn [typ_of mask_cursor_field].
  - split; [done|]. by change (u8 (b8 0x02) =? bsonArray) with false.
  - apply node_ok in Hv as [Ht Hf]. destruct (_ && _); [|done]. split; [done|].
    by rewrite !encode_node, batch_encode.
  - split; [done|]. by destruct (raw_types _ (raw_value_opaque _ _ Hv)) as [_ ->].
Qed.

Lemma body_encode fs :
  fields_ok fs -> body m (encode_doc fs) = Ok (encode_doc (mask_body fs)).
Proof.
  intros Hok. unfold body. apply (rewriteDoc_map _ mask_body_field); [done|]. intros n v Hin.
  destruct Hok as [_ Hok]. rewrite Forall_forall in Hok. specialize (Hok _ Hin) as [_ Hv].
  destruct v as [s|t fs'|t raw]; cbn [typ_of mask_body_field].
  - split; [done|]. by change (u8 (b8 0x02) =? bsonDoc) with false.
  - apply node_ok in Hv as [Ht Hf]. destruct (_ && _); [|done]. split; [done|].
    by rewrite !encode_node, cursor_encode.
  - split; [done|]. by destruct (raw_types _ (raw_value_opaque _ _ Hv)) as [-> _].
Qed.

End spec.
