(* ===== verification/MongoProps.v ===== *)
(** * What the MongoDB wire engine guarantees *)
From S2P Require Import Prelude Go GoStr GoIO ConnFacts Mask Mongo MongoFacts.
Open Scope Z_scope.

#[local] Instance ascii_unicode : Unicode := {| lower_runes := id |}.

(** ** One document *)

(** C30: masking a result document maps the document to the document: for every well-formed BSON
    value, however deeply nested, the outcome is the encoding, lengths included, of the same value
    with exactly its strings replaced by what the masker makes of them under their element name (a
    string stays when it is empty or the masker fails on it); numbers, dates, binaries and every other
    type, each with the length the BSON specification gives it, are kept byte for byte. *)
Theorem maskResult_spec (m : masker) (fs : list (bytes * bval))
    (Hm : MaskerOk m) (Hok : fields_ok fs) :
  maskResult m (encode_doc fs) = Ok (encode_doc (mask_doc m fs)).
Proof. by apply maskResult_encode. Qed.

Definition demo_doc : list (bytes * bval) :=
  [(str "_id", BRaw (b8 0x10) (le_bytes 4 7)); (str "email", BString (str "a@b"));
   (str "photo", BRaw (b8 0x05) (le_bytes 4 3 ++ b8 0 :: str "png"));
   (str "tags", BNode (b8 0x04) [(str "0", BString (str "x"))])].

Lemma demo_doc_ok : fields_ok demo_doc.
Proof.
  split; [by vm_compute|]. unfold demo_doc.
  repeat apply Forall_cons_2; [..|apply Forall_nil_2]; (split; [apply find_byte_None; vm_compute; reflexivity|]).
  - apply (raw_fixed 0x10 4); [|reflexivity]. vm_compute. repeat constructor.
  - vm_compute. reflexivity.
  - apply (raw_binary (b8 0) (str "png")). vm_compute. reflexivity.
  - apply node_ok. split; [right; reflexivity|]. split; [vm_compute; reflexivity|].
    apply Forall_cons_2; [|apply Forall_nil_2]. split; [apply find_byte_None; vm_compute; reflexivity|].
    vm_compute. reflexivity.
Defined.

Lemma maskResult_spec_witness :
  maskResult (Overlay.MaskRow (Overlay.NewOverlay [(str "email", str "***")])) (encode_doc demo_doc) =
  Ok (encode_doc (mask_doc (Overlay.MaskRow (Overlay.NewOverlay [(str "email", str "***")])) demo_doc)).
Proof. exact (maskResult_spec _ demo_doc (Overlay_ok _) demo_doc_ok). Defined.

(** ** Sections *)

Inductive section_ :=
| SBody (fs : list (bytes * bval))
| SSeq (ident : bytes) (docs : list (list (bytes * bval))).

Definition encode_docs (docs : list (list (bytes * bval))) : bytes := concat (map encode_doc docs).

Definition encode_seq (ident : bytes) (docs : bytes) : bytes :=
  le_bytes 4 (4 + (zlen ident + 1) + zlen docs) ++ (ident ++ [b8 0]) ++ docs.

Definition encode_section (s : section_) : bytes :=
  match s with
  | SBody fs => b8 0 :: encode_doc fs
  | SSeq ident docs => b8 1 :: encode_seq ident (encode_docs docs)
  end.

Definition section_ok (s : section_) : Prop :=
  match s with
  | SBody fs => fields_ok fs
  | SSeq ident docs => (b8 0 ∉ ident) /\ Forall fields_ok docs /\
                       5 + zlen ident + zlen (encode_docs docs) < 2 ^ 32
  end.

Definition mask_section (m : masker) (s : section_) : section_ :=
  match s with
  | SBody fs => SBody (mask_body m fs)
  | SSeq ident docs => SSeq ident (map (mask_doc m) docs)
  end.

Section sections.
Context (m : masker) `{Hm : !MaskerOk m}.

Lemma zlen_encode_doc fs : zlen (encode_doc fs) = zlen (encode_elems fs) + 5.
Proof. apply zlen_document. Qed.

Lemma encode_doc_word fs tail :
  fields_ok fs -> le_at 4 (encode_doc fs ++ tail) 0 = Ok (zlen (encode_doc fs)).
Proof.
  intros [Hsz _]. rewrite zlen_encode_doc. unfold encode_doc, bson_document. rewrite <- app_assoc.
  rewrite le_at_head by apply length_le_bytes. pose proof (zlen_nonneg (encode_elems fs)).
  by rewrite le_val_le_bytes, Z.mod_small by lia.
Qed.

(** Two byte strings that begin with their own length cannot be told apart only by what follows. *)
Definition sized (x : bytes) : Prop := take 4 x = le_bytes 4 (zlen x).

Lemma sized_cancel x y a b :
  sized x -> sized y -> zlen (y ++ b) < 2 ^ 32 -> x ++ a = y ++ b -> x = y /\ a = b.
Proof.
  intros Hx Hy Hl He. assert (Hz : zlen (x ++ a) = zlen (y ++ b)) by by rewrite He.
  rewrite !zlen_app in *. pose proof (zlen_nonneg x). pose proof (zlen_nonneg y).
  pose proof (zlen_nonneg a). pose proof (zlen_nonneg b).
  assert (H4 : forall z, sized z -> (4 <= length z)%nat).
  { intros z Hs. apply (f_equal length) in Hs. rewrite length_take, length_le_bytes in Hs. lia. }
  assert (Hw : le_bytes 4 (zlen x) = le_bytes 4 (zlen y)).
  { rewrite <- Hx, <- Hy. apply (f_equal (take 4)) in He.
    by rewrite !take_app_le in He by (by apply H4). }
  apply (f_equal le_val) in Hw. rewrite !le_val_le_bytes, !Z.mod_small in Hw by lia.
  apply app_inj_1 in He; [done|]. unfold zlen in Hw. lia.
Qed.

Lemma sized_doc fs : sized (encode_doc fs).
Proof.
  unfold sized. rewrite zlen_encode_doc. unfold encode_doc, bson_document. by apply take_app_exact.
Qed.

Lemma sized_seq ident docs : sized (encode_seq ident docs).
Proof.
  unfold sized, encode_seq. rewrite take_app_exact by (by rewrite length_le_bytes).
  f_equal. rewrite !zlen_app, zlen_le_bytes, zlen_cons, zlen_nil. lia.
Qed.

Lemma bool_decide_cons (k : byte) (x y : bytes) : bool_decide (k :: x = k :: y) = bool_decide (x = y).
Proof. apply bool_decide_ext. split; [by intros [= ->]|by intros ->]. Qed.

(** Whether two such strings with tails differ is whether the strings or the tails do. *)
Lemma differ_cancel x y a b :
  sized x -> sized y -> zlen (y ++ b) < 2 ^ 32 ->
  negb (bool_decide (x = y)) || negb (bool_decide (a = b)) = negb (bool_decide (x ++ a = y ++ b)).
Proof.
  intros Hx Hy Hl. rewrite <- negb_andb, <- bool_decide_and. f_equal. apply bool_decide_ext.
  split; [by intros [-> ->]|by apply sized_cancel].
Qed.

Lemma sequence_docs_encode docs : forall fuel,
  Forall fields_ok docs -> (length (encode_docs docs) <= fuel)%nat -> zlen (encode_docs docs) < 2 ^ 32 ->
  sequence_docs m fuel (encode_docs docs) =
  Ok (encode_docs (map (mask_doc m) docs),
      negb (bool_decide (encode_docs (map (mask_doc m) docs) = encode_docs docs))).
Proof.
  induction docs as [|fs docs IH]; intros fuel Hok Hk Hsz.
  { by destruct fuel. }
  inversion Hok as [|? ? Hf Hok']; subst. unfold encode_docs in *. cbn [map concat] in *.
  pose proof (zlen_encode_doc fs) as Hz. pose proof (zlen_nonneg (encode_elems fs)).
  set (rest := concat (map encode_doc docs)) in *. pose proof (zlen_nonneg rest).
  assert (Hne : exists b l, encode_doc fs ++ rest = b :: l).
  { destruct (encode_doc fs) as [|b l]; [change (zlen (@nil byte)) with 0 in Hz; lia|]. by eexists _, _. }
  rewrite length_app in Hk. unfold zlen in Hz.
  destruct fuel as [|k]; [lia|]. cbn [sequence_docs]. destruct Hne as (b & l & Hbl).
  rewrite Hbl, <- Hbl. clear b l Hbl.
  rewrite Z.gtb_ltb, (proj2 (Z.ltb_ge _ _)) by (rewrite zlen_app, zlen_encode_doc; lia).
  rewrite encode_doc_word by done. cbn [gbind].
  rewrite (proj2 (Z.ltb_ge _ _)) by (rewrite zlen_encode_doc; lia).
  rewrite Z.gtb_ltb, (proj2 (Z.ltb_ge _ _)) by apply zlen_app_ge. cbn [orb].
  rewrite slice_head by done. cbn [gbind]. rewrite maskResult_encode by done. cbn [gbind].
  rewrite slice_from_app by done. cbn [gbind].
  pose proof Hsz as Hsz'. rewrite zlen_app in Hsz'. pose proof (zlen_nonneg (encode_doc fs)).
  rewrite IH by (done || lia). cbn [gbind]. do 2 f_equal. apply differ_cancel; [apply sized_doc..|done].
Qed.

Lemma sequence_encode ident docs :
  section_ok (SSeq ident docs) ->
  sequence m (encode_seq ident (encode_docs docs)) =
  Ok (encode_seq ident (encode_docs (map (mask_doc m) docs)),
      negb (bool_decide (encode_seq ident (encode_docs (map (mask_doc m) docs)) =
                         encode_seq ident (encode_docs docs)))).
Proof.
  intros (Hi & Hd & Hsz). pose proof (zlen_nonneg ident). pose proof (zlen_nonneg (encode_docs docs)).
  pose proof (sequence_docs_encode docs (length (encode_docs docs)) Hd ltac:(lia) ltac:(lia)) as Hs.
  unfold sequence. set (diff := negb _). unfold encode_seq at 1.
  set (w := le_bytes 4 _). assert (Hw : zlen w = 4) by apply zlen_le_bytes.
  rewrite (proj2 (Z.ltb_ge _ _)); cycle 1.
  { rewrite !zlen_app, Hw, zlen_cons, zlen_nil. lia. }
  unfold encode_seq at 1. fold w. rewrite slice_from_app by done. cbn [gbind].
  rewrite <- (app_assoc ident). cbn [app]. rewrite IndexByte_app by done.
  rewrite (proj2 (Z.ltb_ge _ _)) by lia.
  unfold encode_seq at 1 2. fold w.
  rewrite slice_app_mid by (rewrite ?zlen_app, ?Hw, ?zlen_cons, ?zlen_nil; lia). cbn [gbind].
  rewrite app_assoc, slice_from_app by (rewrite !zlen_app, Hw, zlen_cons, zlen_nil; lia). cbn [gbind].
  rewrite Hs. cbn [gbind]. unfold encode_seq. rewrite zlen_app, zlen_cons, zlen_nil. do 2 f_equal.
  subst diff. f_equal. apply bool_decide_ext. split; [by intros ->|]. unfold encode_seq.
  intros [_ He]%app_inj_1; [|by rewrite !length_le_bytes]. by apply app_inv_head in He.
Qed.

(** The flag says whether the masked sections differ from the sections. *)
Lemma sections_encode ss : forall fuel,
  Forall section_ok ss -> (length (concat (map encode_section ss)) <= fuel)%nat ->
  zlen (concat (map encode_section ss)) < 2 ^ 32 ->
  sections m fuel (concat (map encode_section ss)) =
    Ok (Some (concat (map encode_section (map (mask_section m) ss)),
              negb (bool_decide (concat (map encode_section (map (mask_section m) ss)) =
                                 concat (map encode_section ss))))).
Proof.
  induction ss as [|s ss IH]; intros fuel Hok Hk Hsz.
  { by destruct fuel. }
  inversion Hok as [|? ? Hs Hok']; subst. cbn [map concat] in *. rewrite length_app in Hk.
  set (rest := concat (map encode_section ss)) in *.
  set (rest' := concat (map encode_section (map (mask_section m) ss))) in *.
  pose proof (zlen_nonneg rest). destruct s as [fs|ident docs]; cbn [encode_section mask_section] in *.
  - cbn [length app] in *. destruct fuel as [|k]; [lia|]. cbn [sections].
    change (u8 (b8 0) =? 0) with true. cbn iota.
    pose proof (zlen_encode_doc fs) as Hz. pose proof (zlen_nonneg (encode_elems fs)).
    rewrite Z.gtb_ltb, (proj2 (Z.ltb_ge _ _)) by (rewrite zlen_app; lia).
    rewrite encode_doc_word by done. cbn [gbind].
    rewrite (proj2 (Z.ltb_ge _ _)) by lia.
    rewrite Z.gtb_ltb, (proj2 (Z.ltb_ge _ _)) by apply zlen_app_ge. cbn [orb].
    rewrite slice_head by done. cbn [gbind]. rewrite slice_from_app by done. cbn [gbind].
    rewrite body_encode by done. cbn [app] in Hsz. rewrite zlen_cons, zlen_app in Hsz.
    rewrite IH by (done || lia). cbn [gbind app].
    rewrite differ_cancel, bool_decide_cons; [done|apply sized_doc..|rewrite zlen_app; lia].
  - cbn [length app] in *. destruct fuel as [|k]; [lia|]. cbn [sections].
    change (u8 (b8 1) =? 0) with false. change (u8 (b8 1) =? 1) with true. cbn iota.
    pose proof (sequence_encode ident docs Hs) as H1.
    destruct Hs as (Hi & Hd & Hs'). pose proof (zlen_nonneg ident).
    pose proof (zlen_nonneg (encode_docs docs)).
    assert (Hz : zlen (encode_seq ident (encode_docs docs)) = 5 + zlen ident + zlen (encode_docs docs)).
    { unfold encode_seq. rewrite !zlen_app, zlen_le_bytes, zlen_cons, zlen_nil. lia. }
    rewrite Z.gtb_ltb, (proj2 (Z.ltb_ge _ _)) by (rewrite zlen_app; lia).
    assert (Hword : le_at 4 (encode_seq ident (encode_docs docs) ++ rest) 0 =
                    Ok (zlen (encode_seq ident (encode_docs docs)))).
    { rewrite Hz. unfold encode_seq. rewrite <- app_assoc, le_at_head by apply length_le_bytes.
      rewrite le_val_le_bytes, Z.mod_small by lia. f_equal. lia. }
    rewrite Hword. cbn [gbind]. rewrite (proj2 (Z.ltb_ge _ _)) by lia.
    rewrite Z.gtb_ltb, (proj2 (Z.ltb_ge _ _)) by apply zlen_app_ge. cbn [orb].
    rewrite slice_head by done. cbn [gbind]. rewrite slice_from_app by done. cbn [gbind].
    rewrite H1. cbn [app] in Hsz. rewrite zlen_cons, zlen_app in Hsz.
    rewrite IH by (done || lia). cbn [gbind app].
    rewrite differ_cancel, bool_decide_cons; [done|apply sized_seq..|rewrite zlen_app; lia].
Qed.

End sections.

(** ** One message *)

(** An OP_MSG around its sections: header, flags, sections, and the checksum if there is one. *)
Definition op_msg (ids : bytes) (flags : Z) (secs crc : bytes) : bytes :=
  le_bytes 4 (20 + zlen secs + zlen crc) ++ (ids ++ le_bytes 4 opMsg) ++ le_bytes 4 flags ++ secs ++ crc.

Definition summed (flags : Z) : bool := negb (Z.land flags flagChecksumPresent =? 0).

(** C5: an OP_MSG reply made of any well-formed sections (bodies and document sequences) is passed
    on byte for byte, checksum included, when masking changes no byte of them; otherwise it is rebuilt
    with the same ids, opcode and other flags, the masked sections, a length word that is right again,
    and without checksum and checksum flag. In a body only the strings of the documents in
    cursor.firstBatch and cursor.nextBatch are masked, in a sequence those of every document. The
    sections are below 2^32 bytes (the reader accepts messages of at most 64 MiB). *)
Theorem transformMessage_masks (m : masker) (ids : bytes) (flags : Z) (ss : list section_) (crc : bytes)
    (Hm : MaskerOk m) (Hids : zlen ids = 8) (Hfl : 0 <= flags < 2 ^ 32)
    (Hcrc : zlen crc = if summed flags then 4 else 0) (Hss : Forall section_ok ss)
    (Hsize : zlen (concat (map encode_section ss)) < 2 ^ 32) :
  let secs := concat (map encode_section ss) in
  let masked := concat (map encode_section (map (mask_section m) ss)) in
  let msg := op_msg ids flags secs crc in
  transformMessage m msg =
  Ok (if decide (masked = secs) then msg
      else le_bytes 4 (20 + zlen masked) ++ ids ++ le_bytes 4 2013 ++ le_bytes 4 (Z.ldiff flags 1) ++ masked).
Proof.
  cbv zeta. set (secs := concat (map encode_section ss)). set (masked := concat (map encode_section (map (mask_section m) ss))).
  pose proof (sections_encode m ss (length secs) Hss (le_n _) Hsize) as Hsec.
  fold secs masked in Hsec.
  set (msg := op_msg ids flags secs crc). pose proof (zlen_nonneg secs). pose proof (zlen_nonneg crc).
  assert (Hl : zlen msg = 20 + zlen secs + zlen crc).
  { unfold msg, op_msg. rewrite !zlen_app, !zlen_le_bytes. lia. }
  unfold transformMessage, headerLen. rewrite (proj2 (Z.ltb_ge _ _)) by lia.
  assert (Hop : le_at 4 msg 12 = Ok opMsg).
  { unfold msg, op_msg. rewrite <- (app_assoc ids), app_assoc.
    rewrite le_at_app; [done|by rewrite zlen_app, zlen_le_bytes, Hids|apply length_le_bytes]. }
  assert (Hf : le_at 4 msg 16 = Ok flags).
  { unfold msg, op_msg. rewrite app_assoc.
    rewrite le_at_app; [|by rewrite !zlen_app, !zlen_le_bytes, Hids|apply length_le_bytes].
    by rewrite le_val_le_bytes, Z.mod_small by lia. }
  rewrite Hop. cbn [gbind]. rewrite Z.eqb_refl. cbn [negb]. rewrite Hf. cbn [gbind]. fold (summed flags).
  assert (He : (if summed flags then zlen msg - 4 else zlen msg) = 20 + zlen secs).
  { rewrite Hl, Hcrc. destruct (summed flags); lia. }
  rewrite He. rewrite (proj2 (Z.ltb_ge _ _)) by lia. rewrite andb_false_r.
  assert (Hsl : slice msg 20 (20 + zlen secs) = Ok secs).
  { unfold msg, op_msg. rewrite !app_assoc, <- app_assoc.
    apply slice_app_mid; rewrite !zlen_app, !zlen_le_bytes, Hids; lia. }
  rewrite Hsl. cbn [gbind]. rewrite Hsec. cbn [gbind].
  destruct (decide (masked = secs)) as [Heq|Hne]; [by rewrite bool_decide_eq_true_2|].
  rewrite bool_decide_eq_false_2 by done. cbn [negb].
  assert (Hid : slice msg 4 16 = Ok (ids ++ le_bytes 4 opMsg)).
  { unfold msg, op_msg. apply slice_app_mid; rewrite ?zlen_app, ?zlen_le_bytes, ?Hids; lia. }
  rewrite Hid. cbn [gbind]. by rewrite <- app_assoc.
Qed.

(** A reply with one document, under a rule that applies to it and under one that does not. *)
Definition demo_reply : list (bytes * bval) :=
  [(str "cursor", BNode (b8 0x03) [(str "firstBatch", BNode (b8 0x04) [(str "0", BNode (b8 0x03) demo_doc)])])].

Definition demo_rule (key : bytes) : masker := Overlay.MaskRow (Overlay.NewOverlay [(key, str "***")]).

Lemma node_field_ok n t fs :
  find_byte (b8 0) n = None -> u8 t = 0x03 \/ u8 t = 0x04 -> fields_ok fs ->
  (zlen (encode_elems [(n, BNode t fs)]) + 5 <? 2 ^ 32) = true -> fields_ok [(n, BNode t fs)].
Proof.
  intros Hn Ht Hf Hsz%Z.ltb_lt. split; [done|]. apply Forall_cons_2; [|apply Forall_nil_2].
  split; [by apply find_byte_None|by apply node_ok].
Qed.

Lemma demo_reply_ok : section_ok (SBody demo_reply).
Proof.
  apply node_field_ok; [reflexivity|by left| |vm_compute; reflexivity].
  apply node_field_ok; [reflexivity|by right| |vm_compute; reflexivity].
  apply node_field_ok; [reflexivity|by left|exact demo_doc_ok|vm_compute; reflexivity].
Qed.

Lemma transformMessage_masks_witness :
  let crc := [b8 1; b8 2; b8 3; b8 4] in
  let secs := encode_section (SBody demo_reply) ++ [] in
  let msg := op_msg (replicate 8 (b8 9)) 1 secs crc in
  transformMessage (demo_rule (str "phone")) msg = Ok msg /\
  transformMessage (demo_rule (str "email")) msg =
  Ok (le_bytes 4 123 ++ replicate 8 (b8 9) ++ le_bytes 4 2013 ++ le_bytes 4 0 ++
      encode_section (SBody (mask_body (demo_rule (str "email")) demo_reply)) ++ []).
Proof.
  intros crc secs msg.
  assert (Hss : Forall section_ok [SBody demo_reply]) by (apply Forall_cons_2; [exact demo_reply_ok|apply Forall_nil_2]).
  split.
  - etransitivity; [apply (transformMessage_masks (demo_rule (str "phone")) (replicate 8 (b8 9)) 1 [SBody demo_reply] crc)|];
      [apply Overlay_ok|reflexivity|split; [discriminate|reflexivity]|reflexivity|exact Hss|reflexivity|].
    rewrite decide_True by (vm_compute; reflexivity). reflexivity.
  - etransitivity; [apply (transformMessage_masks (demo_rule (str "email")) (replicate 8 (b8 9)) 1 [SBody demo_reply] crc)|];
      [apply Overlay_ok|reflexivity|split; [discriminate|reflexivity]|reflexivity|exact Hss|reflexivity|].
    rewrite decide_False by (vm_compute; discriminate). reflexivity.
Defined.

(** For every message at all the engine returns; what it returns is the message itself or a
    message that differs only behind the flags: same request and response ids, same opcode, a
    length word equal to its own length, and no checksum flag. *)
Theorem transformMessage_frame (m : masker) (msg : bytes) (Hm : MaskerOk m) :
  exists out, transformMessage m msg = Ok out /\
  (out = msg \/
   (take 12 (drop 4 out) = take 12 (drop 4 msg) /\ le_at 4 out 12 = Ok opMsg /\
    (zlen out < 2 ^ 32 -> le_at 4 out 0 = Ok (zlen out)) /\
    exists flags, le_at 4 out 16 = Ok flags /\ summed flags = false)).
Proof.
  destruct (transformMessage_cases m msg) as (out & -> & Hc). exists out. split; [done|].
  destruct Hc as [->|(Hlen & Hop & flags & secs & Hfl & ->)]; [by left|right].
  unfold headerLen in *. pose proof (zlen_nonneg secs).
  set (w := le_bytes 4 (16 + 4 + zlen secs)). set (ids := take 12 (drop 4 msg)).
  set (f := le_bytes 4 (Z.ldiff flags flagChecksumPresent)).
  assert (Hi : length ids = 12%nat).
  { unfold ids. rewrite length_take, length_drop. unfold zlen in Hlen. lia. }
  assert (Hd : drop 4 (w ++ ids ++ f ++ secs) = ids ++ f ++ secs).
  { apply drop_app_exact. by unfold w; rewrite length_le_bytes. }
  split; [|split; [|split]].
  - rewrite Hd. by apply take_app_exact.
  - rewrite <- Hop. rewrite !le_at_ok; [|lia|lia|lia|].
    + do 2 f_equal. change (Z.to_nat 12) with 12%nat.
      assert (Hw : forall l : bytes, take 4 (drop 12 l) = drop 8 (take 12 (drop 4 l))).
      { intros l. change 12%nat with (8 + 4)%nat at 2.
        by rewrite <- (take_drop_commute _ 4 8), drop_drop. }
      rewrite !Hw, Hd, take_app_exact by done. done.
    + rewrite !zlen_app. unfold w, f. rewrite !zlen_le_bytes. unfold zlen. lia.
  - intros Hsz. unfold w at 1. rewrite le_at_head by apply length_le_bytes.
    rewrite !zlen_app in *. unfold w, f in *. rewrite !zlen_le_bytes in *.
    assert (Hz : zlen ids = 12) by (unfold zlen; lia). rewrite Hz in *.
    rewrite le_val_le_bytes, Z.mod_small by lia. f_equal. lia.
  - exists (Z.ldiff flags flagChecksumPresent). split.
    + rewrite app_assoc. unfold f. rewrite le_at_app; [| |apply length_le_bytes].
      * rewrite le_val_le_bytes, Z.mod_small; [done|]. apply le_at_range in Hfl.
        assert (0 <= Z.ldiff flags flagChecksumPresent) by (apply Z.ldiff_nonneg; lia).
        split; [done|]. eapply Z.le_lt_trans; [|apply Hfl].
        change flagChecksumPresent with (Z.ones 1). rewrite Z.ldiff_ones_r by lia.
        rewrite Z.shiftl_mul_pow2, Z.shiftr_div_pow2 by lia. change (2 ^ 1) with 2.
        pose proof (Z.mul_div_le flags 2 ltac:(lia)). lia.
      * rewrite zlen_app. unfold w. rewrite zlen_le_bytes. unfold zlen. lia.
    + unfold summed. apply negb_false_iff, Z.eqb_eq.
      apply Z.bits_inj'. intros n Hn. rewrite Z.land_spec, Z.ldiff_spec, Z.bits_0.
      by destruct (Z.testbit flags n), (Z.testbit flagChecksumPresent n).
Qed.

Lemma transformMessage_frame_witness :
  exists out, transformMessage Noop (str "short") = Ok out.
Proof. destruct (transformMessage_frame Noop (str "short") Noop_ok) as (out & H & _). by exists out. Defined.

(** ** The pump *)

(** The complete messages at the front of a stream. *)
Fixpoint messages (fuel : nat) (s : bytes) : list bytes :=
  match fuel with
  | O => []
  | S k =>
      let total := le_val (take 4 s) in
      if (4 <=? zlen s) && (headerLen <=? total) && (total <=? maxMessageBytes) && (total <=? zlen s)
      then take (Z.to_nat total) s :: messages k (drop (Z.to_nat total) s)
      else []
  end.

(** What the client is sent for a message. *)
Definition transformed (m : masker) (msg : bytes) : bytes :=
  match transformMessage m msg with Ok out => out | _ => msg end.

Definition run_spec (mk : nat -> masker) (i : nat) (ms : list bytes) : bytes :=
  concat (imap (fun j msg => transformed (mk (i + j)%nat) msg) ms).

Lemma mongo_run_cons mk i msg ms :
  run_spec mk i (msg :: ms) = transformed (mk i) msg ++ run_spec mk (S i) ms.
Proof.
  unfold run_spec. rewrite imap_cons. cbn [concat]. rewrite Nat.add_0_r. apply (f_equal (fun x => transformed (mk i) msg ++ concat x)).
  apply imap_ext. intros j x _. cbn. by rewrite Nat.add_succ_r.
Qed.

(** Reading one message: it is the next of [messages], or there is none. *)
Lemma readMessage_cases r k :
  match readMessage r with
  | (Ok msg, r') =>
      messages (S k) (rbuf r) = msg :: messages k (rbuf r') /\
      (length (rbuf r') < length (rbuf r))%nat
  | (Err _, _) => messages (S k) (rbuf r) = []
  | _ => False
  end.
Proof.
  unfold readMessage, sbind. cbn [messages]. pose proof (ReadFull_returns 4 r) as Hr.
  destruct (ReadFull 4 r) as [[hdr|e| |] r1] eqn:H1; try done; cycle 1.
  { destruct (ReadFull_fail _ _ _ _ H1 eq_refl) as (_ & _ & Hl & _).
    by rewrite (proj2 (Z.leb_gt _ _)) by lia. }
  destruct (ReadFull_inv 4 _ _ _ ltac:(lia) H1) as (Hb & Hh & _).
  assert (Hl4 : length hdr = 4%nat) by (unfold zlen in Hh; lia).
  rewrite Hb. rewrite (take_app_exact hdr (rbuf r1) 4) by done. unfold slift.
  assert (le_at 4 hdr 0 = Ok (le_val hdr)) as ->.
  { pose proof (le_at_head 4 hdr [] Hl4) as Hat. by rewrite app_nil_r in Hat. }
  set (total := le_val hdr).
  pose proof (zlen_nonneg (rbuf r1)).
  rewrite (proj2 (Z.leb_le _ _)) by (rewrite zlen_app; lia). cbn [andb].
  destruct ((total <? headerLen) || (total >? maxMessageBytes)) eqn:Ht.
  { cbn. assert ((headerLen <=? total) && (total <=? maxMessageBytes) = false) as ->; [|done].
    rewrite Z.gtb_ltb in Ht. rewrite orb_true_iff, !Z.ltb_lt in Ht.
    apply andb_false_iff. rewrite !Z.leb_gt. lia. }
  apply orb_false_iff in Ht as [Ht1 Ht2]. rewrite Z.ltb_ge in Ht1.
  rewrite Z.gtb_ltb, Z.ltb_ge in Ht2. unfold headerLen in *.
  rewrite !(proj2 (Z.leb_le _ _)) by lia. cbn [andb].
  pose proof (ReadFull_returns (total - 4) r1) as Hr2.
  destruct (ReadFull (total - 4) r1) as [[rest|e| |] r2] eqn:H2; try done; cycle 1.
  { destruct (ReadFull_fail _ _ _ _ H2 eq_refl) as (_ & _ & Hl & _).
    rewrite (proj2 (Z.leb_gt _ _)); [done|]. rewrite zlen_app. lia. }
  destruct (ReadFull_inv (total - 4) _ _ _ ltac:(lia) H2) as (Hb2 & Hl2 & _).
  cbn. rewrite Hb2, app_assoc. rewrite (proj2 (Z.leb_le _ _)); cycle 1.
  { rewrite !zlen_app. pose proof (zlen_nonneg (rbuf r2)). lia. }
  assert (Hlen : Z.to_nat total = length (hdr ++ rest)).
  { rewrite length_app. unfold zlen in *. lia. }
  rewrite take_app_exact, drop_app_exact by done. split; [done|].
  rewrite !length_app. lia.
Qed.

Lemma maskServer_spec mk (Hmk : forall i, MaskerOk (mk i)) fuel : forall i s o s',
  (length (rbuf (m_in s)) < fuel)%nat -> maskServer_loop mk fuel i s = (o, s') ->
  let out := wout (m_out s) ++ run_spec mk i (messages fuel (rbuf (m_in s))) in
  (exists e, o = Err e) /\ wout (m_out s') `prefix_of` out /\
  (wroom (m_out s) = None -> wout (m_out s') = out).
Proof.
  induction fuel as [|k IH]; intros i s o s' Hk; [lia|]. cbn [maskServer_loop]. unfold sbind at 1, zoom at 1.
  pose proof (readMessage_cases (m_in s) k) as Hread.
  destruct (readMessage (m_in s)) as [[msg|e| |] r] eqn:Hr; try done; cycle 1.
  { intros [= <- <-]. rewrite Hread. unfold run_spec. cbn. rewrite app_nil_r. eauto. }
  destruct Hread as [-> Hlen]. rewrite mongo_run_cons.
  unfold sbind at 1, slift at 1. destruct (transformMessage_cases (mk i) msg) as (out & Ht & _).
  rewrite Ht. unfold transformed. rewrite Ht. cbn [m_in m_out].
  unfold sbind at 1, zoom at 1. cbn [m_in m_out].
  pose proof (Write_returns out (m_out s)) as Hw.
  destruct (Write out (m_out s)) as [[[]|e| |] w] eqn:Hwr; try done.
  - intros Hrun. pose proof (Write_ok _ _ _ Hwr) as Hwo.
    destruct (IH (S i) (mkMpipe r w) o s' ltac:(cbn [m_in]; lia) Hrun) as (He & Hp & Hg).
    cbn [m_in m_out] in *. rewrite Hwo, <- app_assoc in *. split_and!; [done|done|].
    intros Hroom. apply Hg. unfold Write in Hwr. rewrite Hroom in Hwr. by injection Hwr as <-.
  - intros [= <- <-]. cbn [m_out]. destruct (Write_prefix _ _ _ _ Hwr) as (q & Hq & Hp).
    split_and!; [by eauto| |].
    + rewrite Hq. apply prefix_app. by apply prefix_app_r.
    + intros Hroom. unfold Write in Hwr. by rewrite Hroom in Hwr.
Qed.

(** C16: for every byte stream of the upstream and however the client's link ends, the pump stops
    with an error and without a crash; the client has received a prefix of the transformed complete
    messages of the stream, in order, and all of them when its link did not break. *)
Theorem maskServer_refines (mk : nat -> masker) (uin : rd) (w : wr) (Hmk : forall i, MaskerOk (mk i)) :
  let '(o, p) := maskServer mk uin w in
  let out := wout w ++ run_spec mk O (messages (S (length (rbuf uin))) (rbuf uin)) in
  (exists e, o = Err e) /\ wout (m_out p) `prefix_of` out /\
  (wroom w = None -> wout (m_out p) = out).
Proof.
  destruct (maskServer mk uin w) as [o p] eqn:H. unfold maskServer in H.
  apply maskServer_spec in H; [done|done|cbn; lia].
Qed.

Lemma maskServer_refines_witness :
  let msg := op_msg (replicate 8 (b8 1)) 0 (encode_section (SBody demo_doc)) [] in
  wout (m_out (snd (maskServer (fun _ => Noop) (mkRd msg EEOF) (mkWr [] None)))) = msg.
Proof.
  pose proof (maskServer_refines (fun _ => Noop)
    (mkRd (op_msg (replicate 8 (b8 1)) 0 (encode_section (SBody demo_doc)) []) EEOF) (mkWr [] None)
    (fun _ => Noop_ok)) as H.
  vm_compute in H. destruct H as (_ & _ & H). vm_compute. by apply H.
Defined.
