(* ===== verification/Tunnel.v ===== *)
(** * The agent-gateway tunnel (internal/tunnel/frame.go, session.go)

    The frame codec, and a session as a state machine: the operations of its goroutines between two
    lock acquisitions are the atomic steps, so an event sequence is an interleaving of the reader
    loop with the callers of [Open], [Accept], [Read], [Write] and [Close]. *)
From S2P Require Import Prelude Go GoIO.
Open Scope Z_scope.

(** ** Frames (frame.go) *)

Definition magic0 : Z := 0x53.
Definition magic1 : Z := 0x42.
Definition version : Z := 1.
Definition headerLen : Z := 17.
Definition MaxPayload : Z := Z.shiftl 1 15.

Definition frameControl : byte := b8 0x01.
Definition frameOpen : byte := b8 0x10.
Definition frameData : byte := b8 0x12.
Definition frameClose : byte := b8 0x13.

Definition errBadMagic : gerr := EFmt "tunnel: bad frame magic" [].
Definition errBadVersion : gerr := EFmt "tunnel: unsupported frame version" [].
Definition errFrameTooBig : gerr := EFmt "tunnel: frame payload exceeds maximum" [].

Record frame := mkFrame { f_typ : byte; f_connID : Z; f_payload : bytes }.

Definition frame_header (typ : byte) (connID : Z) (n : Z) : bytes :=
  [b8 magic0; b8 magic1; b8 version; typ; b8 0] ++ be_bytes 8 connID ++ be_bytes 4 n.

Definition frame_bytes (f : frame) : bytes :=
  frame_header (f_typ f) (f_connID f) (zlen (f_payload f)) ++ f_payload f.

Definition writeFrameTo (typ : byte) (connID : Z) (payload : bytes) : St wr unit :=
  if zlen payload >? MaxPayload then sfail errFrameTooBig
  else
    Write (frame_header typ connID (zlen payload)) ;;;
    (if 0 <? zlen payload then Write payload else sret tt).

Definition readFrame : St rd frame :=
  let! h := ReadFull headerLen in
  let! m0 := slift (index h 0) in
  let! m1 := slift (index h 1) in
  if negb (u8 m0 =? magic0) || negb (u8 m1 =? magic1) then sfail errBadMagic
  else
    let! v := slift (index h 2) in
    if negb (u8 v =? version) then sfail errBadVersion
    else
      let! n := slift (be_at 4 h 13) in
      if n >? MaxPayload then sfail errFrameTooBig
      else
        let! p := ReadFull n in
        let! typ := slift (index h 3) in
        let! id := slift (be_at 8 h 5) in
        sret (mkFrame typ id p).

(** ** Control messages and stream metadata (control.go)

    The JSON codec of the standard library works on these values. *)
Record Target := mkTarget {
  t_Name : bytes; t_Addr : bytes; t_DBType : bytes; t_ResourceRoleID : bytes; t_ActorEmail : bytes }.

Record Control := mkControl {
  k_Kind : bytes; k_AgentID : bytes; k_OrgID : bytes; k_Token : bytes; k_Targets : list Target;
  k_OK : bool; k_Error : bytes }.

Definition KindRegister : bytes := str "register".
Definition KindRegisterAck : bytes := str "register_ack".
Definition KindHeartbeat : bytes := str "heartbeat".

(** The metadata of an OPEN frame: the target the stream is for. *)
Record OpenMeta := mkOpenMeta { om_Target : bytes }.

Section json.
Context (marshal_control : Control -> go bytes) (marshal_meta : OpenMeta -> go bytes).
Context (unmarshal_meta : bytes -> go OpenMeta).

(** The error of [json.Marshal] is dropped, with the nil it comes with. *)
Definition encode (c : Control) : bytes := match marshal_control c with Ok b => b | _ => [] end.
Definition Encode (m : OpenMeta) : bytes := match marshal_meta m with Ok b => b | _ => [] end.
Definition DecodeOpenMeta (b : bytes) : go OpenMeta := unmarshal_meta b.

End json.

(** ** Streams *)

(** [readDeadline] in the past makes a [Read] that would block fail. *)
Record stream := mkStream {
  st_id : Z; st_meta : bytes; st_buf : bytes; st_localClosed : bool; st_remoteClosed : bool;
  st_err : option gerr; st_expired : bool }.

Definition newStream (id : Z) (meta : bytes) : stream := mkStream id meta [] false false None false.

Definition deliver (p : bytes) (st : stream) : stream :=
  if negb (st_localClosed st) && negb (st_remoteClosed st) && bool_decide (st_err st = None)
  then mkStream (st_id st) (st_meta st) (st_buf st ++ p) (st_localClosed st) (st_remoteClosed st)
                (st_err st) (st_expired st)
  else st.

Definition remoteClose (st : stream) : stream :=
  mkStream (st_id st) (st_meta st) (st_buf st) (st_localClosed st) true (st_err st) (st_expired st).

Definition fail (e : gerr) (st : stream) : stream :=
  mkStream (st_id st) (st_meta st) (st_buf st) (st_localClosed st) (st_remoteClosed st)
           (Some (default e (st_err st))) (st_expired st).

Definition localClose (st : stream) : stream :=
  mkStream (st_id st) (st_meta st) (st_buf st) true (st_remoteClosed st) (st_err st) (st_expired st).

(** [Read(p)] with [len(p) = n]: [None] while it waits on the condition variable. *)
Definition Read (n : nat) (st : stream) : option (go bytes * stream) :=
  match st_buf st with
  | [] =>
      match st_err st with
      | Some e => Some (Err e, st)
      | None =>
          if st_expired st then Some (Err EDeadline, st)
          else if st_remoteClosed st then Some (Err EEOF, st)
          else if st_localClosed st then Some (Err ENetClosed, st)
          else None
      end
  | b => Some (Ok (take n b),
               mkStream (st_id st) (st_meta st) (drop n b) (st_localClosed st) (st_remoteClosed st)
                        (st_err st) (st_expired st))
  end.

(** ** Sessions (session.go)

    Streams are shared objects: the map, the accept queue and the callers hold references to them. *)
Abbreviation ref := nat.

(** Where the reader loop is: reading, waiting for room in the accept queue, or returned. *)
Inductive reader := Reading | Offering (st : ref) | Returned.

(** Where a goroutine in [Stream.Close] is, once it has marked the stream: before [removeStream], or
    before the CLOSE frame. *)
Inductive closing := Removing | Sending.

Record Session := mkSession {
  objs : list stream;          (* every stream ever created *)
  streams : gmap Z ref;
  nextID : Z;
  accept : list ref;           (* channel of capacity 64 *)
  controlCh : list Control;    (* channel of capacity 16 *)
  closed : option gerr;        (* [closed] and [err] *)
  loop : reader;
  out : wr;                    (* the connection's write side *)
  closers : gmap ref closing;  (* the streams whose [Close] is under way *)
}.

Definition ErrSessionClosed : gerr := EFmt "tunnel: session closed" [].

Definition newSession (isClient : bool) (w : wr) : Session :=
  mkSession [] ∅ (if isClient then 1 else 2) [] [] None Reading w ∅.

(** Updates of one component. *)
Definition with_objs (o : list stream) (s : Session) : Session :=
  mkSession o (streams s) (nextID s) (accept s) (controlCh s) (closed s) (loop s) (out s) (closers s).
Definition with_streams (m : gmap Z ref) (s : Session) : Session :=
  mkSession (objs s) m (nextID s) (accept s) (controlCh s) (closed s) (loop s) (out s) (closers s).
Definition with_accept (q : list ref) (l : reader) (s : Session) : Session :=
  mkSession (objs s) (streams s) (nextID s) q (controlCh s) (closed s) l (out s) (closers s).
Definition with_controls (q : list Control) (s : Session) : Session :=
  mkSession (objs s) (streams s) (nextID s) (accept s) q (closed s) (loop s) (out s) (closers s).
Definition with_closed (e : option gerr) (s : Session) : Session :=
  mkSession (objs s) (streams s) (nextID s) (accept s) (controlCh s) e (loop s) (out s) (closers s).
Definition with_out (w : wr) (s : Session) : Session :=
  mkSession (objs s) (streams s) (nextID s) (accept s) (controlCh s) (closed s) (loop s) w (closers s).

Definition with_closers (m : gmap ref closing) (s : Session) : Session :=
  mkSession (objs s) (streams s) (nextID s) (accept s) (controlCh s) (closed s) (loop s) (out s) m.

Definition on_obj (f : stream -> stream) (r : ref) (s : Session) : Session :=
  with_objs (alter f r (objs s)) s.

Definition errOrClosed (s : Session) : gerr := default ErrSessionClosed (closed s).

(** [s.writeFrame] *)
Definition writeFrame (typ : byte) (id : Z) (payload : bytes) : St Session unit := fun s =>
  match closed s with
  | Some _ => (Err (errOrClosed s), s)
  | None => let '(o, w) := writeFrameTo typ id payload (out s) in (o, with_out w s)
  end.

(** [c] is the encoded message. *)
Definition SendControl (c : bytes) : St Session unit := writeFrame frameControl 0 c.

(** [s.writeData]: chunks of at most [MaxPayload]; the number of bytes written. *)
Fixpoint writeData (fuel : nat) (id : Z) (p : bytes) (total : Z) : St Session Z :=
  match fuel with
  | O => slift NoFuel
  | S k =>
      if 0 <? zlen p then
        let n := Z.min (zlen p) MaxPayload in
        writeFrame frameData id (take (Z.to_nat n) p) ;;;
        writeData k id (drop (Z.to_nat n) p) (total + n)
      else sret total
  end.

Definition removeStream (id : Z) (s : Session) : Session := with_streams (delete id (streams s)) s.

(** The critical section of [Open]: a reference to the new stream, or the session's error. *)
Definition Open_register (meta : bytes) : St Session ref := fun s =>
  match closed s with
  | Some _ => (Err (errOrClosed s), s)
  | None =>
      let r := length (objs s) in
      (Ok r, mkSession (objs s ++ [newStream (nextID s) meta]) (<[nextID s := r]> (streams s))
                       ((nextID s + 2) mod 2 ^ 64) (accept s) (controlCh s) (closed s) (loop s) (out s) (closers s))
  end.

(** The rest of [Open]. *)
Definition Open_announce (r : ref) : St Session unit := fun s =>
  match objs s !! r with
  | Some st =>
      match writeFrame frameOpen (st_id st) (st_meta st) s with
      | (Err e, s') => (Err e, removeStream (st_id st) s')
      | res => res
      end
  | None => (Panic, s)
  end.

(** [Stream.Write], its check and then the frames. *)
Definition Stream_Write (r : ref) (p : bytes) : St Session Z := fun s =>
  match objs s !! r with
  | Some st =>
      if st_localClosed st || bool_decide (st_err st <> None) then (Err ENetClosed, s)
      else writeData (S (length p)) (st_id st) p 0 s
  | None => (Panic, s)
  end.

(** [Stream.Close], by its lock sections: the stream is marked under its own lock, then leaves the map
    under the session's, then the peer is told. Only the caller that marks it goes on. *)
Definition Close_mark (r : ref) : St Session unit := fun s =>
  match objs s !! r with
  | Some st =>
      if st_localClosed st then (Ok tt, s)
      else (Ok tt, with_closers (<[r := Removing]> (closers s)) (on_obj localClose r s))
  | None => (Panic, s)
  end.

Definition Close_remove (r : ref) : St Session unit := fun s =>
  match objs s !! r with
  | Some st => (Ok tt, with_closers (<[r := Sending]> (closers s)) (removeStream (st_id st) s))
  | None => (Panic, s)
  end.

Definition Close_send (r : ref) : St Session unit := fun s =>
  match objs s !! r with
  | Some st => writeFrame frameClose (st_id st) [] (with_closers (delete r (closers s)) s)
  | None => (Panic, s)
  end.

(** [closeWithErr]: only the first call counts; the streams are failed in a second step. *)
Definition close_begin (e : gerr) (s : Session) : Session :=
  match closed s with Some _ => s | None => with_closed (Some e) s end.

Definition close_streams (s : Session) : Session :=
  match closed s with
  | None => s
  | Some e =>
      with_streams ∅
        (with_objs (imap (fun r st => if bool_decide (r ∈ (map_to_list (streams s)).*2)
                                      then fail e st else st) (objs s)) s)
  end.

(** The [select] of the reader loop that offers a stream: when the channel has room and the session
    is closed, either branch may be taken, which [quit] decides. *)
Definition offer (quit : bool) (r : ref) (s : Session) : Session :=
  if quit && bool_decide (closed s <> None) then with_accept (accept s) Returned s
  else if decide (length (accept s) < 64)%nat then with_accept (accept s ++ [r]) Reading s
  else with_accept (accept s) (Offering r) s.

(** One turn of [readLoop] on a frame. *)
Definition decodeControl_t : Type := bytes -> option Control.

Definition readLoop_frame (decodeControl : decodeControl_t) (quit : bool) (f : frame) (s : Session) : Session :=
  if decide (f_typ f = frameControl) then
    match decodeControl (f_payload f) with
    | None => s
    | Some c =>
        let room := bool_decide (length (controlCh s) < 16)%nat in
        if bool_decide (closed s <> None) && (quit || negb room) then with_accept (accept s) Returned s
        else if room then with_controls (controlCh s ++ [c]) s
        else s
    end
  else if decide (f_typ f = frameOpen) then
    let r := length (objs s) in
    let s := with_streams (<[f_connID f := r]> (streams s))
               (with_objs (objs s ++ [newStream (f_connID f) (f_payload f)]) s) in
    offer quit r s
  else if decide (f_typ f = frameData) then
    match streams s !! f_connID f with
    | Some r => on_obj (deliver (f_payload f)) r s
    | None => s
    end
  else if decide (f_typ f = frameClose) then
    match streams s !! f_connID f with
    | Some r => on_obj remoteClose r (removeStream (f_connID f) s)
    | None => s
    end
  else s.

(** The events of a session: who runs next, and with what. The reader loop's lookup of a stream and what
    it then does to the stream are one event: between the two, the other goroutines touch that stream
    only under its own lock, and [deliver] looks at what they did. *)
Inductive event :=
| Received (quit : bool) (f : frame)  (* the reader loop reads a frame *)
| ReceiveFailed (e : gerr)      (* [readFrame] fails: the session closes *)
| Offered (quit : bool)         (* a waiting reader loop finds room, or sees the close *)
| Accepted                      (* [Accept] *)
| ControlTaken                  (* [NextControl] *)
| ControlSent (c : bytes)       (* [SendControl] *)
| Opened (meta : bytes)         (* [Open], up to the unlock *)
| Announced (r : ref)           (* the rest of [Open] *)
| DataSent (r : ref) (p : bytes)      (* one chunk of a [Write] *)
| BytesRead (r : ref) (n : nat)
| StreamClosed (r : ref)        (* [Stream.Close], which marks the stream *)
| StreamRemoved (r : ref)       (* and goes on: [removeStream] *)
| CloseSent (r : ref)           (* and the CLOSE frame *)
| CloseCalled
| StreamsFailed.                (* the second half of [closeWithErr] *)

Section exec.
Context (decodeControl : decodeControl_t).

Definition step (ev : event) (s : Session) : Session :=
  match ev with
  | Received quit f =>
      match loop s with Reading => readLoop_frame decodeControl quit f s | _ => s end
  | ReceiveFailed e =>
      match loop s with Reading => close_begin e (with_accept (accept s) Returned s) | _ => s end
  | Offered quit => match loop s with Offering r => offer quit r s | _ => s end
  | Accepted => with_accept (tail (accept s)) (loop s) s
  | ControlTaken => with_controls (tail (controlCh s)) s
  | ControlSent c => snd (SendControl c s)
  | Opened meta => snd (Open_register meta s)
  | Announced r => snd (Open_announce r s)
  | DataSent r p =>
      match objs s !! r with
      | Some st => snd (writeFrame frameData (st_id st) (take (Z.to_nat MaxPayload) p) s)
      | None => s
      end
  | BytesRead r n =>
      match objs s !! r with
      | Some st => match Read n st with Some (_, st') => on_obj (fun _ => st') r s | None => s end
      | None => s
      end
  | StreamClosed r => snd (Close_mark r s)
  | StreamRemoved r => match closers s !! r with Some Removing => snd (Close_remove r s) | _ => s end
  | CloseSent r => match closers s !! r with Some Sending => snd (Close_send r s) | _ => s end
  | CloseCalled => close_begin ErrSessionClosed s
  | StreamsFailed => close_streams s
  end.

Definition run (evs : list event) (s : Session) : Session := foldl (fun s ev => step ev s) s evs.

End exec.
