(* ===== verification/TunnelProps.v ===== *)
(** * What the tunnel guarantees *)
From S2P Require Import Prelude Go GoIO ConnFacts Tunnel.
Open Scope Z_scope.

(** ** Frames *)

Definition frame_ok (f : frame) : Prop :=
  0 <= f_connID f < 2 ^ 64 /\ zlen (f_payload f) <= MaxPayload.

Lemma zlen_header t id n : zlen (frame_header t id n) = 17.
Proof. unfold frame_header. by rewrite !zlen_app, !zlen_be_bytes. Qed.

Lemma header_words t id n :
  0 <= id < 2 ^ 64 -> 0 <= n < 2 ^ 32 ->
  index (frame_header t id n) 0 = Ok (b8 magic0) /\ index (frame_header t id n) 1 = Ok (b8 magic1) /\
  index (frame_header t id n) 2 = Ok (b8 version) /\ index (frame_header t id n) 3 = Ok t /\
  be_at 8 (frame_header t id n) 5 = Ok id /\ be_at 4 (frame_header t id n) 13 = Ok n.
Proof.
  intros Hid Hn. unfold frame_header. split_and!; try done.
  - rewrite be_at_app by (done || apply length_be_bytes). by rewrite be_val_be_bytes, Z.mod_small.
  - rewrite app_assoc, <- (app_nil_r (be_bytes 4 n)).
    rewrite be_at_app; [|by rewrite zlen_app, zlen_be_bytes|apply length_be_bytes].
    by rewrite be_val_be_bytes, Z.mod_small.
Qed.

Lemma frame_io (f : frame) (rest outb : bytes) (e : gerr) (Hf : frame_ok f) :
  writeFrameTo (f_typ f) (f_connID f) (f_payload f) (mkWr outb None) =
    (Ok tt, mkWr (outb ++ frame_bytes f) None) /\
  readFrame (mkRd (frame_bytes f ++ rest) e) = (Ok f, mkRd rest e).
Proof.
  destruct f as [t id p]. destruct Hf as [Hid Hp]. cbn [f_typ f_connID f_payload] in *.
  pose proof (zlen_nonneg p) as Hnn. unfold frame_bytes. cbn [f_typ f_connID f_payload].
  assert (HM : MaxPayload = 32768) by done. split.
  - unfold writeFrameTo. rewrite Z.gtb_ltb, (proj2 (Z.ltb_ge _ _)) by done.
    unfold sbind. rewrite Write_unbounded. destruct (0 <? zlen p) eqn:E.
    + by rewrite Write_unbounded, <- app_assoc.
    + apply Z.ltb_ge in E. destruct p; [|rewrite zlen_cons in *; pose proof (zlen_nonneg p); lia].
      by rewrite app_nil_r.
  - unfold readFrame. rewrite <- app_assoc. unfold sbind at 1.
    rewrite ReadFull_app by (by rewrite zlen_header).
    destruct (header_words t id (zlen p) Hid ltac:(lia)) as (H0 & H1 & H2 & H3 & H4 & H5).
    unfold sbind at 1, slift at 1. rewrite H0. unfold sbind at 1, slift at 1. rewrite H1.
    change (negb (u8 (b8 magic0) =? magic0) || negb (u8 (b8 magic1) =? magic1)) with false. cbn iota.
    unfold sbind at 1, slift at 1. rewrite H2.
    change (negb (u8 (b8 version) =? version)) with false. cbn iota.
    unfold sbind at 1, slift at 1. rewrite H5. rewrite Z.gtb_ltb, (proj2 (Z.ltb_ge _ _)) by done.
    unfold sbind at 1. rewrite ReadFull_app by done.
    unfold sbind at 1, slift at 1. rewrite H3. unfold sbind, slift. by rewrite H4.
Qed.

(** A frame of a legal size is written as one run of bytes and read back as itself, whatever
    follows it on the connection. *)
Theorem frame_roundtrip (f : frame) (rest outb : bytes) (e : gerr) (Hf : frame_ok f) :
  writeFrameTo (f_typ f) (f_connID f) (f_payload f) (mkWr outb None) =
    (Ok tt, mkWr (outb ++ frame_bytes f) None) /\
  readFrame (mkRd (frame_bytes f ++ rest) e) = (Ok f, mkRd rest e).
Proof. by apply frame_io. Qed.

Lemma frame_roundtrip_witness :
  readFrame (mkRd (frame_bytes (mkFrame frameData 7 (str "hi")) ++ str "x") EEOF) =
  (Ok (mkFrame frameData 7 (str "hi")), mkRd (str "x") EEOF).
Proof.
  apply (frame_roundtrip (mkFrame frameData 7 (str "hi")) (str "x") [] EEOF).
  split; [cbn; lia|by vm_compute].
Defined.

(** The reader accepts nothing but frames: whenever it returns one, the bytes it took are an
    encoding of it up to the reserved flags byte, with the right magic, version and a payload of at
    most 32 KiB; it never crashes. *)
Theorem readFrame_sound (r : rd) :
  returns (fst (readFrame r)) /\
  forall f r', readFrame r = (Ok f, r') ->
    frame_ok f /\ exists flags,
    rbuf r = ([b8 magic0; b8 magic1; b8 version; f_typ f; flags] ++ be_bytes 8 (f_connID f) ++
              be_bytes 4 (zlen (f_payload f))) ++ f_payload f ++ rbuf r'.
Proof.
  destruct (readFrame r) as [o r0] eqn:Hrun. unfold readFrame in Hrun. unfold sbind at 1 in Hrun.
  pose proof (ReadFull_returns headerLen r) as Hr. cbn [fst].
  destruct (ReadFull headerLen r) as [[h|e| |] r1] eqn:H1; try done; [|by injection Hrun as <- <-].
  destruct (ReadFull_inv headerLen _ _ _ ltac:(done) H1) as (Hb & Hh & _).
  assert (Hlen : length h = 17%nat) by (unfold zlen, headerLen in Hh; lia).
  do 5 (destruct h as [|? h]; [done|]). rename b into m0, b0 into m1, b1 into v, b2 into t, b3 into fl.
  assert (exists w8 w4, h = w8 ++ w4 /\ length w8 = 8%nat /\ length w4 = 4%nat) as (w8 & w4 & -> & H8 & H4).
  { exists (take 8 h), (drop 8 h). rewrite take_drop, length_take, length_drop.
    simpl in Hlen. split; [done|lia]. }
  set (h := m0 :: m1 :: v :: t :: fl :: w8 ++ w4) in *.
  assert (Hid : be_at 8 h 5 = Ok (be_val w8)).
  { apply (be_at_app 8 [m0; m1; v; t; fl] w8 w4); [done|done]. }
  assert (Hn : be_at 4 h 13 = Ok (be_val w4)).
  { pose proof (be_at_app 4 (m0 :: m1 :: v :: t :: fl :: w8) w4 [] 13) as Hat.
    rewrite app_nil_r in Hat. apply Hat; [|done]. unfold zlen. simpl. lia. }
  change (index h 0) with (@Ok byte m0) in Hrun. change (index h 1) with (@Ok byte m1) in Hrun.
  change (index h 2) with (@Ok byte v) in Hrun. change (index h 3) with (@Ok byte t) in Hrun.
  rewrite Hid, Hn in Hrun. unfold sbind, slift in Hrun.
  destruct (_ || _) eqn:Hm in Hrun; [by injection Hrun as <- <-|].
  apply orb_false_iff in Hm as [Hm0 Hm1]. rewrite negb_false_iff, Z.eqb_eq in Hm0, Hm1.
  destruct (negb (u8 v =? version)) eqn:Hv; [by injection Hrun as <- <-|].
  rewrite negb_false_iff, Z.eqb_eq in Hv.
  destruct (be_val w4 >? MaxPayload) eqn:Hmax; [by injection Hrun as <- <-|].
  rewrite Z.gtb_ltb, Z.ltb_ge in Hmax.
  pose proof (be_val_range w4) as R4. pose proof (be_val_range w8) as R8. rewrite H4 in R4. rewrite H8 in R8.
  pose proof (ReadFull_returns (be_val w4) r1) as Hr2.
  destruct (ReadFull (be_val w4) r1) as [[p|e| |] r2] eqn:H2; try done; [|by injection Hrun as <- <-].
  destruct (ReadFull_inv (be_val w4) _ _ _ ltac:(lia) H2) as (Hb2 & Hp & _).
  injection Hrun as <- <-. split; [done|]. intros f r' [= <- <-]. cbn [f_typ f_connID f_payload]. split.
  { split; cbn [f_connID f_payload]; [exact R8|lia]. }
  exists fl. rewrite Hb, Hb2, Hp. rewrite !be_bytes_be_val by done.
  assert (m0 = b8 magic0) as -> by (apply u8_inj; by rewrite Hm0).
  assert (m1 = b8 magic1) as -> by (apply u8_inj; by rewrite Hm1).
  assert (v = b8 version) as -> by (apply u8_inj; by rewrite Hv).
  done.
Qed.

(** ** Sending *)

Lemma MaxPayload_val : MaxPayload = 32768.
Proof. done. Qed.

#[local] Opaque MaxPayload.

(** The frames one [Write] puts on the connection. *)
Fixpoint chunks (fuel : nat) (p : bytes) : list bytes :=
  match fuel with
  | O => []
  | S k => match p with
           | [] => []
           | _ => take (Z.to_nat MaxPayload) p :: chunks k (drop (Z.to_nat MaxPayload) p)
           end
  end.

Definition data_frames (id : Z) (p : bytes) : list frame :=
  map (mkFrame frameData id) (chunks (S (length p)) p).

Lemma chunks_spec fuel : forall p, (length p < fuel)%nat ->
  concat (chunks fuel p) = p /\ Forall (fun c => 0 < zlen c <= MaxPayload) (chunks fuel p).
Proof.
  pose proof MaxPayload_val as HM.
  induction fuel as [|k IH]; intros p Hp; [lia|]. destruct p as [|b p]; [by split|].
  cbn [chunks]. set (q := b :: p) in *.
  assert (Hd : (length (drop (Z.to_nat MaxPayload) q) < k)%nat).
  { rewrite length_drop. unfold q in *. cbn [length] in *. lia. }
  destruct (IH _ Hd) as [Hc Hf]. cbn [concat]. rewrite Hc, take_drop. split; [done|].
  constructor; [|done]. unfold zlen. rewrite length_take. unfold q. cbn [length]. lia.
Qed.

Lemma writeFrame_open typ id p s outb :
  closed s = None -> out s = mkWr outb None -> zlen p <= MaxPayload -> 0 <= id < 2 ^ 64 ->
  writeFrame typ id p s =
  (Ok tt, with_out (mkWr (outb ++ frame_bytes (mkFrame typ id p)) None) s).
Proof.
  intros Hc Ho Hp Hid. unfold writeFrame. rewrite Hc, Ho.
  destruct (frame_io (mkFrame typ id p) [] outb EEOF) as [Hw _]; [by split|].
  cbn [f_typ f_connID f_payload] in Hw. by rewrite Hw.
Qed.

Lemma writeData_spec fuel : forall id p total s outb,
  (length p < fuel)%nat -> closed s = None -> out s = mkWr outb None -> 0 <= id < 2 ^ 64 ->
  writeData fuel id p total s =
  (Ok (total + zlen p),
   with_out (mkWr (outb ++ concat (map frame_bytes (map (mkFrame frameData id) (chunks fuel p)))) None) s).
Proof.
  pose proof MaxPayload_val as HM.
  induction fuel as [|k IH]; intros id p total s outb Hp Hc Ho Hid; [lia|]. cbn [writeData].
  destruct p as [|b p].
  { change (0 <? zlen (@nil byte)) with false. cbn iota. unfold sret. cbn [chunks map concat].
    rewrite app_nil_r, zlen_nil, Z.add_0_r. f_equal. unfold with_out. rewrite <- Ho. by destruct s. }
  set (q := b :: p) in *. pose proof (zlen_nonneg p).
  assert (Hq : 0 < zlen q) by (unfold q; rewrite zlen_cons; lia).
  rewrite (proj2 (Z.ltb_lt _ _)) by done.
  assert (Htk : take (Z.to_nat (Z.min (zlen q) MaxPayload)) q = take (Z.to_nat MaxPayload) q /\
                drop (Z.to_nat (Z.min (zlen q) MaxPayload)) q = drop (Z.to_nat MaxPayload) q).
  { destruct (Z.min_spec (zlen q) MaxPayload) as [[Hlt ->]|[_ ->]]; [|done].
    unfold zlen in *. rewrite !take_ge, !drop_ge by lia. done. }
  destruct Htk as [-> ->].
  assert (Hl : zlen (take (Z.to_nat MaxPayload) q) <= MaxPayload).
  { unfold zlen. rewrite length_take. lia. }
  unfold sbind. rewrite (writeFrame_open _ _ _ _ outb) by done.
  rewrite (IH id _ _ _ (outb ++ frame_bytes (mkFrame frameData id (take (Z.to_nat MaxPayload) q)))); try done.
  - unfold with_out. cbn. f_equal.
    + f_equal. unfold zlen in *. rewrite length_drop. lia.
    + do 2 f_equal. by rewrite <- app_assoc.
  - rewrite length_drop. unfold q in *. cbn [length] in *. lia.
Qed.

(** ** Receiving *)

Definition live (st : stream) : Prop :=
  st_localClosed st = false /\ st_remoteClosed st = false /\ st_err st = None.

Lemma deliver_live p st : live st -> st_buf (deliver p st) = st_buf st ++ p /\ live (deliver p st) /\
  st_id (deliver p st) = st_id st.
Proof. intros (H1 & H2 & H3). unfold deliver. rewrite H1, H2, H3. cbn. done. Qed.

Lemma deliver_app p q st : deliver q (deliver p st) = deliver (p ++ q) st.
Proof.
  unfold deliver. destruct st as [id meta b lc rc e x]. cbn.
  destruct (negb lc && negb rc && bool_decide (e = None)) eqn:Hc; cbn; rewrite Hc; [|done].
  by rewrite app_assoc.
Qed.

Lemma run_cons dc ev evs s : run dc (ev :: evs) s = run dc evs (step dc ev s).
Proof. done. Qed.

Lemma received_data dc id r ps : forall s,
  loop s = Reading -> streams s !! id = Some r ->
  run dc (map (Received false) (map (mkFrame frameData id) ps)) s =
  match ps with [] => s | _ => on_obj (deliver (concat ps)) r s end.
Proof.
  induction ps as [|p ps IH]; intros s Hl Hr; [done|]. cbn [map]. rewrite run_cons.
  assert (Hs : step dc (Received false (mkFrame frameData id p)) s = on_obj (deliver p) r s).
  { cbn [step]. rewrite Hl. unfold readLoop_frame. cbn [f_typ f_connID f_payload].
    rewrite !decide_False by done. rewrite decide_True by done. by rewrite Hr. }
  rewrite Hs, IH; [|done|done]. destruct ps as [|p' ps].
  - cbn [concat]. by rewrite app_nil_r.
  - unfold on_obj, with_objs. cbn [objs streams nextID accept controlCh closed loop out].
    f_equal. rewrite list_alter_alter_eq. apply list_alter_ext; [|done].
    intros st _. unfold compose. by rewrite deliver_app.
Qed.

(** What one side writes to a stream, the other side's stream receives: on an open session whose
    connection does not break, [Write] of any number of bytes puts well-formed frames of at most
    32 KiB on the connection and reports all bytes written; and a peer whose reader loop takes in
    these frames appends exactly these bytes to the buffer of its stream of that id, and changes
    nothing else. *)
Theorem write_delivers (dc : decodeControl_t) (a : Session) (ra : ref) (sa : stream) (p outb : bytes)
    (Hobj : objs a !! ra = Some sa) (Hlive : live sa) (Hid : 0 <= st_id sa < 2 ^ 64)
    (Hopen : closed a = None) (Hout : out a = mkWr outb None) :
  let fs := data_frames (st_id sa) p in
  Stream_Write ra p a =
    (Ok (zlen p), with_out (mkWr (outb ++ concat (map frame_bytes fs)) None) a) /\
  Forall frame_ok fs /\
  forall b rb sb, loop b = Reading -> streams b !! st_id sa = Some rb -> objs b !! rb = Some sb ->
    live sb ->
    run dc (map (Received false) fs) b =
    on_obj (fun st => mkStream (st_id st) (st_meta st) (st_buf st ++ p) (st_localClosed st)
                        (st_remoteClosed st) (st_err st) (st_expired st)) rb b.
Proof.
  destruct Hlive as (Hlc & Hrc & He). cbv zeta. unfold data_frames.
  destruct (chunks_spec (S (length p)) p ltac:(lia)) as [Hcat Hall]. split; [|split].
  - unfold Stream_Write. rewrite Hobj, Hlc, He. cbn [orb].
    rewrite bool_decide_eq_false_2 by naive_solver.
    rewrite (writeData_spec _ _ _ _ _ outb) by (done || lia). done.
  - apply Forall_map. eapply Forall_impl; [exact Hall|]. intros c Hc. split; [done|apply Hc].
  - intros b rb sb Hl Hs Hb (L1 & L2 & L3). rewrite (received_data dc (st_id sa) rb) by done.
    rewrite Hcat. destruct (chunks (S (length p)) p) as [|c cs] eqn:Hch.
    + cbn [concat] in Hcat. subst p. unfold on_obj, with_objs. destruct b. f_equal. cbn in *.
      symmetry. apply list_alter_id. intros x. rewrite app_nil_r. by destruct x.
    + unfold on_obj, with_objs. f_equal. apply list_alter_ext; [|done].
      intros st Hst. rewrite Hb in Hst. injection Hst as <-. unfold deliver. by rewrite L1, L2, L3.
Qed.

Lemma write_delivers_witness :
  let a := snd (Open_register (str "t") (newSession true (mkWr [] None))) in
  Stream_Write 0 (str "query") a =
    (Ok 5, with_out (mkWr (frame_bytes (mkFrame frameData 1 (str "query"))) None) a).
Proof.
  cbv zeta.
  destruct (write_delivers (fun _ => None) (snd (Open_register (str "t") (newSession true (mkWr [] None)))) 0
    (newStream 1 (str "t")) (str "query") []) as (H & _ & _).
  - done.
  - done.
  - by vm_compute.
  - done.
  - done.
  - rewrite H. vm_compute. reflexivity.
Defined.

(** ** The invariant of a session *)

(** An entry of the map is a stream of that id which the peer has not closed and the session not
    failed; its own end may have marked it closed, while its [Close] has yet to take it out. A [Close]
    under way is one of a marked stream, and past [removeStream] the stream is in no entry. The queues
    are bounded and refer to existing streams. *)
Definition listed (s : Session) (r : ref) (st : stream) : Prop :=
  st_remoteClosed st = false /\ st_err st = None /\
  (st_localClosed st = true -> closers s !! r = Some Removing).

Record wf (s : Session) : Prop := {
  wf_streams id r : streams s !! id = Some r ->
    exists st, objs s !! r = Some st /\ st_id st = id /\ listed s r st;
  wf_closers r k : closers s !! r = Some k ->
    (exists st, objs s !! r = Some st /\ st_localClosed st = true) /\
    (k = Sending -> forall id, streams s !! id <> Some r);
  wf_accept_len : (length (accept s) <= 64)%nat;
  wf_accept r : r ∈ accept s -> (r < length (objs s))%nat;
  wf_offer r : loop s = Offering r -> (r < length (objs s))%nat;
  wf_control_len : (length (controlCh s) <= 16)%nat;
}.

(** Reading takes bytes off the front of the buffer and changes nothing else. *)
Lemma Read_inv n st o st' :
  Read n st = Some (o, st') ->
  (exists e, o = Err e /\ st' = st) \/
  (o = Ok (take n (st_buf st)) /\
   st' = mkStream (st_id st) (st_meta st) (drop n (st_buf st)) (st_localClosed st)
                  (st_remoteClosed st) (st_err st) (st_expired st)).
Proof.
  unfold Read. destruct (st_buf st); [|intros [= <- <-]; by right].
  destruct (st_err st); [intros [= <- <-]; eauto|].
  destruct (st_expired st); [intros [= <- <-]; eauto|].
  destruct (st_remoteClosed st); [intros [= <- <-]; eauto|].
  destruct (st_localClosed st); [intros [= <- <-]; eauto|done].
Qed.

(** The two agree on all but the buffer. *)
Definition kept (st st' : stream) : Prop :=
  st_id st' = st_id st /\ st_localClosed st' = st_localClosed st /\
  st_remoteClosed st' = st_remoteClosed st /\ st_err st' = st_err st.

Lemma deliver_kept p st : kept st (deliver p st).
Proof. unfold deliver. by destruct (_ && _). Qed.

Lemma Read_kept n st o st' : Read n st = Some (o, st') -> kept st st'.
Proof. by intros [(e & _ & ->)|[_ ->]]%Read_inv. Qed.

Lemma newSession_wf isClient w : wf (newSession isClient w).
Proof.
  split; cbn; try done; try lia; intros ?; set_solver.
Qed.

(** Changes that leave the shared parts alone. *)
Lemma wf_mono s s' :
  wf s -> streams s' = streams s -> objs s' = objs s -> closers s' = closers s ->
  (length (accept s') <= 64)%nat -> (forall r, r ∈ accept s' -> r ∈ accept s \/ loop s = Offering r) ->
  (forall r, loop s' = Offering r -> r ∈ accept s \/ loop s = Offering r) ->
  (length (controlCh s') <= 16)%nat -> wf s'.
Proof.
  intros [H1 H2 H3 H4 H5 H6] Hs Ho Hk Ha Hacc Hoff Hc. unfold listed in *.
  split; try done; unfold listed; rewrite ?Hs, ?Ho, ?Hk; try done.
  - intros r [Hr|Hr]%Hacc; auto.
  - intros r [Hr|Hr]%Hoff; auto.
Qed.

Lemma writeFrame_frames typ id p s o s' :
  writeFrame typ id p s = (o, s') ->
  streams s' = streams s /\ objs s' = objs s /\ accept s' = accept s /\ loop s' = loop s /\
  controlCh s' = controlCh s /\ closed s' = closed s /\ nextID s' = nextID s /\
  closers s' = closers s.
Proof.
  unfold writeFrame. intros H. destruct (closed s) as [g|] eqn:Hc; [by injection H as <- <-|].
  destruct (writeFrameTo _ _ _ _). by injection H as <- <-.
Qed.

Lemma wf_writeFrame typ id p s : wf s -> wf (snd (writeFrame typ id p s)).
Proof.
  intros Hwf. destruct (writeFrame typ id p s) as [o s'] eqn:E.
  apply writeFrame_frames in E as (Hs & Ho & Ha & Hl & Hc & _ & _ & Hk). cbn [snd].
  eapply wf_mono; [done|done|done|done|..]; rewrite ?Ha, ?Hl, ?Hc; auto; apply Hwf.
Qed.

(** An update of one object's buffer. *)
Lemma wf_on_obj f r s :
  (forall st, objs s !! r = Some st -> kept st (f st)) -> wf s -> wf (on_obj f r s).
Proof.
  intros Hf [H1 H2 H3 H4 H5 H6]. unfold on_obj, with_objs.
  assert (Hl : forall r' st, objs s !! r' = Some st -> exists st', alter f r (objs s) !! r' = Some st' /\ kept st st').
  { intros r' st Hst. destruct (decide (r = r')) as [->|Hne].
    - exists (f st). rewrite list_lookup_alter_eq, Hst. auto.
    - exists st. by rewrite list_lookup_alter_ne. }
  split; cbn [objs streams accept loop controlCh closers]; try done; try (intros; rewrite length_alter; auto).
  - intros id r' Hr'. destruct (H1 id r' Hr') as (st & Hst & <- & Hr & He & Hc).
    destruct (Hl _ _ Hst) as (st' & Hst' & Hid & Hlc & Hrc & Herr). exists st'.
    unfold listed. cbn [closers]. rewrite Hid, Hlc, Hrc, Herr. done.
  - intros r' k Hk. destruct (H2 r' k Hk) as [(st & Hst & Hc) Hs]. split; [|done].
    destruct (Hl _ _ Hst) as (st' & Hst' & _ & Hlc & _). exists st'. by rewrite Hlc.
Qed.

(** A stream leaves the map with its key, whatever becomes of it. *)
Lemma wf_remove id s : wf s -> wf (removeStream id s).
Proof.
  intros [H1 H2 H3 H4 H5 H6]. split; try done; cbn.
  - intros id' r [_ Hr]%lookup_delete_Some. auto.
  - intros r k Hk. destruct (H2 r k Hk) as [? Hs]. split; [done|].
    intros Hk' id' [_ ?]%lookup_delete_Some. by eapply Hs.
Qed.

(** The peer closes a stream that is in no entry any more. *)
Lemma wf_remoteClose r s :
  (forall id, streams s !! id <> Some r) -> wf s -> wf (on_obj remoteClose r s).
Proof.
  intros Hno [H1 H2 H3 H4 H5 H6]. unfold on_obj, with_objs.
  split; cbn [objs streams accept loop controlCh closers]; try done; try (intros; rewrite length_alter; auto).
  - intros id r' Hr'. destruct (H1 id r' Hr') as (st & Hst & ?). exists st.
    rewrite list_lookup_alter_ne; [done|]. intros ->. by eapply Hno.
  - intros r' k Hk. destruct (H2 r' k Hk) as [(st & Hst & Hc) Hs]. split; [|done].
    destruct (decide (r = r')) as [->|Hne].
    + exists (remoteClose st). by rewrite list_lookup_alter_eq, Hst.
    + exists st. by rewrite list_lookup_alter_ne.
Qed.

(** [Stream.Close]. *)
Lemma wf_mark r s : wf s -> wf (snd (Close_mark r s)).
Proof.
  intros Hwf. unfold Close_mark. destruct (objs s !! r) as [st|] eqn:Hst; [|done].
  destruct (st_localClosed st) eqn:Hc; [done|]. destruct Hwf as [H1 H2 H3 H4 H5 H6].
  assert (Hfresh : closers s !! r = None).
  { destruct (closers s !! r) as [k|] eqn:Hk; [|done]. destruct (H2 r k Hk) as [(st' & Hst' & Hc') _]. congruence. }
  unfold on_obj, with_objs, with_closers. cbn [snd].
  split; cbn [objs streams accept loop controlCh closers]; try done; try (intros; rewrite length_alter; auto).
  - intros id r' Hr'. destruct (H1 id r' Hr') as (st' & Hst' & <- & Hr & He & Hl). unfold listed. cbn [closers].
    destruct (decide (r = r')) as [<-|Hne].
    + exists (localClose st'). rewrite list_lookup_alter_eq, Hst'. rewrite lookup_insert_eq. by split_and!.
    + exists st'. rewrite list_lookup_alter_ne, lookup_insert_ne by done. by split_and!.
  - intros r' k [[<- <-]|[Hne Hk]]%lookup_insert_Some.
    + split; [|done]. exists (localClose st). by rewrite list_lookup_alter_eq, Hst.
    + rewrite list_lookup_alter_ne by done. by apply H2.
Qed.

Lemma wf_close_remove r s : closers s !! r = Some Removing -> wf s -> wf (snd (Close_remove r s)).
Proof.
  intros Hk Hwf. pose proof Hwf as [H1 H2 H3 H4 H5 H6]. unfold Close_remove.
  destruct (H2 r _ Hk) as [(st & Hst & Hc) _]. rewrite Hst. cbn [snd].
  unfold removeStream, with_streams, with_closers.
  split; cbn [objs streams accept loop controlCh closers]; try done.
  - intros id r' [Hne Hr']%lookup_delete_Some. destruct (H1 id r' Hr') as (st' & Hst' & <- & ? & ? & Hl). exists st'.
    unfold listed. cbn [closers]. rewrite lookup_insert_ne; [by split_and!|]. intros ->. congruence.
  - intros r' k [[<- <-]|[Hne Hk']]%lookup_insert_Some.
    + split; [by exists st|]. intros _ id [Hne Hr']%lookup_delete_Some.
      destruct (H1 id r Hr') as (st' & Hst' & Hid & _). congruence.
    + destruct (H2 r' k Hk') as [? Hs]. split; [done|]. intros Hk2 id [_ ?]%lookup_delete_Some. by eapply Hs.
Qed.

Lemma wf_close_send r s : closers s !! r = Some Sending -> wf s -> wf (snd (Close_send r s)).
Proof.
  intros Hk Hwf. unfold Close_send. destruct (objs s !! r) as [st|]; [|done]. apply wf_writeFrame.
  destruct Hwf as [H1 H2 H3 H4 H5 H6]. unfold with_closers.
  split; cbn [objs streams accept loop controlCh closers]; try done.
  - intros id r' Hr'. destruct (H1 id r' Hr') as (st' & Hst' & Hid & ? & ? & Hl). exists st'.
    unfold listed. cbn [closers]. rewrite lookup_delete_ne; [by split_and!|]. intros <-.
    by destruct (H2 r _ Hk) as [_ Hs]; eapply Hs.
  - intros r' k [_ Hk']%lookup_delete_Some. by apply H2.
Qed.

Lemma wf_new id meta n c s :
  wf s -> wf (mkSession (objs s ++ [newStream id meta]) (<[id := length (objs s)]> (streams s)) n
                (accept s) (controlCh s) c (loop s) (out s) (closers s)).
Proof.
  intros [H1 H2 H3 H4 H5 H6]. split; cbn [objs streams accept loop controlCh closers]; try done.
  - intros id' r [[-> <-]|[Hne Hr]]%lookup_insert_Some.
    + exists (newStream id' meta). by rewrite list_lookup_middle.
    + destruct (H1 _ _ Hr) as (st & Hst & ? & ?). exists st. split; [|done].
      by apply lookup_app_l_Some.
  - intros r k Hk. destruct (H2 r k Hk) as [(st & Hst & Hc) Hs]. split.
    + exists st. split; [by apply lookup_app_l_Some|done].
    + intros Hk' id' [[-> <-]|[Hne Hr]]%lookup_insert_Some; [|by eapply Hs].
      apply lookup_lt_Some in Hst. lia.
  - intros r Hr. rewrite length_app. specialize (H4 r Hr). lia.
  - intros r Hr. rewrite length_app. specialize (H5 r Hr). lia.
Qed.

Lemma wf_offer_step quit r s :
  (r < length (objs s))%nat -> wf s -> wf (offer quit r s).
Proof.
  intros Hr [H1 H2 H3 H4 H5 H6]. unfold offer. destruct (quit && _); [by split|].
  case_decide; split; try done; cbn.
  - rewrite length_app. cbn. lia.
  - intros r' [Hr'| ->%list_elem_of_singleton]%elem_of_app; auto.
  - by intros r' [= <-].
Qed.

Lemma wf_readLoop dc quit f s : wf s -> wf (readLoop_frame dc quit f s).
Proof.
  intros Hwf. unfold readLoop_frame. case_decide.
  { destruct (dc _) as [c|]; [|done].
    destruct (_ && _).
    - eapply wf_mono; [done|done|done|done|..]; cbn; auto; try apply Hwf. done.
    - case_bool_decide; [|done]. eapply wf_mono; [done|done|done|done|..]; cbn; auto; try apply Hwf.
      rewrite length_app. cbn. lia. }
  case_decide.
  { apply wf_offer_step; [cbn; rewrite length_app; cbn; lia|].
    apply (wf_new (f_connID f) (f_payload f) (nextID s) (closed s) s Hwf). }
  case_decide.
  { destruct (streams s !! f_connID f) as [r|] eqn:Hr; [|done]. apply wf_on_obj; [|done].
    intros st _. apply deliver_kept. }
  case_decide; [|done]. destruct (streams s !! f_connID f) as [r|] eqn:Hr; [|done].
  apply wf_remoteClose; [|by apply wf_remove]. cbn. intros id [Hne Hr']%lookup_delete_Some.
  destruct (wf_streams s Hwf _ _ Hr) as (st & Hst & Hi & _).
  destruct (wf_streams s Hwf _ _ Hr') as (st' & Hst' & Hi' & _). congruence.
Qed.

Lemma close_begin_fields e s :
  streams (close_begin e s) = streams s /\ objs (close_begin e s) = objs s /\
  accept (close_begin e s) = accept s /\ loop (close_begin e s) = loop s /\
  controlCh (close_begin e s) = controlCh s /\ closers (close_begin e s) = closers s.
Proof. unfold close_begin. by destruct (closed s). Qed.

Lemma wf_close_begin e s : wf s -> wf (close_begin e s).
Proof.
  intros Hwf. destruct (close_begin_fields e s) as (Hs & Ho & Ha & Hl & Hc & Hk).
  eapply wf_mono; [done|done|done|done|..]; rewrite ?Ha, ?Hl, ?Hc; auto; apply Hwf.
Qed.

Lemma step_wf (dc : decodeControl_t) (ev : event) (s : Session) (Hwf : wf s) : wf (step dc ev s).
Proof.
  destruct ev; cbn [step].
  - destruct (loop s); [by apply wf_readLoop|done..].
  - destruct (loop s) eqn:Hl; try done. apply wf_close_begin.
    eapply wf_mono; [done|done|done|done|..]; cbn; auto; try apply Hwf. done.
  - destruct (loop s) eqn:Hl; try done. apply wf_offer_step; [|done]. by apply (wf_offer s Hwf).
  - eapply wf_mono; [done|done|done|done|..]; cbn; auto.
    + pose proof (wf_accept_len s Hwf). destruct (accept s); cbn in *; lia.
    + intros r Hr. left. destruct (accept s); [done|]. by right.
    + apply Hwf.
  - eapply wf_mono; [done|done|done|done|..]; cbn; auto; try apply Hwf.
    pose proof (wf_control_len s Hwf). destruct (controlCh s); cbn in *; lia.
  - by apply wf_writeFrame.
  - unfold Open_register. destruct (closed s); [done|]. cbn [snd]. by apply wf_new.
  - unfold Open_announce. destruct (objs s !! r) as [st|]; [|done].
    pose proof (wf_writeFrame frameOpen (st_id st) (st_meta st) s Hwf) as Hw.
    destruct (writeFrame _ _ _ _) as [[]]; cbn [snd] in *; try done. by apply wf_remove.
  - destruct (objs s !! r) as [st|]; [|done]. by apply wf_writeFrame.
  - destruct (objs s !! r) as [st|] eqn:Hst; [|done]. destruct (Read n st) as [[o st']|] eqn:Hrd; [|done].
    apply wf_on_obj; [|done]. intros st0 Hst0. simplify_eq. by eapply Read_kept.
  - by apply wf_mark.
  - destruct (closers s !! r) as [[]|] eqn:Hk; [by apply wf_close_remove|done..].
  - destruct (closers s !! r) as [[]|] eqn:Hk; [done|by apply wf_close_send|done].
  - by apply wf_close_begin.
  - unfold close_streams. destruct (closed s); [|done]. destruct Hwf as [H1 H2 H3 H4 H5 H6].
    split; cbn [objs streams accept loop controlCh closers with_streams with_objs]; try done;
      try (intros; rewrite ?length_imap; auto).
    destruct (H2 r k H) as [(st & Hst & Hc) _]. split; [|done]. rewrite list_lookup_imap, Hst. cbn.
    eexists. split; [done|]. by destruct (bool_decide _).
Qed.

(** A frame leaves the buffer of a stream alone that either side has closed or that has failed. *)
Lemma received_deaf dc quit f s r st :
  wf s -> objs s !! r = Some st -> ~ live st ->
  exists st', objs (step dc (Received quit f) s) !! r = Some st' /\ st_buf st' = st_buf st.
Proof.
  intros Hwf Hst Hl. cbn [step]. destruct (loop s); [|by exists st..]. unfold readLoop_frame.
  case_decide. { exists st. split; [|done]. destruct (dc _); [|done]. by repeat case_match. }
  case_decide.
  { exists st. split; [|done]. unfold offer. repeat case_match; cbn; by apply lookup_app_l_Some. }
  case_decide.
  { destruct (streams s !! f_connID f) as [r'|]; [|by exists st]. cbn.
    destruct (decide (r' = r)) as [->|]; [|exists st; by rewrite list_lookup_alter_ne].
    rewrite list_lookup_alter_eq, Hst. exists (deliver (f_payload f) st). split; [done|]. unfold deliver.
    destruct (_ && _) eqn:Hc; [|done]. destruct Hl. apply andb_prop in Hc as [[Hc1 Hc2]%andb_prop Hc3].
    apply negb_true_iff in Hc1, Hc2. apply bool_decide_eq_true in Hc3. by split_and!. }
  case_decide; [|by exists st]. destruct (streams s !! f_connID f) as [r'|]; [|by exists st]. cbn.
  destruct (decide (r' = r)) as [->|]; [|exists st; by rewrite list_lookup_alter_ne].
  rewrite list_lookup_alter_eq, Hst. by eexists.
Qed.

Lemma wf_run dc evs : forall s, wf s -> wf (run dc evs s).
Proof. induction evs as [|ev evs IH]; intros s Hwf; [done|]. rewrite run_cons. by apply IH, step_wf. Qed.

(** C18: every sequence of events, in every order, keeps the session well-formed: a stream is in the map
    under its own id only, and only while its peer has not closed it, the session has not failed it, and
    its own end has not closed it or is between the two halves of [Stream.Close], the mark and the
    removal; past the removal it is in no entry; the accept and control queues stay within their
    capacities, and every reference is valid. And a frame that the reader loop takes then adds nothing to
    a stream that either side has closed or that has failed, in the map or not. *)
Theorem run_wf (dc : decodeControl_t) (evs : list event) (s : Session) (Hwf : wf s) :
  wf (run dc evs s) /\
  forall quit f r,
    match objs (run dc evs s) !! r with
    | Some st =>
        if st_localClosed st || st_remoteClosed st || bool_decide (st_err st <> None)
        then st_buf <$> objs (step dc (Received quit f) (run dc evs s)) !! r = Some (st_buf st)
        else True
    | None => True
    end.
Proof.
  split; [by apply wf_run|]. intros quit f r. destruct (objs (run dc evs s) !! r) as [st|] eqn:Hst; [|done].
  destruct (_ || _) eqn:Hc; [|done].
  destruct (received_deaf dc quit f (run dc evs s) r st (wf_run dc evs s Hwf) Hst) as (st' & -> & <-); [|done].
  intros (H1 & H2 & H3). by rewrite H1, H2, H3 in Hc.
Qed.

Lemma run_wf_witness :
  let s := run (fun _ => None)
        [Received false (mkFrame frameOpen 2 (str "t")); Received false (mkFrame frameData 2 (str "xy"));
         BytesRead 0 1; StreamClosed 0] (newSession true (mkWr [] None)) in
  wf s /\ streams s !! 2 = Some 0%nat /\ st_localClosed <$> objs s !! 0%nat = Some true /\
  st_buf <$> objs (step (fun _ => None) (Received false (mkFrame frameData 2 (str "z"))) s) !! 0%nat = Some (str "y") /\
  wf (run (fun _ => None) [StreamRemoved 0; Received false (mkFrame frameClose 2 []); CloseSent 0] s).
Proof.
  cbv zeta. set (evs := [Received false (mkFrame frameOpen 2 (str "t")); Received false (mkFrame frameData 2 (str "xy"));
         BytesRead 0 1; StreamClosed 0]). set (s := run _ _ _).
  destruct (run_wf (fun _ => None) evs (newSession true (mkWr [] None)) (newSession_wf _ _)) as [Hwf Hd].
  split; [exact Hwf|]. split; [vm_compute; reflexivity|]. split; [vm_compute; reflexivity|].
  split; [exact (Hd false (mkFrame frameData 2 (str "z")) 0%nat)|].
  exact (proj1 (run_wf (fun _ => None) [StreamRemoved 0; Received false (mkFrame frameClose 2 []); CloseSent 0] s Hwf)).
Defined.

(** ** Streams are FIFO *)

(** The payload an event routes to stream [r], and the bytes it takes out of its buffer. *)
Definition given (r : ref) (ev : event) (s : Session) : bytes :=
  match ev, loop s with
  | Received _ f, Reading =>
      if decide (f_typ f = frameData /\ streams s !! f_connID f = Some r /\
                 (st_localClosed <$> objs s !! r) = Some false) then f_payload f else []
  | _, _ => []
  end.

Definition taken (r : ref) (ev : event) (s : Session) : bytes :=
  match ev with
  | BytesRead r' n =>
      if decide (r' = r) then
        match objs s !! r with
        | Some st => match Read n st with Some (Ok b, _) => b | _ => [] end
        | None => []
        end
      else []
  | _ => []
  end.

Fixpoint routed (dc : decodeControl_t) (r : ref) (evs : list event) (s : Session) : bytes :=
  match evs with
  | [] => []
  | ev :: rest => given r ev s ++ routed dc r rest (step dc ev s)
  end.

Fixpoint consumed (dc : decodeControl_t) (r : ref) (evs : list event) (s : Session) : bytes :=
  match evs with
  | [] => []
  | ev :: rest => taken r ev s ++ consumed dc r rest (step dc ev s)
  end.

(** An object after an update of one object. *)
Lemma on_obj_at f r' s r st :
  objs s !! r = Some st -> objs (on_obj f r' s) !! r = Some (if decide (r' = r) then f st else st).
Proof.
  intros Hst. cbn. case_decide as Hr.
  - subst. by rewrite list_lookup_alter_eq, Hst.
  - by rewrite list_lookup_alter_ne.
Qed.

(** Once closed by its own end, a stream stays so. *)
Abbreviation closed_kept st st' := (st_localClosed st = true -> st_localClosed st' = true).

Lemma same_objs s s' r st :
  objs s' = objs s -> objs s !! r = Some st ->
  exists st', objs s' !! r = Some st' /\ st_buf st' = st_buf st /\ closed_kept st st'.
Proof. intros -> Hst. by exists st. Qed.

Lemma offer_objs quit r s : objs (offer quit r s) = objs s.
Proof. unfold offer. by repeat case_match. Qed.

Lemma readLoop_buf dc quit f s r st :
  wf s -> loop s = Reading -> objs s !! r = Some st ->
  exists st', objs (readLoop_frame dc quit f s) !! r = Some st' /\
    st_buf st' = st_buf st ++ given r (Received quit f) s /\ closed_kept st st'.
Proof.
  intros Hwf Hl Hst. unfold given. rewrite Hl, Hst. unfold readLoop_frame.
  assert (Hsame : forall s', ~ (f_typ f = frameData /\ streams s !! f_connID f = Some r) ->
    (exists st', objs s' !! r = Some st' /\ st_buf st' = st_buf st /\ closed_kept st st') ->
    exists st', objs s' !! r = Some st' /\ st_buf st' = st_buf st ++
      (if decide (f_typ f = frameData /\ streams s !! f_connID f = Some r /\ Some (st_localClosed st) = Some false)
       then f_payload f else []) /\ closed_kept st st').
  { intros s' Hn (st' & Ho & Hb & Hk). exists st'. rewrite decide_False by tauto. by rewrite app_nil_r. }
  destruct (decide (f_typ f = frameControl)) as [Ht|].
  { apply Hsame; [by intros [E _]; rewrite Ht in E|]. eapply same_objs; [|done].
    destruct (dc _); [|done]. by repeat case_match. }
  destruct (decide (f_typ f = frameOpen)) as [Ht|].
  { apply Hsame; [by intros [E _]; rewrite Ht in E|]. rewrite offer_objs. exists st. split; [|done].
    by apply lookup_app_l_Some. }
  destruct (decide (f_typ f = frameData)) as [Ht|].
  { destruct (streams s !! f_connID f) as [r'|] eqn:Hr; [|apply Hsame; [naive_solver|by exists st]].
    destruct (decide (r' = r)) as [->|Hne]; cycle 1.
    { apply Hsame; [naive_solver|]. eexists. split; [by apply on_obj_at|]. by rewrite decide_False. }
    eexists. split; [by apply on_obj_at|]. rewrite decide_True by done.
    split; [|intros Hc; by rewrite (proj1 (proj2 (deliver_kept _ _)))].
    destruct (wf_streams s Hwf _ _ Hr) as (st0 & Hst0 & _ & Hrc & He & _). simplify_eq.
    unfold deliver. rewrite Hrc, He. destruct (st_localClosed st) eqn:Hc; cbn.
    - rewrite decide_False; [by rewrite app_nil_r|]. intros (_ & _ & [= ?]). congruence.
    - rewrite decide_True; [done|]. by rewrite Hc. }
  destruct (decide (f_typ f = frameClose)) as [Ht|].
  { apply Hsame; [tauto|]. destruct (streams s !! f_connID f) as [r'|]; [|by exists st].
    exists (if decide (r' = r) then remoteClose st else st). split; [by apply (on_obj_at remoteClose r' (removeStream _ s))|].
    by destruct (decide (r' = r)). }
  apply Hsame; [tauto|by exists st].
Qed.

Lemma close_objs dc ev s r st :
  (exists r0, ev = StreamClosed r0 \/ ev = StreamRemoved r0 \/ ev = CloseSent r0) ->
  objs s !! r = Some st ->
  exists st', objs (step dc ev s) !! r = Some st' /\ st_buf st' = st_buf st /\ closed_kept st st'.
Proof.
  intros (r0 & [->|[->| ->]]) Hst; cbn [step].
  - unfold Close_mark. destruct (objs s !! r0) as [st0|]; [|by exists st].
    destruct (st_localClosed st0); [by exists st|]. eexists. split; [by apply (on_obj_at localClose r0 s)|].
    by case_decide.
  - apply (same_objs s); [|done]. destruct (closers s !! r0) as [[]|]; [|done..]. unfold Close_remove.
    by destruct (objs s !! r0).
  - apply (same_objs s); [|done]. destruct (closers s !! r0) as [[]|]; [done| |done]. unfold Close_send.
    destruct (objs s !! r0); [|done]. destruct (writeFrame _ _ _ _) as [o s'] eqn:E.
    by apply writeFrame_frames in E as (_ & Ho & _).
Qed.

Lemma step_buf dc ev s r st :
  wf s -> objs s !! r = Some st ->
  exists st', objs (step dc ev s) !! r = Some st' /\
    taken r ev s ++ st_buf st' = st_buf st ++ given r ev s /\ closed_kept st st'.
Proof.
  intros Hwf Hst.
  assert (Hquiet : forall s', given r ev s = [] -> taken r ev s = [] ->
    (exists st', objs s' !! r = Some st' /\ st_buf st' = st_buf st /\ closed_kept st st') ->
    exists st', objs s' !! r = Some st' /\ taken r ev s ++ st_buf st' = st_buf st ++ given r ev s /\ closed_kept st st').
  { intros s' -> -> (st' & Ho & Hb & Hk). exists st'. by rewrite app_nil_r. }
  destruct ev; try (apply Hquiet; [done|done|]; apply (close_objs dc _ s r st); [by eauto|done]); cbn [step].
  - cbn [taken app]. destruct (loop s) eqn:Hl; [by apply readLoop_buf| |];
      (apply Hquiet; [by cbn; rewrite Hl|done|by exists st]).
  - apply Hquiet; [done|done|]. destruct (loop s); [|by exists st..].
    eapply same_objs; [|done]. by destruct (close_begin_fields e (with_accept (accept s) Returned s)) as (_ & -> & _).
  - apply Hquiet; [done|done|]. destruct (loop s) as [|r'|]; [by exists st| |by exists st].
    eapply same_objs; [|done]. apply offer_objs.
  - apply Hquiet; [done|done|by exists st].
  - apply Hquiet; [done|done|by exists st].
  - apply Hquiet; [done|done|]. eapply same_objs; [|done].
    destruct (SendControl c s) as [o s'] eqn:E. by apply writeFrame_frames in E as (_ & Ho & _).
  - apply Hquiet; [done|done|]. unfold Open_register. destruct (closed s); [by exists st|].
    exists st. split; [|done]. cbn. by apply lookup_app_l_Some.
  - apply Hquiet; [done|done|]. eapply same_objs; [|done]. unfold Open_announce.
    destruct (objs s !! r0) as [st0|]; [|done].
    destruct (writeFrame _ _ _ s) as [o s'] eqn:E. apply writeFrame_frames in E as (_ & Ho & _).
    by destruct o.
  - apply Hquiet; [done|done|]. eapply same_objs; [|done]. destruct (objs s !! r0); [|done].
    destruct (writeFrame _ _ _ s) as [o s'] eqn:E. by apply writeFrame_frames in E as (_ & Ho & _).
  - cbn [given taken]. rewrite app_nil_r. destruct (decide (r0 = r)) as [->|Hne].
    + rewrite Hst. destruct (Read n st) as [[o st']|] eqn:Hrd; [|by exists st].
      exists st'. cbn. rewrite list_lookup_alter_eq, Hst. split; [done|].
      destruct (Read_inv _ _ _ _ Hrd) as [(e & -> & ->)|[-> ->]]; [done|]. cbn. split; [apply take_drop|done].
    + destruct (objs s !! r0) as [st0|]; [|by exists st].
      destruct (Read n st0) as [[o st']|]; [|by exists st]. exists st. cbn.
      by rewrite list_lookup_alter_ne.
  - apply Hquiet; [done|done|]. eapply same_objs; [|done].
    by destruct (close_begin_fields ErrSessionClosed s) as (_ & -> & _).
  - apply Hquiet; [done|done|]. unfold close_streams. destruct (closed s) as [e|]; [|by exists st].
    cbn. rewrite list_lookup_imap, Hst. cbn. eexists. split; [done|]. by destruct (bool_decide _).
Qed.

(** In every interleaving, what readers take from a stream, followed by what is still buffered,
    is what was buffered before followed by the payloads routed to the stream while it is open, in
    order: no byte is lost, duplicated, reordered or taken from another stream. *)
Theorem stream_fifo (dc : decodeControl_t) (evs : list event) (s : Session) (r : ref) (st : stream)
    (Hwf : wf s) (Hst : objs s !! r = Some st) :
  exists st', objs (run dc evs s) !! r = Some st' /\
    consumed dc r evs s ++ st_buf st' = st_buf st ++ routed dc r evs s.
Proof.
  revert s st Hwf Hst. induction evs as [|ev evs IH]; intros s st Hwf Hst.
  { exists st. cbn. by rewrite app_nil_r. }
  rewrite run_cons. cbn [consumed routed].
  destruct (step_buf dc ev s r st Hwf Hst) as (st1 & Hst1 & Hb & _).
  destruct (IH (step dc ev s) st1 (step_wf dc ev s Hwf) Hst1) as (st2 & Hst2 & Hb2).
  exists st2. split; [done|]. rewrite <- app_assoc, Hb2, app_assoc, Hb. by rewrite <- app_assoc.
Qed.

Lemma stream_fifo_witness :
  let s := snd (Open_register (str "t") (newSession true (mkWr [] None))) in
  exists st, objs (run (fun _ => None) [Received false (mkFrame frameData 1 (str "ab")); BytesRead 0 1] s) !! 0%nat
             = Some st.
Proof.
  cbv zeta.
  destruct (stream_fifo (fun _ => None)
    [Received false (mkFrame frameData 1 (str "ab")); BytesRead 0 1]
    (snd (Open_register (str "t") (newSession true (mkWr [] None)))) 0 (newStream 1 (str "t")))
    as (st & H & _); [|done|by exists st].
  apply (step_wf (fun _ => None) (Opened (str "t"))), newSession_wf.
Defined.

(** ** Stream ids *)

(** The peer opens ids of the other parity, as the peer's own [Session] does. *)
Definition peer_ok (isClient : bool) (ev : event) : Prop :=
  match ev with
  | Received _ f => f_typ f = frameOpen -> Z.odd (f_connID f) <> isClient
  | _ => True
  end.

Definition ids_ok (isClient : bool) (n : Z) (s : Session) : Prop :=
  Z.odd (nextID s) = isClient /\ 0 < nextID s <= 2 * n + 2 /\
  forall id r, streams s !! id = Some r -> Z.odd id <> isClient \/ id < nextID s.

(** What an event other than [Opened] does to the keys: they go, or the peer's key comes. *)
Definition ids_kept (ev : event) (s s' : Session) : Prop :=
  nextID s' = nextID s /\
  forall id r, streams s' !! id = Some r ->
    streams s !! id = Some r \/ exists quit f, ev = Received quit f /\ f_typ f = frameOpen /\ id = f_connID f.

Lemma ids_kept_same ev s s' : nextID s' = nextID s -> streams s' = streams s -> ids_kept ev s s'.
Proof. intros Hn Hs. split; [done|]. rewrite Hs. auto. Qed.

Lemma ids_kept_delete ev s s' i : nextID s' = nextID s -> streams s' = delete i (streams s) -> ids_kept ev s s'.
Proof. intros Hn Hs. split; [done|]. rewrite Hs. intros id r [_ ?]%lookup_delete_Some. by left. Qed.

Lemma ids_kept_writeFrame ev typ id p s0 s :
  nextID s0 = nextID s -> streams s0 = streams s -> ids_kept ev s (snd (writeFrame typ id p s0)).
Proof.
  intros Hn Hs. destruct (writeFrame _ _ _ _) as [o s'] eqn:E.
  apply writeFrame_frames in E as (Hs' & _ & _ & _ & _ & _ & Hn' & _).
  apply ids_kept_same; cbn [snd]; congruence.
Qed.

Lemma ids_kept_close_begin ev e s0 s :
  nextID s0 = nextID s -> streams s0 = streams s -> ids_kept ev s (close_begin e s0).
Proof. intros. apply ids_kept_same; unfold close_begin; by destruct (closed s0). Qed.

Lemma readLoop_ids dc quit f s : ids_kept (Received quit f) s (readLoop_frame dc quit f s).
Proof.
  unfold readLoop_frame. case_decide; [apply ids_kept_same; repeat case_match; done|].
  case_decide.
  { unfold offer. assert (Hnew : forall id r,
      <[f_connID f := length (objs s)]> (streams s) !! id = Some r -> streams s !! id = Some r \/
      exists quit0 f0, Received quit f = Received quit0 f0 /\ f_typ f0 = frameOpen /\ id = f_connID f0).
    { intros id r [[<- _]|[_ ?]]%lookup_insert_Some; [right; by exists quit, f|by left]. }
    split; repeat case_match; done. }
  case_decide; [apply ids_kept_same; by repeat case_match|].
  case_decide; [|by apply ids_kept_same].
  destruct (streams s !! f_connID f); [|by apply ids_kept_same]. by apply (ids_kept_delete _ _ _ (f_connID f)).
Qed.

(** An event either registers a stream of its own or adds no key but the peer's. *)
Lemma step_ids dc ev s :
  (exists meta, ev = Opened meta) \/ ids_kept ev s (step dc ev s).
Proof.
  destruct ev; cbn [step]; try (right; by apply ids_kept_same); try (left; by eauto); right.
  - destruct (loop s); [apply readLoop_ids|by apply ids_kept_same..].
  - destruct (loop s); [by apply ids_kept_close_begin|by apply ids_kept_same..].
  - destruct (loop s); [by apply ids_kept_same| |by apply ids_kept_same].
    apply ids_kept_same; unfold offer; by repeat case_match.
  - by apply ids_kept_writeFrame.
  - unfold Open_announce. destruct (objs s !! r) as [st|]; [|by apply ids_kept_same].
    pose proof (ids_kept_writeFrame (Announced r) frameOpen (st_id st) (st_meta st) s s eq_refl eq_refl) as Hk.
    destruct (writeFrame _ _ _ s) as [o s'] eqn:E. cbn [snd] in Hk.
    apply writeFrame_frames in E as (Hs & _ & _ & _ & _ & _ & Hn & _).
    destruct o; try done. apply (ids_kept_delete _ _ _ (st_id st)); [done|]. cbn. by rewrite Hs.
  - destruct (objs s !! r) as [st|]; [by apply ids_kept_writeFrame|by apply ids_kept_same].
  - apply ids_kept_same; by repeat case_match.
  - unfold Close_mark. destruct (objs s !! r) as [st|]; [|by apply ids_kept_same].
    by destruct (st_localClosed st); apply ids_kept_same.
  - destruct (closers s !! r) as [[]|]; [|by apply ids_kept_same..]. unfold Close_remove.
    destruct (objs s !! r) as [st|]; [|by apply ids_kept_same]. by apply (ids_kept_delete _ _ _ (st_id st)).
  - destruct (closers s !! r) as [[]|]; [by apply ids_kept_same| |by apply ids_kept_same]. unfold Close_send.
    destruct (objs s !! r) as [st|]; [by apply ids_kept_writeFrame|by apply ids_kept_same].
  - by apply ids_kept_close_begin.
  - unfold close_streams. destruct (closed s); [|by apply ids_kept_same]. split; [done|].
    intros id r. cbn. by rewrite lookup_empty.
Qed.

Lemma ids_ok_step dc isClient n ev s :
  0 <= n < 2 ^ 62 -> peer_ok isClient ev -> ids_ok isClient n s -> ids_ok isClient (n + 1) (step dc ev s).
Proof.
  intros Hn Hp (Hodd & Hrange & Hkeys).
  destruct (step_ids dc ev s) as [[meta ->]|[Hnext Hk]].
  - cbn [step]. unfold Open_register. destruct (closed s).
    { unfold ids_ok. cbn [snd]. split_and!; [done|lia|lia|done]. }
    cbn [snd]. unfold ids_ok. cbn [nextID streams]. rewrite Z.mod_small by lia.
    split_and!; [|lia|lia|].
    + rewrite Z.odd_add. rewrite Hodd. by destruct isClient.
    + intros id r [[<- _]|[_ Hr]]%lookup_insert_Some; [right; lia|].
      destruct (Hkeys _ _ Hr); [by left|right; lia].
  - unfold ids_ok. rewrite Hnext. split_and!; [done|lia|lia|]. intros id r Hr.
    destruct (Hk id r Hr) as [?|(quit & f & -> & Ht & ->)]; [eauto|]. left. by apply Hp.
Qed.

Lemma ids_ok_run dc isClient evs : forall n s,
  0 <= n -> n + zlen evs < 2 ^ 62 -> Forall (peer_ok isClient) evs -> ids_ok isClient n s ->
  ids_ok isClient (n + zlen evs) (run dc evs s).
Proof.
  induction evs as [|ev evs IH]; intros n s Hn Hl Hp Hs.
  { by rewrite zlen_nil, Z.add_0_r. }
  inversion Hp; subst. rewrite zlen_cons in *. rewrite run_cons. pose proof (zlen_nonneg evs).
  replace (n + (1 + zlen evs)) with ((n + 1) + zlen evs) by lia. apply IH; [lia|lia|done|].
  apply ids_ok_step; [lia|done|done].
Qed.

(** Ids do not collide: as long as the peer opens streams of its own parity, a stream opened
    after any history of fewer than [2^62] events gets an id that no stream in the map has, so it
    replaces no other, and the id has the parity of the session's side. *)
Theorem open_fresh (dc : decodeControl_t) (isClient : bool) (w : wr) (evs : list event)
    (Hpeer : Forall (peer_ok isClient) evs) (Hlen : zlen evs < 2 ^ 62) :
  let s := run dc evs (newSession isClient w) in
  streams s !! nextID s = None /\ Z.odd (nextID s) = isClient.
Proof.
  cbv zeta. pose proof (zlen_nonneg evs).
  destruct (ids_ok_run dc isClient evs 0 (newSession isClient w)) as (Hodd & Hr & Hk); try done.
  { split_and!; destruct isClient; cbn; try done; lia. }
  split; [|done]. destruct (streams _ !! _) as [r|] eqn:E; [|done].
  destruct (Hk _ _ E) as [?|?]; [done|lia].
Qed.

Lemma open_fresh_witness :
  streams (run (fun _ => None) [Opened []; Received false (mkFrame frameOpen 2 [])] (newSession true (mkWr [] None)))
    !! nextID (run (fun _ => None) [Opened []; Received false (mkFrame frameOpen 2 [])] (newSession true (mkWr [] None)))
  = None.
Proof.
  destruct (open_fresh (fun _ => None) true (mkWr [] None) [Opened []; Received false (mkFrame frameOpen 2 [])])
    as [H _]; [|by vm_compute|exact H].
  constructor; [done|constructor; [by intros _|done]].
Defined.

(** A stream that the reader loop registers after the session has failed its streams is live for
    ever: a [Read] on it waits and nothing is left to wake it. *)
Lemma late_stream_waits :
  let s := run (fun _ => None)
             [CloseCalled; StreamsFailed; Received false (mkFrame frameOpen 2 (str "t")); StreamsFailed]
             (newSession true (mkWr [] None)) in
  let late := run (fun _ => None)
             [CloseCalled; StreamsFailed; Received false (mkFrame frameOpen 2 (str "t"))]
             (newSession true (mkWr [] None)) in
  (Read 1 <$> objs late !! 0%nat) = Some None /\ closed late = Some ErrSessionClosed.
Proof. split; vm_compute; reflexivity. Qed.
