(* ===== verification/TunnelLink.v ===== *)
(** * The two ends of a tunnel (internal/tunnel/session.go: Open, Accept, the reader loop)

    An agent's session and a gateway's session over one connection: what one side writes is what the
    reader loop of the other side reads, frame by frame. Callers use the streams that [Open] and
    [Accept] handed them, and no others; everything else about the order of the steps of both sides
    is free. *)
From S2P Require Import Prelude Go GoIO Tunnel TunnelProps.
Open Scope Z_scope.

(** One end: its session, the streams that an [Open] has registered and not announced yet, the streams
    its callers hold, and how many bytes of the peer's output the reader loop has read. *)
Record node := mkNode { sess : Session; opening : list ref; handles : list ref; seen : nat }.

Record link := mkLink { client : node; server : node }.

(** [true] is the client's end, whose ids are odd. *)
Definition end_of (c : bool) (l : link) : node := if c then client l else server l.
Definition set_end (c : bool) (n : node) (l : link) : link :=
  if c then mkLink n (server l) else mkLink (client l) n.

Definition new_node (isClient : bool) (room : option (Z * gerr)) : node :=
  mkNode (newSession isClient (mkWr [] room)) [] [] 0.

(** The connection breaks for each writer after any number of bytes, or never. *)
Definition new_link (room_client room_server : option (Z * gerr)) : link :=
  mkLink (new_node true room_client) (new_node false room_server).

(** What may happen at an end: its reader loop reads a frame, or another step of its session. The
    connection may also fail at any time for the reader, which is its [ReceiveFailed]. *)
Inductive action :=
| Recv (quit : bool)
| Do (ev : event).

Definition unread (peer n : node) : bytes := drop (seen n) (wout (out (sess peer))).

(** Callers have only the streams they were given. *)
Definition allowed (ev : event) (n : node) : bool :=
  match ev with
  | Received _ _ => false
  | Announced r => bool_decide (r ∈ opening n)
  | DataSent r _ | BytesRead r _ | StreamClosed r => bool_decide (r ∈ handles n)
  | _ => true
  end.

Definition opening' (ev : event) (n : node) : list ref :=
  match ev with
  | Opened meta => match fst (Open_register meta (sess n)) with Ok r => opening n ++ [r] | _ => opening n end
  | Announced r => filter (fun r' => r' <> r) (opening n)
  | _ => opening n
  end.

Definition handles' (ev : event) (n : node) : list ref :=
  match ev with
  | Announced r => if is_ok (fst (Open_announce r (sess n))) then handles n ++ [r] else handles n
  | Accepted => handles n ++ take 1 (accept (sess n))
  | _ => handles n
  end.

Section exec.
Context (decodeControl : decodeControl_t).

Definition act (a : action) (peer n : node) : node :=
  match a with
  | Recv quit =>
      match loop (sess n), readFrame (mkRd (unread peer n) EEOF) with
      | Reading, (Ok f, rest) =>
          mkNode (step decodeControl (Received quit f) (sess n)) (opening n) (handles n)
                 (length (wout (out (sess peer))) - length (rbuf rest))
      | _, _ => n
      end
  | Do ev =>
      if allowed ev n
      then mkNode (step decodeControl ev (sess n)) (opening' ev n) (handles' ev n) (seen n)
      else n
  end.

Definition link_step (l : link) (ca : bool * action) : link :=
  set_end (fst ca) (act (snd ca) (end_of (negb (fst ca)) l) (end_of (fst ca) l)) l.

Definition link_run (acts : list (bool * action)) (l : link) : link := foldl link_step l acts.

(** The bytes of a write that went out: those of a chunk whose frame was written whole. *)
Definition put (r : ref) (a : action) (n : node) : bytes :=
  match a with
  | Do (DataSent r' p) =>
      if allowed (DataSent r' p) n && bool_decide (r' = r) then
        match objs (sess n) !! r with
        | Some st =>
            let p := take (Z.to_nat MaxPayload) p in
            if is_ok (fst (writeFrame frameData (st_id st) p (sess n))) then p else []
        | None => []
        end
      else []
  | _ => []
  end.

Definition got (r : ref) (a : action) (n : node) : bytes :=
  match a with
  | Do ev => if allowed ev n then taken r ev (sess n) else []
  | _ => []
  end.

(** The bytes that went out on stream [r] of an end, and the bytes that were read from it. *)
Fixpoint sent_on (c : bool) (r : ref) (acts : list (bool * action)) (l : link) : bytes :=
  match acts with
  | [] => []
  | ca :: rest =>
      (if bool_decide (fst ca = c) then put r (snd ca) (end_of c l) else []) ++
      sent_on c r rest (link_step l ca)
  end.

Fixpoint read_from (c : bool) (r : ref) (acts : list (bool * action)) (l : link) : bytes :=
  match acts with
  | [] => []
  | ca :: rest =>
      (if bool_decide (fst ca = c) then got r (snd ca) (end_of c l) else []) ++
      read_from c r rest (link_step l ca)
  end.

End exec.
