(* ===== verification/TunnelLinkProps.v ===== *)
(** * What a tunnel guarantees end to end *)
From S2P Require Import Prelude Go GoIO ConnFacts Tunnel TunnelProps TunnelLink.
Open Scope Z_scope.

#[local] Opaque MaxPayload.

(** ** What one event writes *)

(** The frame an event tries to write. *)
Definition emit (ev : event) (s : Session) : option frame :=
  match closed s with
  | Some _ => None
  | None =>
      match ev with
      | ControlSent c => Some (mkFrame frameControl 0 c)
      | Announced r => (fun st => mkFrame frameOpen (st_id st) (st_meta st)) <$> objs s !! r
      | DataSent r p => (fun st => mkFrame frameData (st_id st) (take (Z.to_nat MaxPayload) p)) <$> objs s !! r
      | CloseSent r =>
          match closers s !! r with
          | Some Sending => (fun st => mkFrame frameClose (st_id st) []) <$> objs s !! r
          | _ => None
          end
      | _ => None
      end
  end.

Definition write_out (f : frame) (w : wr) : go unit * wr :=
  writeFrameTo (f_typ f) (f_connID f) (f_payload f) w.

(** The frames the event adds to the output. *)
Definition emitted (ev : event) (s : Session) : list frame :=
  match emit ev s with Some f => if is_ok (fst (write_out f (out s))) then [f] else [] | None => [] end.

Lemma writeFrame_out typ id p s :
  closed s = None ->
  fst (writeFrame typ id p s) = fst (write_out (mkFrame typ id p) (out s)) /\
  out (snd (writeFrame typ id p s)) = snd (write_out (mkFrame typ id p) (out s)).
Proof.
  intros Hc. unfold writeFrame, write_out. rewrite Hc. cbn [f_typ f_connID f_payload].
  by destruct (writeFrameTo _ _ _ _).
Qed.

Lemma writeFrame_closed typ id p s e : closed s = Some e -> writeFrame typ id p s = (Err e, s).
Proof. intros Hc. unfold writeFrame, errOrClosed. by rewrite Hc. Qed.

Lemma step_out dc ev s :
  (forall q f, ev <> Received q f) ->
  out (step dc ev s) = match emit ev s with Some f => snd (write_out f (out s)) | None => out s end.
Proof.
  intros Hn. unfold emit.
  destruct (closed s) as [e|] eqn:Hc; destruct ev; cbn [step fmap option_fmap option_map mbind option_bind]; try done.
  all: try by destruct (Hn quit f).
  all: try (destruct (loop s); unfold close_begin, offer; repeat case_match; done).
  all: try (unfold SendControl, Open_announce, Close_mark, Close_remove, Close_send, Open_register, close_begin, close_streams; rewrite ?Hc).
  all: try match goal with |- context [closers ?y !! ?x] => destruct (closers y !! x) as [[]|]; try done end.
  all: try (destruct (objs s !! r) as [st|]; cbn [fmap option_fmap option_map mbind option_bind]; [|done]).
  all: try (destruct (st_localClosed st); [done|]).
  all: try (erewrite !writeFrame_closed by done; done).
  all: try (apply writeFrame_out; done).
  all: try (by destruct (Read n st) as [[]|]).
  all: try done.
  - destruct (writeFrame_out frameOpen (st_id st) (st_meta st) s Hc) as [_ H].
    destruct (writeFrame _ _ _ _) as [[]]; exact H.
  - apply (writeFrame_out frameClose (st_id st) [] (with_closers (delete r (closers s)) s)). done.
Qed.

(** A broken writer ends in the middle of a frame, and stays there. *)
Definition torn (w : wr) (part : bytes) : Prop :=
  part = [] \/ exists e f x, wroom w = Some (0, e) /\ zlen (f_payload f) <= MaxPayload /\ x <> [] /\
                 frame_bytes f = part ++ x.

Lemma write_out_torn base part f w o w' :
  torn w part -> wout w = base ++ part -> write_out f w = (o, w') ->
  (is_ok o = true -> zlen (f_payload f) <= MaxPayload) /\
  exists part', torn w' part' /\ wout w' = base ++ (if is_ok o then frame_bytes f else []) ++ part'.
Proof.
  intros Ht Hw. unfold write_out, writeFrameTo. rewrite Z.gtb_ltb.
  destruct (Z.ltb_spec MaxPayload (zlen (f_payload f))) as [Hbig|Hfit].
  { intros [= <- <-]. split; [done|]. by exists part. }
  assert (Hfb : frame_bytes f = frame_header (f_typ f) (f_connID f) (zlen (f_payload f)) ++ f_payload f) by done.
  set (h := frame_header _ _ _) in *. assert (Hh : zlen h = 17) by apply zlen_header.
  pose proof (zlen_nonneg (f_payload f)) as Hp0.
  assert (Hpl : 0 < zlen (f_payload f) \/ f_payload f = []).
  { destruct (f_payload f); [by right|left]. rewrite zlen_cons. pose proof (zlen_nonneg l). lia. }
  unfold sbind, Write at 1. destruct (wroom w) as [[k e]|] eqn:Hr.
  - destruct (Z.leb_spec (zlen h) k) as [Hk|Hk].
    + assert (part = []) as -> by (destruct Ht as [?|(e1 & ? & ? & Hr1 & _)]; [done|]; simplify_eq; lia).
      rewrite app_nil_r in Hw. destruct (Z.ltb_spec 0 (zlen (f_payload f))) as [Hp|Hp].
      * unfold Write. cbn [wroom wout]. destruct (Z.leb_spec (zlen (f_payload f)) (k - zlen h)) as [Hk2|Hk2];
          intros [= <- <-]; cbn [is_ok]; (split; [done|]).
        { exists []. split; [by left|]. cbn [wout]. by rewrite Hw, app_nil_r, Hfb, <- app_assoc. }
        exists (h ++ take (Z.to_nat (k - zlen h)) (f_payload f)). split; cycle 1.
        { cbn [wout app]. by rewrite Hw, <- app_assoc. }
        right. exists e, f, (drop (Z.to_nat (k - zlen h)) (f_payload f)). split_and!; [done|done| |].
        { intros Hd%(f_equal length). rewrite length_drop in Hd. change (length (@nil byte)) with 0%nat in Hd. unfold zlen in *. lia. }
        by rewrite Hfb, <- app_assoc, take_drop.
      * intros [= <- <-]. split; [done|]. exists []. split; [by left|]. cbn [wout is_ok].
        destruct Hpl as [?|Hn]; [lia|]. by rewrite Hw, Hfb, Hn, !app_nil_r.
    + intros [= <- <-]. cbn [is_ok]. split; [done|]. destruct Ht as [->|(e0 & f0 & x & Hr0 & H1 & H2 & H3)].
      * exists (take (Z.to_nat k) h). split; cycle 1.
        { cbn [wout app]. by rewrite Hw, app_nil_r. }
        right. exists e, f, (drop (Z.to_nat k) h ++ f_payload f). split_and!; [done|done| |].
        { intros [Hd _]%app_nil. apply (f_equal length) in Hd. rewrite length_drop in Hd. change (length (@nil byte)) with 0%nat in Hd. unfold zlen in *. lia. }
        by rewrite Hfb, app_assoc, take_drop.
      * rewrite Hr in Hr0. injection Hr0 as -> ->. exists part. split; [right; by exists e0, f0, x|]. cbn [wout app]. change (take _ h) with (@nil byte).
        by rewrite app_nil_r.
  - assert (part = []) as -> by (destruct Ht as [?|(? & ? & ? & ? & _)]; [done|congruence]).
    rewrite app_nil_r in Hw. destruct (Z.ltb_spec 0 (zlen (f_payload f))).
    + unfold Write. cbn [wroom wout]. intros [= <- <-]. split; [done|]. exists [].
      split; [by left|]. cbn [wout is_ok]. by rewrite Hw, app_nil_r, Hfb, <- app_assoc.
    + intros [= <- <-]. split; [done|]. exists []. split; [by left|]. cbn [wout is_ok].
      destruct Hpl as [?|Hn]; [lia|]. by rewrite Hw, Hfb, Hn, !app_nil_r.
Qed.

(** The beginning of a frame is not a frame. *)
Lemma torn_unreadable w part e f r' : torn w part -> readFrame (mkRd part e) <> (Ok f, r').
Proof.
  intros Ht Hr. destruct (readFrame_sound (mkRd part e)) as [_ Hs].
  destruct (Hs _ _ Hr) as [[_ Hmax] [fl Hb]]. cbn [rbuf] in Hb.
  destruct Ht as [->|(e0 & f0 & x & _ & Hp & Hx & Hf)]; [done|].
  apply (f_equal (fun p => p ++ x)) in Hb. rewrite <- Hf in Hb. unfold frame_bytes, frame_header in Hb.
  rewrite <- !app_assoc in Hb.
  apply app_inj_1 in Hb as [_ Hb]; [|done]. apply app_inj_1 in Hb as [_ Hb]; [|by rewrite !length_be_bytes].
  apply app_inj_1 in Hb as [Hl Hb]; [|by rewrite !length_be_bytes].
  apply (f_equal be_val) in Hl. pose proof MaxPayload_val.
  pose proof (zlen_nonneg (f_payload f)). pose proof (zlen_nonneg (f_payload f0)).
  rewrite !be_val_be_bytes, !Z.mod_small in Hl by lia.
  apply (f_equal length) in Hb. rewrite !length_app in Hb. unfold zlen in *. destruct x; [done|]. simpl in Hb. lia.
Qed.

(** ** What one event does to the streams *)

Definition tag (st : stream) : Z * bytes := (st_id st, st_meta st).
Definition tags (s : Session) : list (Z * bytes) := tag <$> objs s.
Definition ids (s : Session) : list Z := (tags s).*1.

Definition queued (s : Session) (r : ref) : Prop := r ∈ accept s \/ loop s = Offering r.

(** An event that creates no stream keeps the tags, and only takes away keys and queued references. *)
Record keeps (s s' : Session) : Prop := {
  k_tags : tags s' = tags s;
  k_next : nextID s' = nextID s;
  k_streams n r : streams s' !! n = Some r -> streams s !! n = Some r;
  k_queue r : queued s' r -> queued s r;
}.

Lemma keeps_refl s : keeps s s.
Proof. by split. Qed.

Lemma keeps_trans s1 s2 s3 : keeps s1 s2 -> keeps s2 s3 -> keeps s1 s3.
Proof. intros [] []. split; [congruence|congruence|eauto|eauto]. Qed.

Lemma keeps_same s s' :
  objs s' = objs s -> nextID s' = nextID s -> streams s' = streams s -> accept s' = accept s ->
  loop s' = loop s -> keeps s s'.
Proof. intros Ho Hn Hs Ha Hl. split; unfold tags, queued; rewrite ?Ho, ?Hn, ?Hs, ?Ha, ?Hl; auto. Qed.

Lemma keeps_on_obj f r s :
  (forall st, objs s !! r = Some st -> tag (f st) = tag st) -> keeps s (on_obj f r s).
Proof.
  intros Hf. split; try done. unfold tags. cbn. apply list_eq. intros i. rewrite !list_lookup_fmap.
  destruct (decide (r = i)) as [->|Hne]; [|by rewrite list_lookup_alter_ne].
  rewrite list_lookup_alter_eq. destruct (objs s !! i) eqn:E; [|done]. cbn. by rewrite Hf.
Qed.

Lemma keeps_remove id s : keeps s (removeStream id s).
Proof. split; try done. cbn. by intros n r [_ ?]%lookup_delete_Some. Qed.

Lemma keeps_writeFrame typ id p s : keeps s (snd (writeFrame typ id p s)).
Proof.
  destruct (writeFrame _ _ _ _) as [o s'] eqn:E. apply writeFrame_frames in E as (? & ? & ? & ? & ? & ? & ? & _).
  by apply keeps_same.
Qed.

Lemma keeps_close_begin e s : keeps s (close_begin e s).
Proof. unfold close_begin. destruct (closed s); [apply keeps_refl|by apply keeps_same]. Qed.

(** The reader loop returns, or the queue hands out its head. *)
Lemma keeps_with_accept q l s :
  (forall r, r ∈ q -> r ∈ accept s) -> (forall r, l = Offering r -> queued s r) -> keeps s (with_accept q l s).
Proof. intros Hq Hl. split; try done. intros r [Hr|Hr]; [left; auto|auto]. Qed.

Lemma keeps_offer quit r s : loop s = Offering r -> keeps s (offer quit r s).
Proof.
  intros Hl. unfold offer. destruct (quit && _); [by apply keeps_with_accept|].
  case_decide; split; try done.
  - intros r' [[?| ->%list_elem_of_singleton]%elem_of_app|?]; [by left|by right|done].
  - intros r' [?|[= <-]]; [by left|by right].
Qed.

Lemma keeps_close_streams s : keeps s (close_streams s).
Proof.
  unfold close_streams. destruct (closed s); [|apply keeps_refl]. split; try done.
  unfold tags. cbn. apply list_eq. intros i. rewrite !list_lookup_fmap, list_lookup_imap.
  destruct (objs s !! i); [|done]. cbn. by destruct (bool_decide _).
Qed.

Lemma step_keeps dc ev s :
  (forall q f, ev <> Received q f) -> (forall m, ev <> Opened m) -> keeps s (step dc ev s).
Proof.
  intros Hr Ho. destruct ev; cbn [step]; try (by apply keeps_same).
  - by destruct (Hr quit f).
  - destruct (loop s) eqn:Hl; [|apply keeps_refl..]. eapply keeps_trans; [|apply keeps_close_begin].
    by apply keeps_with_accept.
  - destruct (loop s) eqn:Hl; [apply keeps_refl|by apply keeps_offer|apply keeps_refl].
  - apply keeps_with_accept; [|by right]. intros r. destruct (accept s); [done|]. by right.
  - apply keeps_writeFrame.
  - by destruct (Ho meta).
  - unfold Open_announce. destruct (objs s !! r) as [st|]; [|apply keeps_refl].
    pose proof (keeps_writeFrame frameOpen (st_id st) (st_meta st) s) as Hk.
    destruct (writeFrame _ _ _ _) as [[] s']; try done.
    eapply keeps_trans; [done|apply keeps_remove].
  - destruct (objs s !! r); [apply keeps_writeFrame|apply keeps_refl].
  - destruct (objs s !! r) as [st|] eqn:Hst; [|apply keeps_refl].
    destruct (Read n st) as [[o st']|] eqn:Hrd; [|apply keeps_refl]. apply keeps_on_obj.
    intros st0 Hst0. simplify_eq. by apply Read_inv in Hrd as [(? & _ & ->)|[_ ->]].
  - unfold Close_mark. destruct (objs s !! r) as [st|]; [|apply keeps_refl].
    destruct (st_localClosed st); [apply keeps_refl|].
    apply (keeps_trans _ (on_obj localClose r s)); [by apply keeps_on_obj|by apply keeps_same].
  - destruct (closers s !! r) as [[]|]; [|apply keeps_refl..]. unfold Close_remove.
    destruct (objs s !! r) as [st|]; [|apply keeps_refl].
    apply (keeps_trans _ (removeStream (st_id st) s)); [apply keeps_remove|by apply keeps_same].
  - destruct (closers s !! r) as [[]|]; [apply keeps_refl| |apply keeps_refl]. unfold Close_send.
    destruct (objs s !! r) as [st|]; [|apply keeps_refl].
    apply (keeps_trans _ (with_closers (delete r (closers s)) s)); [by apply keeps_same|apply keeps_writeFrame].
  - apply keeps_close_begin.
  - apply keeps_close_streams.
Qed.

(** A frame from the peer creates a stream when it opens one, and routes its data. *)
Lemma received_keeps dc quit f s :
  f_typ f <> frameOpen -> keeps s (step dc (Received quit f) s).
Proof.
  intros Hf. cbn [step]. destruct (loop s) eqn:Hl; [|apply keeps_refl..]. unfold readLoop_frame.
  case_decide.
  { destruct (dc _); [|apply keeps_refl]. repeat case_match; try apply keeps_refl; [|by apply keeps_same].
    by apply keeps_with_accept. }
  rewrite decide_False by done. case_decide.
  { destruct (streams s !! f_connID f); [|apply keeps_refl]. apply keeps_on_obj. intros st _.
    unfold deliver. by destruct (_ && _). }
  case_decide; [|apply keeps_refl]. destruct (streams s !! f_connID f) as [r|]; [|apply keeps_refl].
  eapply keeps_trans; [apply keeps_remove|by apply keeps_on_obj].
Qed.

Lemma received_open dc quit f s :
  f_typ f = frameOpen -> loop s = Reading ->
  let s' := step dc (Received quit f) s in
  tags s' = tags s ++ [(f_connID f, f_payload f)] /\ nextID s' = nextID s /\
  objs s' = objs s ++ [newStream (f_connID f) (f_payload f)] /\
  streams s' = <[f_connID f := length (objs s)]> (streams s) /\
  forall r, queued s' r -> queued s r \/ r = length (objs s).
Proof.
  intros Hf Hl. cbv zeta. cbn [step]. rewrite Hl. unfold readLoop_frame. rewrite Hf.
  rewrite decide_False by done. rewrite decide_True by done.
  unfold tags, offer, queued. destruct (quit && _); [|case_decide]; cbn; rewrite fmap_app; split_and!; try done.
  - intros r [?|?]; [by left; left|done].
  - intros r [[?|?%list_elem_of_singleton]%elem_of_app|?]; [by left; left|by right|done].
  - intros r [?|[= <-]]; [by left; left|by right].
Qed.

Lemma received_out dc quit f s : out (step dc (Received quit f) s) = out s.
Proof.
  cbn [step]. destruct (loop s); try done. unfold readLoop_frame, offer. by repeat case_match.
Qed.

Lemma opened_step dc meta s :
  closed s = None ->
  let s' := step dc (Opened meta) s in
  fst (Open_register meta s) = Ok (length (objs s)) /\
  tags s' = tags s ++ [(nextID s, meta)] /\ nextID s' = (nextID s + 2) mod 2 ^ 64 /\
  objs s' = objs s ++ [newStream (nextID s) meta] /\ out s' = out s /\
  streams s' = <[nextID s := length (objs s)]> (streams s) /\ forall r, queued s' r -> queued s r.
Proof.
  intros Hc. cbv zeta. cbn [step]. unfold Open_register. rewrite Hc. cbn [fst snd].
  unfold tags. cbn. by rewrite fmap_app.
Qed.

(** ** The invariant of an end *)

Definition open_ids (F : list frame) : list Z := f_connID <$> filter (fun f => f_typ f = frameOpen) F.
Definition data_of (n : Z) (F : list frame) : bytes :=
  concat (f_payload <$> filter (fun f => f_typ f = frameData /\ f_connID f = n) F).
Definition stream_bytes (F : list frame) : bytes := concat (map frame_bytes F).

Lemma open_ids_app F G : open_ids (F ++ G) = open_ids F ++ open_ids G.
Proof. unfold open_ids. by rewrite filter_app, fmap_app. Qed.

Lemma data_of_app n F G : data_of n (F ++ G) = data_of n F ++ data_of n G.
Proof. unfold data_of. by rewrite filter_app, fmap_app, concat_app. Qed.

Lemma stream_bytes_app F G : stream_bytes (F ++ G) = stream_bytes F ++ stream_bytes G.
Proof. unfold stream_bytes. by rewrite map_app, concat_app. Qed.

Lemma stream_bytes_snoc F f : stream_bytes (F ++ [f]) = stream_bytes F ++ frame_bytes f.
Proof. rewrite stream_bytes_app. unfold stream_bytes at 2. cbn [map concat]. by rewrite app_nil_r. Qed.

Lemma open_ids_elem n F : n ∈ open_ids F <-> exists f, f ∈ F /\ f_typ f = frameOpen /\ f_connID f = n.
Proof.
  unfold open_ids. rewrite list_elem_of_fmap. setoid_rewrite list_elem_of_filter. naive_solver.
Qed.

Lemma open_ids_single f : open_ids [f] = if decide (f_typ f = frameOpen) then [f_connID f] else [].
Proof. unfold open_ids. rewrite filter_cons. by case_decide. Qed.

Lemma data_of_single n f :
  data_of n [f] = if decide (f_typ f = frameData /\ f_connID f = n) then f_payload f else [].
Proof. unfold data_of. rewrite filter_cons. case_decide; [|done]. cbn. by rewrite app_nil_r. Qed.

Lemma data_of_none n F : (forall f, f ∈ F -> f_typ f = frameData -> f_connID f <> n) -> data_of n F = [].
Proof.
  intros HF. induction F as [|f F IH] using rev_ind; [done|].
  rewrite data_of_app, data_of_single, IH by set_solver. rewrite decide_False; [done|].
  intros [Ht Hn]. by apply (HF f ltac:(set_solver)).
Qed.

(** The ids of an end's streams are distinct and those of its own parity come from its counter;
    the streams of the other parity are the peer's. [P] is what it has read, [k] bounds its steps. *)
Record ids_inv (c : bool) (k : Z) (s : Session) (P : list frame) : Prop := {
  i_uniq : NoDup (ids s);
  i_next : Z.odd (nextID s) = c /\ 0 < nextID s <= 2 * k + 2;
  i_own n : n ∈ ids s -> Z.odd n = c -> n < nextID s;
  i_range n : n ∈ ids s -> 0 <= n < 2 ^ 64;
  i_peer t : t ∈ tags s -> Z.odd t.1 <> c -> mkFrame frameOpen t.1 t.2 ∈ P;
}.

(** The frames [F] it has written: an OPEN announces a stream of its own, once; data belongs to one of
    its streams, and on a stream of its own it comes after the OPEN. *)
Record frames_inv (c : bool) (s : Session) (F : list frame) : Prop := {
  f_ok : Forall frame_ok F;
  f_opens f : f ∈ F -> f_typ f = frameOpen -> Z.odd (f_connID f) = c /\ (f_connID f, f_payload f) ∈ tags s;
  f_once : NoDup (open_ids F);
  f_data F1 f F2 : F = F1 ++ f :: F2 -> f_typ f = frameData ->
    f_connID f ∈ ids s /\ (Z.odd (f_connID f) = c -> f_connID f ∈ open_ids F1);
}.

(** What its callers hold: streams that await their announcement, announced or accepted ones. *)
Record callers_inv (c : bool) (n : node) (F : list frame) : Prop := {
  c_nodup : NoDup (opening n);
  c_opening r : r ∈ opening n -> exists i, ids (sess n) !! r = Some i /\ Z.odd i = c /\ i ∉ open_ids F;
  c_handles r : r ∈ handles n -> exists i, ids (sess n) !! r = Some i /\ (Z.odd i = c -> i ∈ open_ids F);
  c_queue r : queued (sess n) r -> exists i, ids (sess n) !! r = Some i /\ Z.odd i <> c;
}.

(** What went in and out: the output is the frames, up to a torn one at the end; a stream has sent what
    its data frames carry, and its reader and its buffer have a prefix of what the peer's carry, all of
    it while the stream is in the map and its own end has not closed it. *)
Record bytes_inv (s : Session) (P F : list frame) (sent got : ref -> bytes) : Prop := {
  b_out : exists part, torn (out s) part /\ wout (out s) = stream_bytes F ++ part;
  b_fresh r : ids s !! r = None -> sent r = [] /\ got r = [];
  b_sent r i : ids s !! r = Some i -> sent r = data_of i F;
  b_got r st : objs s !! r = Some st -> exists rest, data_of (st_id st) P = got r ++ st_buf st ++ rest /\
    (streams s !! st_id st = Some r -> st_localClosed st = false -> rest = []);
}.

Record side (c : bool) (k : Z) (n : node) (P F : list frame) (sent got : ref -> bytes) : Prop := {
  s_wf : wf (sess n);
  s_ids : ids_inv c k (sess n) P;
  s_frames : frames_inv c (sess n) F;
  s_callers : callers_inv c n F;
  s_bytes : bytes_inv (sess n) P F sent got;
}.

Lemma ids_lookup s r : ids s !! r = st_id <$> objs s !! r.
Proof. unfold ids, tags. rewrite !list_lookup_fmap. by destruct (objs s !! r). Qed.

Lemma ids_elem s r st : objs s !! r = Some st -> st_id st ∈ ids s.
Proof. intros Hst. apply (list_elem_of_lookup_2 _ r). by rewrite ids_lookup, Hst. Qed.

Lemma tags_elem s r st : objs s !! r = Some st -> tag st ∈ tags s.
Proof. intros Hst. apply (list_elem_of_lookup_2 _ r). unfold tags. by rewrite list_lookup_fmap, Hst. Qed.

(** The frame an allowed event emits fits the invariants of the frames. *)
Lemma frames_inv_emit c s F f :
  frames_inv c s F -> frame_ok f ->
  (f_typ f = frameOpen -> Z.odd (f_connID f) = c /\ (f_connID f, f_payload f) ∈ tags s /\ f_connID f ∉ open_ids F) ->
  (f_typ f = frameData -> f_connID f ∈ ids s /\ (Z.odd (f_connID f) = c -> f_connID f ∈ open_ids F)) ->
  frames_inv c s (F ++ [f]).
Proof.
  intros [H1 H2 H3 H4] Hok Ho Hd. split.
  - apply Forall_app. split; [done|]. by apply Forall_singleton.
  - intros g [Hg| ->%list_elem_of_singleton]%elem_of_app Ht; [auto|]. by destruct (Ho Ht) as (? & ? & _).
  - rewrite open_ids_app, open_ids_single. case_decide as Ht; [|by rewrite app_nil_r].
    apply NoDup_app. split; [done|]. split; [|apply NoDup_singleton].
    intros x Hx ->%list_elem_of_singleton. by destruct (Ho Ht) as (_ & _ & ?).
  - intros F1 g F2 HF Ht. destruct F2 as [|x F2' _] using rev_ind.
    + apply app_inj_tail in HF as [<- <-]. by apply Hd.
    + rewrite app_comm_cons, app_assoc in HF. apply app_inj_tail in HF as [HF _]. by apply (H4 F1 g F2').
Qed.

Lemma frames_inv_mono c s s' F :
  (forall t, t ∈ tags s -> t ∈ tags s') -> frames_inv c s F -> frames_inv c s' F.
Proof.
  intros Ht [H1 H2 H3 H4]. split; [done| |done|].
  - intros f Hf Hty. destruct (H2 f Hf Hty). auto.
  - intros F1 f F2 HF Hty. destruct (H4 F1 f F2 HF Hty) as [Hi ?]. split; [|done].
    unfold ids in *. apply list_elem_of_fmap in Hi as (t & -> & Hi). apply list_elem_of_fmap_2. auto.
Qed.

(** ** Steps that create no stream *)

Lemma keeps_ids s s' : keeps s s' -> ids s' = ids s.
Proof. intros K. unfold ids. by rewrite (k_tags _ _ K). Qed.

Lemma ids_inv_keeps c k s s' P :
  keeps s s' -> ids_inv c k s P -> ids_inv c (k + 1) s' P.
Proof.
  intros K [H1 [H2 H2'] H3 H4 H5]. pose proof (keeps_ids _ _ K) as Hi.
  split; rewrite ?Hi, ?(k_next _ _ K), ?(k_tags _ _ K); try done. split; [done|lia].
Qed.

Lemma ids_inv_mono c k s P P' :
  P `prefix_of` P' -> ids_inv c k s P -> ids_inv c k s P'.
Proof. intros [Q ->] [H1 H2 H3 H4 H5]. split; try done. intros t Ht Ho. apply elem_of_app. auto. Qed.

Lemma emitted_inv ev s f :
  f ∈ emitted ev s -> emitted ev s = [f] /\ emit ev s = Some f /\ is_ok (fst (write_out f (out s))) = true.
Proof.
  unfold emitted. destruct (emit ev s) as [g|]; [|by intros ?%elem_of_nil].
  destruct (is_ok _) eqn:E; [|by intros ?%elem_of_nil]. by intros ->%list_elem_of_singleton.
Qed.

Lemma emitted_cases ev s : emitted ev s = [] \/ exists f, f ∈ emitted ev s.
Proof.
  unfold emitted. destruct (emit ev s) as [g|]; [|by left]. destruct (is_ok _); [|by left].
  right. exists g. by apply list_elem_of_singleton.
Qed.

(** What a frame is made of. *)
Lemma emit_shape ev s f :
  emit ev s = Some f ->
  match ev with
  | ControlSent c => f = mkFrame frameControl 0 c
  | Announced r => exists st, objs s !! r = Some st /\ f = mkFrame frameOpen (st_id st) (st_meta st)
  | DataSent r p => exists st, objs s !! r = Some st /\ f = mkFrame frameData (st_id st) (take (Z.to_nat MaxPayload) p)
  | CloseSent r => exists st, objs s !! r = Some st /\ f = mkFrame frameClose (st_id st) []
  | _ => False
  end.
Proof.
  unfold emit. destruct (closed s); [done|]. destruct ev; try done.
  - by intros [= <-].
  - destruct (objs s !! r) as [st|]; [|done]. intros [= <-]. eauto.
  - destruct (objs s !! r) as [st|]; [|done]. intros [= <-]. eauto.
  - destruct (closers s !! r) as [[]|]; [done| |done]. destruct (objs s !! r) as [st|]; [|done].
    intros [= <-]. eauto.
Qed.

Lemma emitted_frame_ok c k s P part base ev f :
  ids_inv c k s P -> torn (out s) part -> wout (out s) = base ++ part -> f ∈ emitted ev s -> frame_ok f.
Proof.
  intros Hids Ht Hw (_ & He & Hok)%emitted_inv.
  destruct (write_out f (out s)) as [o w'] eqn:Hwr.
  destruct (write_out_torn base part f (out s) o w' Ht Hw Hwr) as [Hlen _].
  split; [|by apply Hlen]. apply emit_shape in He. destruct ev; try done.
  - by subst.
  - destruct He as (st & Hst & ->). eapply i_range; [done|]. by eapply ids_elem.
  - destruct He as (st & Hst & ->). eapply i_range; [done|]. by eapply ids_elem.
  - destruct He as (st & Hst & ->). eapply i_range; [done|]. by eapply ids_elem.
Qed.

(** A caller's reference stands for one id. *)
Lemma ids_inj s r1 r2 i : NoDup (ids s) -> ids s !! r1 = Some i -> ids s !! r2 = Some i -> r1 = r2.
Proof. intros. by eapply NoDup_lookup. Qed.

Lemma frames_inv_do c k n P F ev :
  ids_inv c k (sess n) P -> callers_inv c n F -> allowed ev n = true ->
  (exists part, torn (out (sess n)) part /\ wout (out (sess n)) = stream_bytes F ++ part) ->
  frames_inv c (sess n) F -> frames_inv c (sess n) (F ++ emitted ev (sess n)).
Proof.
  intros Hids Hc Ha (part & Ht & Hw) HF.
  destruct (emitted_cases ev (sess n)) as [->|[f Hf]]; [by rewrite app_nil_r|].
  pose proof (emitted_frame_ok _ _ _ _ _ _ _ _ Hids Ht Hw Hf) as Hok.
  destruct (emitted_inv _ _ _ Hf) as (-> & He & _). apply emit_shape in He.
  apply frames_inv_emit; [done|done|..]; intros Hty; destruct ev; try done; cbn in Ha.
  - by subst.
  - destruct He as (st & Hst & ->). apply bool_decide_eq_true in Ha.
    destruct (c_opening _ _ _ Hc r Ha) as (i & Hi & Hodd & Hn).
    rewrite ids_lookup, Hst in Hi. injection Hi as <-. split; [done|]. split; [|done].
    by apply (tags_elem _ r).
  - by destruct He as (st & Hst & ->).
  - by destruct He as (st & Hst & ->).
  - by subst.
  - by destruct He as (st & Hst & ->).
  - destruct He as (st & Hst & ->). apply bool_decide_eq_true in Ha.
    destruct (c_handles _ _ _ Hc r Ha) as (i & Hi & Hodd).
    rewrite ids_lookup, Hst in Hi. injection Hi as <-. split; [|done]. by apply (ids_elem _ r).
  - by destruct He as (st & Hst & ->).
Qed.

Lemma announce_emitted r s :
  is_ok (fst (Open_announce r s)) = true ->
  exists st, objs s !! r = Some st /\ emitted (Announced r) s = [mkFrame frameOpen (st_id st) (st_meta st)].
Proof.
  unfold Open_announce. destruct (objs s !! r) as [st|] eqn:Hst; [|done]. intros Hok. exists st. split; [done|].
  unfold emitted, emit. destruct (closed s) as [e|] eqn:Hc.
  { by rewrite (writeFrame_closed _ _ _ _ _ Hc) in Hok. }
  rewrite Hst. cbn [fmap option_fmap option_map].
  destruct (writeFrame_out frameOpen (st_id st) (st_meta st) s Hc) as [<- _].
  destruct (writeFrame _ _ _ _) as [[] s']; done.
Qed.

Lemma opening'_sub ev n r : (forall m, ev <> Opened m) -> r ∈ opening' ev n -> r ∈ opening n.
Proof.
  intros Ho. destruct ev; try done; cbn; [by destruct (Ho meta)|]. by intros [_ ?]%list_elem_of_filter.
Qed.

Lemma callers_inv_do dc c k n P F ev :
  ids_inv c k (sess n) P -> (forall q f, ev <> Received q f) -> (forall m, ev <> Opened m) ->
  callers_inv c n F ->
  callers_inv c (mkNode (step dc ev (sess n)) (opening' ev n) (handles' ev n) (seen n)) (F ++ emitted ev (sess n)).
Proof.
  intros Hids Hnr Hno [H1 H2 H3 H4]. pose proof (step_keeps dc ev (sess n) Hnr Hno) as K.
  split; cbn [sess opening handles]; rewrite ?(keeps_ids _ _ K).
  - destruct ev; try done; cbn; [by destruct (Hno meta)|]. by apply NoDup_filter.
  - intros r Hr. destruct (H2 r (opening'_sub _ _ _ Hno Hr)) as (i & Hi & Hodd & Hn).
    exists i. split; [done|]. split; [done|]. rewrite open_ids_app, not_elem_of_app. split; [done|].
    intros (f & Hf & Hty & <-)%open_ids_elem. apply emitted_inv in Hf as (_ & He & _).
    apply emit_shape in He. destruct ev; try done; [by subst| |by destruct He as (? & _ & ->)..].
    destruct He as (st & Hst & ->). cbn in *. apply list_elem_of_filter in Hr as [Hne _]. apply Hne.
    eapply (ids_inj (sess n)); [apply (i_uniq _ _ _ _ Hids)|done|]. by rewrite ids_lookup, Hst.
  - intros r Hr. assert (Hkeep : r ∈ handles n -> exists i, ids (sess n) !! r = Some i /\
      (Z.odd i = c -> i ∈ open_ids (F ++ emitted ev (sess n)))).
    { intros Hh. destruct (H3 r Hh) as (i & ? & Hodd). exists i. split; [done|]. intros.
      rewrite open_ids_app. apply elem_of_app. auto. }
    destruct ev; cbn in Hr; auto.
    + apply elem_of_app in Hr as [?|Hr]; [auto|]. destruct (H4 r) as (i & ? & ?); [|by exists i].
      left. destruct (accept (sess n)); [done|]. cbn in Hr. rewrite take_0 in Hr.
      apply list_elem_of_singleton in Hr as ->. by left.
    + destruct (is_ok _) eqn:Hok; [|auto]. apply elem_of_app in Hr as [?| ->%list_elem_of_singleton]; [auto|].
      destruct (announce_emitted _ _ Hok) as (st & Hst & ->). exists (st_id st).
      rewrite ids_lookup, Hst. split; [done|]. intros _. rewrite open_ids_app. apply elem_of_app. right.
      rewrite open_ids_single. cbn. by left.
  - intros r Hr. apply H4. by apply (k_queue _ _ K).
Qed.

Lemma out_do dc ev s F :
  (forall q f, ev <> Received q f) ->
  (exists part, torn (out s) part /\ wout (out s) = stream_bytes F ++ part) ->
  exists part, torn (out (step dc ev s)) part /\
    wout (out (step dc ev s)) = stream_bytes (F ++ emitted ev s) ++ part.
Proof.
  intros Hn (part & Ht & Hw). rewrite (step_out dc ev s Hn). unfold emitted.
  destruct (emit ev s) as [f|]; [|rewrite app_nil_r; eauto].
  destruct (write_out f (out s)) as [o w'] eqn:Hwr. cbn [fst snd].
  destruct (write_out_torn _ _ _ _ _ _ Ht Hw Hwr) as (_ & part' & Ht' & Hw').
  exists part'. split; [done|]. rewrite Hw'. destruct (is_ok o); rewrite ?app_nil_r; [|done].
  by rewrite stream_bytes_snoc, <- app_assoc.
Qed.

(** What went out on a stream is what its data frames carry. *)
Lemma put_emitted ev n r i :
  NoDup (ids (sess n)) -> allowed ev n = true -> ids (sess n) !! r = Some i ->
  put r (Do ev) n = data_of i (emitted ev (sess n)).
Proof.
  intros Hnd Ha Hi.
  assert (Hno : (forall r' p, ev <> DataSent r' p) -> data_of i (emitted ev (sess n)) = []).
  { intros Hd. apply data_of_none. intros f (_ & He & _)%emitted_inv Hty. apply emit_shape in He.
    destruct ev; try done; [by subst|by destruct He as (? & _ & ->)|by destruct (Hd r0 p)|by destruct He as (? & _ & ->)]. }
  destruct ev; try (by rewrite Hno).
  rename r0 into r'. cbn [put]. rewrite Ha. cbn [andb].
  rewrite ids_lookup in Hi. destruct (objs (sess n) !! r) as [st|] eqn:Hst; [|done]. injection Hi as <-.
  case_bool_decide as Hr.
  - subst r'. unfold emitted, emit. rewrite Hst. cbn [fmap option_fmap option_map].
    destruct (closed (sess n)) as [e|] eqn:Hc; [by rewrite (writeFrame_closed _ _ _ _ _ Hc)|].
    destruct (writeFrame_out frameData (st_id st) (take (Z.to_nat MaxPayload) p) (sess n) Hc) as [-> _].
    destruct (is_ok _); [|done]. rewrite data_of_single. by rewrite decide_True.
  - symmetry. apply data_of_none. intros f Hf Hty Hid. apply Hr.
    apply emitted_inv in Hf as (_ & He & _). apply emit_shape in He as (st' & Hst' & ->). cbn in Hid.
    eapply (ids_inj (sess n)); [done|..]; rewrite ids_lookup; [by rewrite Hst'|by rewrite Hst, Hid].
Qed.

Lemma put_fresh r a n : ids (sess n) !! r = None -> put r a n = [].
Proof.
  rewrite ids_lookup. destruct (objs (sess n) !! r) as [st|] eqn:Hst; [done|]. intros _.
  destruct a as [|[]]; try done. cbn [put]. by rewrite Hst; destruct (_ && _).
Qed.

Lemma got_fresh r a n : ids (sess n) !! r = None -> got r a n = [].
Proof.
  rewrite ids_lookup. destruct (objs (sess n) !! r) as [st|] eqn:Hst; [done|]. intros _.
  destruct a as [|ev]; [done|]. cbn [got]. destruct (allowed ev n); [|done].
  destruct ev; try done. cbn [taken]. case_decide; [subst; by rewrite Hst|done].
Qed.

(** The buffers, over any step that creates no stream; [D] is what it adds to the peer's frames. *)
Lemma got_keeps dc ev s P D r st' gr :
  wf s -> keeps s (step dc ev s) ->
  (forall r st, objs s !! r = Some st -> exists rest, data_of (st_id st) P = gr r ++ st_buf st ++ rest /\
    (streams s !! st_id st = Some r -> st_localClosed st = false -> rest = [])) ->
  (forall st, objs s !! r = Some st ->
    data_of (st_id st) D = given r ev s \/
    given r ev s = [] /\ (streams (step dc ev s) !! st_id st <> Some r \/ st_localClosed st = true)) ->
  objs (step dc ev s) !! r = Some st' ->
  exists rest, data_of (st_id st') (P ++ D) = (gr r ++ taken r ev s) ++ st_buf st' ++ rest /\
    (streams (step dc ev s) !! st_id st' = Some r -> st_localClosed st' = false -> rest = []).
Proof.
  intros Hwf K Hg HD Hst'. assert (Hid : ids (step dc ev s) !! r = Some (st_id st')) by by rewrite ids_lookup, Hst'.
  rewrite (keeps_ids _ _ K), ids_lookup in Hid. destruct (objs s !! r) as [st|] eqn:Hst; [|done].
  injection Hid as Hid. destruct (step_buf dc ev s r st Hwf Hst) as (st1 & Hst1 & Hb & Hcl).
  rewrite Hst' in Hst1. injection Hst1 as <-. rewrite <- Hid, data_of_app.
  destruct (Hg r st Hst) as (rest & -> & Hr).
  destruct (HD st eq_refl) as [->|[Hgv Hun]].
  - destruct (decide (streams s !! st_id st = Some r /\ st_localClosed st = false)) as [[Hm Hc]|Hno].
    + exists []. rewrite (Hr Hm Hc), !app_nil_r, <- !app_assoc. by rewrite Hb.
    + exists rest. split; cycle 1.
      { intros Hs%(k_streams _ _ K) Hc. destruct Hno. split; [done|]. destruct (st_localClosed st); [|done].
        by rewrite Hcl in Hc. }
      assert (given r ev s = []) as Hgn.
      { unfold given. destruct ev; try done. destruct (loop s); try done. case_decide as Hf; [|done].
        destruct Hf as (_ & Hs & Hc). destruct (wf_streams s Hwf _ _ Hs) as (st2 & Hst2 & Hid2 & _).
        rewrite Hst in Hst2, Hc. injection Hst2 as <-. injection Hc as Hc. rewrite Hid2 in Hno. tauto. }
      rewrite Hgn, !app_nil_r in *. rewrite <- Hb, <- !app_assoc. done.
  - exists (rest ++ data_of (st_id st) D). split; cycle 1.
    { intros Hs Hc. destruct Hun as [?|Hl]; [done|]. by rewrite Hcl in Hc. }
    rewrite Hgv, app_nil_r in Hb. rewrite <- Hb, <- !app_assoc. done.
Qed.

Lemma side_mono c k n P F sent gr : side c k n P F sent gr -> side c (k + 1) n P F sent gr.
Proof. intros [H1 H2 H3 H4 H5]. split; try done. eapply ids_inv_keeps; [apply keeps_refl|done]. Qed.

Lemma side_ext c k n P F sent sent' gr gr' :
  (forall r, sent r = sent' r) -> (forall r, gr r = gr' r) ->
  side c k n P F sent gr -> side c k n P F sent' gr'.
Proof.
  intros Hs Hg [H1 H2 H3 H4 [B1 B2 B3 B4]]. split; try done.
  split; [done|..]; intros r; rewrite <- ?Hs, <- ?Hg; auto.
Qed.

Definition stepped (dc : decodeControl_t) (ev : event) (n : node) : node :=
  mkNode (step dc ev (sess n)) (opening' ev n) (handles' ev n) (seen n).

Lemma side_do dc c k n P F sent gr ev :
  side c k n P F sent gr -> allowed ev n = true -> (forall m, ev <> Opened m) ->
  side c (k + 1) (stepped dc ev n) P (F ++ emitted ev (sess n))
    (fun r => sent r ++ put r (Do ev) n) (fun r => gr r ++ got r (Do ev) n).
Proof.
  intros [Hwf Hids Hfr Hcl [B1 B2 B3 B4]] Ha Hno.
  assert (Hnr : forall q f, ev <> Received q f) by (intros q f ->; done).
  pose proof (step_keeps dc ev (sess n) Hnr Hno) as K. unfold stepped.
  split; cbn [sess].
  - by apply step_wf.
  - by apply (ids_inv_keeps c k (sess n)).
  - eapply frames_inv_mono; [|by eapply frames_inv_do]. by rewrite (k_tags _ _ K).
  - by apply (callers_inv_do dc c k n P).
  - split.
    + by apply out_do.
    + intros r. rewrite (keeps_ids _ _ K). intros Hr. destruct (B2 r Hr) as [-> ->].
      by rewrite put_fresh, got_fresh.
    + intros r i. rewrite (keeps_ids _ _ K). intros Hr. rewrite data_of_app, (B3 r i Hr). f_equal.
      apply put_emitted; [apply Hids|done|done].
    + intros r st' Hst'. assert (got r (Do ev) n = taken r ev (sess n)) as -> by (cbn; by rewrite Ha).
      rewrite <- (app_nil_r P). apply (got_keeps dc ev (sess n) P [] r st' gr); try done.
      intros st Hst. left. destruct ev; done || by destruct (Hnr quit f).
Qed.

(** ** Steps that create a stream *)

Lemma ids_snoc s s' t : tags s' = tags s ++ [t] -> ids s' = ids s ++ [t.1].
Proof. intros Ht. unfold ids. by rewrite Ht, fmap_app. Qed.

Lemma ids_length s : length (ids s) = length (objs s).
Proof. unfold ids, tags. by rewrite !length_fmap. Qed.

(** A fresh id joins the invariant of the ids. *)
Lemma ids_inv_snoc c k s s' P id meta :
  tags s' = tags s ++ [(id, meta)] -> id ∉ ids s -> 0 <= id < 2 ^ 64 ->
  Z.odd (nextID s') = c -> nextID s <= nextID s' <= 2 * (k + 1) + 2 ->
  (Z.odd id = c -> id < nextID s') -> (Z.odd id <> c -> mkFrame frameOpen id meta ∈ P) ->
  ids_inv c k s P -> ids_inv c (k + 1) s' P.
Proof.
  intros Ht Hf Hr Hodd Hn Hown Hpeer [H1 [H2 H2'] H3 H4 H5]. pose proof (ids_snoc _ _ _ Ht) as Hi.
  cbn in Hi. split.
  - rewrite Hi. apply NoDup_app. split; [done|]. split; [|apply NoDup_singleton].
    by intros x Hx ->%list_elem_of_singleton.
  - split; [done|lia].
  - rewrite Hi. intros x [Hx| ->%list_elem_of_singleton]%elem_of_app Ho; [|auto].
    specialize (H3 x Hx Ho). lia.
  - rewrite Hi. by intros x [Hx| ->%list_elem_of_singleton]%elem_of_app; auto.
  - rewrite Ht. intros t [Hx| ->%list_elem_of_singleton]%elem_of_app Ho; auto.
Qed.

(** Its object, empty and in the map, joins the invariant of the bytes. *)
Lemma bytes_inv_snoc s s' P D F sent gr id meta :
  wf s -> out s' = out s -> objs s' = objs s ++ [newStream id meta] ->
  streams s' = <[id := length (objs s)]> (streams s) -> id ∉ ids s ->
  data_of id P = [] -> (forall i, data_of i D = []) -> (forall f, f ∈ F -> f_typ f = frameData -> f_connID f ∈ ids s) ->
  bytes_inv s P F sent gr -> bytes_inv s' (P ++ D) F sent gr.
Proof.
  intros Hwf Hout Hobj Hstr Hf HP HD HF [B1 B2 B3 B4].
  assert (Hids : ids s' = ids s ++ [id]).
  { unfold ids, tags. by rewrite Hobj, !fmap_app. }
  assert (Hnew : sent (length (objs s)) = [] /\ gr (length (objs s)) = []).
  { apply B2. apply lookup_ge_None. by rewrite ids_length. }
  split.
  - by rewrite Hout.
  - intros r. rewrite Hids. intros Hr%lookup_ge_None. rewrite length_app in Hr. apply B2, lookup_ge_None. lia.
  - intros r i. rewrite Hids. intros [Hr|[Hge Hr]]%lookup_app_Some; [auto|].
    apply list_lookup_singleton_Some in Hr as [Hr <-]. rewrite ids_length in *.
    replace r with (length (objs s)) by lia. rewrite (proj1 Hnew). symmetry. apply data_of_none.
    intros f Hin Hty Hid. apply Hf. rewrite <- Hid. auto.
  - intros r st. rewrite Hobj, Hstr, data_of_app, HD, app_nil_r. intros [Hr|[Hge Hr]]%lookup_app_Some.
    + destruct (B4 r st Hr) as (rest & -> & Hm). exists rest. split; [done|].
      rewrite lookup_insert_ne; [done|]. intros ->. apply Hf. by apply (ids_elem _ r).
    + apply list_lookup_singleton_Some in Hr as [Hr <-]. replace r with (length (objs s)) by lia.
      cbn [st_id st_buf newStream]. rewrite HP, (proj2 Hnew). by exists [].
Qed.

Lemma ids_snoc_lookup l (i : Z) r x : (l : list Z) !! r = Some x -> (l ++ [i]) !! r = Some x.
Proof. by apply lookup_app_l_Some. Qed.

Lemma callers_inv_snoc c n n' F id :
  ids (sess n') = ids (sess n) ++ [id] -> handles n' = handles n ->
  (opening n' = opening n \/
   opening n' = opening n ++ [length (objs (sess n))] /\ Z.odd id = c /\ id ∉ open_ids F) ->
  (forall r, queued (sess n') r -> queued (sess n) r \/ r = length (objs (sess n)) /\ Z.odd id <> c) ->
  callers_inv c n F -> callers_inv c n' F.
Proof.
  intros Hi Hh Ho Hq [H1 H2 H3 H4].
  assert (Hlast : ids (sess n') !! length (objs (sess n)) = Some id).
  { rewrite Hi, <- ids_length, lookup_app_r by done. by rewrite Nat.sub_diag. }
  assert (Hold : forall r i, ids (sess n) !! r = Some i -> ids (sess n') !! r = Some i).
  { intros r i Hr. rewrite Hi. by apply ids_snoc_lookup. }
  split.
  - destruct Ho as [->|(-> & _)]; [done|]. apply NoDup_app. split; [done|]. split; [|apply NoDup_singleton].
    intros r Hr ->%list_elem_of_singleton. destruct (H2 _ Hr) as (i & Hl%lookup_lt_Some & _).
    rewrite ids_length in Hl. lia.
  - intros r Hr. assert (r ∈ opening n \/ r = length (objs (sess n)) /\ Z.odd id = c /\ id ∉ open_ids F)
      as [Hin|(-> & ? & ?)]; [|destruct (H2 r Hin) as (i & ? & ? & ?); eauto|eauto].
    destruct Ho as [Ho|(Ho & ? & ?)]; rewrite Ho in Hr; [by left|].
    apply elem_of_app in Hr as [?| ->%list_elem_of_singleton]; [by left|by right].
  - rewrite Hh. intros r Hr. destruct (H3 r Hr) as (i & ? & ?). eauto.
  - intros r [Hr|[-> Hodd]]%Hq; [destruct (H4 r Hr) as (i & ? & ?); eauto|eauto].
Qed.

Lemma open_ids_known c s F i : frames_inv c s F -> i ∈ open_ids F -> i ∈ ids s.
Proof.
  intros HF (f & Hf & Hty & <-)%open_ids_elem. destruct (f_opens _ _ _ HF f Hf Hty) as [_ Ht].
  unfold ids. by apply (list_elem_of_fmap_2 fst _ (f_connID f, f_payload f)).
Qed.

Lemma data_known c s F f : frames_inv c s F -> f ∈ F -> f_typ f = frameData -> f_connID f ∈ ids s.
Proof.
  intros HF (F1 & F2 & HF12)%list_elem_of_split Hty. by destruct (f_data _ _ _ HF F1 f F2 HF12 Hty).
Qed.

Lemma frames_inv_snoc c s s' F t : tags s' = tags s ++ [t] -> frames_inv c s F -> frames_inv c s' F.
Proof. intros Ht. apply frames_inv_mono. rewrite Ht. intros. apply elem_of_app. by left. Qed.

Lemma next_fresh c k s P : ids_inv c k s P -> nextID s ∉ ids s.
Proof.
  intros [_ [H2 _] H3 _ _] Hin. specialize (H3 _ Hin H2). lia.
Qed.

(** [Open] registers a stream of the next id. *)
Lemma side_opened dc c k n P F sent gr meta :
  side c k n P F sent gr -> closed (sess n) = None -> 0 <= k < 2 ^ 61 ->
  data_of (nextID (sess n)) P = [] ->
  side c (k + 1) (stepped dc (Opened meta) n) P F sent gr.
Proof.
  intros [Hwf Hids Hfr Hcl Hby] Hc Hk Hd.
  destruct (opened_step dc meta (sess n) Hc) as (Ho & Ht & Hn & Hobj & Hout & Hstr & Hq).
  pose proof (next_fresh _ _ _ _ Hids) as Hfresh. destruct (i_next _ _ _ _ Hids) as [Hodd Hrange].
  rewrite Z.mod_small in Hn by lia.
  split; unfold stepped; cbn [sess].
  - by apply step_wf.
  - eapply ids_inv_snoc; [exact Ht|done|lia| |lia|lia|done|done].
    rewrite Hn, Z.odd_add, Hodd. by destruct c.
  - by eapply frames_inv_snoc.
  - eapply (callers_inv_snoc c n _ F (nextID (sess n))); cbn [sess opening handles]; try done.
    + by rewrite (ids_snoc _ _ _ Ht).
    + right. cbn [opening']. rewrite Ho. split; [done|]. split; [done|].
      intros Hin. apply Hfresh. by eapply open_ids_known.
    + intros r Hr. left. by apply Hq.
  - rewrite <- (app_nil_r P). eapply bytes_inv_snoc; try done. by intros f; apply (data_known c).
Qed.

(** The reader loop takes an OPEN of the peer. *)
Lemma side_recv_open dc c k n P F sent gr quit f m :
  side c k n P F sent gr -> loop (sess n) = Reading -> 0 <= k -> f_typ f = frameOpen -> frame_ok f ->
  Z.odd (f_connID f) <> c -> f_connID f ∉ ids (sess n) -> data_of (f_connID f) P = [] ->
  side c (k + 1) (mkNode (step dc (Received quit f) (sess n)) (opening n) (handles n) m) (P ++ [f]) F sent gr.
Proof.
  intros [Hwf Hids Hfr Hcl Hby] Hl Hk Hty Hok Hodd Hfresh Hd.
  destruct (received_open dc quit f (sess n) Hty Hl) as (Ht & Hn & Hobj & Hstr & Hq).
  destruct (i_next _ _ _ _ Hids) as [Ho Hrange].
  split; cbn [sess].
  - by apply step_wf.
  - eapply ids_inv_snoc; [exact Ht|done|apply Hok|by rewrite Hn|rewrite Hn; lia|done| |].
    + intros _. apply elem_of_app. right. apply list_elem_of_singleton. destruct f; cbn in *. by subst.
    + eapply ids_inv_mono; [|done]. by exists [f].
  - by eapply frames_inv_snoc.
  - eapply (callers_inv_snoc c n _ F (f_connID f)); cbn [sess opening handles]; try done.
    + by rewrite (ids_snoc _ _ _ Ht).
    + by left.
    + intros r [?| ->]%Hq; [by left|by right].
  - eapply bytes_inv_snoc; try done; [by apply received_out| |by intros g; apply (data_known c)].
    intros i. rewrite data_of_single, Hty. by rewrite decide_False by (by intros []).
Qed.

(** It takes any other frame. *)
Lemma side_recv dc c k n P F sent gr quit f m :
  side c k n P F sent gr -> loop (sess n) = Reading -> f_typ f <> frameOpen ->
  side c (k + 1) (mkNode (step dc (Received quit f) (sess n)) (opening n) (handles n) m) (P ++ [f]) F sent gr.
Proof.
  intros [Hwf Hids Hfr Hcl [B1 B2 B3 B4]] Hl Hty.
  pose proof (received_keeps dc quit f (sess n) Hty) as K.
  split; cbn [sess].
  - by apply step_wf.
  - apply (ids_inv_keeps c k (sess n)); [done|]. eapply ids_inv_mono; [|done]. by exists [f].
  - eapply frames_inv_mono; [|done]. by rewrite (k_tags _ _ K).
  - destruct Hcl as [C1 C2 C3 C4]. split; cbn [sess opening handles]; rewrite ?(keeps_ids _ _ K); try done.
    intros r Hr. apply C4. by apply (k_queue _ _ K).
  - split; rewrite ?(keeps_ids _ _ K), ?received_out; try done.
    intros r st' Hst'. rewrite <- (app_nil_r (gr r)).
    change (@nil byte) with (taken r (Received quit f) (sess n)) at 1.
    apply (got_keeps dc _ (sess n) P [f]); [done|done|done| |done].
    intros st Hst. rewrite data_of_single. unfold given. rewrite Hl.
    destruct (decide (f_typ f = frameData)) as [Hd|Hd]; cycle 1.
    { left. by rewrite !decide_False by tauto. }
    destruct (decide (streams (sess n) !! f_connID f = Some r)) as [Hm|Hm].
    + destruct (wf_streams _ Hwf _ _ Hm) as (st0 & Hst0 & Hid & _). rewrite Hst in Hst0.
      injection Hst0 as <-. rewrite Hid in *. rewrite Hst. rewrite decide_True by done.
      destruct (st_localClosed st) eqn:Hc.
      * right. split; [|by right]. apply decide_False. intros (_ & _ & [= ?]). congruence.
      * left. rewrite decide_True; [done|]. split_and!; [done|done|]. cbn. by rewrite Hc.
    + destruct (decide (f_connID f = st_id st)) as [Hi|Hi].
      * right. rewrite decide_False by tauto. split; [done|]. left. rewrite <- Hi. by intros Hs%(k_streams _ _ K).
      * left. by rewrite !decide_False by tauto.
Qed.

(** ** The two ends together *)

Section two_ends.
Context (dc : decodeControl_t) (c : bool) (k : Z) (n peer : node) (P F P2 F2 : list frame).
Context (sent gr sent2 gr2 : ref -> bytes).
Context (Hn : side c k n P F sent gr) (Hp : side (negb c) k peer P2 F2 sent2 gr2).
Context (HP : P `prefix_of` F2) (HP2 : P2 `prefix_of` F) (Hseen : seen n = length (stream_bytes P)).
Context (Hk : 0 <= k < 2 ^ 61).

(** The peer sends nothing on an id that this end has not opened yet. *)
Lemma next_unused : data_of (nextID (sess n)) P = [].
Proof using All.
  apply data_of_none. intros g Hg Hty Hid. destruct HP as [Q HQ].
  assert (Hin : f_connID g ∈ ids (sess peer)).
  { eapply data_known; [apply (s_frames _ _ _ _ _ _ _ Hp)|rewrite HQ; apply elem_of_app; by left|done]. }
  unfold ids in Hin. apply list_elem_of_fmap in Hin as (t & Hti & Ht). destruct HP2 as [Q2 HQ2].
  assert (Ho : mkFrame frameOpen t.1 t.2 ∈ P2).
  { apply (i_peer _ _ _ _ (s_ids _ _ _ _ _ _ _ Hp) t Ht). rewrite <- Hti, Hid.
    rewrite (proj1 (i_next _ _ _ _ (s_ids _ _ _ _ _ _ _ Hn))). by destruct c. }
  apply (next_fresh _ _ _ _ (s_ids _ _ _ _ _ _ _ Hn)). rewrite <- Hid, Hti.
  eapply open_ids_known; [apply (s_frames _ _ _ _ _ _ _ Hn)|]. apply open_ids_elem.
  exists (mkFrame frameOpen t.1 t.2). split; [|done]. rewrite HQ2. apply elem_of_app. by left.
Qed.

(** An OPEN that is still unread is of an id that this end does not know. *)
Lemma open_unknown f Q :
  F2 = P ++ f :: Q -> f_typ f = frameOpen ->
  Z.odd (f_connID f) <> c /\ f_connID f ∉ ids (sess n) /\ data_of (f_connID f) P = [].
Proof using All.
  intros HF Hty. pose proof (s_frames _ _ _ _ _ _ _ Hp) as [_ Ho Hnd Hd].
  assert (Hodd : Z.odd (f_connID f) = negb c).
  { apply (Ho f); [|done]. rewrite HF. apply elem_of_app. right. by left. }
  assert (Hne : Z.odd (f_connID f) <> c) by (rewrite Hodd; by destruct c).
  assert (HnP : f_connID f ∉ open_ids P).
  { rewrite HF, open_ids_app in Hnd. apply NoDup_app in Hnd as (_ & Hdis & _).
    intros Hin. apply (Hdis _ Hin). apply open_ids_elem. exists f. split; [by left|done]. }
  split; [done|]. split.
  - intros Hin. unfold ids in Hin. apply list_elem_of_fmap in Hin as (t & Hti & Ht). apply HnP.
    apply open_ids_elem. exists (mkFrame frameOpen t.1 t.2). split; [|done].
    apply (i_peer _ _ _ _ (s_ids _ _ _ _ _ _ _ Hn) t Ht). by rewrite <- Hti.
  - apply data_of_none. intros g (P1 & P3 & HP13)%list_elem_of_split Hgt Hid. apply HnP.
    destruct (Hd P1 g (P3 ++ f :: Q)) as [_ Hop]; [by rewrite HF, HP13, <- app_assoc|done|].
    rewrite HP13, open_ids_app. apply elem_of_app. left. rewrite <- Hid. apply Hop. by rewrite Hid.
Qed.

(** What the reader loop finds: the next frame of the peer, or no whole frame. *)
Lemma next_frame :
  (exists f Q rest, F2 = P ++ f :: Q /\ frame_ok f /\ readFrame (mkRd (unread peer n) EEOF) = (Ok f, rest) /\
     (length (wout (out (sess peer))) - length (rbuf rest))%nat = length (stream_bytes (P ++ [f]))) \/
  (P = F2 /\ forall f rest, readFrame (mkRd (unread peer n) EEOF) <> (Ok f, rest)).
Proof using All.
  destruct (b_out _ _ _ _ _ (s_bytes _ _ _ _ _ _ _ Hp)) as (part & Ht & Hw). destruct HP as [Q HQ].
  unfold unread. rewrite Hseen, Hw, HQ, stream_bytes_app, <- app_assoc, drop_app_length.
  destruct Q as [|f Q]; [right|left].
  - split; [by rewrite app_nil_r|]. intros f rest. by eapply torn_unreadable.
  - assert (Hok : frame_ok f).
    { pose proof (f_ok _ _ _ (s_frames _ _ _ _ _ _ _ Hp)) as Hall. rewrite HQ in Hall.
      apply Forall_app in Hall as [_ Hall]. by inversion Hall. }
    exists f, Q, (mkRd (stream_bytes Q ++ part) EEOF). split; [done|]. split; [done|].
    unfold stream_bytes at 1 4. cbn [map concat]. rewrite <- app_assoc. fold (stream_bytes Q).
    split; [by apply (frame_io f _ [] EEOF)|].
    cbn [rbuf]. rewrite stream_bytes_snoc, !length_app. lia.
Qed.

Lemma side_act a : exists P' F',
  side c (k + 1) (act dc a peer n) P' F' (fun r => sent r ++ put r a n) (fun r => gr r ++ got r a n) /\
  P' `prefix_of` F2 /\ F `prefix_of` F' /\ seen (act dc a peer n) = length (stream_bytes P').
Proof using All.
  assert (Hpad : forall n' P' F', side c (k + 1) n' P' F' sent gr ->
      side c (k + 1) n' P' F' (fun r => sent r ++ []) (fun r => gr r ++ [])).
  { intros n' P' F'. apply side_ext; intros r; by rewrite app_nil_r. }
  assert (Hidle : exists P' F', side c (k + 1) n P' F' (fun r => sent r ++ []) (fun r => gr r ++ []) /\
      P' `prefix_of` F2 /\ F `prefix_of` F' /\ seen n = length (stream_bytes P')).
  { exists P, F. split; [|done]. by apply Hpad, side_mono. }
  destruct a as [quit|ev]; [cbn [put got act]|].
  - destruct (loop (sess n)) eqn:Hl; try done.
    destruct next_frame as [(f & Q & rest & HF & Hok & Hrd & Hlen)|[_ Hno]]; cycle 1.
    { destruct (readFrame _) as [[f| | |] rest]; try done. by destruct (Hno f rest). }
    rewrite Hrd, Hlen. exists (P ++ [f]), F. split; [apply Hpad|].
    + destruct (decide (f_typ f = frameOpen)) as [Hty|Hty]; [|by apply side_recv].
      destruct (open_unknown f Q HF Hty) as (? & ? & ?). apply side_recv_open; try done. lia.
    + split; [|done]. exists Q. by rewrite HF, <- app_assoc.
  - destruct (allowed ev n) eqn:Ha; cycle 1.
    { assert (forall r, put r (Do ev) n = [] /\ got r (Do ev) n = []) as Hnone.
      { intros r. split; [destruct ev; cbn [put]; rewrite ?Ha; done|cbn [got]; by rewrite Ha]. }
      exists P, F. cbn [act]. rewrite Ha. split; [|done].
      eapply side_ext; [..|apply side_mono, Hn]; intros r; destruct (Hnone r) as [E1 E2];
        rewrite ?E1, ?E2; by rewrite app_nil_r. }
    cbn [act]. rewrite Ha. fold (stepped dc ev n).
    assert ((exists m, ev = Opened m) \/ forall m, ev <> Opened m) as [[m ->]|Hno] by (destruct ev; eauto).
    + cbn [put got taken allowed]. exists P, F.
      destruct (closed (sess n)) eqn:Hc; [|split; [|done]; apply Hpad, side_opened; try done; apply next_unused].
      assert (stepped dc (Opened m) n = n) as ->; [|split; [|done]; by apply Hpad, side_mono].
      unfold stepped. cbn [step opening' handles']. unfold Open_register. rewrite Hc. by destruct n.
    + exists P, (F ++ emitted ev (sess n)). split; [by apply side_do|].
      split; [done|]. split; [by eexists|done].
Qed.

End two_ends.

(** ** Every interleaving *)

Definition linked (k : Z) (l : link) (sent gr : bool -> ref -> bytes) : Prop :=
  exists P F : bool -> list frame, forall c,
    side c k (end_of c l) (P c) (F c) (sent c) (gr c) /\
    P c `prefix_of` F (negb c) /\ seen (end_of c l) = length (stream_bytes (P c)).

Lemma end_set c c' n l : end_of c' (set_end c n l) = if decide (c' = c) then n else end_of c' l.
Proof. by destruct c, c'. Qed.

Lemma linked_step dc k l sent gr ca :
  0 <= k < 2 ^ 61 -> linked k l sent gr ->
  linked (k + 1) (link_step dc l ca)
    (fun c r => sent c r ++ if bool_decide (ca.1 = c) then put r ca.2 (end_of c l) else [])
    (fun c r => gr c r ++ if bool_decide (ca.1 = c) then got r ca.2 (end_of c l) else []).
Proof.
  intros Hk (P & F & H). destruct ca as [c a]. cbn [fst snd]. unfold link_step. cbn [fst snd].
  destruct (H c) as (Hs & HP & Hseen). destruct (H (negb c)) as (Hs2 & HP2 & Hseen2).
  rewrite negb_involutive in HP2.
  destruct (side_act dc c k _ _ _ _ _ _ _ _ _ _ Hs Hs2 HP HP2 Hseen Hk a) as (P' & F' & Hs' & HP' & HF' & Hseen').
  exists (fun c' => if decide (c' = c) then P' else P c'), (fun c' => if decide (c' = c) then F' else F c').
  intros c'. rewrite end_set. destruct (decide (c' = c)) as [->|Hne].
  - rewrite decide_False by (by destruct c). rewrite bool_decide_eq_true_2 by done. done.
  - assert (c' = negb c) as -> by (destruct c, c'; done).
    rewrite negb_involutive, decide_True by done. rewrite bool_decide_eq_false_2 by done.
    split; [|split; [by etrans|done]].
    eapply side_ext; [..|by apply side_mono]; intros r; cbn; by rewrite app_nil_r.
Qed.

Lemma linked_ext k l sent sent' gr gr' :
  (forall c r, sent c r = sent' c r) -> (forall c r, gr c r = gr' c r) -> linked k l sent gr -> linked k l sent' gr'.
Proof.
  intros Hs Hg (P & F & H). exists P, F. intros c. destruct (H c) as (Hc & ? & ?).
  split; [|done]. eapply side_ext; [..|done]; auto.
Qed.

Lemma linked_run dc acts : forall k l sent gr,
  0 <= k -> k + zlen acts < 2 ^ 61 -> linked k l sent gr ->
  linked (k + zlen acts) (link_run dc acts l)
    (fun c r => sent c r ++ sent_on dc c r acts l) (fun c r => gr c r ++ read_from dc c r acts l).
Proof.
  induction acts as [|ca acts IH]; intros k l sent gr Hk Hl Hlk.
  - rewrite zlen_nil, Z.add_0_r. eapply linked_ext; [..|done]; intros; cbn; by rewrite app_nil_r.
  - rewrite zlen_cons in *. pose proof (zlen_nonneg acts).
    replace (k + (1 + zlen acts)) with (k + 1 + zlen acts) by lia.
    eapply linked_ext; [..|apply IH; [| |apply linked_step; [|exact Hlk]]; lia];
      intros; cbn [sent_on read_from]; by rewrite <- app_assoc.
Qed.

Lemma new_side c room : side c 0 (new_node c room) [] [] (fun _ => []) (fun _ => []).
Proof.
  split; cbn [sess new_node].
  - apply newSession_wf.
  - split; cbn; try (intros ? ?%elem_of_nil; done); [apply NoDup_nil_2|].
    split; destruct c; cbn; try done; lia.
  - split; [done|by intros f ?%elem_of_nil|apply NoDup_nil_2|by intros [] g F2].
  - split; cbn; [apply NoDup_nil_2|by intros r ?%elem_of_nil..|].
    by intros r [?%elem_of_nil|?].
  - split; cbn; try done. exists []. by split; [left|].
Qed.

Lemma new_linked rc rs : linked 0 (new_link rc rs) (fun _ _ => []) (fun _ _ => []).
Proof.
  exists (fun _ => []), (fun _ => []). intros c. split; [|split; [done|by destruct c]].
  destruct c; apply new_side.
Qed.

Section channels.
Context (dc : decodeControl_t) (acts : list (bool * action)) (l0 : link).

(** What stream [r] of end [c] carries to stream [r'] of the other end: what was read from [r'] and what
    it has buffered are the first bytes of what was written to [r]; and all of them once the reader
    loop has read everything, as long as neither side has closed the stream. *)
Definition carries (c : bool) (r r' : ref) : Prop :=
  let l := link_run dc acts l0 in
  let arrived st' := read_from dc (negb c) r' acts l0 ++ st_buf st' in
  forall st', objs (sess (end_of (negb c) l)) !! r' = Some st' ->
    arrived st' `prefix_of` sent_on dc c r acts l0 /\
    (streams (sess (end_of (negb c) l)) !! st_id st' = Some r' -> st_localClosed st' = false ->
     seen (end_of (negb c) l) = length (wout (out (sess (end_of c l)))) ->
     arrived st' = sent_on dc c r acts l0).

End channels.

Lemma linked_carries dc acts l0 k c r r' st st' :
  let l := link_run dc acts l0 in
  linked k l (fun c r => sent_on dc c r acts l0) (fun c r => read_from dc c r acts l0) ->
  objs (sess (end_of c l)) !! r = Some st -> objs (sess (end_of (negb c) l)) !! r' = Some st' ->
  st_id st = st_id st' -> carries dc acts l0 c r r'.
Proof.
  unfold carries. cbv zeta. intros (P & F & H) Hst Hst' Hid st1 Hst1. rewrite Hst' in Hst1. injection Hst1 as <-.
  set (l := link_run dc acts l0) in *.
  destruct (H c) as (Hs & _ & _). destruct (H (negb c)) as (Hs' & HP & Hseen). rewrite negb_involutive in HP.
  assert (Hsent : sent_on dc c r acts l0 = data_of (st_id st') (F c)).
  { apply (b_sent _ _ _ _ _ (s_bytes _ _ _ _ _ _ _ Hs)). by rewrite ids_lookup, Hst, <- Hid. }
  destruct (b_got _ _ _ _ _ (s_bytes _ _ _ _ _ _ _ Hs') r' st' Hst') as (rest & Hgot & Hmap).
  destruct HP as [Q HQ]. rewrite Hsent, HQ, data_of_app, Hgot, <- !app_assoc. split.
  - exists (rest ++ data_of (st_id st') Q). by rewrite <- !app_assoc.
  - intros Hm Hlc Hall. rewrite (Hmap Hm Hlc). destruct (b_out _ _ _ _ _ (s_bytes _ _ _ _ _ _ _ Hs)) as (part & _ & Hw).
    rewrite Hseen, Hw, HQ, stream_bytes_app in Hall. rewrite !length_app in Hall.
    destruct Q as [|f Q]; [by rewrite !app_nil_r|]. exfalso.
    unfold stream_bytes at 3 in Hall. cbn [map concat] in Hall. rewrite length_app in Hall.
    assert (0 < length (frame_bytes f))%nat; [|lia]. unfold frame_bytes, frame_header. simpl. lia.
Qed.

(** A stream of the peer's parity has one counterpart, with its metadata. *)
Lemma linked_counterpart k l sent gr c r' st' :
  linked k l sent gr -> objs (sess (end_of c l)) !! r' = Some st' -> Z.odd (st_id st') <> c ->
  exists r st, objs (sess (end_of (negb c) l)) !! r = Some st /\ tag st = tag st' /\
    forall r2 st2, objs (sess (end_of (negb c) l)) !! r2 = Some st2 -> st_id st2 = st_id st' -> r2 = r.
Proof.
  intros (P & F & H) Hst' Hodd. destruct (H c) as (Hs & HP & _). destruct (H (negb c)) as (Hs2 & _ & _).
  pose proof (i_peer _ _ _ _ (s_ids _ _ _ _ _ _ _ Hs) _ (tags_elem _ _ _ Hst') Hodd) as Ho.
  destruct (f_opens _ _ _ (s_frames _ _ _ _ _ _ _ Hs2) (mkFrame frameOpen (st_id st') (st_meta st'))) as [_ Ht].
  { destruct HP as [Q ->]. apply elem_of_app. by left. }
  { done. }
  apply list_elem_of_lookup_1 in Ht as [r Hr]. unfold tags in Hr. rewrite list_lookup_fmap in Hr.
  destruct (objs _ !! r) as [st|] eqn:Hst; [|done]. injection Hr as Hi Hm.
  exists r, st. split; [done|]. split; [unfold tag; cbn in *; congruence|].
  intros r2 st2 Hst2 Hid2. eapply (ids_inj (sess (end_of (negb c) l))).
  - apply (i_uniq _ _ _ _ (s_ids _ _ _ _ _ _ _ Hs2)).
  - by rewrite ids_lookup, Hst2.
  - rewrite ids_lookup, Hst. cbn in *. congruence.
Qed.

(** A stream of the peer's and a stream of its id at the peer. *)
Lemma tunnel_both dc room_client room_server acts c r' r st' st :
  let l0 := new_link room_client room_server in
  let l := link_run dc acts l0 in
  zlen acts < 2 ^ 61 ->
  objs (sess (end_of c l)) !! r' = Some st' -> objs (sess (end_of (negb c) l)) !! r = Some st ->
  st_id st' = st_id st -> Z.odd (st_id st') <> c ->
  st_meta st' = st_meta st /\ carries dc acts l0 (negb c) r r' /\ carries dc acts l0 c r' r.
Proof.
  intros l0 l Hlen Hst' Hst Hid Hpeer. subst l.
  pose proof (linked_run dc acts 0 l0 _ _ ltac:(done) ltac:(lia) (new_linked room_client room_server)) as Hl.
  cbn [app] in Hl. destruct (linked_counterpart _ _ _ _ c r' st' Hl Hst' Hpeer) as (r1 & st1 & Hst1 & Ht & Hu).
  injection Ht as Hid1 Hmeta. pose proof (Hu r st Hst (eq_sym Hid)) as ->.
  rewrite Hst in Hst1. injection Hst1 as <-. split; [done|]. split.
  - eapply linked_carries; [exact Hl|exact Hst|by rewrite negb_involutive|done].
  - eapply linked_carries; [exact Hl|exact Hst'|exact Hst|done].
Qed.

(** C7: the tunnel is a set of channels. An agent's and a gateway's session over one connection, in any
    interleaving of their callers and reader loops, the connection breaking anywhere or never: a stream
    that an end got from its peer is the one stream of that id at the peer, with the metadata it was
    opened with; and in both directions the bytes that are read are, in order and without loss,
    duplication or bytes of another stream, those written at the other end, all of them once everything
    is read and while the stream is open. *)
Theorem tunnel_channels (dc : decodeControl_t) (room_client room_server : option (Z * gerr))
    (acts : list (bool * action)) (c : bool) (r' : ref) (st' : stream)
    (Hlen : zlen acts < 2 ^ 61)
    (Hst' : objs (sess (end_of c (link_run dc acts (new_link room_client room_server)))) !! r' = Some st')
    (Hpeer : Z.odd (st_id st') <> c) :
  let l0 := new_link room_client room_server in
  let peer := sess (end_of (negb c) (link_run dc acts l0)) in
  exists r st, objs peer !! r = Some st /\ st_id st = st_id st' /\ st_meta st = st_meta st' /\
    (forall r2 st2, objs peer !! r2 = Some st2 -> st_id st2 = st_id st' -> r2 = r) /\
    carries dc acts l0 (negb c) r r' /\ carries dc acts l0 c r' r.
Proof.
  intros l0 peer.
  pose proof (linked_run dc acts 0 l0 _ _ ltac:(done) ltac:(lia) (new_linked room_client room_server)) as Hl.
  cbn [app] in Hl. destruct (linked_counterpart _ _ _ _ c r' st' Hl Hst' Hpeer) as (r & st & Hst & Ht & Hu).
  injection Ht as Hid Hmeta. exists r, st. do 4 (split; [done|]).
  by apply (tunnel_both dc room_client room_server acts c r' r st' st).
Qed.

Lemma tunnel_channels_witness :
  let acts := [(false, Do (Opened (str "db"))); (false, Do (Announced 0)); (true, Recv false); (true, Do Accepted);
               (false, Do (DataSent 0 (str "query"))); (true, Recv false); (true, Do (BytesRead 0 2));
               (true, Do (DataSent 0 (str "row"))); (false, Recv false)] in
  let l0 := new_link None None in
  carries (fun _ => None) acts l0 false 0%nat 0%nat /\
  read_from (fun _ => None) true 0 acts l0 = str "qu" /\ sent_on (fun _ => None) false 0 acts l0 = str "query".
Proof.
  intros acts l0.
  destruct (tunnel_channels (fun _ => None) None None acts true 0%nat
              (mkStream 2 (str "db") (str "ery") false false None false)) as (r & st & Hst & _ & _ & Hu & Hc & _).
  - vm_compute. reflexivity.
  - vm_compute. reflexivity.
  - done.
  - rewrite <- (Hu 0%nat (mkStream 2 (str "db") (str "row") false false None false)) in Hc; [|vm_compute; reflexivity|done].
    split; [exact Hc|]. split; vm_compute; reflexivity.
Defined.
