(* ===== verification/Deadline.v ===== *)
(** * Read deadlines of a stream (internal/tunnel/session.go: SetReadDeadline, and Read's wait)

    One reader of a stream, its deadline and timer, and whatever the other goroutines do to the stream
    meanwhile. [Read] holds the lock from one wait to the next; a broadcast only marks the reader, which
    looks again when it is scheduled. Times are nanoseconds, [None] is the zero time. *)
From S2P Require Import Prelude Go Tunnel.
Open Scope Z_scope.

Definition Meta (st : stream) : bytes := st_meta st.

Record timed := mkTimed {
  tm_st : stream;
  tm_deadline : option Z;
  tm_timer : option Z;          (* when the armed timer is due *)
  tm_now : Z;
  tm_wait : option nat;         (* a [Read] into so many bytes waits *)
  tm_woken : bool;              (* and was signalled *)
  tm_got : list (go bytes);     (* what the reads returned *)
}.

Definition on_st (f : stream -> stream) (s : timed) : timed :=
  mkTimed (f (tm_st s)) (tm_deadline s) (tm_timer s) (tm_now s) (tm_wait s) (tm_woken s) (tm_got s).

(** [cond.Broadcast()] *)
Definition Broadcast (s : timed) : timed :=
  mkTimed (tm_st s) (tm_deadline s) (tm_timer s) (tm_now s) (tm_wait s) true (tm_got s).

Definition SetReadDeadline (t : option Z) (s : timed) : timed :=
  mkTimed (tm_st s) t t (tm_now s) (tm_wait s) (tm_woken s) (tm_got s).

Definition SetDeadline : option Z -> timed -> timed := SetReadDeadline.
Definition SetWriteDeadline (t : option Z) (s : timed) : timed := s.

(** [!s.readDeadline.IsZero() && !time.Now().Before(s.readDeadline)] *)
Definition expired (s : timed) : bool :=
  match tm_deadline s with Some d => d <=? tm_now s | None => false end.

Definition with_expired (b : bool) (st : stream) : stream :=
  mkStream (st_id st) (st_meta st) (st_buf st) (st_localClosed st) (st_remoteClosed st) (st_err st) b.

(** The body of [Read] up to its return or its next wait. *)
Definition Read_turn (n : nat) (s : timed) : timed :=
  match Read n (with_expired (expired s) (tm_st s)) with
  | Some (r, st) => mkTimed st (tm_deadline s) (tm_timer s) (tm_now s) None false (tm_got s ++ [r])
  | None => mkTimed (tm_st s) (tm_deadline s) (tm_timer s) (tm_now s) (Some n) false (tm_got s)
  end.

(** [Close] up to the frame it sends: it stops the timer. *)
Definition Close (s : timed) : timed :=
  if st_localClosed (tm_st s) then s
  else
    let s := on_st localClose s in
    Broadcast (mkTimed (tm_st s) (tm_deadline s) None (tm_now s) (tm_wait s) (tm_woken s) (tm_got s)).

(** The function the timer runs, when it is due. *)
Definition timer_fires (s : timed) : timed :=
  match tm_timer s with
  | Some d =>
      if d <=? tm_now s
      then Broadcast (mkTimed (tm_st s) (tm_deadline s) None (tm_now s) (tm_wait s) (tm_woken s) (tm_got s))
      else s
  | None => s
  end.

Inductive event :=
| StartRead (n : nat)
| Resume                         (* the reader is scheduled *)
| Deliver (p : bytes)
| RemoteClose
| Failed (e : gerr)
| Closed                         (* [Close], up to the frame it sends *)
| Deadline (t : option Z)
| Elapse (d : Z)                 (* the clock advances *)
| Fire.                          (* the timer, when it is due *)

Definition step (s : timed) (ev : event) : timed :=
  match ev with
  | StartRead n => match tm_wait s with None => Read_turn n s | Some _ => s end
  | Resume =>
      match tm_wait s with
      | Some n => if tm_woken s then Read_turn n s else s
      | None => s
      end
  | Deliver p =>
      let st := tm_st s in
      if negb (st_localClosed st) && negb (st_remoteClosed st) && bool_decide (st_err st = None)
      then Broadcast (on_st (deliver p) s) else s
  | RemoteClose => Broadcast (on_st remoteClose s)
  | Failed e => Broadcast (on_st (fail e) s)
  | Closed => Close s
  | Deadline t => SetReadDeadline t s
  | Elapse d => mkTimed (tm_st s) (tm_deadline s) (tm_timer s) (tm_now s + Z.max 0 d) (tm_wait s) (tm_woken s) (tm_got s)
  | Fire => timer_fires s
  end.

Definition opened (id : Z) (meta : bytes) (now : Z) : timed :=
  mkTimed (newStream id meta) None None now None false [].

Definition run (id : Z) (meta : bytes) (now : Z) (evs : list event) : timed := foldl step (opened id meta now) evs.

(** ** The wait is never lost *)

Record timed_inv (s : timed) : Prop := {
  ti_timer : forall d, tm_deadline s = Some d ->
    st_localClosed (tm_st s) = true \/ tm_timer s = Some d \/ d <= tm_now s;
  ti_armed : tm_timer s = None \/ tm_timer s = tm_deadline s;
  ti_wait : tm_wait s <> None -> tm_woken s = false ->
    st_buf (tm_st s) = [] /\ st_err (tm_st s) = None /\ st_remoteClosed (tm_st s) = false /\
    st_localClosed (tm_st s) = false /\ tm_timer s = tm_deadline s;
}.

Lemma Read_None n st :
  Read n st = None ->
  st_buf st = [] /\ st_err st = None /\ st_expired st = false /\ st_remoteClosed st = false /\
  st_localClosed st = false.
Proof.
  unfold Read. destruct (st_buf st); [|done]. destruct (st_err st); [done|].
  destruct (st_expired st); [done|]. destruct (st_remoteClosed st); [done|]. by destruct (st_localClosed st).
Qed.

Lemma Read_keeps n st r st' : Read n st = Some (r, st') -> st_localClosed st' = st_localClosed st.
Proof.
  unfold Read. destruct (st_buf st); [|by intros [= <- <-]]. destruct (st_err st); [by intros [= <- <-]|].
  destruct (st_expired st); [by intros [= <- <-]|]. destruct (st_remoteClosed st); [by intros [= <- <-]|].
  destruct (st_localClosed st) eqn:E; [|done]. by intros [= <- <-].
Qed.

Lemma Read_turn_inv n s :
  (forall d, tm_deadline s = Some d ->
    st_localClosed (tm_st s) = true \/ tm_timer s = Some d \/ d <= tm_now s) ->
  (tm_timer s = None \/ tm_timer s = tm_deadline s) ->
  timed_inv (Read_turn n s).
Proof.
  intros Ht Hd. unfold Read_turn. destruct (Read n _) as [[r st]|] eqn:Hr; split; simpl; try done.
  - apply Read_keeps in Hr. simpl in Hr. by rewrite Hr.
  - intros _ _. apply Read_None in Hr as (Hb & He & Hx & Hrc & Hlc). simpl in *. split_and!; try done.
    unfold expired in Hx. destruct (tm_deadline s) as [d|] eqn:Hdl; [|by destruct Hd].
    destruct (Ht d eq_refl) as [?|[?|?]]; [congruence|done|lia].
Qed.

(** A signalled reader holds no obligation. *)
Lemma inv_broadcast s :
  (forall d, tm_deadline s = Some d ->
    st_localClosed (tm_st s) = true \/ tm_timer s = Some d \/ d <= tm_now s) ->
  (tm_timer s = None \/ tm_timer s = tm_deadline s) -> timed_inv (Broadcast s).
Proof. intros Ht Ha. by split. Qed.

Lemma step_inv s ev : timed_inv s -> timed_inv (step s ev).
Proof.
  intros Hinv. pose proof Hinv as [Ht Ha Hw]. destruct ev as [n| |p| |e| |t|d|]; simpl; unfold Close, timer_fires.
  - destruct (tm_wait s); [done|by apply Read_turn_inv].
  - destruct (tm_wait s) as [n|]; [|done]. destruct (tm_woken s); [by apply Read_turn_inv|done].
  - destruct (_ && _) eqn:Hc; [|done]. apply inv_broadcast; [|done]. simpl. unfold deliver. by rewrite Hc.
  - by apply inv_broadcast.
  - apply inv_broadcast; [|done]. simpl. unfold fail. by destruct (st_err (tm_st s)).
  - destruct (st_localClosed (tm_st s)) eqn:Hl; [done|].
    apply inv_broadcast; simpl; by left.
  - split; simpl; [intros d ->; by right; left|by right|].
    intros Hn Hk. by destruct (Hw Hn Hk) as (? & ? & ? & ? & _).
  - split; simpl; [|done|done]. intros d' Hd. destruct (Ht d' Hd) as [?|[?|?]]; [by left|by right; left|].
    right; right. lia.
  - destruct (tm_timer s) as [d|] eqn:Htm; [|done].
    destruct (Z.leb_spec d (tm_now s)); [|done].
    apply inv_broadcast; simpl; [|by left]. intros d' Hd. destruct Ha as [|Ha]; [done|].
    rewrite Hd in Ha. injection Ha as <-. by right; right.
Qed.

Lemma run_inv id meta now evs : timed_inv (run id meta now evs).
Proof.
  unfold run. assert (H0 : timed_inv (opened id meta now)) by (split; [done|by left|done]).
  revert H0. generalize (opened id meta now). induction evs as [|ev evs IH]; intros s Hs; [done|].
  simpl. by apply IH, step_inv.
Qed.

Lemma Read_turn_expired n s : expired s = true -> tm_wait (Read_turn n s) = None.
Proof.
  intros Hx. unfold Read_turn. destruct (Read n _) as [[r st]|] eqn:Hr; [done|].
  apply Read_None in Hr as (_ & _ & Hx' & _). simpl in Hx'. congruence.
Qed.

(** C25: a reader of a stream never waits in vain, however deadlines are set, moved and removed, data and
    closes arrive and the clock runs: an unsignalled reader has nothing to return (no data, no error, no
    close), and its deadline, if it has one, has a timer armed; so once a deadline has passed the timer
    and the reader's next turn end the read; and a read times out only with no data left and its deadline
    passed. *)
Theorem deadline_wakes id meta now evs :
  let s := run id meta now evs in
  (if bool_decide (tm_wait s <> None) && negb (tm_woken s)
   then st_buf (tm_st s) = [] /\ st_err (tm_st s) = None /\ st_remoteClosed (tm_st s) = false /\
        st_localClosed (tm_st s) = false /\ tm_timer s = tm_deadline s
   else True) /\
  (if expired s then tm_wait (run id meta now (evs ++ [Fire; Resume])) = None else True) /\
  (forall n, match Read n (with_expired (expired s) (tm_st s)) with
     | Some (Err EDeadline, _) => st_buf (tm_st s) = [] /\ (expired s = true \/ st_err (tm_st s) = Some EDeadline)
     | _ => True
     end).
Proof.
  intros s. assert (Hinv : timed_inv s) by apply run_inv. pose proof Hinv as [Ht Ha Hw]. split_and!.
  - destruct (bool_decide_reflect (tm_wait s <> None)); simpl; [|done].
    destruct (tm_woken s) eqn:Hk; simpl; [done|]. by apply Hw.
  - destruct (expired s) eqn:Hx; [|done]. unfold run. rewrite foldl_app. change (foldl step _ evs) with s.
    cbn [foldl]. assert (Hx' : expired (step s Fire) = true).
    { simpl. unfold timer_fires. destruct (tm_timer s) as [z|]; [|done]. by destruct (z <=? tm_now s). }
    assert (Hk : tm_wait (step s Fire) <> None -> tm_woken (step s Fire) = true).
    { simpl. unfold timer_fires, expired in *. destruct (tm_deadline s) as [d|] eqn:Hd; [|done].
      destruct (tm_woken s) eqn:Hk.
      - destruct (tm_timer s) as [z|]; [|done]. by destruct (z <=? tm_now s).
      - destruct (tm_wait s) eqn:Hn.
        + destruct (Hw ltac:(done) eq_refl) as (_ & _ & _ & _ & ->). by rewrite Hx.
        + intros Hc. destruct Hc. destruct (tm_timer s) as [z|]; [destruct (z <=? tm_now s)|]; simpl; by rewrite ?Hn. }
    revert Hx' Hk. generalize (step s Fire). intros s' Hx' Hk. simpl.
    destruct (tm_wait s') as [n|] eqn:Hn; [|done]. rewrite Hk by done. by apply Read_turn_expired.
  - intros n. unfold Read. simpl. destruct (st_buf (tm_st s)); [|done].
    destruct (st_err (tm_st s)) as [[]|]; try done; [split; [done|by right]|].
    destruct (expired s); [split; [done|by left]|]. by destruct (st_remoteClosed _), (st_localClosed _).
Qed.
