(* ===== verification/Gateway.v ===== *)
(** * The gateway (internal/gateway)

    The registry of agents, the admission of an agent, the relay of a client with its recording, and
    the sniffer that reads the login name off the relayed bytes. *)
From S2P Require Import Prelude Go GoStr GoIO Tunnel.
Open Scope Z_scope.

(** ** The login sniffer (dbuser.go) *)

Definition pgSSLRequestCode : Z := 80877103.
Definition pgGSSRequestCode : Z := 80877104.
Definition pgCancelRequestCode : Z := 80877102.
Definition mysqlClientProtocol41 : Z := 0x200.
Definition sniffCap : Z := Z.shiftl 16 10.

(** [cur] is [p[start:i]]: what follows the last NUL is dropped. *)
Fixpoint split_from (cur p : bytes) : list bytes :=
  match p with
  | [] => []
  | c :: rest => if decide (c = b8 0) then cur :: split_from [] rest else split_from (cur ++ [c]) rest
  end.
Definition splitCStrings (p : bytes) : list bytes := split_from [] p.

Fixpoint first_user (parts : list bytes) : bytes :=
  match parts with
  | k :: v :: rest => if decide (k = str "user") then v else first_user rest
  | _ => []
  end.
Definition pgUserFromParams (params : bytes) : bytes := first_user (splitCStrings params).

(** [(user, done)]; every turn of the loop skips eight bytes. *)
Fixpoint sniff_frames (fuel : nat) (buf : bytes) (off : Z) : go (bytes * bool) :=
  match fuel with
  | O => NoFuel
  | S k =>
      if zlen buf - off <? 8 then Ok ([], false)
      else
        let? length := be_at 4 buf off in
        let? code := be_at 4 buf (off + 4) in
        if (length =? 8) && ((code =? pgSSLRequestCode) || (code =? pgGSSRequestCode)) then
          sniff_frames k buf (off + 8)
        else if code =? pgCancelRequestCode then Ok ([], true)
        else if (length <? 8) || (length >? sniffCap) then Ok ([], true)
        else if zlen buf - off <? length then Ok ([], false)
        else
          let? params := slice buf (off + 8) (off + length) in
          Ok (pgUserFromParams params, true)
  end.
Definition sniffPostgresUser (buf : bytes) : go (bytes * bool) := sniff_frames (S (length buf)) buf 0.

Definition sniffMySQLUser (buf : bytes) : go (bytes * bool) :=
  if zlen buf <? 4 then Ok ([], false)
  else
    let? plen := le_at 3 buf 0 in
    if plen <? 33 then Ok ([], true)
    else if zlen buf <? 4 + plen then Ok ([], false)
    else
      let? payload := slice buf 4 (4 + plen) in
      if zlen payload <? 32 then Ok ([], true)
      else
        let? caps := le_at 4 payload 0 in
        if Z.land caps mysqlClientProtocol41 =? 0 then Ok ([], true)
        else
          let? name := slice_from payload 32 in
          let e := IndexByte name (b8 0) in
          if e >=? 0 then let? user := slice name 0 e in Ok (user, true) else Ok ([], true).

Record loginUserSniffer := mkSniffer { dbType : bytes; buf : bytes; done : bool; user : bytes }.

Definition newLoginUserSniffer `{Unicode} (db : bytes) : loginUserSniffer :=
  mkSniffer (ToLower (TrimSpace db)) [] false [].

Definition sniff (db buf : bytes) : go (bytes * bool) :=
  if decide (db = str "postgres" \/ db = str "postgresql") then sniffPostgresUser buf
  else if decide (db = str "mysql") then sniffMySQLUser buf
  else Ok ([], true).

Definition feed (p : bytes) (s : loginUserSniffer) : go loginUserSniffer :=
  let buf := buf s ++ p in
  let? (u, d) := sniff (dbType s) buf in
  Ok (mkSniffer (dbType s) buf (d || (zlen buf >=? sniffCap)) u).

(** The sniffer's [Write]. *)
Definition tap (p : bytes) (s : loginUserSniffer) : go loginUserSniffer :=
  if done s then Ok s else feed p s.

Definition username (s : loginUserSniffer) : bytes := user s.

(** ** The relay *)

(** [io.Copy] over an [io.TeeReader]: [chunks] are the reads of the source. *)
Fixpoint copy_tapped (chunks : list bytes) (e : gerr) (s : loginUserSniffer) (dst : wr) (n : Z)
    : go (Z * go unit * wr * loginUserSniffer) :=
  match chunks with
  | [] => Ok (n, if decide (e = EEOF) then Ok tt else Err e, dst, s)
  | c :: rest =>
      let? s' := tap c s in
      match Write c dst with
      | (Ok _, dst') => copy_tapped rest e s' dst' (n + zlen c)
      | (o, dst') => Ok (n + (zlen (wout dst') - zlen (wout dst)), o, dst', s')
      end
  end.

Record relayed := mkRelayed {
  r_up : Z; r_down : Z; r_err : go unit; r_upstream : wr; r_client : wr; r_tap : loginUserSniffer }.

Definition relayCounted (client_first : bool) (chunks : list bytes) (cend : gerr) (to_client : wr)
    (from_stream : rd) (to_stream : wr) (s : loginUserSniffer) : go relayed :=
  let? (u, e_up, w_up, s') := copy_tapped chunks cend s to_stream 0 in
  let '(d, e_down, w_down) := Copy from_stream to_client in
  Ok (mkRelayed u d (quiet (if client_first then e_up else e_down)) w_up w_down s').

(** ** The registry (gateway.go) *)

(** Connections of agents are shared objects: [heap] holds them in the order of their creation, the
    two maps hold references. [serving] holds the [ServeAgent] calls that have registered and not
    returned, with whether the acknowledgement is out. *)
Record agentConn := mkAgent { ac_id : bytes; ac_orgID : bytes; ac_targets : list Target }.

Record Gateway := mkGateway {
  authToken : bytes;
  heap : list agentConn;
  agents : gmap bytes nat;
  targets : gmap bytes nat;
  serving : gmap nat bool;
  acks : list Control;            (* every acknowledgement handed to a session *)
}.

Definition New (token : bytes) : Gateway := mkGateway token [] ∅ ∅ ∅ [].

Definition ErrNoAgent : gerr := EFmt "gateway: no agent registered for target" [].

Fixpoint find_target (name : bytes) (ts : list Target) : option Target :=
  match ts with
  | [] => None
  | t :: rest => if decide (t_Name t = name) then Some t else find_target name rest
  end.
Definition target (ac : agentConn) (name : bytes) : option Target := find_target name (ac_targets ac).

Definition register (r : nat) (ac : agentConn) (g : Gateway) : Gateway :=
  mkGateway (authToken g) (heap g) (<[ac_id ac := r]> (agents g))
    (foldl (fun m t => <[t_Name t := r]> m) (targets g) (ac_targets ac)) (serving g) (acks g).

(** [if m[k] == ac { delete(m, k) }] *)
Definition delete_if (r : nat) (m : gmap bytes nat) (k : bytes) : gmap bytes nat :=
  if decide (m !! k = Some r) then delete k m else m.

Definition deregister (r : nat) (ac : agentConn) (g : Gateway) : Gateway :=
  mkGateway (authToken g) (heap g) (delete_if r (agents g) (ac_id ac))
    (foldl (fun m t => delete_if r m (t_Name t)) (targets g) (ac_targets ac)) (serving g) (acks g).

Definition Targets (g : Gateway) : list bytes := (map_to_list (targets g)).*1.

(** The session of the agent that serves a target. *)
Definition lookup_target (g : Gateway) (name : bytes) : go nat :=
  match targets g !! name with Some r => Ok r | None => Err ErrNoAgent end.

(** *** Admission *)

Definition ack_ok : Control := mkControl KindRegisterAck [] [] [] [] true [].
Definition ack_refused (why : bytes) : Control := mkControl KindRegisterAck [] [] [] [] false why.

Definition agent_of (reg : Control) : agentConn := mkAgent (k_AgentID reg) (k_OrgID reg) (k_Targets reg).

(** The guards of [ServeAgent]: the acknowledgement and the error of a refusal. *)
Definition refusal (token : bytes) (reg : Control) : option (Control * gerr) :=
  if decide (k_Kind reg <> KindRegister) then
    Some (ack_refused (str "expected register"), EFmt "gateway: first control was not register" [])
  else if decide (token <> [] /\ k_Token reg <> token) then
    Some (ack_refused (str "unauthorized"), EFmt "gateway: agent failed authentication" [])
  else if decide (k_AgentID reg = []) then
    Some (ack_refused (str "missing agent_id"), EFmt "gateway: agent missing id" [])
  else None.

Definition push_ack (c : Control) (g : Gateway) : Gateway :=
  mkGateway (authToken g) (heap g) (agents g) (targets g) (serving g) (acks g ++ [c]).

Definition with_serving (m : gmap nat bool) (g : Gateway) : Gateway :=
  mkGateway (authToken g) (heap g) (agents g) (targets g) m (acks g).

(** [ServeAgent] up to the registration, given what the first [NextControl] returned. *)
Definition ServeAgent_first (first : go Control) (g : Gateway) : go unit * Gateway :=
  match first with
  | Ok reg =>
      match refusal (authToken g) reg with
      | Some (ack, e) => (Err e, push_ack ack g)
      | None =>
          let r := length (heap g) in
          let ac := agent_of reg in
          let g' := mkGateway (authToken g) (heap g ++ [ac]) (agents g) (targets g) (serving g) (acks g) in
          (Ok tt, with_serving (<[r := false]> (serving g)) (register r ac g'))
      end
  | Err e => (Err e, g)
  | Panic => (Panic, g)
  | NoFuel => (NoFuel, g)
  end.

(** The return of [ServeAgent] runs the deferred [deregister]. *)
Definition ServeAgent_return (r : nat) (g : Gateway) : Gateway :=
  match heap g !! r with
  | Some ac => deregister r ac (with_serving (delete r (serving g)) g)
  | None => g
  end.

(** The acknowledgement, and then every further [NextControl]. *)
Definition ServeAgent_next (r : nat) (o : go Control) (g : Gateway) : Gateway :=
  match serving g !! r with
  | Some false =>
      if is_ok o then with_serving (<[r := true]> (serving g)) (push_ack ack_ok g)
      else ServeAgent_return r (push_ack ack_ok g)
  | Some true => if is_ok o then g else ServeAgent_return r g
  | None => g
  end.

(** An interleaving of [ServeAgent] calls: a call starts with its first control message, or the call
    [r] proceeds with the outcome of its next operation on the session. *)
Inductive event :=
| AgentFirst (first : go Control)
| AgentNext (r : nat) (o : go Control).

Definition step (g : Gateway) (ev : event) : Gateway :=
  match ev with
  | AgentFirst first => snd (ServeAgent_first first g)
  | AgentNext r o => ServeAgent_next r o g
  end.

Definition run (token : bytes) (evs : list event) : Gateway := foldl step (New token) evs.

(** ** Clients *)

Record SessionRecord := mkRecord {
  AgentID : bytes; OrgID : bytes; s_Target : bytes; s_DBType : bytes; ClientAddr : bytes;
  s_ResourceRoleID : bytes; s_ActorEmail : bytes; StartedAt : Z }.

Record SessionResult := mkResult {
  EndedAt : Z; BytesUp : Z; BytesDown : Z; Status : bytes; DBUsername : bytes; Error : bytes }.

(** The recording store (store.go): what its two calls answer. *)
Record Store := mkStore {
  SessionStarted : SessionRecord -> go bytes;
  SessionEnded : bytes -> SessionResult -> go unit }.

Definition NoopStore : Store := mkStore (fun _ => Ok []) (fun _ _ => Ok tt).

Definition SetStore (s : option Store) : Store := match s with None => NoopStore | Some s => s end.

(** One served client: what it returned, what the store was told, where the bytes went. *)
Record served := mkServed {
  v_ret : go unit;
  v_started : option SessionRecord;
  v_ended : option (bytes * SessionResult);
  v_relay : option relayed }.

Section serve.
Context `{Unicode}.
(** [err.Error()], for the result of a failed relay. *)
Context (error_text : gerr -> bytes).

Definition session_result (now : Z) (r : relayed) : SessionResult :=
  match r_err r with
  | Err e => mkResult now (r_up r) (r_down r) (str "cancelled") (username (r_tap r)) (error_text e)
  | _ => mkResult now (r_up r) (r_down r) (str "executed") (username (r_tap r)) []
  end.

Definition session_record (ac : agentConn) (name addr : bytes) (now : Z) : SessionRecord :=
  let b := default (mkTarget [] [] [] [] []) (target ac name) in
  mkRecord (ac_id ac) (ac_orgID ac) name (t_DBType b) addr (t_ResourceRoleID b) (t_ActorEmail b) now.

(** [opened] is the outcome of [sess.Open]; the readers, the writers and the chunks are the client's
    connection and the stream. *)
Definition ServeClient (g : Gateway) (store : Store) (name addr : bytes) (t0 t1 : Z) (opened : go unit)
    (client_first : bool) (chunks : list bytes) (cend : gerr) (to_client : wr)
    (from_stream : rd) (to_stream : wr) : served :=
  match targets g !! name with
  | None => mkServed (Err ErrNoAgent) None None None
  | Some r =>
      match opened, heap g !! r with
      | Ok _, Some ac =>
          let rec := session_record ac name addr t0 in
          let sessionID := match SessionStarted store rec with Ok id => id | _ => [] end in
          match relayCounted client_first chunks cend to_client from_stream to_stream
                  (newLoginUserSniffer (s_DBType rec)) with
          | Ok rl =>
              mkServed (r_err rl) (Some rec) (Some (sessionID, session_result t1 rl)) (Some rl)
          | Err e => mkServed (Err e) (Some rec) None None
          | Panic => mkServed Panic (Some rec) None None
          | NoFuel => mkServed NoFuel (Some rec) None None
          end
      | Err e, Some _ => mkServed (Err e) None None None
      | _, _ => mkServed Panic None None None
      end
  end.

End serve.

(** ** The HTTP store (httpstore.go) *)

Record HTTPStore := mkHTTP { baseURL : bytes; basePath : bytes; token : bytes }.

Definition DefaultSessionPath : bytes := str "/api/v1/data-studio/studio/native-sessions".
Definition slash : byte := Ascii.byte_of_ascii "/"%char.

Definition NewHTTPStore (base path tok : bytes) : HTTPStore :=
  let bp := TrimRight (TrimSpace path) slash in
  mkHTTP (TrimRight base slash) (if decide (bp = []) then DefaultSessionPath else bp) tok.

(** A POST: its URL, its authorization header when there is one, its body. *)
Record request := mkReq { q_url : bytes; q_auth : option bytes; q_body : bytes }.

Section http.
(** The HTTP client: the status and the body of the reply, or an error; and the JSON codec. *)
Context (Do : request -> go (Z * bytes)).
Context (marshal_record : SessionRecord -> go bytes) (marshal_result : SessionResult -> go bytes).
Context (decode_id : bytes -> go bytes).

(** The request, and the reply's body on a 2xx status. *)
Definition post (h : HTTPStore) (path : bytes) (payload : go bytes) : go (request * bytes) :=
  let? body := payload in
  let req := mkReq (baseURL h ++ path)
               (if decide (token h = []) then None else Some (str "Bearer " ++ token h)) body in
  let? (status, reply) := Do req in
  if (status <? 200) || (status >=? 300) then
    Err (EFmt "control plane %s -> %d: %s" [path; itoa status; TrimSpace (take 512 reply)])
  else Ok (req, reply).

Definition http_started (h : HTTPStore) (rec : SessionRecord) : go bytes :=
  let? (_, reply) := post h (basePath h) (marshal_record rec) in decode_id reply.

Definition http_ended (h : HTTPStore) (sessionID : bytes) (res : SessionResult) : go (option request) :=
  if decide (TrimSpace sessionID = []) then Ok None
  else
    let? (req, _) := post h (basePath h ++ [slash] ++ sessionID ++ str "/close") (marshal_result res) in
    Ok (Some req).

Definition HTTP_Store (h : HTTPStore) : Store :=
  mkStore (http_started h) (fun id res => let? _ := http_ended h id res in Ok tt).

End http.
