(* ===== verification/GatewayProps.v ===== *)
(** * What the gateway guarantees *)
From S2P Require Import Prelude Go GoStr GoIO ConnFacts Tunnel Gateway.
From S2P Require PgAuth PgAuthFacts MyWire MyWireFacts MyAuth.
Open Scope Z_scope.

(** ** The registry *)

(** The position of the last element that satisfies [p]. *)
Fixpoint last_from {A} (p : A -> bool) (i : nat) (l : list A) : option nat :=
  match l with
  | [] => None
  | x :: t => match last_from p (S i) t with
              | Some r => Some r
              | None => if p x then Some i else None
              end
  end.

Lemma last_from_snoc {A} (p : A -> bool) l x i :
  last_from p i (l ++ [x]) = (if p x then Some (i + length l)%nat else last_from p i l).
Proof.
  revert i. induction l as [|y l IH]; intros i; simpl.
  - rewrite Nat.add_0_r. by destruct (p x).
  - rewrite IH. destruct (p x); [|done]. f_equal. lia.
Qed.

Lemma last_from_lookup {A} (p : A -> bool) l i r :
  last_from p i l = Some r -> exists x, l !! (r - i)%nat = Some x /\ p x = true /\ (i <= r)%nat.
Proof.
  revert i. induction l as [|y l IH]; intros i; simpl; [done|].
  destruct (last_from p (S i) l) as [r'|] eqn:Hl.
  - intros [= ->]. apply IH in Hl as (x & Hx & Hp & Hr). exists x.
    replace (r - i)%nat with (S (r - S i)) by lia. split_and!; [done|done|lia].
  - destruct (p y) eqn:Hp; [|done]. intros [= ->]. rewrite Nat.sub_diag. by exists y.
Qed.

Definition serves (name : bytes) (ac : agentConn) : bool :=
  bool_decide (name ∈ map t_Name (ac_targets ac)).
Definition has_id (id : bytes) (ac : agentConn) : bool := bool_decide (ac_id ac = id).

Lemma register_targets (r : nat) (ts : list Target) (m : gmap bytes nat) n :
  foldl (fun m t => <[t_Name t := r]> m) m ts !! n =
  if bool_decide (n ∈ map t_Name ts) then Some r else m !! n.
Proof.
  revert m. induction ts as [|t ts IH]; intros m; [done|]. cbn [foldl map]. rewrite IH.
  case_bool_decide as H1; [by rewrite bool_decide_true by set_solver|].
  destruct (decide (t_Name t = n)) as [<-|Hne].
  - rewrite lookup_insert_eq, bool_decide_true by set_solver. done.
  - rewrite lookup_insert_ne, bool_decide_false by set_solver. done.
Qed.

Lemma delete_if_lookup (r : nat) (m : gmap bytes nat) (k n : bytes) :
  delete_if r m k !! n = if bool_decide (n = k /\ m !! n = Some r) then None else m !! n.
Proof.
  unfold delete_if. destruct (decide (m !! k = Some r)) as [H|H].
  - destruct (decide (k = n)) as [<-|Hne].
    + by rewrite lookup_delete_eq, bool_decide_true.
    + rewrite lookup_delete_ne, bool_decide_false by naive_solver. done.
  - rewrite bool_decide_false by naive_solver. done.
Qed.

Lemma deregister_targets (r : nat) (ts : list Target) (m : gmap bytes nat) n :
  foldl (fun m t => delete_if r m (t_Name t)) m ts !! n =
  if bool_decide (n ∈ map t_Name ts /\ m !! n = Some r) then None else m !! n.
Proof.
  revert m. induction ts as [|t ts IH]; intros m.
  { rewrite bool_decide_false by (simpl; set_solver). done. }
  cbn [foldl map]. rewrite IH, !delete_if_lookup.
  repeat case_bool_decide; try done; set_solver.
Qed.

(** A map that binds each key to the last holder of the key, as long as that one is being served. *)
Definition latest (p : bytes -> agentConn -> bool) (g : Gateway) (m : gmap bytes nat) : Prop :=
  forall n r, m !! n = Some r <-> last_from (p n) 0 (heap g) = Some r /\ is_Some (serving g !! r).

Record registry_ok (g : Gateway) : Prop := {
  ok_targets : latest serves g (targets g);
  ok_agents : latest has_id g (agents g);
  ok_serving r : is_Some (serving g !! r) -> (r < length (heap g))%nat;
}.

Lemma latest_register (p : bytes -> agentConn -> bool) g g' ac m m' :
  latest p g m -> (forall r, is_Some (serving g !! r) -> (r < length (heap g))%nat) ->
  heap g' = heap g ++ [ac] -> serving g' = <[length (heap g) := false]> (serving g) ->
  (forall n, m' !! n = if p n ac then Some (length (heap g)) else m !! n) -> latest p g' m'.
Proof.
  intros Hm Hs Hh Hsv Hm' n r. rewrite Hm', Hh, Hsv, last_from_snoc. simpl.
  destruct (p n ac).
  - split; [intros [= <-]|naive_solver]. split; [done|]. rewrite lookup_insert_eq. by eexists.
  - rewrite (Hm n r). split; intros [Hl Hr]; (split; [done|]).
    + pose proof (Hs r Hr). by rewrite lookup_insert_ne by lia.
    + apply last_from_lookup in Hl as (x & Hx & _). apply lookup_lt_Some in Hx.
      by rewrite lookup_insert_ne in Hr by lia.
Qed.

Lemma latest_return (p : bytes -> agentConn -> bool) g g' ac r m m' :
  latest p g m -> heap g !! r = Some ac -> heap g' = heap g -> serving g' = delete r (serving g) ->
  (forall n, m' !! n = if p n ac && bool_decide (m !! n = Some r) then None else m !! n) ->
  latest p g' m'.
Proof.
  intros Hm Hac Hh Hsv Hm' n r'. rewrite Hm', Hh, Hsv.
  destruct (decide (r' = r)) as [->|Hne].
  - rewrite lookup_delete_eq. split; [|naive_solver]. intros H.
    assert (m !! n = Some r) as Hn by (destruct (p n ac); simpl in H; [case_bool_decide|]; done).
    pose proof (proj1 (Hm n r) Hn) as [Hl _]. apply last_from_lookup in Hl as (x & Hx & Hp & _).
    rewrite Nat.sub_0_r in Hx. simplify_eq. rewrite Hp, bool_decide_true in H by done. done.
  - rewrite lookup_delete_ne by done. rewrite <- (Hm n r').
    destruct (p n ac); simpl; [|done]. case_bool_decide; [|done]. split; [done|naive_solver].
Qed.

Lemma ServeAgent_first_ok first g : registry_ok g -> registry_ok (snd (ServeAgent_first first g)).
Proof.
  intros [Ht Ha Hs]. unfold ServeAgent_first. destruct first as [reg| | |]; try done.
  destruct (refusal _ _) as [[ack e]|]; cbn [snd]; [done|]. split.
  - eapply (latest_register serves g); [done|done|done|done|]. intros n. cbn. apply register_targets.
  - eapply (latest_register has_id g); [done|done|done|done|]. intros n. cbn. unfold has_id.
    case_bool_decide as E.
    + rewrite <- E. apply lookup_insert_eq.
    + by rewrite lookup_insert_ne.
  - intros r. cbn. rewrite length_app. simpl. destruct (decide (length (heap g) = r)) as [<-|Hne]; [lia|].
    rewrite lookup_insert_ne by done. intros Hr. specialize (Hs r Hr). lia.
Qed.

Lemma ServeAgent_return_ok r g : registry_ok g -> registry_ok (ServeAgent_return r g).
Proof.
  intros [Ht Ha Hs]. unfold ServeAgent_return. destruct (heap g !! r) as [ac|] eqn:Hac; [|done]. split.
  - eapply (latest_return serves g); [done|done|done|done|]. intros n. cbn. rewrite deregister_targets.
    unfold serves. repeat case_bool_decide; simpl; naive_solver.
  - eapply (latest_return has_id g); [done|done|done|done|]. intros n. cbn. rewrite delete_if_lookup.
    unfold has_id. repeat case_bool_decide; simpl; naive_solver.
  - intros r'. cbn. destruct (decide (r = r')) as [<-|Hne].
    + rewrite lookup_delete_eq. by intros [? ?].
    + rewrite lookup_delete_ne by done. apply Hs.
Qed.

(** Only the references that are served matter to the registry, not how far each call is. *)
Lemma registry_ok_serving g v r :
  registry_ok g -> is_Some (serving g !! r) -> registry_ok (with_serving (<[r := v]> (serving g)) g).
Proof.
  intros [Ht Ha Hs] Hr.
  assert (Heq : forall r', is_Some (<[r := v]> (serving g) !! r') <-> is_Some (serving g !! r')).
  { intros r'. destruct (decide (r = r')) as [<-|]; [|by rewrite lookup_insert_ne].
    rewrite lookup_insert_eq. naive_solver. }
  split; [intros n r'|intros n r'|intros r']; cbn; rewrite Heq; auto.
Qed.

Lemma step_registry g ev : registry_ok g -> registry_ok (step g ev).
Proof.
  intros Hok. destruct ev as [first|r o]; [by apply ServeAgent_first_ok|].
  cbn [step]. unfold ServeAgent_next. destruct (serving g !! r) as [[]|] eqn:Hr; [| |done].
  - destruct (is_ok o); [done|]. by apply ServeAgent_return_ok.
  - assert (registry_ok (push_ack ack_ok g)) as Hok' by by destruct Hok.
    destruct (is_ok o); [|by apply ServeAgent_return_ok].
    apply (registry_ok_serving (push_ack ack_ok g)); [done|]. cbn. by rewrite Hr.
Qed.

Lemma run_registry token evs : registry_ok (run token evs).
Proof.
  unfold run. assert (registry_ok (New token)) as H0.
  { split; [intros n r|intros n r|intros r]; cbn; rewrite lookup_empty; split || idtac; naive_solver. }
  revert H0. generalize (New token). induction evs as [|ev evs IH]; intros g Hg; [done|].
  cbn [foldl]. by apply IH, step_registry.
Qed.

(** C17: whatever agents connect and leave in whatever order, a target name is bound to an agent
    connection exactly when that connection is the last one that ever registered the name and it is
    still being served; the same holds of agent ids. So the last registrant wins, a connection that
    ends never takes the binding of a later one with it, and no binding outlives its connection. *)
Theorem registry_last_wins (token : bytes) (evs : list event) (name : bytes) (r : nat) :
  let g := run token evs in
  (targets g !! name = Some r <->
   last_from (serves name) 0 (heap g) = Some r /\ is_Some (serving g !! r)) /\
  (agents g !! name = Some r <->
   last_from (has_id name) 0 (heap g) = Some r /\ is_Some (serving g !! r)) /\
  (lookup_target g name = Ok r <-> targets g !! name = Some r) /\
  (name ∈ Targets g <-> is_Some (targets g !! name)).
Proof.
  intros g. pose proof (run_registry token evs) as [Ht Ha _]. split_and!.
  - apply Ht.
  - apply Ha.
  - unfold lookup_target. by destruct (targets g !! name); split; intros [= ->].
  - unfold Targets. rewrite list_elem_of_fmap. split.
    + intros ([n v] & -> & Hin). apply elem_of_map_to_list in Hin. by exists v.
    + intros [v Hv]. exists (name, v). split; [done|]. by apply elem_of_map_to_list.
Qed.

(** ** Admission *)

(** The registrations the gateway accepts. *)
Definition acceptable (token : bytes) (reg : Control) : bool :=
  bool_decide (k_Kind reg = KindRegister) &&
  (bool_decide (token = []) || bool_decide (k_Token reg = token)) &&
  negb (bool_decide (k_AgentID reg = [])).

Definition admitted (token : bytes) (ev : event) : option agentConn :=
  match ev with
  | AgentFirst (Ok reg) => if acceptable token reg then Some (agent_of reg) else None
  | _ => None
  end.

Lemma refusal_spec token reg :
  (acceptable token reg = true /\ refusal token reg = None) \/
  (acceptable token reg = false /\ exists why e, refusal token reg = Some (ack_refused why, e)).
Proof.
  unfold acceptable, refusal.
  repeat case_decide; repeat case_bool_decide; simpl; naive_solver.
Qed.

Lemma return_heap r g : heap (ServeAgent_return r g) = heap g.
Proof. unfold ServeAgent_return. by destruct (heap g !! r). Qed.

Lemma step_heap g ev :
  heap (step g ev) = heap g ++ option_list (admitted (authToken g) ev) /\
  authToken (step g ev) = authToken g.
Proof.
  destruct ev as [[reg| | |]|r o]; simpl; rewrite ?app_nil_r; try done.
  - destruct (refusal_spec (authToken g) reg) as [[-> ->]|[-> (why & e & ->)]]; cbn; [done|].
    by rewrite app_nil_r.
  - unfold ServeAgent_next. destruct (serving g !! r) as [[]|]; [| |done]; destruct (is_ok o); try done;
      rewrite return_heap; (split; [done|]); unfold ServeAgent_return; by destruct (_ !! r).
Qed.

(** An agent is registered exactly when its first control message is a register with the
    gateway's token (when it has one) and a non-empty id: the connections ever registered are those
    of the acceptable registrations, in order. Any other first message is answered with a refusal
    and leaves the registry untouched. *)
Theorem agent_admission (token : bytes) (evs : list event) :
  heap (run token evs) = omap (admitted token) evs /\
  forall reg g, acceptable (authToken g) reg = false ->
    exists why e, ServeAgent_first (Ok reg) g = (Err e, push_ack (ack_refused why) g).
Proof.
  split.
  - unfold run.
    assert (forall g, heap (foldl step g evs) = heap g ++ omap (admitted (authToken g)) evs) as H;
      [|by rewrite H].
    induction evs as [|ev evs IH]; intros g; [by rewrite app_nil_r|]. cbn [foldl].
    destruct (step_heap g ev) as [Hh Ha]. rewrite IH, Hh, Ha, <- app_assoc. f_equal.
    simpl. by destruct (admitted (authToken g) ev).
  - intros reg g Hacc. unfold ServeAgent_first.
    destruct (refusal_spec (authToken g) reg) as [[? _]|[_ (why & e & ->)]]; [congruence|]. eauto.
Qed.

(** ** The sniffer *)

(** Feeding a sniffer the reads of a connection, one by one. *)
Fixpoint taps (chunks : list bytes) (s : loginUserSniffer) : go loginUserSniffer :=
  match chunks with
  | [] => Ok s
  | c :: rest => let? s' := tap c s in taps rest s'
  end.

(** When every prefix of a stream up to [pre] leaves the sniffer waiting and every longer one gives
    [u], the cut of the stream into reads does not matter. *)
Lemma taps_stream db pre rest u :
  (forall s, s `prefix_of` pre ++ rest ->
     sniff db s = Ok (if zlen s <? zlen pre then ([], false) else (u, true))) ->
  zlen pre <= sniffCap ->
  forall chunks b, b ++ concat chunks = pre ++ rest -> zlen b < zlen pre ->
  exists s', taps chunks (mkSniffer db b false []) = Ok s' /\ username s' = u.
Proof.
  intros Hs Hcap. induction chunks as [|c cs IH]; intros b Hb Hlt.
  { simpl in Hb. rewrite app_nil_r in Hb. rewrite Hb, zlen_app in Hlt. pose proof (zlen_nonneg rest). lia. }
  cbn [concat] in Hb. cbn [taps]. unfold tap, feed. cbn [done buf dbType].
  assert (Hpre : (b ++ c) `prefix_of` pre ++ rest).
  { exists (concat cs). by rewrite <- Hb, app_assoc. }
  rewrite (Hs _ Hpre). cbn [gbind]. destruct (zlen (b ++ c) <? zlen pre) eqn:E; cbn [gbind].
  - apply Z.ltb_lt in E. rewrite Z.geb_leb, (proj2 (Z.leb_gt _ _)) by lia. cbn [orb gbind].
    apply IH; [by rewrite <- app_assoc|done].
  - assert (forall l s0, done s0 = true -> taps l s0 = Ok s0) as Hdone.
    { intros l. induction l as [|x l IHl]; intros s0 Hd; [done|]. cbn [taps]. unfold tap. rewrite Hd.
      by apply IHl. }
    rewrite Hdone by done. by eexists.
Qed.

Lemma prefix_app_cases (s a b : bytes) :
  s `prefix_of` a ++ b ->
  (zlen s < zlen a /\ s `prefix_of` a) \/ exists t, s = a ++ t /\ t `prefix_of` b.
Proof.
  intros [k Hk]. apply app_eq_app in Hk as (l & [[-> ->]|[-> ->]]).
  - destruct l as [|x l].
    + right. exists []. rewrite !app_nil_r. split; [done|]. by exists b.
    + left. split; [rewrite zlen_app, zlen_cons; pose proof (zlen_nonneg l); lia|]. by exists (x :: l).
  - right. exists l. split; [done|]. by exists k.
Qed.

(** *** Postgres *)

(** A negotiation frame: an SSLRequest or a GSSENCRequest. *)
Definition nego (ssl : bool) : bytes :=
  be_bytes 4 8 ++ be_bytes 4 (if ssl then pgSSLRequestCode else pgGSSRequestCode).

Lemma zlen_nego ssl : zlen (nego ssl) = 8.
Proof. unfold nego. by rewrite zlen_app, !zlen_be_bytes. Qed.

Lemma zlen_startup body : zlen (PgAuth.startup_message body) = 8 + zlen body.
Proof. unfold PgAuth.startup_message. rewrite !zlen_app, !zlen_be_bytes. lia. Qed.

Lemma two_words a b t pre :
  0 <= a < 2 ^ 32 -> 0 <= b < 2 ^ 32 ->
  be_at 4 (pre ++ (be_bytes 4 a ++ be_bytes 4 b) ++ t) (zlen pre) = Ok a /\
  be_at 4 (pre ++ (be_bytes 4 a ++ be_bytes 4 b) ++ t) (zlen pre + 4) = Ok b.
Proof.
  intros Ha Hb. rewrite <- app_assoc. split.
  - rewrite be_at_app by (done || apply length_be_bytes). by rewrite be_val_be_bytes, Z.mod_small.
  - rewrite app_assoc.
    rewrite be_at_app by (apply length_be_bytes || by rewrite zlen_app, zlen_be_bytes).
    by rewrite be_val_be_bytes, Z.mod_small.
Qed.

Lemma sniff_frames_short fuel pre s :
  (0 < fuel)%nat -> zlen s < 8 -> sniff_frames fuel (pre ++ s) (zlen pre) = Ok ([], false).
Proof.
  intros Hf Hs. destruct fuel as [|k]; [lia|]. cbn [sniff_frames]. rewrite zlen_app.
  by rewrite (proj2 (Z.ltb_lt _ _)) by lia.
Qed.

Lemma sniff_startup fuel body rest pre s :
  8 + zlen body <= sniffCap -> (0 < fuel)%nat -> s `prefix_of` PgAuth.startup_message body ++ rest ->
  sniff_frames fuel (pre ++ s) (zlen pre) =
  Ok (if zlen s <? 8 + zlen body then ([], false) else (pgUserFromParams body, true)).
Proof.
  intros Hcap Hf Hs. pose proof (zlen_nonneg body) as Hb. change sniffCap with 16384 in *.
  destruct (Z_lt_dec (zlen s) 8) as [Hlt|Hge].
  { rewrite sniff_frames_short by done. by rewrite (proj2 (Z.ltb_lt _ _)) by lia. }
  unfold PgAuth.startup_message in Hs. rewrite <- !app_assoc in Hs. rewrite app_assoc in Hs.
  apply prefix_app_cases in Hs as [[Hl _]|(t & -> & Ht)].
  { rewrite zlen_app, !zlen_be_bytes in Hl. lia. }
  destruct fuel as [|k]; [lia|]. cbn [sniff_frames].
  destruct (two_words (8 + zlen body) PgAuth.startupProtocolV3 t pre ltac:(lia) ltac:(done)) as [-> ->].
  cbn [gbind]. rewrite !zlen_app, !zlen_be_bytes. pose proof (zlen_nonneg t).
  rewrite (proj2 (Z.ltb_ge (_ - _) 8)) by lia.
  change (PgAuth.startupProtocolV3 =? pgSSLRequestCode) with false.
  change (PgAuth.startupProtocolV3 =? pgGSSRequestCode) with false.
  change (PgAuth.startupProtocolV3 =? pgCancelRequestCode) with false. cbn [orb]. rewrite andb_false_r.
  rewrite Z.gtb_ltb, (proj2 (Z.ltb_ge _ 8)), (proj2 (Z.ltb_ge sniffCap _)) by (change sniffCap with 16384; lia).
  cbn [orb]. destruct (_ <? 8 + zlen body) eqn:E1 in |- * at 1; rename E1 into E1.
  - apply Z.ltb_lt in E1. by rewrite (proj2 (Z.ltb_lt _ _)) by lia.
  - apply Z.ltb_ge in E1. rewrite (proj2 (Z.ltb_ge _ _)) by lia.
    destruct (prefix_app_cases _ _ _ Ht) as [[Hl _]|(t' & -> & _)]; [lia|].
    rewrite app_assoc. rewrite slice_app_mid; [done|..]; rewrite !zlen_app, !zlen_be_bytes; lia.
Qed.

Lemma sniff_negotiated body rest frames : 8 + zlen body <= sniffCap -> forall fuel pre s,
  (length s < fuel)%nat ->
  s `prefix_of` concat (map nego frames) ++ PgAuth.startup_message body ++ rest ->
  sniff_frames fuel (pre ++ s) (zlen pre) =
  Ok (if zlen s <? zlen (concat (map nego frames)) + (8 + zlen body)
      then ([], false) else (pgUserFromParams body, true)).
Proof.
  intros Hcap. pose proof (zlen_nonneg body) as Hb.
  induction frames as [|ssl frames IH]; intros fuel pre s Hf Hs.
  { cbn [map concat app] in *. rewrite zlen_nil, Z.add_0_l. eapply sniff_startup; [done|lia|done]. }
  cbn [map concat] in *. rewrite <- app_assoc in Hs. rewrite zlen_app, zlen_nego.
  pose proof (zlen_nonneg (concat (map nego frames))) as Hn.
  destruct (prefix_app_cases _ _ _ Hs) as [[Hl _]|(t & -> & Ht)].
  { rewrite zlen_nego in Hl. rewrite sniff_frames_short by (done || lia).
    by rewrite (proj2 (Z.ltb_lt _ _)) by lia. }
  destruct fuel as [|k]; [lia|]. cbn [sniff_frames].
  destruct (two_words 8 (if ssl then pgSSLRequestCode else pgGSSRequestCode) t pre ltac:(lia)
              ltac:(by destruct ssl)) as [W1 W2]. fold (nego ssl) in W1, W2. rewrite W1, W2. cbn [gbind].
  rewrite !zlen_app, zlen_nego. pose proof (zlen_nonneg t).
  rewrite (proj2 (Z.ltb_ge (_ - _) 8)) by lia.
  assert ((8 =? 8) && (((if ssl then pgSSLRequestCode else pgGSSRequestCode) =? pgSSLRequestCode) ||
            ((if ssl then pgSSLRequestCode else pgGSSRequestCode) =? pgGSSRequestCode)) = true) as ->
    by by destruct ssl.
  rewrite app_assoc. replace (zlen pre + 8) with (zlen (pre ++ nego ssl)) by (by rewrite zlen_app, zlen_nego).
  assert (Hlt : (length t < k)%nat).
  { rewrite length_app in Hf. pose proof (zlen_nego ssl) as Hz. unfold zlen in Hz. lia. }
  rewrite (IH k _ t Hlt Ht). f_equal.
  assert ((zlen t <? zlen (concat (map nego frames)) + (8 + zlen body)) =
          (8 + zlen t <? 8 + zlen (concat (map nego frames)) + (8 + zlen body))) as ->; [|done].
  apply eq_bool_prop_intro. rewrite !Is_true_true, !Z.ltb_lt. lia.
Qed.

(** A list of parameters as a startup message carries it. *)
Definition params_body (ps : list (bytes * bytes)) : bytes :=
  concat (map (fun '(k, v) => PgAuth.startup_param k v) ps) ++ [b8 0].

Definition params_ok (ps : list (bytes * bytes)) : Prop :=
  Forall (fun '(k, v) => k <> [] /\ (b8 0 ∉ k) /\ (b8 0 ∉ v)) ps.

Definition strings_of (ps : list (bytes * bytes)) : list bytes :=
  concat (map (fun '(k, v) => [k; v]) ps).

Lemma split_from_app cur a t :
  (b8 0 ∉ a) -> split_from cur (a ++ b8 0 :: t) = (cur ++ a) :: split_from [] t.
Proof.
  revert cur. induction a as [|c a IH]; intros cur Hn; cbn [app split_from].
  - by rewrite decide_True, app_nil_r.
  - rewrite decide_False by set_solver. rewrite IH by set_solver. by rewrite <- app_assoc.
Qed.

Lemma params_body_cons k v ps :
  params_body ((k, v) :: ps) = k ++ b8 0 :: v ++ b8 0 :: params_body ps.
Proof.
  unfold params_body, PgAuth.startup_param. cbn [map concat]. by rewrite <- !app_assoc.
Qed.

Lemma params_strings ps :
  params_ok ps ->
  splitCStrings (params_body ps) = strings_of ps ++ [[]] /\
  Split (b8 0) (params_body ps) = strings_of ps ++ [[]; []].
Proof.
  induction 1 as [|[k v] ps (_ & Hk & Hv) Hps [IH1 IH2]].
  - split; [done|]. unfold params_body. cbn [map concat app Split]. by rewrite decide_True.
  - unfold strings_of. cbn [map concat]. rewrite params_body_cons. split.
    + unfold splitCStrings in *. rewrite !split_from_app by done. by rewrite IH1.
    + rewrite !Split_app by done. by rewrite IH2.
Qed.

(** The first and the last value of a key. *)
Fixpoint first_value (key : bytes) (ps : list (bytes * bytes)) : bytes :=
  match ps with
  | [] => []
  | (k, v) :: rest => if decide (k = key) then v else first_value key rest
  end.

Lemma first_user_spec ps : first_user (strings_of ps ++ [[]]) = first_value (str "user") ps.
Proof.
  induction ps as [|[k v] ps IH]; [done|]. unfold strings_of in *.
  cbn [map concat app first_user first_value]. by case_decide.
Qed.

Lemma params_of_spec ps m : params_ok ps ->
  PgAuth.params_of (strings_of ps ++ [[]; []]) m = foldl (fun m '(k, v) => <[k := v]> m) m ps.
Proof.
  intros Hps. revert m. induction Hps as [|[k v] ps (Hk & _) Hps IH]; intros m; [done|].
  unfold strings_of in *. cbn [map concat app PgAuth.params_of foldl]. rewrite decide_False by done. apply IH.
Qed.

Lemma foldl_insert_notin (ps : list (bytes * bytes)) (m : gmap bytes bytes) key :
  key ∉ map fst ps -> foldl (fun m '(k, v) => <[k := v]> m) m ps !! key = m !! key.
Proof.
  revert m. induction ps as [|[k v] ps IH]; intros m Hn; [done|]. cbn [foldl map fst] in *.
  rewrite IH by set_solver. apply lookup_insert_ne. set_solver.
Qed.

Lemma foldl_insert_first (ps : list (bytes * bytes)) (m : gmap bytes bytes) key :
  NoDup (map fst ps) -> m !! key = None ->
  default [] (foldl (fun m '(k, v) => <[k := v]> m) m ps !! key) = first_value key ps.
Proof.
  revert m. induction ps as [|[k v] ps IH]; intros m Hnd Hm; cbn [foldl map fst first_value] in *.
  - by rewrite Hm.
  - apply NoDup_cons in Hnd as [Hk Hnd]. case_decide as E.
    + subst k. rewrite foldl_insert_notin by done. by rewrite lookup_insert_eq.
    + apply IH; [done|]. by rewrite lookup_insert_ne.
Qed.

Lemma sniff_postgres_prefix frames body rest s :
  8 + zlen body <= sniffCap ->
  s `prefix_of` (concat (map nego frames) ++ PgAuth.startup_message body) ++ rest ->
  sniff (str "postgres") s =
  Ok (if zlen s <? zlen (concat (map nego frames) ++ PgAuth.startup_message body)
      then ([], false) else (pgUserFromParams body, true)).
Proof.
  intros Hcap Hs. rewrite <- app_assoc in Hs. unfold sniff. rewrite decide_True by (by left).
  unfold sniffPostgresUser. rewrite zlen_app, zlen_startup.
  apply (sniff_negotiated body rest frames Hcap _ [] s); [lia|done].
Qed.

(** However the network cuts a client's connection into reads, and whatever the client sends
    afterwards, the name the gateway records for a Postgres session is the "user" of the startup
    message, past any number of encryption requests: the very name the agent reads out of the same
    message (parameters listed once, within the sniffer's 16 KiB). *)
Theorem sniffer_postgres (frames : list bool) (ps : list (bytes * bytes)) (rest : bytes)
    (chunks : list bytes) (e : gerr)
    (Hps : params_ok ps) (Hnd : NoDup (map fst ps))
    (Hcap : zlen (concat (map nego frames)) + (8 + zlen (params_body ps)) <= sniffCap)
    (Hchunks : concat chunks =
       concat (map nego frames) ++ PgAuth.startup_message (params_body ps) ++ rest) :
  exists s params,
    taps chunks (mkSniffer (str "postgres") [] false []) = Ok s /\
    PgAuth.readStartupParams (mkRd (PgAuth.startup_message (params_body ps) ++ rest) e) =
      (Ok params, mkRd rest e) /\
    username s = default [] (params !! str "user").
Proof.
  pose proof (zlen_nonneg (concat (map nego frames))) as Hf.
  destruct (params_strings ps Hps) as [Hc Hsp].
  assert (Hlim : 8 + zlen (params_body ps) <= PgAuth.sniffStartupCap)
    by (change sniffCap with 16384 in Hcap; unfold PgAuth.sniffStartupCap; lia).
  destruct (taps_stream (str "postgres")
    (concat (map nego frames) ++ PgAuth.startup_message (params_body ps)) rest
    (pgUserFromParams (params_body ps))) with (chunks := chunks) (b := @nil byte) as (s & Hs & Hu).
  - intros s. apply sniff_postgres_prefix. lia.
  - rewrite zlen_app, zlen_startup. lia.
  - by rewrite <- app_assoc.
  - rewrite zlen_app, zlen_startup, zlen_nil. pose proof (zlen_nonneg (params_body ps)). lia.
  - exists s. eexists. split; [done|].
    rewrite PgAuthFacts.readStartupParams_app by done. split; [done|].
    rewrite Hu, Hsp, params_of_spec by done. rewrite foldl_insert_first by done.
    unfold pgUserFromParams. by rewrite Hc, first_user_spec.
Qed.

Lemma sniffer_postgres_witness :
  exists s, taps [take 5 (nego true); drop 5 (nego true) ++
                  PgAuth.startup_message (params_body [(str "user", str "bob")])]
              (mkSniffer (str "postgres") [] false []) = Ok s /\ username s = str "bob".
Proof.
  destruct (sniffer_postgres [true] [(str "user", str "bob")] []
    [take 5 (nego true); drop 5 (nego true) ++ PgAuth.startup_message (params_body [(str "user", str "bob")])]
    EEOF) as (s & params & Hs & Hp & Hu).
  - constructor; [|constructor]. split; [done|]. split; apply find_byte_None; by vm_compute.
  - apply NoDup_singleton.
  - by vm_compute.
  - by vm_compute.
  - exists s. split; [exact Hs|]. rewrite Hu.
    rewrite PgAuthFacts.readStartupParams_app in Hp by (vm_compute; discriminate).
    injection Hp as <-. vm_compute. reflexivity.
Defined.

(** With a repeated parameter the two readers disagree: the gateway records the first value, the
    agent logs in with the last. *)
Lemma sniffer_repeated_user :
  let body := params_body [(str "user", str "alice"); (str "user", str "bob")] in
  pgUserFromParams body = str "alice" /\
  PgAuth.params_of (Split (b8 0) body) ∅ !! str "user" = Some (str "bob").
Proof. split; vm_compute; reflexivity. Qed.

(** *** MySQL *)

Lemma packet_header seq payload :
  MyWire.packet seq payload = (le_bytes 3 (zlen payload) ++ [seq]) ++ payload.
Proof. unfold MyWire.packet. by rewrite <- app_assoc. Qed.

(** Below its header a packet that is too short to name a user is given up at once. *)
Definition mysql_span (seq : byte) (payload : bytes) : bytes :=
  if zlen payload <? 33 then le_bytes 3 (zlen payload) ++ [seq] else MyWire.packet seq payload.

Definition mysql_user (payload : bytes) : bytes :=
  if zlen payload <? 33 then []
  else match find_byte (b8 0) (drop 32 payload) with
       | Some i => take i (drop 32 payload)
       | None => []
       end.

Lemma sniff_mysql s : sniff (str "mysql") s = sniffMySQLUser s.
Proof.
  unfold sniff. destruct (decide _) as [H|_].
  - exfalso. destruct H as [H|H]; vm_compute in H; discriminate.
  - by rewrite decide_True by done.
Qed.

Lemma sniff_mysql_prefix seq payload rest caps s :
  zlen payload < 2 ^ 24 ->
  (33 <= zlen payload -> le_at 4 payload 0 = Ok caps /\ Z.land caps mysqlClientProtocol41 <> 0) ->
  s `prefix_of` MyWire.packet seq payload ++ rest ->
  sniff (str "mysql") s =
  Ok (if zlen s <? zlen (mysql_span seq payload) then ([], false) else (mysql_user payload, true)).
Proof.
  intros Hlen Hcaps Hs. pose proof (zlen_nonneg payload) as Hp0.
  rewrite sniff_mysql. unfold sniffMySQLUser. rewrite packet_header, <- app_assoc in Hs.
  assert (Hh : zlen (le_bytes 3 (zlen payload) ++ [seq]) = 4).
  { rewrite zlen_app, zlen_le_bytes. done. }
  assert (Hspan : zlen (mysql_span seq payload) = if zlen payload <? 33 then 4 else 4 + zlen payload).
  { unfold mysql_span. destruct (zlen payload <? 33); [done|]. by rewrite packet_header, zlen_app, Hh. }
  rewrite Hspan. destruct (prefix_app_cases _ _ _ Hs) as [[Hl _]|(t & -> & Ht)].
  { rewrite Hh in Hl. rewrite !(proj2 (Z.ltb_lt _ _)); [done| |lia]. destruct (zlen payload <? 33); lia. }
  pose proof (zlen_nonneg t) as Ht0.
  rewrite (zlen_app _ t), Hh, (proj2 (Z.ltb_ge _ 4)) by lia.
  rewrite <- app_assoc, le_at_head by apply length_le_bytes.
  rewrite le_val_le_bytes, Z.mod_small by lia. cbn [gbind]. rewrite app_assoc.
  unfold mysql_user. destruct (zlen payload <? 33) eqn:E33.
  { by rewrite (proj2 (Z.ltb_ge _ _)) by lia. }
  apply Z.ltb_ge in E33. destruct (4 + zlen t <? 4 + zlen payload) eqn:Et; [done|]. apply Z.ltb_ge in Et.
  destruct (prefix_app_cases _ _ _ Ht) as [[Hl _]|(t' & -> & _)]; [lia|].
  rewrite slice_app_mid by (by rewrite Hh). cbn [gbind].
  rewrite (proj2 (Z.ltb_ge (zlen payload) 32)) by lia.
  destruct (Hcaps E33) as [-> Hc]. cbn [gbind]. rewrite (proj2 (Z.eqb_neq _ _)) by done.
  rewrite slice_from_ok by lia. cbn [gbind]. change (Z.to_nat 32) with 32%nat.
  unfold IndexByte. destruct (find_byte (b8 0) (drop 32 payload)) as [i|] eqn:Hi; [|done].
  rewrite Z.geb_leb, (proj2 (Z.leb_le _ _)) by lia.
  apply find_byte_lt in Hi. rewrite slice_ok by (unfold zlen; lia). cbn [gbind].
  by rewrite Z.sub_0_r, Nat2Z.id.
Qed.

(** The agent's own parser finds the same name. *)
Lemma parse_mysql_user payload caps info :
  MyAuth.parseHandshakeResponse payload caps = Ok info -> MyAuth.hs_username info = mysql_user payload.
Proof.
  unfold MyAuth.parseHandshakeResponse, MyAuth.readNulString, mysql_user. change (32 <? 0) with false. cbn iota.
  change (Z.to_nat 32) with 32%nat.
  destruct (find_byte (b8 0) (drop 32 payload)) as [i|] eqn:Hi; cbn [gbind].
  - assert (zlen payload <? 33 = false) as ->.
    { apply Z.ltb_ge. apply find_byte_lt in Hi. rewrite length_drop in Hi. unfold zlen. lia. }
    intros (a & _ & Ha)%gbind_ok. destruct a as [off|]; [|by simplify_eq].
    destruct (MyAuth.has _ _); [|by simplify_eq].
    apply gbind_ok in Ha as (d & _ & Hd). destruct d as [[db ?]|]; by simplify_eq.
  - intros [= <-]. by destruct (_ <? _).
Qed.

(** The same for MySQL: for every handshake response (in one packet of a 4.1 client) that the
    agent's parser survives, the recorded name is the one that parser extracts, however the bytes
    are cut into reads and whatever follows them. *)
Theorem sniffer_mysql (seq : byte) (payload rest : bytes) (caps : Z) (info : MyAuth.clientHandshake)
    (chunks : list bytes)
    (Hlen : 4 + zlen payload <= sniffCap)
    (Hcaps : MyAuth.caps_of payload 0 = Ok caps)
    (H41 : MyAuth.has caps MyWire.capClientProtocol41 = true)
    (Hinfo : MyAuth.parseHandshakeResponse payload caps = Ok info)
    (Hchunks : concat chunks = MyWire.packet seq payload ++ rest) :
  exists s, taps chunks (mkSniffer (str "mysql") [] false []) = Ok s /\
            username s = MyAuth.hs_username info.
Proof.
  change sniffCap with 16384 in Hlen. pose proof (zlen_nonneg payload) as Hp0.
  assert (Hspan : exists tail, MyWire.packet seq payload = mysql_span seq payload ++ tail /\
            4 <= zlen (mysql_span seq payload) <= 4 + zlen payload).
  { unfold mysql_span. rewrite packet_header. destruct (zlen payload <? 33).
    - exists payload. rewrite zlen_app, zlen_le_bytes, zlen_cons, zlen_nil. split; [done|lia].
    - exists []. rewrite app_nil_r, !zlen_app, zlen_le_bytes, zlen_cons, zlen_nil. split; [done|lia]. }
  destruct Hspan as (tail & Hpk & Hs4 & Hs5).
  destruct (taps_stream (str "mysql") (mysql_span seq payload) (tail ++ rest) (mysql_user payload))
    with (chunks := chunks) (b := @nil byte) as (s & Hs & Hu).
  - intros s Hs. apply (sniff_mysql_prefix seq payload rest caps); [lia| |by rewrite Hpk, <- app_assoc].
    intros H33. unfold MyAuth.caps_of in Hcaps. rewrite (proj2 (Z.leb_le _ _)) in Hcaps by lia.
    split; [done|]. unfold MyAuth.has in H41. apply negb_true_iff, Z.eqb_neq in H41. done.
  - change sniffCap with 16384. lia.
  - by rewrite Hchunks, Hpk, <- app_assoc.
  - rewrite zlen_nil. lia.
  - exists s. split; [done|]. by rewrite Hu, <- (parse_mysql_user payload caps info).
Qed.

Lemma sniffer_mysql_witness :
  let payload := le_bytes 4 0x200 ++ replicate 28 (b8 0) ++ str "bob" ++ [b8 0; b8 0] in
  exists s, taps [take 9 (MyWire.packet (b8 1) payload); drop 9 (MyWire.packet (b8 1) payload) ++ str "more"]
              (mkSniffer (str "mysql") [] false []) = Ok s /\ username s = str "bob".
Proof.
  cbv zeta. set (payload := le_bytes 4 0x200 ++ replicate 28 (b8 0) ++ str "bob" ++ [b8 0; b8 0]).
  destruct (sniffer_mysql (b8 1) payload (str "more") 0x200
    (MyAuth.mkHandshake (str "bob") [] 0x200 (b8 0))
    [take 9 (MyWire.packet (b8 1) payload); drop 9 (MyWire.packet (b8 1) payload) ++ str "more"])
    as (s & Hs & Hu); [by vm_compute..|].
  exists s. split; [exact Hs|exact Hu].
Defined.

(** ** The relay of a client *)

Lemma be_at_total n p i : 0 <= i -> i + Z.of_nat n <= zlen p -> exists v, be_at n p i = Ok v.
Proof. intros. eexists. by apply be_at_ok. Qed.

Lemma sniff_frames_total fuel : forall buf off,
  0 <= off <= zlen buf -> (Z.to_nat (zlen buf - off) < fuel)%nat ->
  exists u d, sniff_frames fuel buf off = Ok (u, d).
Proof.
  induction fuel as [|k IH]; intros buf off Hoff Hf; [lia|]. cbn [sniff_frames].
  destruct (zlen buf - off <? 8) eqn:E; [eauto|]. apply Z.ltb_ge in E.
  destruct (be_at_total 4 buf off) as (l & Hl); [lia|lia|].
  destruct (be_at_total 4 buf (off + 4)) as (c & Hc); [lia|lia|].
  rewrite Hl, Hc. cbn [gbind]. destruct (_ && _); [apply IH; lia|].
  destruct (c =? _); [eauto|]. destruct (_ || _) eqn:El; [eauto|].
  apply orb_false_iff in El as [E8 _]. apply Z.ltb_ge in E8.
  destruct (zlen buf - off <? l) eqn:E2; [eauto|]. apply Z.ltb_ge in E2.
  rewrite slice_ok by lia. cbn [gbind]. eauto.
Qed.

Lemma sniffMySQLUser_total buf : exists u d, sniffMySQLUser buf = Ok (u, d).
Proof.
  unfold sniffMySQLUser. destruct (zlen buf <? 4) eqn:E4; [eauto|]. apply Z.ltb_ge in E4.
  rewrite le_at_ok by lia. cbn [gbind]. set (plen := le_val _).
  destruct (plen <? 33) eqn:E33; [eauto|]. apply Z.ltb_ge in E33.
  destruct (zlen buf <? 4 + plen) eqn:Ep; [eauto|]. apply Z.ltb_ge in Ep.
  destruct (slice buf 4 (4 + plen)) as [payload| | |] eqn:Hs;
    try (rewrite slice_ok in Hs by lia; done). cbn [gbind].
  destruct (zlen payload <? 32) eqn:E32; [eauto|]. apply Z.ltb_ge in E32.
  rewrite le_at_ok by lia. cbn [gbind]. destruct (_ =? 0); [eauto|].
  rewrite slice_from_ok by lia. cbn [gbind]. set (name := drop _ payload).
  destruct (_ >=? 0) eqn:Ee; [|eauto]. rewrite Z.geb_leb, Z.leb_le in Ee.
  pose proof (IndexByte_range name (b8 0)). rewrite slice_ok by lia. cbn [gbind]. eauto.
Qed.

Lemma tap_total c s : exists s', tap c s = Ok s'.
Proof.
  unfold tap. destruct (done s); [eauto|]. unfold feed.
  assert (exists u d, sniff (dbType s) (buf s ++ c) = Ok (u, d)) as (u & d & ->); [|cbn [gbind]; eauto].
  unfold sniff. case_decide; [|case_decide; [apply sniffMySQLUser_total|eauto]].
  apply sniff_frames_total; [pose proof (zlen_nonneg (buf s ++ c)); lia|unfold zlen; lia].
Qed.

(** The tap never disturbs the copy: the bytes, the count and the error are those of the plain copy. *)
Lemma copy_tapped_spec chunks e dst : wroom dst = None -> forall s n,
  exists s', taps chunks s = Ok s' /\
    copy_tapped chunks e s dst n =
    Ok (n + zlen (concat chunks), if decide (e = EEOF) then Ok tt else Err e,
        mkWr (wout dst ++ concat chunks) None, s').
Proof.
  revert dst. induction chunks as [|c cs IH]; intros dst Hw s n; cbn [taps copy_tapped concat].
  - exists s. rewrite zlen_nil, Z.add_0_r, app_nil_r. destruct dst; simpl in *; by subst.
  - destruct (tap_total c s) as [s1 ->]. cbn [gbind]. destruct dst as [o room]; simpl in Hw; subst room.
    rewrite Write_unbounded.
    destruct (IH (mkWr (o ++ c) None) eq_refl s1 (n + zlen c)) as (s' & Ht & Hc). exists s'. split; [done|].
    rewrite Hc. cbn [wout]. by rewrite zlen_app, <- app_assoc, Z.add_assoc.
Qed.

Lemma copy_tapped_total chunks : forall e dst s n, is_ok (copy_tapped chunks e s dst n) = true.
Proof.
  induction chunks as [|c cs IH]; intros e dst s n; cbn [copy_tapped]; [done|].
  destruct (tap_total c s) as [s1 ->]. cbn [gbind]. destruct (Write c dst) as [[]]; [apply IH|done..].
Qed.

Section served.
Context `{Unicode}.
Context (error_text : gerr -> bytes).

(** The outcome of a relay as the store is told it. *)
Definition status_of (o : go unit) : bytes * bytes :=
  match o with Err e => (str "cancelled", error_text e) | _ => (str "executed", []) end.

Lemma served_store g store name addr t0 t1 opened cf chunks cend wc rs ws :
  let v := ServeClient error_text g store name addr t0 t1 opened cf chunks cend wc rs ws in
  let v0 := ServeClient error_text g NoopStore name addr t0 t1 opened cf chunks cend wc rs ws in
  v_ret v = v_ret v0 /\ v_relay v = v_relay v0 /\ v_started v = v_started v0.
Proof.
  cbv zeta. unfold ServeClient. destruct (targets g !! name) as [r|]; [|done].
  destruct opened as [[]|e| |]; destruct (heap g !! r) as [ac|]; try done.
  destruct (relayCounted _ _ _ _ _ _ _); done.
Qed.

(** What the relay of a served client leaves on the two connections. *)
Lemma ServeClient_relayed (g : Gateway) (store : Store) (name addr : bytes) (t0 t1 : Z) (r : nat)
    (ac : agentConn) (client_first : bool) (chunks : list bytes) (cend : gerr) (co so : bytes) (rs : rd) :
  targets g !! name = Some r -> heap g !! r = Some ac ->
  let ret := quiet (if client_first then if decide (cend = EEOF) then Ok tt else Err cend
                    else if decide (rend rs = EEOF) then Ok tt else Err (rend rs)) in
  exists s, taps chunks (newLoginUserSniffer (s_DBType (session_record ac name addr t0))) = Ok s /\
    let rel := mkRelayed (zlen (concat chunks)) (zlen (rbuf rs)) ret
                 (mkWr (so ++ concat chunks) None) (mkWr (co ++ rbuf rs) None) s in
    let id := match SessionStarted store (session_record ac name addr t0) with Ok id => id | _ => [] end in
    ServeClient error_text g store name addr t0 t1 (Ok tt) client_first chunks cend (mkWr co None) rs (mkWr so None) =
    mkServed ret (Some (session_record ac name addr t0)) (Some (id, session_result error_text t1 rel)) (Some rel).
Proof.
  intros Hr Hac ret.
  destruct (copy_tapped_spec chunks cend (mkWr so None) eq_refl
    (newLoginUserSniffer (s_DBType (session_record ac name addr t0))) 0) as (s & Ht & Hc).
  exists s. split; [done|]. unfold ServeClient. rewrite Hr, Hac. unfold relayCounted.
  rewrite Hc. cbn [gbind]. unfold Copy. rewrite Write_unbounded. done.
Qed.


End served.

