(* ===== verification/Edge.v ===== *)
(** * The edge executor (internal/edge, internal/edge/awsexec)

    The tool-call envelope, the dispatch of a call, the read-only policy for AWS commands and the
    execution of one. Messages built by [fmt.Sprintf] keep their format and arguments, as errors do. *)
From S2P Require Import Prelude Go GoStr GoSort.
Open Scope Z_scope.

(** ** Values of a call (map[string]any) *)

(** A decoded JSON value; a number is [m * 2^e], an object is an association list without repeated
    keys, [JMsg] is a string kept as its format and arguments. *)
Inductive json :=
| JNull
| JBool (b : bool)
| JNum (m e : Z)
| JStr (s : bytes)
| JMsg (m : gerr)
| JArr (l : list json)
| JObj (o : list (bytes * json)).

Fixpoint field (key : bytes) (o : list (bytes * json)) : option json :=
  match o with
  | [] => None
  | (k, v) :: rest => if decide (k = key) then Some v else field key rest
  end.

(** [int(v)] of a float64: truncation towards zero. *)
Definition float_int (m e : Z) : Z := if e <? 0 then Z.quot m (2 ^ (- e)) else m * 2 ^ e.

(** ** The envelope (envelope.go) *)

Definition envelopeKey : bytes := str "__curlix_mcp_tool__".
Definition envelopeVersion : Z := 1.

Record ToolCall := mkCall { c_Name : bytes; Arguments : list (bytes * json) }.

Section envelope.
(** [json.Marshal] and [json.Unmarshal] on objects. *)
Context (marshal : list (bytes * json) -> go bytes).
Context (unmarshal : bytes -> option (list (bytes * json))).

Definition tool_payload (name : bytes) (arguments : list (bytes * json)) : list (bytes * json) :=
  [(envelopeKey, JNum envelopeVersion 0); (str "name", JStr name); (str "arguments", JObj arguments)].

Definition EncodeToolRequest (name : bytes) (arguments : option (list (bytes * json))) : go bytes :=
  marshal (tool_payload name (default [] arguments)).

Definition DecodeToolRequest (goal : bytes) : option ToolCall :=
  let text := TrimSpace goal in
  if bool_decide (text = []) || negb (HasPrefix text (str "{")) || negb (Contains text envelopeKey) then None
  else
    match unmarshal text with
    | None => None
    | Some obj =>
        match field envelopeKey obj with
        | Some (JNum m e) =>
            if negb (float_int m e =? envelopeVersion) then None
            else
              match field (str "name") obj with
              | Some (JStr name) =>
                  let name := TrimSpace name in
                  if decide (name = []) then None
                  else Some (mkCall name (match field (str "arguments") obj with
                                          | Some (JObj args) => args
                                          | _ => []
                                          end))
              | _ => None
              end
        | _ => None
        end
    end.

End envelope.

(** ** Dispatch (dispatch.go) *)

Abbreviation Result := (gmap bytes json).
(** A handler's answer: a result or nil, or an error. *)
Definition Handler : Type := list (bytes * json) -> go (option (gmap bytes json)).

Record Registry := mkRegistry { handlers : gmap bytes Handler }.

Definition NewRegistry : Registry := mkRegistry ∅.

(** [None] is the nil handler. *)
Definition Register (name : bytes) (h : option Handler) (r : Registry) : go Registry :=
  match h with
  | Some h => if decide (name = []) then Panic else Ok (mkRegistry (<[name := h]> (handlers r)))
  | None => Panic
  end.

Definition Names (r : Registry) : list bytes := sort_Strings (keys_of (map fst (map_to_list (handlers r)))).

Definition Has (name : bytes) (r : Registry) : bool := bool_decide (is_Some (handlers r !! name)).

Definition ErrorResult (tool : bytes) (msg : gerr) : Result :=
  <[str "ok" := JBool false]> (<[str "tool" := JStr tool]> (<[str "error" := JMsg msg]> ∅)).

(** [if _, present := res[k]; !present { res[k] = v }] *)
Definition set_default (k : bytes) (v : json) (res : Result) : Result :=
  match res !! k with Some _ => res | None => <[k := v]> res end.

Definition Dispatch (r : Registry) (call : ToolCall) : go Result :=
  match handlers r !! c_Name call with
  | None => Ok (ErrorResult (c_Name call) (EFmt "tool %q is not handled at the edge" [c_Name call]))
  | Some h =>
      match h (Arguments call) with
      | Ok res =>
          Ok (set_default (str "ok") (JBool true)
                (set_default (str "tool") (JStr (c_Name call)) (default ∅ res)))
      | Err e => Ok (ErrorResult (c_Name call) e)
      | Panic => Panic
      | NoFuel => NoFuel
      end
  end.

(** ** The read-only policy (policy.go) *)

Definition MaxCommandLen : Z := 1200.

Definition newline : bytes := [b8 10].
Definition carriage_return : bytes := [b8 13].
Definition forbiddenSubstrings : list bytes :=
  [str ";"; str "|"; str "&"; str "<"; str ">"; str "`"; str "$("; str "${"; str "\"; newline;
   carriage_return].

Definition valueFlags : list bytes := map str
  ["--region"; "--output"; "--profile"; "--endpoint-url"; "--query"; "--ca-bundle"; "--cli-read-timeout";
   "--cli-connect-timeout"; "--color"; "--page-size"; "--max-items"; "--starting-token";
   "--cli-input-json"; "--cli-input-yaml"]%string.

Definition readVerbPrefixes : list bytes := map str
  ["describe"; "list"; "get"; "lookup"; "search"; "batch-get"; "head"; "scan"; "query"]%string.

Definition sensitiveOperations : list bytes := map str
  ["get-secret-value"; "get-login-password"; "get-authorization-token"; "get-password-data";
   "get-session-token"; "get-federation-token"]%string.

Definition deniedFlags : list bytes := map str ["--profile"; "--endpoint-url"]%string.
Definition deniedArgTokens : list bytes := map str ["--with-decryption"]%string.

(** [m[k]] of a set. *)
Definition mem (m : list bytes) (k : bytes) : bool := bool_decide (k ∈ m).

(** *** Tokens *)

Definition single_quote : byte := b8 39.
Definition double_quote : byte := b8 34.
Definition space : byte := b8 32.
Definition tab : byte := b8 9.
Definition equals : byte := b8 61.

(** The loop of [shlexSplit]: the tokens so far, the current one, whether we are in one, the quote. *)
Fixpoint shlex (s : bytes) (tokens : list bytes) (cur : bytes) (inToken : bool) (quote : option byte)
    : go (list bytes) :=
  match s with
  | [] =>
      match quote with
      | Some _ => Err (EFmt "unbalanced quote" [])
      | None => Ok (if inToken then tokens ++ [cur] else tokens)
      end
  | c :: s' =>
      match quote with
      | Some q => if decide (c = q) then shlex s' tokens cur inToken None
                  else shlex s' tokens (cur ++ [c]) inToken quote
      | None =>
          if decide (c = single_quote \/ c = double_quote) then shlex s' tokens cur true (Some c)
          else if decide (c = space \/ c = tab) then
            (if inToken then shlex s' (tokens ++ [cur]) [] false None
             else shlex s' tokens cur false None)
          else shlex s' tokens (cur ++ [c]) true None
      end
  end.

Definition shlexSplit (s : bytes) : go (list bytes) := shlex s [] [] false None.

Definition SplitCommand (command : bytes) : go (list bytes) := shlexSplit (TrimSpace command).

(** *** The decision *)

Section policy.
Context `{Unicode}.

Definition isReadOperation (operation : bytes) : bool :=
  let op := ToLower operation in
  if mem sensitiveOperations op then false
  else existsb (fun prefix => bool_decide (op = prefix) || HasPrefix op (prefix ++ str "-"))
         readVerbPrefixes.

(** The positional arguments, at most [n], skipping option flags and their values. *)
Fixpoint bare_args (n : nat) (args : list bytes) (skipNext : bool) : list bytes :=
  match n, args with
  | O, _ | _, [] => []
  | S n', tok :: rest =>
      if skipNext then bare_args n rest false
      else if HasPrefix tok (str "-") then
        let name := match find_byte equals tok with Some i => take i tok | None => tok end in
        bare_args n rest (mem valueFlags name && negb (Contains tok [equals]))
      else tok :: bare_args n' rest false
  end.

Definition serviceAndOperation (args : list bytes) : bytes * bytes :=
  match bare_args 2 args false with
  | [] => ([], [])
  | [s] => (ToLower s, [])
  | s :: o :: _ => (ToLower s, ToLower o)
  end.

(** The reason to refuse an argument, if any. *)
Definition denied_arg (tok : bytes) : option gerr :=
  let low := ToLower tok in
  let eq := match find_byte equals low with Some i => mem deniedFlags (take i low) | None => false end in
  if mem deniedFlags low then Some (EFmt "flag not allowed: " [tok])
  else if eq then
    Some (EFmt "flag not allowed: " [match find_byte equals tok with Some i => take i tok | None => tok end])
  else if mem deniedArgTokens low then Some (EFmt "argument not allowed: " [tok])
  else None.

Fixpoint first_some {A B} (f : A -> option B) (l : list A) : option B :=
  match l with
  | [] => None
  | x :: t => match f x with Some b => Some b | None => first_some f t end
  end.

Definition forbidden (cmd bad : bytes) : option gerr :=
  if Contains cmd bad then
    Some (if decide (bad = newline \/ bad = carriage_return)
          then EFmt "shell metacharacter not allowed: newline" []
          else EFmt "shell metacharacter not allowed: %q" [bad])
  else None.

Definition reason_ok : gerr := EFmt "ok" [].

(** The last part of the decision: the service and the operation. *)
Definition check_operation (args : list bytes) : bool * gerr :=
  let '(service, operation) := serviceAndOperation args in
  if decide (service = []) then (false, EFmt "missing AWS service (e.g. ec2, rds, s3)" [])
  else if decide (operation = []) then (false, EFmt "missing AWS operation" [])
  else if decide (service = str "s3") then
    if decide (operation = str "ls") then (true, reason_ok)
    else (false, EFmt "'aws s3 %s' is not read-only (use 'aws s3 ls' or 's3api' read calls)" [operation])
  else if negb (isReadOperation operation) then
    (false, EFmt "operation '%s' is not on the read-only allowlist" [operation])
  else (true, reason_ok).

Definition ValidateReadOnlyAWSCommand (command : bytes) : bool * gerr :=
  let cmd := TrimSpace command in
  if decide (cmd = []) then (false, EFmt "empty command" [])
  else if zlen cmd >? MaxCommandLen then
    (false, EFmt "command exceeds %d characters" [itoa MaxCommandLen])
  else
    match first_some (forbidden cmd) forbiddenSubstrings with
    | Some e => (false, e)
    | None =>
        match shlexSplit cmd with
        | Err e => (false, EWrap "could not parse command: " e)
        | Ok (t0 :: args) =>
            if decide (t0 <> str "aws") then (false, EFmt "only 'aws' commands are permitted" [])
            else
              match first_some denied_arg args with
              | Some e => (false, e)
              | None => check_operation args
              end
        | _ => (false, EFmt "empty command" [])
        end
    end.

End policy.

(** ** The execution (awsexec) *)

Record Options := mkOptions {
  Region : bytes; AssumeRoleARN : bytes; ExternalID : bytes; AWSBinary : bytes;
  CLITimeout : Z; MaxStdout : Z; MaxStderr : Z; LogsPollEvery : Z; LogsMaxWait : Z; MaxRows : Z }.

Definition positive (n dflt : Z) : Z := if n <=? 0 then dflt else n.
Definition second : Z := 1000000000.

Definition withDefaults (o : Options) : Options :=
  mkOptions (Region o) (AssumeRoleARN o) (ExternalID o)
    (if decide (AWSBinary o = []) then str "aws" else AWSBinary o)
    (positive (CLITimeout o) (30 * second)) (positive (MaxStdout o) 6000) (positive (MaxStderr o) 2000)
    (positive (LogsPollEvery o) second) (positive (LogsMaxWait o) (30 * second)) (positive (MaxRows o) 60).

Definition clip (s : bytes) (max : Z) : bytes :=
  if (max <=? 0) || (zlen s <=? max) then s else take (Z.to_nat max) s.

Definition strArg (args : list (bytes * json)) (key : bytes) : bytes :=
  match field key args with Some (JStr s) => s | _ => [] end.

Definition credential_vars : list bytes := map str
  ["AWS_ACCESS_KEY_ID"; "AWS_SECRET_ACCESS_KEY"; "AWS_SESSION_TOKEN"; "AWS_PROFILE";
   "AWS_DEFAULT_PROFILE"]%string.

(** The name of a [KEY=value] entry. *)
Definition env_key (kv : bytes) : bytes :=
  match find_byte equals kv with Some i => take i kv | None => kv end.

Definition scrubAWSEnv (env : list bytes) : list bytes :=
  List.filter (fun kv => negb (mem credential_vars (env_key kv))) env.

Record Credentials := mkCredentials { AccessKeyID : bytes; SecretAccessKey : bytes; SessionToken : bytes }.

(** How the process ended: an exit status or another error, and whether its time ran out. *)
Record process := mkProcess {
  exit : option (Z + gerr); timed_out : bool; p_stdout : bytes; p_stderr : bytes }.

Section exec.
Context `{Unicode}.
(** The host environment, the temporary credentials of the assumed role, and what running the
    program with its arguments and environment does. *)
Context (Environ : list bytes) (Retrieve : go Credentials).
Context (Run : bytes -> list bytes -> list bytes -> process).

Definition cliEnv (o : Options) (region : bytes) : go (list bytes) :=
  let base := scrubAWSEnv Environ in
  let base := if decide (region = []) then base
              else base ++ [str "AWS_DEFAULT_REGION=" ++ region; str "AWS_REGION=" ++ region] in
  if decide (AssumeRoleARN o = []) then Ok base
  else
    let? creds := Retrieve in
    let base := base ++ [str "AWS_ACCESS_KEY_ID=" ++ AccessKeyID creds;
                         str "AWS_SECRET_ACCESS_KEY=" ++ SecretAccessKey creds] in
    Ok (if decide (SessionToken creds = []) then base
        else base ++ [str "AWS_SESSION_TOKEN=" ++ SessionToken creds]).

Definition tool : bytes := str "aws_readonly_cli".

Definition refused (command : bytes) (why : gerr) : Result :=
  <[str "ok" := JBool false]> (<[str "tool" := JStr tool]>
    (<[str "command" := JStr (clip command 500)]> (<[str "error" := JMsg why]> ∅))).

Definition executed (o : Options) (command region : bytes) (code : Z) (p : process) : Result :=
  <[str "ok" := JBool ((code =? 0) && negb (timed_out p))]> (<[str "tool" := JStr tool]>
    (<[str "command" := JStr (clip command 500)]> (<[str "aws_region" := JStr region]>
      (<[str "exit_code" := JNum code 0]> (<[str "timed_out" := JBool (timed_out p)]>
        (<[str "stdout" := JStr (clip (p_stdout p) (MaxStdout o))]>
          (<[str "stderr" := JStr (clip (p_stderr p) (MaxStderr o))]>
            (<[str "note" := JStr (str "Read-only AWS CLI executed at the edge.")]> ∅)))))))).

(** The result, and the process started, if any: its binary, arguments and environment. *)
Definition RunReadOnlyCLI (opts : Options) (args : list (bytes * json))
    : Result * option (bytes * list bytes * list bytes) :=
  let o := withDefaults opts in
  let command := strArg args (str "command") in
  let region := strArg args (str "aws_region") in
  let region := if decide (region = []) then Region o else region in
  match ValidateReadOnlyAWSCommand command with
  | (false, reason) =>
      (refused command (EWrap "Command rejected by read-only policy: " reason), None)
  | (true, _) =>
      match SplitCommand command with
      | Ok (t0 :: a0 :: rest) =>
          if decide (t0 <> str "aws") then (refused command (EFmt "could not parse command" []), None)
          else
            match cliEnv o region with
            | Ok env =>
                let argv := a0 :: rest in
                let p := Run (AWSBinary o) argv env in
                (match exit p with
                 | None => executed o command region 0 p
                 | Some (inl code) => executed o command region code p
                 | Some (inr e) =>
                     if timed_out p then executed o command region 0 p
                     else refused command (EWrap "execution failed: " e)
                 end, Some (AWSBinary o, argv, env))
            | Err e => (refused command (EWrap "credential resolution failed: " e), None)
            | _ => (refused command (EFmt "could not parse command" []), None)
            end
      | _ => (refused command (EFmt "could not parse command" []), None)
      end
  end.

End exec.
