(* ===== verification/EdgeProps.v ===== *)
(** * What the edge executor guarantees *)
From S2P Require Import Prelude Go GoStr GoSort Edge.
Open Scope Z_scope.

(** ** Tokens *)

Definition blank (s : bytes) : Prop := Forall (fun c => c = space \/ c = tab) s.

(** How a token is written: bare, or between quotes of one kind that it does not contain. *)
Inductive word : bytes -> bytes -> Prop :=
| word_plain t :
    t <> [] -> Forall (fun c => c <> single_quote /\ c <> double_quote /\ c <> space /\ c <> tab) t ->
    word t t
| word_quoted q t :
    q = single_quote \/ q = double_quote -> (q ∉ t) -> word ([q] ++ t ++ [q]) t.

Lemma shlex_blank sep s tokens :
  blank sep -> shlex (sep ++ s) tokens [] false None = shlex s tokens [] false None.
Proof.
  induction 1 as [|c sep Hc Hsep IH]; [done|]. cbn [app shlex].
  rewrite decide_False by (intros [->| ->]; destruct Hc as [Hc|Hc]; by vm_compute in Hc).
  by rewrite decide_True.
Qed.

Lemma shlex_sep c sep s tokens cur :
  blank (c :: sep) -> shlex ((c :: sep) ++ s) tokens cur true None = shlex s (tokens ++ [cur]) [] false None.
Proof.
  intros Hb. inversion Hb as [|? ? Hc Hsep]; subst. cbn [app shlex].
  rewrite decide_False by (intros [->| ->]; destruct Hc as [Hc|Hc]; by vm_compute in Hc).
  rewrite decide_True by done. by apply shlex_blank.
Qed.

Lemma shlex_plain t s tokens cur b :
  Forall (fun c => c <> single_quote /\ c <> double_quote /\ c <> space /\ c <> tab) t ->
  shlex (t ++ s) tokens cur b None = shlex s tokens (cur ++ t) (match t with [] => b | _ => true end) None.
Proof.
  intros Ht. revert cur b. induction Ht as [|c t (H1 & H2 & H3 & H4) Ht IH]; intros cur b.
  - by rewrite app_nil_r.
  - cbn [app shlex]. rewrite !decide_False by naive_solver. rewrite IH, <- app_assoc. by destruct t.
Qed.

Lemma shlex_inside q t s tokens cur b :
  (q ∉ t) -> shlex (t ++ q :: s) tokens cur b (Some q) = shlex s tokens (cur ++ t) b None.
Proof.
  revert cur. induction t as [|c t IH]; intros cur Hq; cbn [app shlex].
  - by rewrite decide_True, app_nil_r.
  - rewrite decide_False by set_solver. rewrite IH by set_solver. by rewrite <- app_assoc.
Qed.

Lemma shlex_word txt t s tokens :
  word txt t -> shlex (txt ++ s) tokens [] false None = shlex s tokens t true None.
Proof.
  intros [t' Hne Ht|q t' Hq Ht].
  - rewrite shlex_plain by done. by destruct t'.
  - cbn [app shlex]. rewrite decide_True by done. rewrite <- app_assoc.
    change ([q] ++ s) with (q :: s). by rewrite shlex_inside.
Qed.

(** A command line: each token behind a run of blanks. *)
Definition line (ws : list (bytes * bytes * bytes)) : bytes :=
  concat (map (fun '(sep, txt, _) => sep ++ txt) ws).
Definition words_ok (ws : list (bytes * bytes * bytes)) : Prop :=
  Forall (fun '(sep, txt, t) => sep <> [] /\ blank sep /\ word txt t) ws.

Lemma shlex_line ws : words_ok ws -> forall tokens cur trail, blank trail ->
  shlex (line ws ++ trail) tokens cur true None = Ok (tokens ++ cur :: map snd ws).
Proof.
  induction 1 as [|[[sep txt] t] ws (Hne & Hsep & Hw) Hws IH]; intros tokens cur trail Htr.
  - unfold line. cbn [map concat app]. destruct trail as [|c trail]; [done|].
    rewrite <- (app_nil_r (c :: trail)), shlex_sep by done. done.
  - unfold line. cbn [map concat]. rewrite <- !app_assoc. destruct sep as [|c sep]; [done|].
    rewrite shlex_sep, (shlex_word _ t) by done.
    rewrite (IH _ _ trail) by done. rewrite <- app_assoc. done.
Qed.

Lemma shlex_returns s : forall tokens cur b q, returns (shlex s tokens cur b q).
Proof.
  induction s as [|c s IH]; intros tokens cur b q; cbn [shlex]; [by destruct q|].
  destruct q as [q|]; [case_decide; apply IH|]. case_decide; [apply IH|].
  case_decide; [destruct b|]; apply IH.
Qed.

(** The tokenizer inverts quoting: a command line written with its first token in front, the
    others after blanks, each bare or between quotes, splits into exactly those tokens; and on any
    input it returns tokens or the unbalanced-quote error. *)
Theorem shlexSplit_words (txt t trail : bytes) (ws : list (bytes * bytes * bytes))
    (Hw : word txt t) (Hws : words_ok ws) (Htr : blank trail) :
  shlexSplit (txt ++ line ws ++ trail) = Ok (t :: map snd ws) /\ forall s, returns (shlexSplit s).
Proof.
  split; [|intros s; apply shlex_returns].
  unfold shlexSplit. rewrite (shlex_word txt t) by done. by rewrite shlex_line.
Qed.

Lemma shlexSplit_words_witness :
  shlexSplit (str "aws" ++ line [([space], str "ec2", str "ec2"); ([space; tab], str "'a b'", str "a b")]) =
  Ok [str "aws"; str "ec2"; str "a b"].
Proof.
  pose proof (shlexSplit_words (str "aws") (str "aws") []
    [([space], str "ec2", str "ec2"); ([space; tab], str "'a b'", str "a b")]) as H.
  rewrite app_nil_r in H. apply H; clear H.
  - apply word_plain; [done|]. repeat constructor; by vm_compute.
  - constructor; [|constructor; [|constructor]]; (split; [done|split]).
    + repeat constructor.
    + apply word_plain; [done|]. repeat constructor; by vm_compute.
    + constructor; [by left|constructor; [by right|constructor]].
    + change (str "'a b'") with ([single_quote] ++ str "a b" ++ [single_quote]).
      apply word_quoted; [by left|]. apply find_byte_None. by vm_compute.
  - constructor.
Defined.

(** ** The policy *)

Section policy.
Context `{Unicode}.

(** What the policy goes by, spelled out: the bytes that make a command line more than one invocation, the
    global options that take a value, the verbs that read, the operations that hand out a credential, the
    options that select other credentials or another endpoint. *)
Definition metacharacters : list bytes :=
  [[b8 59]; [b8 124]; [b8 38]; [b8 60]; [b8 62]; [b8 96]; [b8 36; b8 40]; [b8 36; b8 123]; [b8 92]; [b8 10]; [b8 13]].
Definition value_options : list bytes := map str
  ["--region"; "--output"; "--profile"; "--endpoint-url"; "--query"; "--ca-bundle"; "--cli-read-timeout";
   "--cli-connect-timeout"; "--color"; "--page-size"; "--max-items"; "--starting-token";
   "--cli-input-json"; "--cli-input-yaml"]%string.
Definition read_verbs : list bytes := map str
  ["describe"; "list"; "get"; "lookup"; "search"; "batch-get"; "head"; "scan"; "query"]%string.
Definition credential_operations : list bytes := map str
  ["get-secret-value"; "get-login-password"; "get-authorization-token"; "get-password-data";
   "get-session-token"; "get-federation-token"]%string.
Definition credential_options : list bytes := map str ["--profile"; "--endpoint-url"]%string.

Lemma policy_lists :
  forbiddenSubstrings = metacharacters /\ valueFlags = value_options /\ readVerbPrefixes = read_verbs /\
  sensitiveOperations = credential_operations /\ deniedFlags = credential_options /\
  deniedArgTokens = [str "--with-decryption"] /\ MaxCommandLen = 1200.
Proof. repeat split; reflexivity. Qed.

(** The positional arguments of an invocation, and everything else an option or its value. *)
Definition option_name (tok : bytes) : bytes :=
  match find_byte equals tok with Some i => take i tok | None => tok end.
Definition takes_value (tok : bytes) : Prop := option_name tok ∈ value_options /\ (equals ∉ tok).

Inductive positional : list bytes -> list bytes -> Prop :=
| pos_nil : positional [] []
| pos_last f : HasPrefix f (str "-") = true -> takes_value f -> positional [f] []
| pos_value f v args p :
    HasPrefix f (str "-") = true -> takes_value f -> positional args p -> positional (f :: v :: args) p
| pos_flag f args p :
    HasPrefix f (str "-") = true -> ~ takes_value f -> positional args p -> positional (f :: args) p
| pos_arg a args p : HasPrefix a (str "-") = false -> positional args p -> positional (a :: args) (a :: p).

Lemma Contains_byte s b : Contains s [b] = true <-> b ∈ s.
Proof.
  rewrite Contains_spec. split; [intros (a & t & ->); set_solver|apply list_elem_of_split].
Qed.

Lemma takes_value_bool tok :
  mem valueFlags (match find_byte equals tok with Some i => take i tok | None => tok end) &&
  negb (Contains tok [equals]) = true <-> takes_value tok.
Proof.
  unfold takes_value, mem, option_name. destruct policy_lists as (_ & <- & _).
  rewrite andb_true_iff, negb_true_iff, bool_decide_eq_true, <- not_true_iff_false, Contains_byte. done.
Qed.

Lemma bare_args_positional args p : positional args p -> forall n, bare_args n args false = take n p.
Proof.
  induction 1 as [|f Hf Hv|f v args p Hf Hv Hp IH|f args p Hf Hv Hp IH|a args p Ha Hp IH]; intros [|n];
    cbn [bare_args take]; try done.
  - by rewrite Hf.
  - rewrite Hf. apply takes_value_bool in Hv. rewrite Hv. apply (IH (S n)).
  - rewrite Hf. destruct (_ && _) eqn:E; [by apply takes_value_bool in E|]. apply (IH (S n)).
  - rewrite Ha. by rewrite (IH n).
Qed.

Lemma positional_total args : exists p, positional args p.
Proof.
  induction args as [args IH] using (induction_ltof1 _ (@length bytes)). unfold ltof in IH.
  destruct args as [|a args]; [eexists; constructor|].
  destruct (HasPrefix a (str "-")) eqn:Ha.
  - destruct (mem valueFlags (match find_byte equals a with Some i => take i a | None => a end) &&
              negb (Contains a [equals])) eqn:E.
    + apply takes_value_bool in E. destruct args as [|v args]; [exists []; by constructor|].
      destruct (IH args) as [p Hp]; [simpl; lia|]. exists p. by constructor.
    + assert (~ takes_value a) by (intros T; apply takes_value_bool in T; congruence).
      destruct (IH args) as [p Hp]; [simpl; lia|]. exists p. by constructor.
  - destruct (IH args) as [p Hp]; [simpl; lia|]. exists (a :: p). by constructor.
Qed.

(** An operation whose name starts with a read verb and that does not hand out a credential. *)
Definition reads (op : bytes) : Prop :=
  (op ∉ credential_operations) /\ exists verb, verb ∈ read_verbs /\ (op = verb \/ exists t, op = verb ++ str "-" ++ t).

(** An argument that neither selects other credentials or another endpoint, with or without a value, nor
    is the plain decryption switch. *)
Definition harmless (tok : bytes) : Prop :=
  (ToLower tok ∉ credential_options) /\ ToLower tok <> str "--with-decryption" /\
  forall f v, ToLower tok = f ++ equals :: v -> f ∉ credential_options.

(** The service and the operation: [s3] only lists, any other service only reads. *)
Definition reads_only (args : list bytes) : Prop :=
  exists service op others,
    positional args (service :: op :: others) /\ ToLower service <> [] /\ ToLower op <> [] /\
    if decide (ToLower service = str "s3") then ToLower op = str "ls"
    else reads (ToLower (ToLower op)).

(** A read-only invocation of the AWS CLI, with the arguments it is run with. *)
Record read_only (cmd : bytes) (args : list bytes) : Prop := {
  ro_length : zlen cmd <= 1200;
  ro_single bad : bad ∈ metacharacters -> ~ exists a t, cmd = a ++ bad ++ t;
  ro_argv : shlexSplit cmd = Ok (str "aws" :: args);
  ro_args tok : tok ∈ args -> harmless tok;
  ro_op : reads_only args;
}.

Lemma isReadOperation_reads op : isReadOperation op = true <-> reads (ToLower op).
Proof.
  unfold isReadOperation, reads, mem. destruct policy_lists as (_ & _ & <- & <- & _). case_bool_decide as Hs; [naive_solver|].
  rewrite existsb_exists. setoid_rewrite <- list_elem_of_In.
  setoid_rewrite orb_true_iff. setoid_rewrite bool_decide_eq_true. setoid_rewrite HasPrefix_spec.
  split.
  - intros (v & Hv & Hop). split; [done|]. exists v. split; [done|].
    destruct Hop as [->|[t ->]]; [by left|]. right. exists t. by rewrite <- app_assoc.
  - intros (_ & v & Hv & Hop). exists v. split; [done|]. destruct Hop as [->|[t ->]]; [by left|].
    right. exists t. by rewrite <- app_assoc.
Qed.

Lemma check_operation_spec args : fst (check_operation args) = true <-> reads_only args.
Proof.
  destruct (positional_total args) as [p Hp].
  unfold check_operation, serviceAndOperation, reads_only. rewrite (bare_args_positional _ _ Hp).
  assert (Huniq : forall q, positional args q -> take 2 q = take 2 p).
  { intros q Hq. by rewrite <- (bare_args_positional _ _ Hp), <- (bare_args_positional _ _ Hq). }
  destruct p as [|s [|o others]]; cbn [take].
  - split; [by rewrite decide_True|]. intros (s & o & w & Hq & _). by apply Huniq in Hq.
  - split; [|intros (s' & o & w & Hq & _); by apply Huniq in Hq].
    destruct (decide (ToLower s = [])); [done|]. by rewrite decide_True.
  - transitivity (ToLower s <> [] /\ ToLower o <> [] /\
                  if decide (ToLower s = str "s3") then ToLower o = str "ls"
                  else reads (ToLower (ToLower o))); cycle 1.
    { split; [by exists s, o, others|]. intros (s' & o' & w & Hq & Hr).
      apply Huniq in Hq. cbn [take] in Hq. by injection Hq as -> ->. }
    destruct (decide (ToLower s = [])); [naive_solver|].
    destruct (decide (ToLower o = [])); [naive_solver|].
    destruct (decide (ToLower s = str "s3")); [destruct (decide (ToLower o = str "ls")); naive_solver|].
    rewrite <- isReadOperation_reads. destruct (isReadOperation (ToLower o)); naive_solver.
Qed.

Lemma first_some_none {A B} (f : A -> option B) l :
  first_some f l = None <-> forall x, x ∈ l -> f x = None.
Proof.
  induction l as [|x l IH]; cbn [first_some]; [split; [set_solver|done]|].
  destruct (f x) eqn:E; [split; [done|]; intros Hx; rewrite Hx in E by set_solver; done|].
  rewrite IH. split; [|set_solver]. intros Hl y [->|Hy]%elem_of_cons; auto.
Qed.

Lemma denied_flag_no_equals f : f ∈ deniedFlags -> equals ∉ f.
Proof.
  intros Hf. assert (Forall (fun f => find_byte equals f = None) deniedFlags) as Hall.
  { repeat constructor. }
  rewrite Forall_forall in Hall. apply find_byte_None. by apply Hall.
Qed.

Lemma denied_arg_harmless tok : denied_arg tok = None <-> harmless tok.
Proof.
  unfold denied_arg, harmless, mem. destruct policy_lists as (_ & _ & _ & _ & <- & -> & _).
  rewrite <- (list_elem_of_singleton (ToLower tok) (str "--with-decryption")).
  case_bool_decide as Hf; [naive_solver|].
  assert (Heq : (match find_byte equals (ToLower tok) with
                 | Some i => bool_decide (take i (ToLower tok) ∈ deniedFlags) | None => false end) = false <->
                (forall f v, ToLower tok = f ++ equals :: v -> f ∉ deniedFlags)).
  { destruct (find_byte equals (ToLower tok)) as [i|] eqn:Hi.
    - destruct (find_byte_Some _ _ _ Hi) as [Hsplit Hn]. rewrite bool_decide_eq_false. split.
      + intros Hno f v Hfv Hin. apply Hno.
        assert (find_byte equals (ToLower tok) = Some (length f)) as Hi'.
        { rewrite Hfv. apply find_byte_app. by apply denied_flag_no_equals. }
        rewrite Hi in Hi'. simplify_eq. by rewrite Hfv, take_app_length.
      + intros Hall. by apply (Hall _ _ Hsplit).
    - apply find_byte_None in Hi. split; [|done]. intros _ f v Hfv. exfalso. apply Hi. rewrite Hfv. set_solver. }
  destruct (match find_byte equals (ToLower tok) with Some i => _ | None => false end) eqn:E.
  - split; [done|]. intros (_ & _ & Hall). apply Heq in Hall. congruence.
  - case_bool_decide; [naive_solver|]. rewrite <- Heq. done.
Qed.

Lemma policy_accepts (command : bytes) :
  fst (ValidateReadOnlyAWSCommand command) = true <-> exists args, read_only (TrimSpace command) args.
Proof.
  unfold ValidateReadOnlyAWSCommand. set (cmd := TrimSpace command).
  destruct (decide (cmd = [])) as [E|Hne].
  { rewrite E. split; [done|]. by intros [args [_ _ Hargv _ _]]. }
  rewrite Z.gtb_ltb. destruct (MaxCommandLen <? zlen cmd) eqn:Hl.
  { apply Z.ltb_lt in Hl. split; [done|]. intros [args [? _ _ _ _]]. unfold MaxCommandLen in Hl. lia. }
  apply Z.ltb_ge in Hl. destruct policy_lists as (Hmeta & _). rewrite Hmeta.
  assert (Hsub : first_some (forbidden cmd) metacharacters = None <->
                 forall bad, bad ∈ metacharacters -> ~ exists a t, cmd = a ++ bad ++ t).
  { rewrite first_some_none. unfold forbidden. split; intros Hx bad Hb.
    - specialize (Hx bad Hb). rewrite <- Contains_spec. by destruct (Contains cmd bad).
    - specialize (Hx bad Hb). rewrite <- Contains_spec in Hx. by destruct (Contains cmd bad). }
  destruct (first_some (forbidden cmd) _) as [e|].
  { split; [done|]. intros [args [_ Hs _ _ _]]. by apply Hsub in Hs. }
  destruct (shlexSplit cmd) as [[|t0 args]|e| |] eqn:Hsp;
    try (split; [done|]; intros [args' [_ _ Ha _ _]]; congruence).
  destruct (decide (t0 <> str "aws")) as [Ht|Ht].
  { split; [done|]. intros [args' [_ _ Ha _ _]]. congruence. }
  apply dec_stable in Ht. subst t0.
  assert (Harg : first_some denied_arg args = None <-> forall tok, tok ∈ args -> harmless tok).
  { rewrite first_some_none. by setoid_rewrite denied_arg_harmless. }
  destruct (first_some denied_arg args) as [e|].
  { split; [done|]. intros [args' [_ _ Ha Hh _]]. rewrite Hsp in Ha. injection Ha as <-. by apply Harg in Hh. }
  rewrite check_operation_spec. split.
  - intros Ho. exists args. split; [done|by apply Hsub|done|by apply Harg|done].
  - intros [args' [_ _ Ha _ Ho]]. rewrite Hsp in Ha. by injection Ha as <-.
Qed.


End policy.

(** Decryption asked for in the JSON input of an operation passes the policy. *)
Lemma policy_decrypts :
  fst (ValidateReadOnlyAWSCommand (H := {| lower_runes := id |})
         (str "aws ssm get-parameter --cli-input-json '{" ++ double_quote :: str "Name" ++ double_quote :: str ":" ++
          double_quote :: str "p" ++ double_quote :: str "," ++ double_quote :: str "WithDecryption" ++
          double_quote :: str ":true}'")) = true.
Proof. vm_compute. reflexivity. Qed.


(** ** The execution *)

Section exec.
Context `{Unicode}.
Context (Environ : list bytes) (Retrieve : go Credentials).
Context (Run : bytes -> list bytes -> list bytes -> process).

(** The variables that name or hold a credential of the host. *)
Definition secret_names : list bytes := map str
  ["AWS_ACCESS_KEY_ID"; "AWS_SECRET_ACCESS_KEY"; "AWS_SESSION_TOKEN"; "AWS_PROFILE"; "AWS_DEFAULT_PROFILE"]%string.

Definition names_secret (kv : bytes) : bool :=
  existsb (fun name => bool_decide (kv = name) || HasPrefix kv (name ++ [equals])) secret_names.

(** An entry of an environment, and those of a role's temporary credentials. *)
Definition entry (name : string) (v : bytes) : bytes := str name ++ equals :: v.

Definition role_entries (c : Credentials) : list bytes :=
  [entry "AWS_ACCESS_KEY_ID" (AccessKeyID c); entry "AWS_SECRET_ACCESS_KEY" (SecretAccessKey c)] ++
  (if decide (SessionToken c = []) then [] else [entry "AWS_SESSION_TOKEN" (SessionToken c)]).

Lemma env_key_is kv name : (equals ∉ name) -> env_key kv = name <-> kv = name \/ HasPrefix kv (name ++ [equals]) = true.
Proof.
  intros Hn. unfold env_key. rewrite HasPrefix_spec. destruct (find_byte equals kv) as [i|] eqn:Hi.
  - destruct (find_byte_Some _ _ _ Hi) as [Hsplit _]. split.
    + intros <-. right. exists (drop (S i) kv). by rewrite <- app_assoc.
    + intros [->|[v Hv]].
      * exfalso. apply Hn. rewrite Hsplit. set_solver.
      * rewrite <- app_assoc in Hv. cbn [app] in Hv. rewrite Hv in Hi |- *.
        rewrite find_byte_app in Hi by done. injection Hi as <-. by rewrite take_app_length.
  - apply find_byte_None in Hi. split; [by left|]. intros [?|[v ->]]; [done|]. exfalso. apply Hi. set_solver.
Qed.

Lemma scrubAWSEnv_filter env : scrubAWSEnv env = List.filter (fun kv => negb (names_secret kv)) env.
Proof.
  unfold scrubAWSEnv. apply filter_ext. intros kv. f_equal. apply eq_true_iff_eq.
  unfold mem, names_secret. rewrite bool_decide_eq_true, existsb_exists.
  change credential_vars with secret_names. setoid_rewrite <- list_elem_of_In.
  setoid_rewrite orb_true_iff. setoid_rewrite bool_decide_eq_true. split.
  - intros Hin. exists (env_key kv). split; [done|]. apply env_key_is; [|done].
    apply find_byte_None. assert (Forall (fun n => find_byte equals n = None) secret_names) as Hall by repeat constructor.
    rewrite Forall_forall in Hall. by apply Hall.
  - intros (name & Hin & Hname). apply env_key_is in Hname as <-; [done|].
    apply find_byte_None. assert (Forall (fun n => find_byte equals n = None) secret_names) as Hall by repeat constructor.
    rewrite Forall_forall in Hall. by apply Hall.
Qed.

Lemma clip_take s n : 0 < n -> clip s n = take (Z.to_nat n) s.
Proof.
  intros Hn. unfold clip. rewrite (proj2 (Z.leb_gt _ _)) by done. cbn [orb].
  destruct (Z.leb_spec (zlen s) n); [|done]. symmetry. apply take_ge. unfold zlen in *. lia.
Qed.

(** The exit code a result reports: an error that is no exit status counts as 0 when the time ran out. *)
Definition exit_code (p : process) : Z := match exit p with Some (inl code) => code | _ => 0 end.

(** What the result says of a process that ran. *)
Record reports_process (opts : Options) (p : process) (res : Result) : Prop := {
  rp_ok : res !! str "ok" = Some (JBool ((exit_code p =? 0) && negb (timed_out p)));
  rp_code : res !! str "exit_code" = Some (JNum (exit_code p) 0);
  rp_timed_out : res !! str "timed_out" = Some (JBool (timed_out p));
  rp_stdout : res !! str "stdout" =
    Some (JStr (take (Z.to_nat (if MaxStdout opts <=? 0 then 6000 else MaxStdout opts)) (p_stdout p)));
  rp_stderr : res !! str "stderr" =
    Some (JStr (take (Z.to_nat (if MaxStderr opts <=? 0 then 2000 else MaxStderr opts)) (p_stderr p)));
}.

(** What became of a call: no process was started, because the policy rejects the command or the role's
    credentials cannot be had, and the result says so; or one was, for the command that was checked, in
    the scrubbed environment, and the result reports how it ended. *)
Definition cli_outcome (opts : Options) (args : list (bytes * json)) (res : Result)
    (started : option (bytes * list bytes * list bytes)) : Prop :=
  let command := strArg args (str "command") in
  let region := if decide (strArg args (str "aws_region") = []) then Region opts else strArg args (str "aws_region") in
  let accepted := exists argv, read_only (TrimSpace command) argv in
  let role := AssumeRoleARN opts <> [] in
  match started with
  | None =>
      res !! str "ok" = Some (JBool false) /\ is_Some (res !! str "error") /\
      (~ accepted \/ accepted /\ role /\ is_ok Retrieve = false)
  | Some (bin, argv, env) =>
      read_only (TrimSpace command) argv /\
      bin = (if decide (AWSBinary opts = []) then str "aws" else AWSBinary opts) /\
      (exists temporary,
         env = List.filter (fun kv => negb (names_secret kv)) Environ ++
               (if decide (region = []) then []
                else [entry "AWS_DEFAULT_REGION" region; entry "AWS_REGION" region]) ++ temporary /\
         (AssumeRoleARN opts = [] -> temporary = []) /\
         (role -> exists creds, Retrieve = Ok creds /\ temporary = role_entries creds)) /\
      match exit (Run bin argv env), timed_out (Run bin argv env) with
      | Some (inr _), false => res !! str "ok" = Some (JBool false) /\ is_Some (res !! str "error")
      | _, _ => reports_process opts (Run bin argv env) res
      end
  end.

Lemma refused_fields command why :
  refused command why !! str "ok" = Some (JBool false) /\ is_Some (refused command why !! str "error").
Proof.
  unfold refused. split; [apply lookup_insert_eq|].
  rewrite !lookup_insert_ne by done. rewrite lookup_insert_eq. eauto.
Qed.

Lemma executed_reports opts command region code p :
  exit_code p = code -> reports_process opts p (executed (withDefaults opts) command region code p).
Proof.
  intros <-. unfold executed, withDefaults. cbn [MaxStdout MaxStderr]. rewrite !clip_take.
  - split; repeat first [apply lookup_insert_eq|rewrite lookup_insert_ne by done].
  - unfold positive. destruct (Z.leb_spec (MaxStderr opts) 0); lia.
  - unfold positive. destruct (Z.leb_spec (MaxStdout opts) 0); lia.
  - lia.
Qed.

Lemma cliEnv_spec opts region :
  match cliEnv Environ Retrieve (withDefaults opts) region with
  | Ok env => exists temporary,
      env = List.filter (fun kv => negb (names_secret kv)) Environ ++
            (if decide (region = []) then []
             else [entry "AWS_DEFAULT_REGION" region; entry "AWS_REGION" region]) ++ temporary /\
      (AssumeRoleARN opts = [] -> temporary = []) /\
      (AssumeRoleARN opts <> [] -> exists creds, Retrieve = Ok creds /\ temporary = role_entries creds)
  | _ => AssumeRoleARN opts <> [] /\ is_ok Retrieve = false
  end.
Proof.
  unfold cliEnv. rewrite scrubAWSEnv_filter. cbn [AssumeRoleARN withDefaults].
  set (host := List.filter _ Environ). destruct (decide (AssumeRoleARN opts = [])) as [Ha|Ha].
  { exists []. rewrite app_nil_r. split; [|by split]. destruct (decide (region = [])); [by rewrite app_nil_r|done]. }
  destruct Retrieve as [creds|e| |]; cbn [gbind is_ok]; [|done..]. exists (role_entries creds).
  split; [|by split; [|by exists creds]]. unfold role_entries.
  destruct (decide (region = [])), (decide (SessionToken creds = [])); by rewrite <- ?app_assoc, ?app_nil_r.
Qed.

(** The execution of the theorem below. *)
Lemma cli_confined (opts : Options) (args : list (bytes * json)) :
  let '(res, started) := RunReadOnlyCLI Environ Retrieve Run opts args in cli_outcome opts args res started.
Proof.
  destruct (RunReadOnlyCLI _ _ _ _ _) as [res started] eqn:Hrun. unfold RunReadOnlyCLI in Hrun.
  unfold cli_outcome. set (command := strArg args (str "command")) in *. cbn [Region withDefaults] in Hrun.
  set (region := if decide _ then _ else _) in *. pose proof (refused_fields command) as Hrf.
  pose proof (policy_accepts command) as Hpol.
  destruct (ValidateReadOnlyAWSCommand command) as [[] reason]; cbn [fst] in Hpol.
  2: { injection Hrun as <- <-. split_and!; [apply Hrf..|]. left. intros Hacc. by apply Hpol in Hacc. }
  destruct (proj1 Hpol eq_refl) as [argv0 Hro].
  unfold SplitCommand in Hrun. rewrite (ro_argv _ _ Hro) in Hrun.
  destruct argv0 as [|a0 rest]; [by destruct (ro_op _ _ Hro) as (s & o & w & Hp & _); inversion Hp|].
  rewrite decide_False in Hrun by auto. pose proof (cliEnv_spec opts region) as Henv.
  destruct (cliEnv _ _ _ _) as [env|e| |];
    [|injection Hrun as <- <-; split_and!; [apply Hrf..|]; right; split; [by eexists|done]..].
  injection Hrun as Hres <-. split_and!; [done|done|done|].
  change (AWSBinary (withDefaults opts)) with (if decide (AWSBinary opts = []) then str "aws" else AWSBinary opts) in *.
  set (p := Run _ _ _) in *. destruct (exit p) as [[code|e]|] eqn:He; [|destruct (timed_out p) eqn:Et|]; subst res;
    try (apply executed_reports; unfold exit_code; by rewrite He).
  apply Hrf.
Qed.


End exec.

(** ** Dispatch *)

(** Every dispatched call is answered: with the handler's own fields plus the tool and ok when it
    leaves them out, and with ok = false and the reason when the tool is unknown or fails. *)
Theorem Dispatch_answers (r : Registry) (call : ToolCall)
    (Hret : forall h, handlers r !! c_Name call = Some h -> returns (h (Arguments call))) :
  exists res, Dispatch r call = Ok res /\
    is_Some (res !! str "tool") /\ is_Some (res !! str "ok") /\
    match handlers r !! c_Name call with
    | None => res !! str "ok" = Some (JBool false) /\ res !! str "tool" = Some (JStr (c_Name call))
    | Some h =>
        match h (Arguments call) with
        | Ok own =>
            (forall k v, default ∅ own !! k = Some v -> res !! k = Some v) /\
            (default ∅ own !! str "tool" = None -> res !! str "tool" = Some (JStr (c_Name call))) /\
            (default ∅ own !! str "ok" = None -> res !! str "ok" = Some (JBool true))
        | Err e => res !! str "ok" = Some (JBool false) /\ res !! str "error" = Some (JMsg e)
        | _ => False
        end
    end.
Proof.
  assert (Hne : str "ok" <> str "tool" /\ str "ok" <> str "error" /\ str "tool" <> str "error") by done.
  destruct Hne as (N1 & N2 & N3). unfold Dispatch.
  assert (HE : forall t m, ErrorResult t m !! str "ok" = Some (JBool false) /\
            ErrorResult t m !! str "tool" = Some (JStr t) /\ ErrorResult t m !! str "error" = Some (JMsg m)).
  { intros t m. unfold ErrorResult. split_and!; [apply lookup_insert_eq|..].
    - rewrite lookup_insert_ne by done. apply lookup_insert_eq.
    - rewrite lookup_insert_ne by done. rewrite lookup_insert_ne by done. apply lookup_insert_eq. }
  destruct (handlers r !! c_Name call) as [h|]; cycle 1.
  { eexists. split; [done|]. destruct (HE (c_Name call) (EFmt "tool %q is not handled at the edge" [c_Name call]))
      as (H1 & H2 & _). rewrite H1, H2. eauto. }
  specialize (Hret h eq_refl). destruct (h (Arguments call)) as [own|e| |]; [|..]; try done; cycle 1.
  { eexists. split; [done|]. destruct (HE (c_Name call) e) as (H1 & H2 & H3). rewrite H1, H2. eauto. }
  eexists. split; [done|]. set (m := default ∅ own).
  assert (Hsd : forall k v (x : Result) k',
    set_default k v x !! k' = match x !! k' with Some w => Some w
                              | None => if decide (k = k') then Some v else None end).
  { intros k v x k'. unfold set_default. destruct (x !! k) eqn:E.
    - destruct (decide (k = k')) as [<-|]; [by rewrite E|]. by destruct (x !! k').
    - destruct (decide (k = k')) as [<-|]; [by rewrite E, lookup_insert_eq|].
      rewrite lookup_insert_ne by done. by destruct (x !! k'). }
  split_and!; rewrite ?Hsd.
  - destruct (m !! str "tool"); [eauto|]. rewrite decide_True by done. eauto.
  - destruct (m !! str "ok"); [eauto|]. rewrite (decide_False (P := str "tool" = str "ok")) by done.
    rewrite decide_True by done. eauto.
  - intros k v Hk. by rewrite !Hsd, Hk.
  - intros ->. by rewrite decide_True.
  - intros ->. rewrite decide_False by done. by rewrite decide_True.
Qed.

Lemma Dispatch_answers_witness :
  exists res, Dispatch (mkRegistry {[str "t" := fun _ => Ok None]}) (mkCall (str "t") []) = Ok res /\
              is_Some (res !! str "ok").
Proof.
  destruct (Dispatch_answers (mkRegistry {[str "t" := fun _ => Ok None]}) (mkCall (str "t") []))
    as (res & Hres & _ & Hok & _).
  - intros h Hh. cbn [handlers c_Name] in Hh. rewrite lookup_singleton_eq in Hh. injection Hh as <-. exact I.
  - exists res. split; [exact Hres|exact Hok].
Defined.

(** ** The envelope *)

Section envelope.
Context (marshal : list (bytes * json) -> go bytes) (unmarshal : bytes -> option (list (bytes * json))).

(** What the control plane encodes is what the edge decodes: for a name without surrounding
    space, over a JSON codec that reads back what it writes, as an object between braces, keys
    included. Conversely the edge only ever decodes a call with a non-empty name out of an object
    that carries the sentinel. *)
Theorem envelope_roundtrip (name text : bytes) (arguments : list (bytes * json))
    (Hname : TrimSpace name = name) (Hne : name <> [])
    (Hmar : marshal (tool_payload name arguments) = Ok text)
    (Hun : unmarshal text = Some (tool_payload name arguments))
    (Htrim : TrimSpace text = text)
    (Hbrace : HasPrefix text (str "{") = true) (Hkey : Contains text envelopeKey = true) :
  EncodeToolRequest marshal name (Some arguments) = Ok text /\
  DecodeToolRequest unmarshal text = Some (mkCall name arguments) /\
  forall goal call, DecodeToolRequest unmarshal goal = Some call ->
    c_Name call <> [] /\ exists obj m e, unmarshal (TrimSpace goal) = Some obj /\
      field envelopeKey obj = Some (JNum m e) /\ float_int m e = envelopeVersion.
Proof.
  split; [done|]. split.
  - unfold DecodeToolRequest. rewrite Htrim, Hbrace, Hkey, Hun.
    rewrite bool_decide_false by (intros ->; by vm_compute in Hbrace). cbn [orb negb].
    change (field envelopeKey (tool_payload name arguments)) with (Some (JNum envelopeVersion 0)).
    change (field (str "name") (tool_payload name arguments)) with (Some (JStr name)).
    change (field (str "arguments") (tool_payload name arguments)) with (Some (JObj arguments)).
    change (float_int envelopeVersion 0 =? envelopeVersion) with true. cbn [negb].
    by rewrite Hname, decide_False by done.
  - intros goal call. unfold DecodeToolRequest. cbv zeta.
    destruct (_ || _); [done|]. destruct (unmarshal (TrimSpace goal)) as [obj|]; [|done].
    destruct (field envelopeKey obj) as [v|] eqn:Hf; [|done].
    destruct v as [| |m e| | | |]; try discriminate.
    destruct (negb (float_int m e =? envelopeVersion)) eqn:Hv; [done|].
    apply negb_false_iff, Z.eqb_eq in Hv.
    destruct (field (str "name") obj) as [v|]; [|done]. destruct v as [| | |n| | |]; try discriminate.
    case_decide; [done|]. intros [= <-]. split; [done|]. eauto 10.
Qed.

End envelope.

Lemma envelope_roundtrip_witness :
  let text := str "{" ++ envelopeKey ++ str "}" in
  DecodeToolRequest (fun _ => Some (tool_payload (str "t") [])) text = Some (mkCall (str "t") []).
Proof.
  cbv zeta. set (text := str "{" ++ envelopeKey ++ str "}").
  destruct (envelope_roundtrip (fun _ => Ok text) (fun _ => Some (tool_payload (str "t") []))
    (str "t") text []) as (_ & Hd & _).
  - vm_compute. reflexivity.
  - vm_compute. discriminate.
  - reflexivity.
  - reflexivity.
  - vm_compute. reflexivity.
  - vm_compute. reflexivity.
  - vm_compute. reflexivity.
  - exact Hd.
Defined.

(** The version is compared after truncation: 3/2 passes for 1. *)
Lemma envelope_truncates text args :
  TrimSpace text = text -> HasPrefix text (str "{") = true -> Contains text envelopeKey = true ->
  DecodeToolRequest
    (fun _ => Some [(envelopeKey, JNum 3 (-1)); (str "name", JStr (str "t")); (str "arguments", JObj args)])
    text = Some (mkCall (str "t") args).
Proof.
  intros Htrim Hb Hk. unfold DecodeToolRequest. rewrite Htrim, Hb, Hk.
  rewrite bool_decide_false by (intros ->; by vm_compute in Hb). by vm_compute.
Qed.

(** The names of a registry: its tools, sorted, each once. *)
Lemma Names_spec r :
  increasing (Names r) /\ forall name, name ∈ Names r <-> Has name r = true.
Proof.
  unfold Names. split; [apply sort_keys_spec|]. intros name. rewrite (proj2 (sort_keys_spec _)).
  unfold Has. rewrite bool_decide_eq_true. rewrite list_elem_of_fmap. split.
  - intros ([k h] & -> & Hin). apply elem_of_map_to_list in Hin. simpl. by exists h.
  - intros [h Hh]. exists (name, h). split; [done|]. by apply elem_of_map_to_list.
Qed.
