(* ===== verification/Ecs.v ===== *)
(** * The live state of an ECS service (internal/edge/awsexec/ecs_snapshot.go)

    The counts, deployments, recent events, recently stopped tasks and load-balancer dimensions of a
    service, from the answers of the ECS and ELBv2 clients. A nil pointer is [None]. *)
From S2P Require Import Prelude Go GoStr GoSort Edge.
Open Scope Z_scope.

(** ** What the SDK returns (the fields that are read) *)

Record Deployment := mkDeployment {
  d_Status : option bytes; RolloutState : bytes; d_DesiredCount : Z; d_RunningCount : Z;
  d_PendingCount : Z; FailedTasks : Z }.
Record ServiceEvent := mkServiceEvent { CreatedAt : option Z; e_Message : option bytes }.
Record Service := mkService {
  s_Status : option bytes; s_RunningCount : Z; s_DesiredCount : Z; s_PendingCount : Z;
  s_Deployments : list Deployment; s_Events : list ServiceEvent;
  TargetGroupArns : list (option bytes) (* of its load balancers *) }.
Record Container := mkContainer { k_Name : option bytes; ExitCode : option Z; k_Reason : option bytes }.
Record Task := mkTask {
  TaskArn : option bytes; Containers : list Container; StoppedAt : option Z;
  StoppedReason : option bytes; StopCode : bytes }.

Record ListTasksInput := mkListTasks {
  lt_Cluster : bytes; lt_ServiceName : bytes; lt_DesiredStatus : bytes; lt_MaxResults : Z }.

(** [aws.ToString] *)
Definition ToString (s : option bytes) : bytes := default [] s.

Definition isoTime (t : option Z) : bytes := match t with Some ns => RFC3339 ns | None => [] end.

Definition toStr (v : option json) : bytes := match v with Some (JStr s) => s | _ => [] end.

Definition sortedUnique (l : list bytes) : list bytes := sort_Strings (keys_of l).

(** ** Load balancers *)

Definition marker : bytes := str ":loadbalancer/".

Definition albDimensionFromARN (lbARN : bytes) : bytes :=
  let a := TrimSpace lbARN in
  match Index a marker with
  | None => []
  | Some idx =>
      let dim := TrimSpace (drop (idx + length marker) a) in
      if HasPrefix dim (str "app/") then dim else []
  end.

(** The slices of ten of the loop over [tgArns]. *)
Fixpoint batches (fuel : nat) (l : list bytes) : list (list bytes) :=
  match fuel, l with
  | S fuel, _ :: _ => take 10 l :: batches fuel (drop 10 l)
  | _, _ => []
  end.

Section snapshot.
Context (DescribeServices : bytes -> bytes -> go (option (list Service))).
Context (DescribeTargetGroups : list bytes -> go (option (list (list bytes)))).
Context (ListTasks : ListTasksInput -> go (option (list bytes))).
Context (DescribeTasks : bytes -> list bytes -> go (option (list Task))).

(** The target groups of a service, without repetition. *)
Definition tgArns (s : Service) : list bytes :=
  sortedUnique
    (List.filter (fun a => negb (bool_decide (a = []))) (map (fun a => TrimSpace (ToString a)) (TargetGroupArns s))).

(** The dimensions one batch of target groups adds to [dimSet]. *)
Definition batch_dims (batch : list bytes) : list bytes :=
  match DescribeTargetGroups batch with
  | Ok (Some groups) =>
      List.filter (fun dim => negb (bool_decide (dim = []))) (map albDimensionFromARN (concat groups))
  | _ => []
  end.

Definition albDimensionsFromService (s : Service) : list bytes :=
  let arns := tgArns s in
  sort_Strings (keys_of (concat (map batch_dims (batches (length arns) arns)))).

(** ** Stopped tasks *)

Definition container_row (c : Container) : json :=
  JObj [(str "name", JStr (ToString (k_Name c)));
        (str "exit_code", match ExitCode c with Some n => JNum n 0 | None => JNull end);
        (str "reason", JStr (clip (ToString (k_Reason c)) 2000))].

(** What follows the last slash. *)
Definition task_id (arn : bytes) : bytes :=
  let i := LastIndexByte arn (b8 47) in if 0 <=? i then drop (Z.to_nat (i + 1)) arn else arn.

Definition task_row (t : Task) : list (bytes * json) :=
  [(str "task_id", JStr (clip (task_id (ToString (TaskArn t))) 128));
   (str "stopped_at", JStr (isoTime (StoppedAt t)));
   (str "stopped_reason", JStr (clip (ToString (StoppedReason t)) 2000));
   (str "stop_code", JStr (clip (StopCode t) 128));
   (str "containers", JArr (map container_row (Containers t)))].

Definition later (a b : list (bytes * json)) : bool :=
  string_lt (toStr (field (str "stopped_at") b)) (toStr (field (str "stopped_at") a)).

Definition recentStoppedTasks (cluster service : bytes) : list (list (bytes * json)) :=
  match ListTasks (mkListTasks cluster service (str "STOPPED") 8) with
  | Ok (Some arns) =>
      if decide (arns = []) then []
      else
        match DescribeTasks cluster (if decide (10 < length arns)%nat then take 10 arns else arns) with
        | Ok (Some tasks) => SliceStable later (map task_row tasks)
        | _ => []
        end
  | _ => []
  end.

(** ** The snapshot *)

Definition deployment_row (d : Deployment) : json :=
  JObj [(str "status", JStr (ToString (d_Status d))); (str "rollout_state", JStr (RolloutState d));
        (str "desired", JNum (d_DesiredCount d) 0); (str "running", JNum (d_RunningCount d) 0);
        (str "pending", JNum (d_PendingCount d) 0); (str "failed_tasks", JNum (FailedTasks d) 0)].

Definition event_row (ev : ServiceEvent) : json :=
  JObj [(str "created_at", JStr (isoTime (CreatedAt ev)));
        (str "message", JStr (clip (ToString (e_Message ev)) 2000))].

Definition runEcsServiceSnapshot (cluster service : bytes) : option (list (bytes * json)) :=
  let cluster := TrimSpace cluster in
  let service := TrimSpace service in
  if decide (cluster = [] \/ service = []) then None
  else
    match DescribeServices cluster service with
    | Ok (Some (s :: _)) =>
        let albDims := albDimensionsFromService s in
        let deployments := map deployment_row (s_Deployments s) in
        let events := map event_row (take 18 (s_Events s)) in
        let recentStopped := recentStoppedTasks cluster service in
        Some [(str "running", JNum (s_RunningCount s) 0); (str "desired", JNum (s_DesiredCount s) 0);
              (str "pending", JNum (s_PendingCount s) 0); (str "service_status", JStr (ToString (s_Status s)));
              (str "deployments", JArr deployments); (str "events", JArr events);
              (str "recent_stopped_tasks", JArr (map JObj recentStopped));
              (str "alb_load_balancer_dimensions", JArr (map JStr albDims))]
    | _ => None
    end.

End snapshot.
