(* ===== verification/CloudWatch.v ===== *)
(** * The structured AWS tools (internal/edge/awsexec: cloudwatch.go, cloudwatch_metrics.go, register.go)

    A Logs Insights query with its polling loop, the metric queries, their pages and the merged series,
    and the registration of the three tools. The SDK's clients are parameters. *)
From S2P Require Import Prelude Go GoStr GoSort Edge Ecs.
Open Scope Z_scope.

(** ** Arguments *)

Definition stringList (v : option json) : list bytes :=
  match v with
  | Some (JArr raw) =>
      omap (fun item => match item with JStr s => if decide (s = []) then None else Some s | _ => None end) raw
  | _ => []
  end.

Definition clampInt (v lo hi : Z) : Z := if v <? lo then lo else if v >? hi then hi else v.

(** [strings.EqualFold(s, k)] for [k] of letters that no other rune folds to. *)
Definition equal_fold (s k : bytes) : bool := bool_decide (map lower_ascii s = k).

Definition minDur (a b : Z) : Z := if a <? b then a else b.

Definition obj_of (m : gmap bytes bytes) : json := JObj (prod_map id JStr <$> map_to_list m).

Section args.
(** [int(v)] of a float out of the range of [int], which the language leaves to the platform. *)
Context (out_of_range : Z -> Z -> Z).

Definition intArg (args : list (bytes * json)) (key : bytes) : option Z :=
  match field key args with
  | Some (JNum m e) =>
      let n := float_int m e in
      Some (if bool_decide (- 2 ^ 63 <= n < 2 ^ 63) then n else out_of_range m e)
  | _ => None
  end.

(** The window of a tool: [minutes], within bounds. *)
Definition lookback (dflt max : Z) (args : list (bytes * json)) : Z :=
  match intArg args (str "minutes") with Some v => clampInt v 1 max | None => dflt end.

End args.

(** ** Logs Insights (cloudwatch.go) *)

Definition logsDefaultLookbackMin : Z := 60.
Definition logsMaxLookbackMin : Z := 1440.

Record ResultField := mkField { Field : option bytes; Value : option bytes }.
Record QueryResults := mkResults { q_Status : bytes; q_Results : list (list ResultField) }.

Record StartQueryInput := mkStartQuery {
  LogGroupNames : list bytes; QueryString : bytes; q_StartTime : Z; q_EndTime : Z; q_Limit : Z }.

Definition logs_tool : bytes := str "cloudwatch_logs_insights".

Definition logs_row (fields : list ResultField) : gmap bytes bytes :=
  foldl (fun row f => <[ToString (Field f) := ToString (Value f)]> row) ∅ fields.

Definition logsResult (query : bytes) (groups : list bytes) (minutes : Z) (out : QueryResults) : Result :=
  let rows := map (fun fields => obj_of (logs_row fields)) (q_Results out) in
  <[str "ok" := JBool true]> (<[str "tool" := JStr logs_tool]>
    (<[str "query" := JStr (clip query 4000)]> (<[str "log_groups" := JArr (map JStr groups)]>
      (<[str "minutes" := JNum minutes 0]> (<[str "row_count" := JNum (zlen rows) 0]>
        (<[str "results" := JArr rows]>
          (<[str "note" := JStr (str "Read-only CloudWatch Logs Insights query executed at the edge; row-capped.")]>
            ∅))))))).

Definition failed_statuses : list bytes := map str ["Failed"; "Cancelled"; "Timeout"]%string.

Section logs.
(** The k-th answer to [GetQueryResults], the clock at the k-th test of the deadline and at the k-th
    pause, and whether the context was done during that pause. *)
Context (GetQueryResults : nat -> bytes -> go QueryResults).
Context (checked paused : nat -> Z) (cancelled : nat -> bool).

(** The duration of the k-th pause. *)
Definition pause_of (o : Options) (deadline : Z) (k : nat) : Z :=
  minDur (LogsPollEvery o) (deadline - paused k).

(** The polling loop: the result, and the pauses it asked for. *)
Fixpoint poll (fuel : nat) (o : Options) (queryID query : bytes) (groups : list bytes) (minutes deadline : Z)
    (k : nat) : go Result * list Z :=
  match fuel with
  | O => (NoFuel, [])
  | S fuel =>
      match GetQueryResults k queryID with
      | Ok out =>
          if decide (q_Status out = str "Complete") then (Ok (logsResult query groups minutes out), [])
          else if decide (q_Status out ∈ failed_statuses) then
            (Ok (ErrorResult logs_tool (EFmt "query did not complete (status=%s)" [q_Status out])), [])
          else if deadline <? checked k then
            (Ok (ErrorResult logs_tool (EFmt "query timed out waiting for results at the edge" [])), [])
          else if cancelled k then
            (Ok (ErrorResult logs_tool (EFmt "context cancelled" [])), [pause_of o deadline k])
          else
            let '(r, pauses) := poll fuel o queryID query groups minutes deadline (S k) in
            (r, pause_of o deadline k :: pauses)
      | Err e => (Ok (ErrorResult logs_tool (EWrap "CloudWatch Logs Insights results failed: " e)), [])
      | Panic => (Panic, [])
      | NoFuel => (NoFuel, [])
      end
  end.

Context (StartQuery : StartQueryInput -> go (option bytes)).
Context (out_of_range : Z -> Z -> Z).

(** The rounds of [poll] that the wait allows. *)
Definition poll_fuel (o : Options) : nat := Z.to_nat (LogsMaxWait o / LogsPollEvery o) + 3.

(** [now] is the clock in seconds at the start, [started] in nanoseconds after the query started. *)
Definition runLogsInsights (o : Options) (now started : Z) (args : list (bytes * json)) : go Result :=
  let query := strArg args (str "query") in
  if decide (query = []) then Ok (ErrorResult logs_tool (EFmt "Missing required 'query'." []))
  else
    let groups := stringList (field (str "log_groups") args) in
    let single := strArg args (str "log_group") in
    let groups := if decide (single = []) then groups else groups ++ [single] in
    if decide (groups = []) then
      Ok (ErrorResult logs_tool (EFmt "Provide log_groups (one or more CloudWatch log group names)." []))
    else
      let minutes := lookback out_of_range logsDefaultLookbackMin logsMaxLookbackMin args in
      match StartQuery (mkStartQuery groups (clip query 4000) (now - minutes * 60) now (int32 (MaxRows o))) with
      | Ok id =>
          (poll (poll_fuel o) o (ToString id) query groups minutes (started + LogsMaxWait o) 0).1
      | Err e => Ok (ErrorResult logs_tool (EWrap "CloudWatch Logs Insights start failed: " e))
      | Panic => Panic
      | NoFuel => NoFuel
      end.

End logs.

(** ** Metrics (cloudwatch_metrics.go) *)

Definition metricsDefaultLookbackMin : Z := 60.
Definition metricsMaxLookbackMin : Z := 1440.
Definition ecsAllServices : bytes := str "__all__".

Record idLabel := mkLabel { il_ID : bytes; il_Label : bytes }.
Record metricSpec := mkSpec { sp_id : bytes; sp_metricName : bytes; sp_stat : bytes; sp_label : bytes }.

Record MetricDataQuery := mkQuery {
  mq_Id : bytes; Namespace : bytes; MetricName : bytes; Dimensions : list (bytes * bytes);
  mq_Period : Z; Stat : bytes }.

Definition spec (id metricName stat label : string) : metricSpec :=
  mkSpec (str id) (str metricName) (str stat) (str label).

Definition periodForRange (start stop : Z) : Z :=
  let span := Z.max 0 (stop - start) in
  if span <=? 3600 then 60 else if span <=? 86400 * 2 then 300 else 900.

(** The window in nanoseconds; [now] is the clock. *)
Definition metricsTimeWindow (start stop period now : Z) : Z * Z :=
  let startT := start * second in
  let endT := stop * second in
  let latestOK := now - 120 * second in
  let endT := if latestOK <? endT then latestOK else endT in
  (startT, if startT <? endT then endT else startT + Z.max 60 period * second).

Definition buildQueries (namespace : string) (dims : list (bytes * bytes)) (period : Z) (specs : list metricSpec)
    : list MetricDataQuery * list idLabel :=
  (map (fun s => mkQuery (sp_id s) (str namespace) (sp_metricName s) dims (int32 period) (sp_stat s)) specs,
   map (fun s => mkLabel (sp_id s) (sp_label s)) specs).

Definition albMetricQueries (lb : bytes) (period : Z) : list MetricDataQuery * list idLabel :=
  buildQueries "AWS/ApplicationELB" [(str "LoadBalancer", lb)] period
    [spec "alb_req" "RequestCount" "Sum" "ALB requests (sum / period)";
     spec "alb_t4xx" "HTTPCode_Target_4XX_Count" "Sum" "Target 4xx (sum / period)";
     spec "alb_e4xx" "HTTPCode_ELB_4XX_Count" "Sum" "ELB 4xx (sum / period)";
     spec "alb_t5xx" "HTTPCode_Target_5XX_Count" "Sum" "Target 5xx (sum / period)";
     spec "alb_e5xx" "HTTPCode_ELB_5XX_Count" "Sum" "ELB 5xx (sum / period)";
     spec "alb_lat" "TargetResponseTime" "Average" "Target response time avg (s)";
     spec "alb_lat_p99" "TargetResponseTime" "p99" "Target response time p99 (s)"].

Definition cloudFrontMetricQueries (distID : bytes) (period : Z) : list MetricDataQuery * list idLabel :=
  buildQueries "AWS/CloudFront" [(str "DistributionId", distID)] period
    [spec "cf_req" "Requests" "Sum" "CloudFront requests (sum / period)"].

Definition ec2MetricQueries (instanceID : bytes) (period : Z) : list MetricDataQuery * list idLabel :=
  buildQueries "AWS/EC2" [(str "InstanceId", instanceID)] period
    [spec "ec2_cpu" "CPUUtilization" "Average" "EC2 CPU %";
     spec "ec2_net_in" "NetworkIn" "Sum" "EC2 network in (bytes)";
     spec "ec2_net_out" "NetworkOut" "Sum" "EC2 network out (bytes)"].

Definition ecsServiceMetricQueries (cluster service : bytes) (period : Z) : list MetricDataQuery * list idLabel :=
  buildQueries "AWS/ECS" [(str "ClusterName", cluster); (str "ServiceName", service)] period
    [spec "ecs_cpu" "CPUUtilization" "Average" "ECS CPU %";
     spec "ecs_mem" "MemoryUtilization" "Average" "ECS memory %";
     spec "ecs_tasks" "RunningTaskCount" "Maximum" "ECS running tasks";
     spec "ecs_tasks_avg" "RunningTaskCount" "Average" "ECS running tasks (avg)";
     spec "ecs_rx" "NetworkRxBytes" "Sum" "ECS network RX (bytes)";
     spec "ecs_tx" "NetworkTxBytes" "Sum" "ECS network TX (bytes)"].

Definition ecsClusterMetricQueries (cluster : bytes) (period : Z) : list MetricDataQuery * list idLabel :=
  buildQueries "AWS/ECS" [(str "ClusterName", cluster)] period
    [spec "ecs_cpu" "CPUUtilization" "Average" "ECS CPU % (cluster)";
     spec "ecs_mem" "MemoryUtilization" "Average" "ECS memory % (cluster)";
     spec "ecs_tasks" "RunningTaskCount" "Maximum" "ECS running tasks (cluster)";
     spec "ecs_tasks_avg" "RunningTaskCount" "Average" "ECS running tasks (cluster, avg)";
     spec "ecs_rx" "NetworkRxBytes" "Sum" "ECS network RX (bytes, cluster)";
     spec "ecs_tx" "NetworkTxBytes" "Sum" "ECS network TX (bytes, cluster)"].

(** What a call asks for, from its trimmed arguments. *)
Record metricsTargets := mkTargets {
  m_alb : bytes; m_cluster : bytes; m_service : bytes; m_cf : bytes; m_ec2 : bytes }.

Definition metrics_targets (args : list (bytes * json)) : metricsTargets :=
  let arg k := TrimSpace (strArg args (str k)) in
  mkTargets (arg "alb_load_balancer") (arg "ecs_cluster") (arg "ecs_service")
    (arg "cloudfront_distribution_id") (arg "ec2_instance_id").

Definition allServices (m : metricsTargets) : bool := equal_fold (m_service m) ecsAllServices.
Definition has_ecs (m : metricsTargets) : bool :=
  negb (bool_decide (m_cluster m = [])) && negb (bool_decide (m_service m = [])).

(** The two checks, and the complaint of the first that fails. *)
Definition invalid_targets (m : metricsTargets) : option gerr :=
  if bool_decide (m_alb m = []) && negb (has_ecs m) && bool_decide (m_cf m = []) && bool_decide (m_ec2 m = [])
  then Some (EFmt "Provide alb_load_balancer, ecs_cluster+ecs_service, cloudfront_distribution_id, or ec2_instance_id." [])
  else if xorb (bool_decide (m_cluster m = [])) (bool_decide (m_service m = []))
  then Some (EFmt "ecs_cluster and ecs_service must both be set." [])
  else None.

Definition when {A} (b : bool) (q : list A * list idLabel) : list A * list idLabel := if b then q else ([], []).

Definition metric_queries (m : metricsTargets) (period : Z) : list MetricDataQuery * list idLabel :=
  let qs :=
    [when (negb (bool_decide (m_alb m = []))) (albMetricQueries (m_alb m) period);
     when (has_ecs m)
       (if allServices m then ecsClusterMetricQueries (m_cluster m) period
        else ecsServiceMetricQueries (m_cluster m) (m_service m) period);
     when (negb (bool_decide (m_cf m = []))) (cloudFrontMetricQueries (m_cf m) period);
     when (negb (bool_decide (m_ec2 m = []))) (ec2MetricQueries (m_ec2 m) period)] in
  (concat (map fst qs), concat (map snd qs)).

(** *** The pages of the answer *)

(** A value is a finite float [m * 2^e]. *)
Record MetricDataResult := mkMetricResult {
  mr_Id : option bytes; Timestamps : list Z; Values : list (Z * Z); StatusCode : bytes;
  Messages : list (option bytes * option bytes) }.

Record GetMetricDataInput := mkGetMetricData {
  MetricDataQueries : list MetricDataQuery; StartTime : Z; EndTime : Z; gm_NextToken : option bytes }.
Record GetMetricDataOutput := mkMetricDataOutput {
  MetricDataResults : list MetricDataResult; NextToken : option bytes }.

Section pages.
(** The answer to the k-th call. *)
Context (GetMetricData : nat -> GetMetricDataInput -> go GetMetricDataOutput).

Fixpoint pages (fuel : nat) (queries : list MetricDataQuery) (start stop : Z) (token : option bytes) (k : nat)
    (all : list MetricDataResult) : go (list MetricDataResult) :=
  match fuel with
  | O => NoFuel
  | S fuel =>
      let? out := GetMetricData k (mkGetMetricData queries start stop token) in
      let all := all ++ MetricDataResults out in
      match NextToken out with
      | None | Some [] => Ok all
      | Some t => pages fuel queries start stop (Some t) (S k) all
      end
  end.

Definition getMetricDataPaginated (fuel : nat) (queries : list MetricDataQuery) (start stop : Z)
    : go (list MetricDataResult) := pages fuel queries start stop None 0 [].

End pages.

(** *** The series *)

(** A datapoint: time in seconds and value, as floats. *)
Abbreviation datapoint := ((Z * Z) * (Z * Z))%type.

(** A row of the series: the keys of the map that the code sets. *)
Record series_row := mkRow {
  row_id : bytes; row_label : bytes; row_datapoints : list datapoint; row_status : option bytes;
  row_messages : option (list (bytes * bytes)) }.

(** [float64(t.UnixNano()) / 1e9] *)
Definition unix_seconds (ns : Z) : Z * Z := mantissa (float_div (float64 (wrap64 ns)) (float64 second)).

Definition byID (results : list MetricDataResult) : gmap bytes MetricDataResult :=
  foldl (fun m r => match mr_Id r with Some id => <[id := r]> m | None => m end) ∅ results.

Definition messages_of (r : MetricDataResult) : option (list (bytes * bytes)) :=
  match map (fun '(c, v) => (clip (ToString c) 128, clip (ToString v) 2000)) (Messages r) with
  | [] => None
  | msgs => Some msgs
  end.

Definition series_of (m : gmap bytes MetricDataResult) (il : idLabel) : series_row :=
  match m !! il_ID il with
  | Some r =>
      mkRow (il_ID il) (il_Label il) (zip (map unix_seconds (Timestamps r)) (Values r))
        (if decide (StatusCode r = []) then None else Some (StatusCode r)) (messages_of r)
  | None => mkRow (il_ID il) (il_Label il) [] None None
  end.

Definition metricResultsToSeries (labels : list idLabel) (results : list MetricDataResult) : list series_row :=
  map (series_of (byID results)) labels.

(** The last row with an id: its position. *)
Fixpoint last_row (id : bytes) (i : nat) (series : list series_row) : option nat :=
  match series with
  | [] => None
  | r :: rest =>
      match last_row id (S i) rest with
      | Some j => Some j
      | None => if decide (row_id r = id) then Some i else None
      end
  end.

Definition fill (alt main : series_row) : series_row :=
  mkRow (row_id main) (row_label main) (row_datapoints alt)
    (match row_status main with Some s => Some s | None => row_status alt end)
    (match row_messages main with Some m => Some m | None => row_messages alt end).

Definition main_id : bytes := str "ecs_tasks".
Definition alt_id : bytes := str "ecs_tasks_avg".

(** The assignments to [main] are seen in the series, which holds the same map. *)
Definition mergeEcsRunningTaskSeries (series : list series_row) : list series_row :=
  let at_row i := i ≫= fun i => series !! i in
  let main := last_row main_id 0 series in
  let series :=
    match main, at_row main, at_row (last_row alt_id 0 series) with
    | Some i, Some mainRow, Some alt =>
        if bool_decide (row_datapoints mainRow = []) && negb (bool_decide (row_datapoints alt = []))
        then alter (fill alt) i series else series
    | _, _, _ => series
    end in
  List.filter (fun r => negb (bool_decide (row_id r = alt_id))) series.

Definition datapoint_json (p : datapoint) : json :=
  JObj [(str "t", JNum (p.1).1 (p.1).2); (str "v", JNum (p.2).1 (p.2).2)].

Definition message_json (m : bytes * bytes) : json := JObj [(str "code", JStr m.1); (str "value", JStr m.2)].

Definition row_json (r : series_row) : json :=
  JObj ([(str "id", JStr (row_id r)); (str "label", JStr (row_label r))] ++
        match row_status r with Some s => [(str "status_code", JStr s)] | None => [] end ++
        match row_messages r with Some m => [(str "messages", JArr (map message_json m))] | None => [] end ++
        [(str "datapoints", JArr (map datapoint_json (row_datapoints r)))]).

Definition metrics_tool : bytes := str "cloudwatch_metrics".

(** ** The handlers and their registration (awsexec.go, register.go) *)

Section tools.
Context `{Unicode} (out_of_range : Z -> Z -> Z).
(** The SDK: a configuration for a region, with an assumed role (its session name and external id), and
    the clients that a configuration gives. *)
Context {AWSConfig : Type} (LoadDefaultConfig : option bytes -> go AWSConfig).
Context (AssumeRole : AWSConfig -> bytes -> bytes -> option bytes -> AWSConfig).

(** [None] is the absent region or external id. *)
Definition nonempty_opt (s : bytes) : option bytes := if decide (s = []) then None else Some s.

Definition loadConfig (o : Options) (region : bytes) : go AWSConfig :=
  let? cfg := LoadDefaultConfig (nonempty_opt region) in
  Ok (if decide (AssumeRoleARN o = []) then cfg
      else AssumeRole cfg (AssumeRoleARN o) (str "skybridge-edge") (nonempty_opt (ExternalID o))).

Context (GetMetricData : AWSConfig -> nat -> GetMetricDataInput -> go GetMetricDataOutput).
Context (DescribeServices : AWSConfig -> bytes -> bytes -> go (option (list Service))).
Context (DescribeTargetGroups : AWSConfig -> list bytes -> go (option (list (list bytes)))).
Context (ListTasks : AWSConfig -> ListTasksInput -> go (option (list bytes))).
Context (DescribeTasks : AWSConfig -> bytes -> list bytes -> go (option (list Task))).

Definition ecsServiceSnapshot (cfg : AWSConfig) (cluster service : bytes) : option (list (bytes * json)) :=
  runEcsServiceSnapshot (DescribeServices cfg) (DescribeTargetGroups cfg) (ListTasks cfg) (DescribeTasks cfg)
    cluster service.

Definition metrics_result (minutes period : Z) (region : bytes) (series : list series_row) (counts : json) : Result :=
  <[str "ok" := JBool true]> (<[str "tool" := JStr metrics_tool]> (<[str "minutes" := JNum minutes 0]>
    (<[str "region" := JStr region]> (<[str "period_seconds" := JNum period 0]>
      (<[str "series" := JArr (map row_json series)]>
        (<[str "note" := JStr (str "Read-only CloudWatch GetMetricData over the requested window, executed at the edge.")]>
          (<[str "ecs_service_counts" := counts]> ∅))))))).

(** [now] is the clock in seconds, [now2] in nanoseconds a little later; [fuel] bounds the pages. *)
Definition CloudWatchMetrics (fuel : nat) (o : Options) (now now2 : Z) (args : list (bytes * json)) : go Result :=
  let m := metrics_targets args in
  match invalid_targets m with
  | Some e => Ok (ErrorResult metrics_tool e)
  | None =>
      let minutes := lookback out_of_range metricsDefaultLookbackMin metricsMaxLookbackMin args in
      let start := now - minutes * 60 in
      let period := periodForRange start now in
      let '(queries, labels) := metric_queries m period in
      let region := TrimSpace (strArg args (str "region")) in
      let region := if decide (region = []) then Region o else region in
      match loadConfig o region with
      | Ok cfg =>
          let '(startTime, endTime) := metricsTimeWindow start now period now2 in
          match getMetricDataPaginated (GetMetricData cfg) fuel queries startTime endTime with
          | Ok raw =>
              let series := mergeEcsRunningTaskSeries (metricResultsToSeries labels raw) in
              let counts :=
                if has_ecs m && negb (allServices m) then
                  match ecsServiceSnapshot cfg (m_cluster m) (m_service m) with
                  | Some snap => JObj snap
                  | None => JNull
                  end
                else JNull in
              Ok (metrics_result minutes period region series counts)
          | Err e => Ok (ErrorResult metrics_tool (EWrap "GetMetricData failed: " e))
          | Panic => Panic
          | NoFuel => NoFuel
          end
      | Err e => Ok (ErrorResult metrics_tool (EWrap "credential resolution failed: " e))
      | Panic => Panic
      | NoFuel => NoFuel
      end
  end.

Context (StartQuery : AWSConfig -> StartQueryInput -> go (option bytes)).
Context (GetQueryResults : AWSConfig -> nat -> bytes -> go QueryResults).
Context (checked paused : nat -> Z) (cancelled : nat -> bool).

Definition CloudWatchLogsInsights (o : Options) (now started : Z) (args : list (bytes * json)) : go Result :=
  let region := strArg args (str "region") in
  let region := if decide (region = []) then Region o else region in
  match loadConfig o region with
  | Ok cfg =>
      runLogsInsights (GetQueryResults cfg) checked paused cancelled (StartQuery cfg) out_of_range o now started args
  | Err e => Ok (ErrorResult logs_tool (EWrap "credential resolution failed: " e))
  | Panic => Panic
  | NoFuel => NoFuel
  end.

Context (Environ : list bytes) (Retrieve : go Credentials).
Context (Run : bytes -> list bytes -> list bytes -> process).

(** [edge.Result] as a handler returns it. *)
Definition handler (f : list (bytes * json) -> go Result) : Handler := fun args => let? r := f args in Ok (Some r).

Definition awsexec_Register (reg : Registry) (opts : Options) (fuel : nat) (now now2 started : Z) : go Registry :=
  let e := withDefaults opts in
  let? reg := Register (str "aws_readonly_cli")
                (Some (handler (fun args => Ok (RunReadOnlyCLI Environ Retrieve Run e args).1))) reg in
  let? reg := Register (str "cloudwatch_logs_insights")
                (Some (handler (CloudWatchLogsInsights e now started))) reg in
  Register (str "cloudwatch_metrics") (Some (handler (CloudWatchMetrics fuel e now now2))) reg.

End tools.
