(* ===== verification/CloudWatchProps.v ===== *)
(** * What the structured AWS tools guarantee: bounded waits and windows, complete pages, one series per
    metric, and what the edge registers *)
From Stdlib Require Import Sorted.
From S2P Require Import Prelude Go GoStr GoSort Edge EdgeProps Ecs CloudWatch.
Open Scope Z_scope.

Lemma clampInt_range v lo hi : lo <= hi -> lo <= clampInt v lo hi <= hi.
Proof. unfold clampInt. intros. destruct (Z.ltb_spec v lo); [lia|]. destruct (Z.gtb_spec v hi); lia. Qed.

Lemma lookback_range out dflt max args :
  1 <= dflt <= max -> 1 <= lookback out dflt max args <= max.
Proof. intros. unfold lookback. destruct (intArg _ _ _); [apply clampInt_range; lia|done]. Qed.

(** ** The polling loop ends *)

Lemma withDefaults_positive opts :
  0 < LogsPollEvery (withDefaults opts) /\ 0 < LogsMaxWait (withDefaults opts).
Proof.
  assert (second = 1000000000) by reflexivity.
  unfold withDefaults, positive. cbn [LogsPollEvery LogsMaxWait].
  destruct (Z.leb_spec (LogsPollEvery opts) 0), (Z.leb_spec (LogsMaxWait opts) 0); lia.
Qed.

Section poll.
Context (GetQueryResults : nat -> bytes -> go QueryResults).
Context (checked paused : nat -> Z) (cancelled : nat -> bool).

(** A clock read in this order: a pause lasts at least what was asked for, and a call takes time. *)
Definition clock_ok (o : Options) (deadline : Z) : Prop :=
  forall k, checked k <= paused k /\
    paused k + Z.max 1 (pause_of paused o deadline k) <= checked (S k).

(** After [k] pauses the deadline is reached, or [k] intervals have passed. *)
Lemma clock_progress o deadline k :
  clock_ok o deadline -> 0 < LogsPollEvery o ->
  deadline <= checked k \/ checked 0 + Z.of_nat k * LogsPollEvery o <= checked k.
Proof.
  intros Hc Hp. induction k as [|k IH]; [right; lia|].
  destruct (Hc k) as [H1 H2]. unfold pause_of, minDur in H2.
  destruct (Z.ltb_spec (LogsPollEvery o) (deadline - paused k)); [|left; lia].
  destruct IH as [IH|IH]; [left; lia|right; lia].
Qed.

Lemma clock_past o deadline k :
  clock_ok o deadline -> 0 < LogsPollEvery o -> 0 <= LogsMaxWait o ->
  deadline <= checked 0 + LogsMaxWait o ->
  (S k = poll_fuel o)%nat -> deadline < checked k.
Proof.
  intros Hc Hp Hw Hd Hk. unfold poll_fuel in Hk. destruct k as [|k]; [lia|].
  assert (Hle : deadline <= checked k).
  { destruct (clock_progress o deadline k Hc Hp) as [|H]; [done|].
    assert (Z.of_nat k = LogsMaxWait o / LogsPollEvery o + 1) as Hk'.
    { pose proof (Z.div_pos (LogsMaxWait o) (LogsPollEvery o)). lia. }
    pose proof (Z.mul_succ_div_gt (LogsMaxWait o) (LogsPollEvery o) Hp). nia. }
  destruct (Hc k) as [H1 H2]. lia.
Qed.

Lemma poll_returns o queryID query groups minutes deadline :
  (forall k, returns (GetQueryResults k queryID)) ->
  forall n k, deadline < checked (k + n) ->
  exists r pauses, poll GetQueryResults checked paused cancelled (S n) o queryID query groups minutes deadline k
    = (Ok r, pauses) /\ (length pauses <= n)%nat /\ Forall (fun p => p <= LogsPollEvery o) pauses.
Proof.
  intros Hret. assert (Hp : forall k, pause_of paused o deadline k <= LogsPollEvery o).
  { intros k. unfold pause_of, minDur. destruct (Z.ltb_spec (LogsPollEvery o) (deadline - paused k)); lia. }
  induction n as [|n IH]; intros k Hk; simpl; specialize (Hret k) as Hk'.
  - rewrite Nat.add_0_r in Hk. destruct (GetQueryResults k queryID) as [out|e| |]; try done; cycle 1.
    { eexists _, []. split_and!; [done|simpl; lia|constructor]. }
    rewrite (proj2 (Z.ltb_lt _ _) Hk).
    repeat case_decide; (eexists _, []; split_and!; [done|simpl; lia|constructor]).
  - destruct (GetQueryResults k queryID) as [out|e| |]; try done; cycle 1.
    { eexists _, []. split_and!; [done|simpl; lia|constructor]. }
    case_decide; [eexists _, []; split_and!; [done|simpl; lia|constructor]|].
    case_decide; [eexists _, []; split_and!; [done|simpl; lia|constructor]|].
    destruct (deadline <? checked k); [eexists _, []; split_and!; [done|simpl; lia|constructor]|].
    destruct (cancelled k); [eexists _, [_]; split_and!; [done|simpl; lia|by repeat constructor]|].
    destruct (IH (S k)) as (r & pauses & He & Hl & Hf); [by rewrite Nat.add_succ_r in Hk|].
    simpl in He. rewrite He. eexists _, (_ :: _). split_and!; [done|simpl; lia|by constructor].
Qed.

Context (StartQuery : StartQueryInput -> go (option bytes)) (out_of_range : Z -> Z -> Z).

(** C35: a Logs Insights call always ends: with a service that answers and a clock that advances (a
    pause lasts at least its duration, a call at least a nanosecond), the tool returns a result within
    [LogsMaxWait / LogsPollEvery + 3] polls, however long the query stays running, and no pause is
    longer than the poll interval. *)
Theorem logs_query_ends opts now started args :
  let o := withDefaults opts in
  started <= checked 0 -> clock_ok o (started + LogsMaxWait o) ->
  (forall k id, returns (GetQueryResults k id)) -> (forall req, returns (StartQuery req)) ->
  (exists r, runLogsInsights GetQueryResults checked paused cancelled StartQuery out_of_range o now started args
     = Ok r) /\
  (forall queryID query groups minutes, exists r pauses,
     poll GetQueryResults checked paused cancelled (poll_fuel o) o queryID query groups minutes
       (started + LogsMaxWait o) 0 = (Ok r, pauses) /\
     (length pauses < poll_fuel o)%nat /\ Forall (fun p => p <= LogsPollEvery o) pauses).
Proof.
  intros o Hs Hc Hret Hst.
  assert (Hends : forall queryID query groups minutes, exists r pauses,
    poll GetQueryResults checked paused cancelled (poll_fuel o) o queryID query groups minutes
      (started + LogsMaxWait o) 0 = (Ok r, pauses) /\
    (length pauses < poll_fuel o)%nat /\ Forall (fun p => p <= LogsPollEvery o) pauses).
  { intros. destruct (poll_fuel o) as [|n] eqn:Hn; [unfold poll_fuel in Hn; lia|].
    destruct (poll_returns o queryID query groups minutes (started + LogsMaxWait o)
      (fun k => Hret k queryID) n 0) as (r & pauses & He & Hl & Hf).
    - apply (clock_past o); [done|apply withDefaults_positive|apply Z.lt_le_incl, withDefaults_positive|lia|done].
    - exists r, pauses. split_and!; [done|lia|done]. }
  split; [|done]. unfold runLogsInsights. case_decide; [eauto|]. cbv zeta.
  destruct (decide (_ = [])) in |- *; [eauto|].
  specialize (Hst (mkStartQuery
    (if decide (strArg args (str "log_group") = []) then stringList (field (str "log_groups") args)
     else stringList (field (str "log_groups") args) ++ [strArg args (str "log_group")])
    (clip (strArg args (str "query")) 4000)
    (now - lookback out_of_range logsDefaultLookbackMin logsMaxLookbackMin args * 60) now (int32 (MaxRows o)))).
  destruct (StartQuery _) as [id|e| |]; [|eauto|done..].
  edestruct Hends as (r & pauses & He & _). rewrite He. by exists r.
Qed.

End poll.

(** ** Windows *)

(** The window, computed. *)
Lemma window_exact out args now now2 :
  let minutes := lookback out metricsDefaultLookbackMin metricsMaxLookbackMin args in
  let start := now - minutes * 60 in
  let period := periodForRange start now in
  let latest := Z.min (now * 10 ^ 9) (now2 - 120 * 10 ^ 9) in
  let '(startT, endT) := metricsTimeWindow start now period now2 in
  minutes = match intArg out args (str "minutes") with Some v => Z.max 1 (Z.min v 1440) | None => 60 end /\
  period = (if minutes <=? 60 then 60 else 300) /\ minutes * 60 <= 288 * period /\
  startT = (now - minutes * 60) * 10 ^ 9 /\
  endT = (if startT <? latest then latest else startT + period * 10 ^ 9) /\ startT < endT.
Proof.
  intros minutes start period latest. unfold metricsTimeWindow.
  assert (Hm : 1 <= minutes <= 1440)
    by (apply lookback_range; unfold metricsDefaultLookbackMin, metricsMaxLookbackMin; lia).
  assert (Hmin : minutes = match intArg out args (str "minutes") with Some v => Z.max 1 (Z.min v 1440) | None => 60 end).
  { unfold minutes, lookback, metricsDefaultLookbackMin, metricsMaxLookbackMin. destruct (intArg _ _ _) as [v|]; [|done].
    unfold clampInt. destruct (Z.ltb_spec v 1); [lia|]. destruct (Z.gtb_spec v 1440); lia. }
  assert (Hsec : second = 10 ^ 9) by reflexivity.
  assert (Hp : period = if minutes <=? 60 then 60 else 300).
  { unfold period, periodForRange, start. replace (now - (now - minutes * 60)) with (minutes * 60) by lia.
    rewrite Z.max_r by lia. destruct (Z.leb_spec minutes 60).
    - by rewrite (proj2 (Z.leb_le (minutes * 60) 3600)) by lia.
    - rewrite (proj2 (Z.leb_gt (minutes * 60) 3600)) by lia.
      by rewrite (proj2 (Z.leb_le (minutes * 60) (86400 * 2))) by lia. }
  rewrite Hsec. clearbody period. change (10 ^ 9) with 1000000000 in *.
  set (endT := if now2 - 120 * 1000000000 <? now * 1000000000 then _ else _).
  assert (He : endT = latest)
    by (subst endT latest; destruct (Z.ltb_spec (now2 - 120 * 1000000000) (now * 1000000000)); lia).
  rewrite He. split; [done|]. split; [done|]. clear Hmin. clearbody minutes latest. subst start.
  assert (60 <= period) by (rewrite Hp; destruct (Z.leb_spec minutes 60); lia).
  split; [rewrite Hp; destruct (Z.leb_spec minutes 60); lia|]. split; [lia|].
  destruct (Z.ltb_spec ((now - minutes * 60) * 1000000000) latest); split; lia.
Qed.

Section windows.
Context (out_of_range : Z -> Z -> Z) {AWSConfig : Type}.
Context (LoadDefaultConfig : option bytes -> go AWSConfig).
Context (AssumeRole : AWSConfig -> bytes -> bytes -> option bytes -> AWSConfig).
Context (DescribeServices : AWSConfig -> bytes -> bytes -> go (option (list Service))).
Context (DescribeTargetGroups : AWSConfig -> list bytes -> go (option (list (list bytes)))).
Context (ListTasks : AWSConfig -> ListTasksInput -> go (option (list bytes))).
Context (DescribeTasks : AWSConfig -> bytes -> list bytes -> go (option (list Task))).

(** A request for the queries of a window. *)
Definition asks (period startT endT : Z) (inp : GetMetricDataInput) : Prop :=
  StartTime inp = startT /\ EndTime inp = endT /\
  Forall (fun q => mq_Period q = period) (MetricDataQueries inp).

Lemma metric_queries_period m period :
  0 <= period < 2 ^ 31 -> Forall (fun q => mq_Period q = period) (metric_queries m period).1.
Proof.
  intros Hp. assert (H32 : int32 period = period) by (unfold int32; rewrite Z.mod_small; lia).
  unfold metric_queries, buildQueries. cbn [fst]. apply Forall_concat.
  repeat (apply Forall_cons; split); try apply Forall_nil_2; unfold when;
    repeat match goal with |- context [if ?b then _ else _] => destruct b end;
    cbn; repeat (apply Forall_cons; split); try apply Forall_nil_2; exact H32.
Qed.

Lemma pages_agree G G' fuel queries start stop token k all :
  (forall k token, G k (mkGetMetricData queries start stop token) = G' k (mkGetMetricData queries start stop token)) ->
  pages G fuel queries start stop token k all = pages G' fuel queries start stop token k all.
Proof.
  intros He. revert token k all. induction fuel as [|fuel IH]; intros token k all; [done|]. cbn [pages].
  rewrite He. destruct (G' k _) as [o|e| |]; cbn [gbind]; [|done..].
  destruct (NextToken o) as [[|? ?]|]; [done|apply IH|done].
Qed.

(** C40: the window of a metrics call. The lookback is the [minutes] of the call, held between one minute
    and one day, and an hour when the call names no number; the period is a minute for up to an hour and
    five minutes beyond, which gives at most 288 points. The window starts the lookback before now and
    ends now, or two minutes behind the clock if that is earlier; only when nothing would be left of
    it, it ends one period after its start instead. It is never empty. And the call asks CloudWatch for
    nothing else: its answer does not depend on what requests with another window or another period
    would have been answered. *)
Theorem metrics_window (o : Options) (fuel : nat) (args : list (bytes * json)) (now now2 : Z) :
  let minutes := lookback out_of_range metricsDefaultLookbackMin metricsMaxLookbackMin args in
  let start := now - minutes * 60 in
  let period := periodForRange start now in
  let latest := Z.min (now * 10 ^ 9) (now2 - 120 * 10 ^ 9) in
  let '(startT, endT) := metricsTimeWindow start now period now2 in
  minutes = match intArg out_of_range args (str "minutes") with Some v => Z.max 1 (Z.min v 1440) | None => 60 end /\
  period = (if minutes <=? 60 then 60 else 300) /\ minutes * 60 <= 288 * period /\
  startT = (now - minutes * 60) * 10 ^ 9 /\
  endT = (if startT <? latest then latest else startT + period * 10 ^ 9) /\ startT < endT /\
  forall GetMetricData GetMetricData' : AWSConfig -> nat -> GetMetricDataInput -> go GetMetricDataOutput,
    (forall cfg k inp, asks period startT endT inp -> GetMetricData cfg k inp = GetMetricData' cfg k inp) ->
    CloudWatchMetrics out_of_range LoadDefaultConfig AssumeRole GetMetricData DescribeServices
      DescribeTargetGroups ListTasks DescribeTasks fuel o now now2 args =
    CloudWatchMetrics out_of_range LoadDefaultConfig AssumeRole GetMetricData' DescribeServices
      DescribeTargetGroups ListTasks DescribeTasks fuel o now now2 args.
Proof.
  intros minutes start period latest. pose proof (window_exact out_of_range args now now2) as Hw. cbv zeta in Hw.
  fold minutes in Hw. fold start in Hw. fold period in Hw. fold latest in Hw.
  destruct (metricsTimeWindow start now period now2) as [startT endT] eqn:Hwin.
  destruct Hw as (H1 & Hp & H3 & H4 & H5 & H6). split_and!; [done..|]. intros G G' Hag.
  unfold CloudWatchMetrics. destruct (invalid_targets _); [done|]. fold minutes start period.
  pose proof (metric_queries_period (metrics_targets args) period) as Hq.
  destruct (metric_queries (metrics_targets args) period) as [queries labels]. cbn [fst] in Hq.
  destruct (loadConfig _ _ _ _) as [cfg|e| |]; [|done..]. rewrite Hwin. unfold getMetricDataPaginated.
  rewrite (pages_agree (G cfg) (G' cfg)); [done|]. intros k token. apply Hag. split; [done|]. split; [done|].
  apply Hq. rewrite Hp. destruct (Z.leb_spec minutes 60); lia.
Qed.

End windows.

Lemma logs_query_ends_witness :
  let o := withDefaults (mkOptions [] [] [] [] 0 0 0 0 0 0) in
  let clock := fun k => Z.of_nat k * second in
  let args := [(str "query", JStr (str "fields @message")); (str "log_group", JStr (str "g"))] in
  let running := fun (_ : nat) (_ : bytes) => Ok (mkResults (str "Running") []) in
  (exists r, runLogsInsights running clock clock (fun _ => false) (fun _ => Ok (Some (str "q1"))) (fun _ _ => 0)
     o 3600 0 args = Ok r) /\
  (forall queryID query groups minutes, exists r pauses,
     poll running clock clock (fun _ => false) (poll_fuel o) o queryID query groups minutes (0 + LogsMaxWait o) 0
       = (Ok r, pauses) /\
     (length pauses < poll_fuel o)%nat /\ Forall (fun p => p <= LogsPollEvery o) pauses).
Proof.
  intros o clock args running.
  apply (logs_query_ends running clock clock (fun _ => false) (fun _ => Ok (Some (str "q1"))) (fun _ _ => 0)
    (mkOptions [] [] [] [] 0 0 0 0 0 0) 3600 0 args).
  - vm_compute. discriminate.
  - intros k. unfold clock, pause_of, minDur. change (LogsPollEvery _) with second.
    assert (second = 1000000000) as Hs by reflexivity.
    destruct (Z.ltb_spec second (0 + LogsMaxWait (withDefaults (mkOptions [] [] [] [] 0 0 0 0 0 0)) - Z.of_nat k * second));
      split; lia.
  - done.
  - done.
Defined.

(** ** Series *)

Lemma byID_last results id :
  byID results !! id = last (List.filter (fun r => bool_decide (mr_Id r = Some id)) results).
Proof.
  unfold byID. induction results as [|r results IH] using rev_ind; [done|].
  rewrite foldl_app, List.filter_app, last_app. simpl. destruct (mr_Id r) as [id'|]; [|done].
  destruct (decide (id' = id)) as [->|Hne].
  - by rewrite lookup_insert_eq, bool_decide_eq_true_2.
  - rewrite lookup_insert_ne by done. rewrite bool_decide_eq_false_2 by congruence. done.
Qed.

Lemma last_row_Some id i series j :
  last_row id i series = Some j ->
  (i <= j)%nat /\ exists r, series !! (j - i)%nat = Some r /\ row_id r = id.
Proof.
  revert i. induction series as [|r rest IH]; intros i; simpl; [done|].
  destruct (last_row id (S i) rest) as [j'|] eqn:Hl.
  - intros [= <-]. apply IH in Hl as (Hle & r' & Hr & Hid). split; [lia|]. exists r'. split; [|done].
    by replace (j' - i)%nat with (S (j' - S i)) by lia.
  - case_decide; [|done]. intros [= <-]. split; [lia|]. exists r. by rewrite Nat.sub_diag.
Qed.

Lemma last_row_None id i series r : last_row id i series = None -> r ∈ series -> row_id r <> id.
Proof.
  revert i. induction series as [|r' rest IH]; intros i; simpl; [set_solver|].
  destruct (last_row id (S i) rest) eqn:Hl; [done|]. case_decide; [done|]. intros _.
  intros [-> | Hr]%elem_of_cons; [done|]. by eapply IH.
Qed.

(** The merge with the two rows given: every other row is untouched. *)
Definition merged_row (alt : option series_row) (r : series_row) : series_row :=
  match alt with
  | Some alt =>
      if bool_decide (row_id r = main_id) && bool_decide (row_datapoints r = []) &&
         negb (bool_decide (row_datapoints alt = []))
      then fill alt r else r
  | None => r
  end.

Definition not_alt (id : bytes) : bool := negb (bool_decide (id = alt_id)).

Lemma alter_by_id f i r series :
  NoDup (map row_id series) -> series !! i = Some r ->
  alter f i series = map (fun x => if bool_decide (row_id x = row_id r) then f x else x) series.
Proof.
  intros Hnd Hr. apply list_eq. intros j. rewrite list_lookup_fmap. destruct (decide (j = i)) as [->|Hne].
  - rewrite list_lookup_alter_eq, Hr. simpl. by rewrite bool_decide_eq_true_2.
  - rewrite list_lookup_alter_ne by done. destruct (series !! j) as [x|] eqn:Hj; [|done]. simpl.
    rewrite bool_decide_eq_false_2; [done|]. intros Heq. apply Hne.
    eapply NoDup_lookup; [exact Hnd|rewrite list_lookup_fmap, Hj; done|].
    rewrite list_lookup_fmap, Hr. simpl. by rewrite Heq.
Qed.

Lemma unique_id series r x :
  NoDup (map row_id series) -> r ∈ series -> x ∈ series -> row_id x = row_id r -> x = r.
Proof.
  intros Hnd [i Hi]%list_elem_of_lookup_1 [j Hj]%list_elem_of_lookup_1 Heq.
  assert (j = i) as ->; [|congruence].
  eapply NoDup_lookup; [exact Hnd|rewrite list_lookup_fmap, Hj; done|].
  rewrite list_lookup_fmap, Hi. simpl. by rewrite Heq.
Qed.

Lemma merge_rows series :
  NoDup (map row_id series) ->
  exists alt,
    mergeEcsRunningTaskSeries series =
      List.filter (fun r => not_alt (row_id r)) (map (merged_row alt) series) /\
    (forall r, alt = Some r -> r ∈ series /\ row_id r = alt_id) /\
    (alt = None -> forall r, r ∈ series -> row_id r <> alt_id).
Proof.
  intros Hnd. unfold mergeEcsRunningTaskSeries.
  assert (Hid : forall alt, Forall (fun r => merged_row alt r = r) series -> map (merged_row alt) series = series).
  { intros alt. induction 1 as [|r l Hr _ IH]; [done|]. simpl. rewrite Hr. f_equal. apply IH.
    by apply NoDup_cons in Hnd as [_ ?]. }
  assert (Halt : exists alt,
    (last_row alt_id 0 series ≫= fun i => series !! i) = alt /\
    (forall r, alt = Some r -> r ∈ series /\ row_id r = alt_id) /\
    (alt = None -> forall r, r ∈ series -> row_id r <> alt_id)).
  { eexists. split; [done|]. destruct (last_row alt_id 0 series) as [j|] eqn:Hj; simpl.
    - apply last_row_Some in Hj as (_ & r & Hr & Hrid). rewrite Nat.sub_0_r in Hr. rewrite Hr. split; [|done].
      intros ? [= <-]. split; [by eapply list_elem_of_lookup_2|done].
    - split; [done|]. intros _ r. by apply (last_row_None alt_id 0). }
  destruct Halt as (alt & -> & Hs & Hn). exists alt. split; [|done]. fold not_alt. f_equal.
  destruct (last_row main_id 0 series) as [i|] eqn:Hi; simpl; cycle 1.
  { symmetry. apply Hid, Forall_forall. intros r Hr. unfold merged_row. destruct alt; [|done].
    rewrite bool_decide_eq_false_2; [done|]. by apply (last_row_None main_id 0 series). }
  apply last_row_Some in Hi as (_ & r & Hr & Hrid). rewrite Nat.sub_0_r in Hr. rewrite Hr.
  destruct alt as [alt|]; [|symmetry; apply Hid; by apply Forall_forall].
  assert (Huniq : forall x, x ∈ series -> row_id x = main_id -> x = r).
  { intros x Hx Hxm. apply (unique_id series); [done|by eapply list_elem_of_lookup_2|done|congruence]. }
  destruct (_ && _) eqn:Hc.
  - rewrite (alter_by_id _ i r) by done. apply map_ext_in. intros x Hx%list_elem_of_In. simpl. rewrite Hrid.
    destruct (bool_decide_reflect (row_id x = main_id)) as [Hxm|]; [|done].
    simpl. by rewrite (Huniq x Hx Hxm), Hc.
  - symmetry. apply Hid, Forall_forall. intros x Hx. simpl.
    destruct (bool_decide_reflect (row_id x = main_id)) as [Hxm|]; [|done].
    simpl. by rewrite (Huniq x Hx Hxm), Hc.
Qed.

(** *** The queries *)

Lemma metric_queries_ids m period :
  map mq_Id (metric_queries m period).1 = map il_ID (metric_queries m period).2 /\
  NoDup (map il_ID (metric_queries m period).2) /\
  (main_id ∈ map il_ID (metric_queries m period).2 <-> alt_id ∈ map il_ID (metric_queries m period).2).
Proof.
  unfold metric_queries. destruct (negb (bool_decide (m_alb m = []))), (has_ecs m), (allServices m),
    (negb (bool_decide (m_cf m = []))), (negb (bool_decide (m_ec2 m = []))); simpl;
    (split; [done|]; split; [by apply (bool_decide_eq_true_1 _)|]; by apply (bool_decide_eq_true_1 _)).
Qed.

Lemma filter_map_comm {A B} (P : B -> bool) (f : A -> B) l :
  List.filter P (map f l) = map f (List.filter (fun x => P (f x)) l).
Proof. induction l as [|x l IH]; [done|]. simpl. destruct (P (f x)); simpl; by rewrite IH. Qed.

Lemma filter_map_fixed {A} (P : A -> bool) (f : A -> A) l :
  (forall x, P (f x) = P x) -> List.filter P (map f l) = map f (List.filter P l).
Proof. intros Hf. rewrite filter_map_comm. f_equal. by apply filter_ext. Qed.

Lemma merged_row_id alt r : row_id (merged_row alt r) = row_id r /\ row_label (merged_row alt r) = row_label r.
Proof. unfold merged_row. destruct alt as [alt|]; [|done]. by destruct (_ && _). Qed.

Lemma series_of_id m il : row_id (series_of m il) = il_ID il /\ row_label (series_of m il) = il_Label il.
Proof. unfold series_of. by destruct (m !! il_ID il). Qed.

(** What one label's row is, from the pages alone. *)
Definition own_row (raw : list MetricDataResult) (il : idLabel) : series_row := series_of (byID raw) il.

(** What a label's row says, from the results alone: the last result with its id. *)
Definition answer (raw : list MetricDataResult) (id : bytes) : option MetricDataResult :=
  last (List.filter (fun r => bool_decide (mr_Id r = Some id)) raw).

Definition times (a : option MetricDataResult) : list Z := from_option Timestamps [] a.
Definition values (a : option MetricDataResult) : list (Z * Z) := from_option Values [] a.
Definition points (a : option MetricDataResult) : nat := Nat.min (length (times a)) (length (values a)).

Definition status (a : option MetricDataResult) : option bytes :=
  a ≫= fun r => if bool_decide (StatusCode r = []) then None else Some (StatusCode r).

Definition messages (a : option MetricDataResult) : option (list (bytes * bytes)) :=
  a ≫= fun r =>
    if bool_decide (Messages r = []) then None
    else Some (map (fun cv => (take 128 (default [] cv.1), take 2000 (default [] cv.2))) (Messages r)).

(** As many datapoints as there are pairs, each of one timestamp and its value, in order. *)
Definition datapoints_of (a : option MetricDataResult) (l : list datapoint) : Prop :=
  length l = points a /\
  forall i t v, times a !! i = Some t -> values a !! i = Some v -> l !! i = Some (unix_seconds t, v).

Lemma own_row_says raw il :
  datapoints_of (answer raw (il_ID il)) (row_datapoints (own_row raw il)) /\
  row_status (own_row raw il) = status (answer raw (il_ID il)) /\
  row_messages (own_row raw il) = messages (answer raw (il_ID il)).
Proof.
  unfold own_row, series_of. rewrite byID_last. fold (answer raw (il_ID il)).
  unfold datapoints_of, points, times, values, status, messages.
  destruct (answer raw (il_ID il)) as [r|]; [|split; [split; [done|]|done]; intros i t v Ht; by destruct i].
  cbn [from_option row_datapoints row_status row_messages mbind option_bind]. split; [|split].
  - split; [by rewrite length_zip, length_map|]. intros i t v Ht Hv. apply lookup_zip_Some.
    by rewrite list_lookup_fmap, Ht.
  - by case_decide as Hs; [rewrite (bool_decide_eq_true_2 _ Hs)|rewrite (bool_decide_eq_false_2 _ Hs)].
  - unfold messages_of. destruct (Messages r) as [|m ms]; [done|]. rewrite bool_decide_eq_false_2 by done.
    cbn [map]. f_equal. f_equal; [|apply map_ext; intros [c v]]; destruct m as [c0 v0]; by rewrite !clip_take by lia.
Qed.

(** The contents of a row do not depend on its label. *)
Lemma series_of_same m il il' r :
  il_ID il = il_ID il' -> fill (series_of m il) r = fill (series_of m il') r /\
  row_datapoints (series_of m il) = row_datapoints (series_of m il').
Proof. unfold series_of, fill. intros ->. by destruct (m !! il_ID il'). Qed.

Lemma merged_row_spec raw labels alt il :
  (main_id ∈ map il_ID labels <-> alt_id ∈ map il_ID labels) -> il ∈ labels ->
  (forall r, alt = Some r -> r ∈ metricResultsToSeries labels raw /\ row_id r = alt_id) ->
  (alt = None -> forall r, r ∈ metricResultsToSeries labels raw -> row_id r <> alt_id) ->
  let own := own_row raw il in
  let helper := own_row raw (mkLabel alt_id []) in
  merged_row alt own =
    if bool_decide (il_ID il = main_id) && bool_decide (row_datapoints own = []) &&
       negb (bool_decide (row_datapoints helper = [])) then fill helper own else own.
Proof.
  intros Hboth Hil Hs Hn own helper. assert (Hid : row_id own = il_ID il) by apply series_of_id.
  unfold merged_row. destruct alt as [alt|].
  - destruct (Hs alt eq_refl) as [Hin Haid]. rewrite Hid.
    unfold metricResultsToSeries in Hin. apply list_elem_of_In, in_map_iff in Hin as (il' & <- & _).
    assert (Heq : il_ID il' = alt_id) by (rewrite <- Haid; symmetry; apply series_of_id).
    destruct (series_of_same (byID raw) il' (mkLabel alt_id []) own Heq) as [-> ->]. done.
  - destruct (bool_decide_reflect (il_ID il = main_id)) as [Hm|]; [|done]. exfalso.
    assert (Ha : alt_id ∈ map il_ID labels).
    { apply Hboth. rewrite <- Hm. by apply list_elem_of_fmap_2. }
    apply list_elem_of_In, in_map_iff in Ha as (il' & Hid' & Hil').
    apply (Hn eq_refl (series_of (byID raw) il')); [|rewrite <- Hid'; apply series_of_id].
    unfold metricResultsToSeries. apply list_elem_of_In, in_map_iff. by exists il'.
Qed.

Lemma no_points a l : datapoints_of a l -> bool_decide (l = []) = (points a =? 0)%nat.
Proof.
  intros [Hl _]. rewrite <- Hl. by destruct l.
Qed.

Lemma merged_row_says raw labels alt il :
  (main_id ∈ map il_ID labels <-> alt_id ∈ map il_ID labels) -> il ∈ labels ->
  (forall r, alt = Some r -> r ∈ metricResultsToSeries labels raw /\ row_id r = alt_id) ->
  (alt = None -> forall r, r ∈ metricResultsToSeries labels raw -> row_id r <> alt_id) ->
  let r := merged_row alt (own_row raw il) in
  let own := answer raw (il_ID il) in
  let helper := answer raw alt_id in
  let filled := bool_decide (il_ID il = main_id) && (points own =? 0)%nat && negb (points helper =? 0)%nat in
  datapoints_of (if filled then helper else own) (row_datapoints r) /\
  row_status r = (match status own with None => if filled then status helper else None | s => s end) /\
  row_messages r = (match messages own with None => if filled then messages helper else None | s => s end).
Proof.
  intros Hboth Hil Hs Hn r own helper filled. unfold r. rewrite (merged_row_spec raw labels) by done.
  destruct (own_row_says raw il) as (Hd & Hst & Hms).
  destruct (own_row_says raw (mkLabel alt_id [])) as (Hd' & Hst' & Hms'). cbn [il_ID] in *.
  rewrite (no_points _ _ Hd), (no_points _ _ Hd'). fold own helper filled. destruct filled.
  - unfold fill. cbn [row_datapoints row_status row_messages]. rewrite Hst, Hms, Hst', Hms'. split; [exact Hd'|].
    fold own helper. by destruct (status own), (messages own).
  - rewrite Hst, Hms. split; [exact Hd|]. fold own. by destruct (status own), (messages own).
Qed.

(** C34: the series of a metrics call, for all the targets a call can name and whatever pages come back:
    each query has one row with its id and label, in the order of the queries, the helper row
    [ecs_tasks_avg] excepted. A row comes from the last result with its id: one datapoint for each
    timestamp that has a value, in their order, of the time in seconds and the value; the status code if
    there is one; the messages if there are any, cut to 128 and 2000 bytes; and nothing of these when
    there is no such result. Only [ecs_tasks] may be filled from the helper, exactly when it has no
    datapoint of its own and the helper has one: then it has the helper's datapoints, and the helper's
    status and messages where it has none of its own. *)
Theorem metrics_series m period raw :
  let '(queries, labels) := metric_queries m period in
  let series := mergeEcsRunningTaskSeries (metricResultsToSeries labels raw) in
  map mq_Id queries = map il_ID labels /\ NoDup (map il_ID labels) /\
  map (fun r => mkLabel (row_id r) (row_label r)) series =
    List.filter (fun il => negb (bool_decide (il_ID il = str "ecs_tasks_avg"))) labels /\
  Forall (fun r =>
    let own := answer raw (row_id r) in
    let helper := answer raw (str "ecs_tasks_avg") in
    let filled :=
      bool_decide (row_id r = str "ecs_tasks") && (points own =? 0)%nat && negb (points helper =? 0)%nat in
    datapoints_of (if filled then helper else own) (row_datapoints r) /\
    row_status r = (match status own with None => if filled then status helper else None | s => s end) /\
    row_messages r = (match messages own with None => if filled then messages helper else None | s => s end)) series.
Proof.
  destruct (metric_queries m period) as [queries labels] eqn:Hq.
  pose proof (metric_queries_ids m period) as (Hids & Hnd & Hboth). rewrite Hq in Hids, Hnd, Hboth. simpl in *.
  set (rows := metricResultsToSeries labels raw).
  assert (Hrows : map row_id rows = map il_ID labels).
  { unfold rows, metricResultsToSeries. rewrite map_map. apply map_ext. intros il. apply series_of_id. }
  destruct (merge_rows rows) as (alt & Hm & Hs & Hn); [by rewrite Hrows|].
  rewrite Hm, filter_map_fixed by (intros x; by rewrite (proj1 (merged_row_id alt x))).
  unfold rows, metricResultsToSeries. rewrite filter_map_comm, map_map. split_and!; [done|done| |].
  - rewrite map_map. transitivity (map id (List.filter (fun il => not_alt (il_ID il)) labels)).
    + rewrite (filter_ext (fun x => not_alt (row_id (series_of (byID raw) x))) (fun il => not_alt (il_ID il)))
        by (intros il; by rewrite (proj1 (series_of_id _ il))).
      apply map_ext. intros il. destruct (merged_row_id alt (series_of (byID raw) il)) as [-> ->].
      destruct (series_of_id (byID raw) il) as [-> ->]. by destruct il.
    + by rewrite map_id.
  - apply Forall_map, Forall_map, Forall_forall. intros il Hil%list_elem_of_In%filter_In.
    destruct Hil as [Hil%list_elem_of_In _]. destruct (merged_row_id alt (series_of (byID raw) il)) as [-> _].
    destruct (series_of_id (byID raw) il) as [-> _].
    exact (merged_row_says raw labels alt il Hboth Hil Hs Hn).
Qed.

(** ** Pages *)

Section pages.
Context (GetMetricData : nat -> GetMetricDataInput -> go GetMetricDataOutput).
Context (queries : list MetricDataQuery) (start stop : Z).

Abbreviation request token := (mkGetMetricData queries start stop token).

Definition last_page (out : GetMetricDataOutput) : bool :=
  match NextToken out with None | Some [] => true | _ => false end.

(** A chain of answers, each asked for with the token of the one before, up to one without a token. *)
Fixpoint chain (token : option bytes) (k : nat) (outs : list GetMetricDataOutput) : Prop :=
  match outs with
  | [] => False
  | [out] => GetMetricData k (request token) = Ok out /\ last_page out = true
  | out :: rest =>
      GetMetricData k (request token) = Ok out /\ last_page out = false /\ chain (NextToken out) (S k) rest
  end.

Lemma chain_cons token k out rest :
  rest <> [] -> GetMetricData k (request token) = Ok out -> last_page out = false ->
  chain (NextToken out) (S k) rest -> chain token k (out :: rest).
Proof. by destruct rest. Qed.

Lemma pages_chain fuel token k all :
  match pages GetMetricData fuel queries start stop token k all with
  | Ok raw => exists outs, chain token k outs /\ (length outs <= fuel)%nat /\
                raw = all ++ concat (map MetricDataResults outs)
  | _ => True
  end.
Proof.
  revert token k all. induction fuel as [|fuel IH]; intros token k all; [done|]. simpl.
  destruct (GetMetricData k (request token)) as [out|e| |] eqn:Hg; simpl; [|done..].
  destruct (NextToken out) as [[|b t]|] eqn:Ht.
  - exists [out]. unfold chain, last_page. rewrite Ht. simpl. rewrite app_nil_r. split_and!; [done..|lia|done].
  - specialize (IH (Some (b :: t)) (S k) (all ++ MetricDataResults out)).
    destruct (pages _ _ _ _ _ _ _ _) as [raw|e| |]; [|done..]. destruct IH as (outs & Hc & Hl & ->).
    exists (out :: outs). split_and!; [|simpl; lia|simpl; by rewrite app_assoc].
    apply chain_cons; [by destruct outs|done|by unfold last_page; rewrite Ht|by rewrite Ht].
  - exists [out]. unfold chain, last_page. rewrite Ht. simpl. rewrite app_nil_r. split_and!; [done..|lia|done].
Qed.

(** With enough fuel for the pages there are, the loop gets all of them. *)
Lemma chain_pages outs token k fuel all :
  chain token k outs -> (length outs <= fuel)%nat ->
  pages GetMetricData fuel queries start stop token k all = Ok (all ++ concat (map MetricDataResults outs)).
Proof.
  revert token k fuel all. induction outs as [|out outs IH]; intros token k fuel all Hc Hf; [done|].
  destruct fuel as [|fuel]; [simpl in Hf; lia|]. simpl in Hf.
  destruct outs as [|out' outs]; simpl.
  - destruct Hc as [-> Hl]. unfold last_page in Hl. simpl. rewrite app_nil_r.
    by destruct (NextToken out) as [[|b t]|].
  - destruct Hc as (-> & Hl & Hc). unfold last_page in Hl. simpl.
    destruct (NextToken out) as [[|b t]|]; try done. rewrite (IH (Some (b :: t)) (S k)) by (done || lia).
    simpl. by rewrite <- app_assoc.
Qed.

(** C36: the paginated read is complete: it returns results if and only if the service hands out a finite
    chain of pages, each requested with the token of the one before (the first with none, the last
    carrying none), with the same queries and window; and the results are those of all the pages in
    order. *)
Theorem pages_complete raw fuel :
  let got := getMetricDataPaginated GetMetricData fuel queries start stop in
  (got = Ok raw <->
   exists outs, chain None 0 outs /\ (length outs <= fuel)%nat /\ raw = concat (map MetricDataResults outs)).
Proof.
  unfold getMetricDataPaginated. split.
  - intros Hg. pose proof (pages_chain fuel None 0 []) as Hp. by rewrite Hg in Hp.
  - intros (outs & Hc & Hl & ->). by rewrite (chain_pages outs).
Qed.

End pages.

(** ** The ECS snapshot *)

Lemma batches_spec fuel l :
  (length l <= fuel)%nat ->
  concat (batches fuel l) = l /\ Forall (fun b => (1 <= length b <= 10)%nat) (batches fuel l).
Proof.
  revert l. induction fuel as [|fuel IH]; intros [|x l] Hl; simpl in *; try (split; [done|constructor]); [lia|].
  destruct (IH (drop 9 l)) as [Hc Hf]; [rewrite length_drop; lia|]. split.
  - rewrite Hc. change (x :: take 9 l ++ drop 9 l = x :: l). by rewrite take_drop.
  - constructor; [|done]. simpl. rewrite length_take. lia.
Qed.

Section snapshot.
Context (DescribeTargetGroups : list bytes -> go (option (list (list bytes)))).
Context (ListTasks : ListTasksInput -> go (option (list bytes))).
Context (DescribeTasks : bytes -> list bytes -> go (option (list Task))).

Lemma batch_dims_spec batch dim :
  dim ∈ batch_dims DescribeTargetGroups batch <->
  dim <> [] /\ exists groups arns arn, DescribeTargetGroups batch = Ok (Some groups) /\
    arns ∈ groups /\ arn ∈ arns /\ albDimensionFromARN arn = dim.
Proof.
  unfold batch_dims. rewrite list_elem_of_In.
  destruct (DescribeTargetGroups batch) as [[groups|]|e| |]; try (split; [done|]; by intros (_ & ? & ? & ? & [=] & _)).
  rewrite filter_In, in_map_iff, negb_true_iff, bool_decide_eq_false. split.
  - intros [(arn & <- & Hin) Hne]. split; [done|]. apply in_concat in Hin as (arns & Harns & Harn).
    exists groups, arns, arn. by rewrite !list_elem_of_In.
  - intros (Hne & groups' & arns & arn & [= <-] & Harns & Harn & Heq). split; [|done]. exists arn.
    split; [done|]. apply in_concat. exists arns. by rewrite <- !list_elem_of_In.
Qed.

(** The load-balancer dimensions of a service: the target groups are asked about once each, in
    batches of at most ten that cover them all; the dimensions are sorted, without repetition, and are
    exactly those of the application load balancers of the batches that answered: a failed batch loses
    only its own. *)
Theorem alb_dimensions s :
  let arns := tgArns s in
  let asked := batches (length arns) arns in
  let dims := albDimensionsFromService DescribeTargetGroups s in
  increasing arns /\ concat asked = arns /\ Forall (fun b => (1 <= length b <= 10)%nat) asked /\
  increasing dims /\
  (forall dim, dim ∈ dims <->
     dim <> [] /\ exists batch groups lbs arn, batch ∈ asked /\ DescribeTargetGroups batch = Ok (Some groups) /\
       lbs ∈ groups /\ arn ∈ lbs /\ albDimensionFromARN arn = dim).
Proof.
  intros arns asked dims. destruct (batches_spec (length arns) arns) as [Hc Hf]; [done|].
  unfold dims, albDimensionsFromService, arns, tgArns, sortedUnique at 1.
  split_and!; [apply sort_keys_spec|done|done|apply sort_keys_spec|].
  intros dim. rewrite (proj2 (sort_keys_spec _)), list_elem_of_In, in_concat. split.
  - intros (l & Hl%in_map_iff & Hd). destruct Hl as (batch & <- & Hb).
    apply list_elem_of_In, batch_dims_spec in Hd as (Hne & groups & lbs & arn & Hr). split; [done|].
    exists batch, groups, lbs, arn. split; [by apply list_elem_of_In|done].
  - intros (Hne & batch & groups & lbs & arn & Hb & Hr). exists (batch_dims DescribeTargetGroups batch).
    split; [apply in_map; by apply list_elem_of_In|]. apply list_elem_of_In, batch_dims_spec. split; [done|].
    by exists groups, lbs, arn.
Qed.

Definition stopped_at (row : list (bytes * json)) : bytes := toStr (field (str "stopped_at") row).

Lemma later_trans : forall x y z, later x y = true -> later y z = true -> later x z = true.
Proof. unfold later. intros x y z H1 H2. by eapply string_lt_trans. Qed.

Lemma later_neg : forall x y z, later y x = false -> later z y = false -> later z x = false.
Proof. unfold later. intros x y z H1 H2. by eapply string_lt_neg. Qed.

(** The stopped tasks: those described, at most ten asked for, the latest first, ties as they came. *)
Definition stopped_rows (cluster service : bytes) (rows : list (list (bytes * json))) : Prop :=
  StronglySorted (fun a b => string_lt (stopped_at a) (stopped_at b) = false) rows /\
  match ListTasks (mkListTasks cluster service (str "STOPPED") 8) with
  | Ok (Some arns) =>
      match DescribeTasks cluster (take 10 arns) with
      | Ok (Some tasks) =>
          if decide (arns = []) then rows = []
          else rows ≡ₚ map task_row tasks /\
            forall t, List.filter (fun r => bool_decide (stopped_at r = t)) rows =
                      List.filter (fun r => bool_decide (stopped_at r = t)) (map task_row tasks)
      | _ => rows = []
      end
  | _ => rows = []
  end.

Lemma recentStoppedTasks_spec cluster service :
  stopped_rows cluster service (recentStoppedTasks ListTasks DescribeTasks cluster service).
Proof.
  unfold stopped_rows, recentStoppedTasks. destruct (ListTasks _) as [[arns|]|e| |]; try (split; [constructor|done]).
  assert (Ht : (if decide (10 < length arns)%nat then take 10 arns else arns) = take 10 arns)
    by (case_decide; [done|rewrite take_ge by lia; done]).
  rewrite Ht. destruct (decide (arns = [])) as [Hnil|Hnil].
  - split; [constructor|]. by destruct (DescribeTasks cluster (take 10 arns)) as [[tasks|]|e| |].
  - destruct (DescribeTasks cluster (take 10 arns)) as [[tasks|]|e| |]; try (split; [constructor|done]). split.
    + apply (SliceStable_sorted later); [|exact later_trans|exact later_neg].
      intros x. apply string_lt_irrefl.
    + split; [apply SliceStable_perm|]. intros t. apply SliceStable_stable.
      intros a b Ha%bool_decide_eq_true Hb%bool_decide_eq_true. unfold later. fold (stopped_at a) (stopped_at b).
      rewrite Ha, Hb. apply string_lt_irrefl.
Qed.

Context (DescribeServices : bytes -> bytes -> go (option (list Service))).

(** The snapshot of a service: nothing without a cluster, a service or an answer; otherwise the
    counts of the first service described, its deployments in order, at most its first 18 events, and
    the stopped tasks that were described, each once, the most recent first and ties in the order
    received. *)
Theorem ecs_snapshot cluster service :
  match runEcsServiceSnapshot DescribeServices DescribeTargetGroups ListTasks DescribeTasks cluster service with
  | None =>
      TrimSpace cluster = [] \/ TrimSpace service = [] \/
      ~ exists s rest, DescribeServices (TrimSpace cluster) (TrimSpace service) = Ok (Some (s :: rest))
  | Some snap =>
      exists s rest rows,
        DescribeServices (TrimSpace cluster) (TrimSpace service) = Ok (Some (s :: rest)) /\
        field (str "running") snap = Some (JNum (s_RunningCount s) 0) /\
        field (str "desired") snap = Some (JNum (s_DesiredCount s) 0) /\
        field (str "pending") snap = Some (JNum (s_PendingCount s) 0) /\
        field (str "deployments") snap = Some (JArr (map deployment_row (s_Deployments s))) /\
        (exists evs, field (str "events") snap = Some (JArr (map event_row evs)) /\
           evs `prefix_of` s_Events s /\ length evs = Nat.min 18 (length (s_Events s))) /\
        field (str "recent_stopped_tasks") snap = Some (JArr (map JObj rows)) /\
        stopped_rows (TrimSpace cluster) (TrimSpace service) rows
  end.
Proof.
  unfold runEcsServiceSnapshot. cbv zeta. case_decide as Hne; [destruct Hne; auto|].
  destruct (DescribeServices _ _) as [[[|s rest]|]|e| |] eqn:Hd;
    try (right; right; by intros (? & ? & [=])).
  eexists s, rest, _. split_and!; [done|done|done|done|done| |done|apply recentStoppedTasks_spec].
  exists (take 18 (s_Events s)). split_and!; [done|apply prefix_take|by rewrite length_take].
Qed.

End snapshot.

(** ** What the edge registers *)

(** A result that says how it went and which tool it is. *)
Definition reports (tool : bytes) (res : Result) : Prop :=
  (exists b, res !! str "ok" = Some (JBool b)) /\ res !! str "tool" = Some (JStr tool).

Ltac read_key := repeat (rewrite lookup_insert_eq || rewrite lookup_insert_ne by done).

Lemma ErrorResult_reports tool e : reports tool (ErrorResult tool e).
Proof. unfold reports, ErrorResult. split; [eexists|]; by read_key. Qed.

Lemma logsResult_reports query groups minutes out : reports logs_tool (logsResult query groups minutes out).
Proof. unfold reports, logsResult. split; [eexists|]; by read_key. Qed.

Lemma metrics_result_reports minutes period region series counts :
  reports metrics_tool (metrics_result minutes period region series counts).
Proof. unfold reports, metrics_result. split; [eexists|]; by read_key. Qed.

#[local] Hint Resolve ErrorResult_reports logsResult_reports metrics_result_reports : core.

Lemma poll_reports get checked paused cancelled fuel o queryID query groups minutes deadline k :
  match (poll get checked paused cancelled fuel o queryID query groups minutes deadline k).1 with
  | Ok r => reports logs_tool r
  | Err _ => False
  | _ => True
  end.
Proof.
  revert k. induction fuel as [|fuel IH]; intros k; simpl; [done|].
  destruct (get k queryID) as [out|e| |]; simpl; auto. repeat case_decide; simpl; auto.
  destruct (deadline <? checked k); simpl; auto. destruct (cancelled k); simpl; auto.
  specialize (IH (S k)). by destruct (poll _ _ _ _ fuel _ _ _ _ _ _ (S k)) as [r pauses].
Qed.

Lemma cli_reports `{Unicode} Environ Retrieve Run o args :
  reports (str "aws_readonly_cli") (RunReadOnlyCLI Environ Retrieve Run o args).1.
Proof.
  assert (Hr : forall command e, reports (str "aws_readonly_cli") (refused command e)).
  { intros. unfold reports, refused. split; [eexists|]; by read_key. }
  assert (He : forall o command region code p, reports (str "aws_readonly_cli") (executed o command region code p)).
  { intros. unfold reports, executed. split; [eexists|]; by read_key. }
  unfold RunReadOnlyCLI. destruct (ValidateReadOnlyAWSCommand _) as [[] ?]; simpl; auto.
  destruct (SplitCommand _) as [[|t0 [|a0 rest]]| | |]; simpl; auto. case_decide; simpl; auto.
  destruct (cliEnv _ _ _ _); simpl; auto. destruct (exit _) as [[code|e]|]; simpl; auto.
  destruct (timed_out _); simpl; auto.
Qed.

Section registered.
Context `{Unicode} (out_of_range : Z -> Z -> Z) {AWSConfig : Type}.
Context (LoadDefaultConfig : option bytes -> go AWSConfig).
Context (AssumeRole : AWSConfig -> bytes -> bytes -> option bytes -> AWSConfig).
Context (GetMetricData : AWSConfig -> nat -> GetMetricDataInput -> go GetMetricDataOutput).
Context (DescribeServices : AWSConfig -> bytes -> bytes -> go (option (list Service))).
Context (DescribeTargetGroups : AWSConfig -> list bytes -> go (option (list (list bytes)))).
Context (ListTasks : AWSConfig -> ListTasksInput -> go (option (list bytes))).
Context (DescribeTasks : AWSConfig -> bytes -> list bytes -> go (option (list Task))).
Context (StartQuery : AWSConfig -> StartQueryInput -> go (option bytes)).
Context (GetQueryResults : AWSConfig -> nat -> bytes -> go QueryResults).
Context (checked paused : nat -> Z) (cancelled : nat -> bool).
Context (Environ : list bytes) (Retrieve : go Credentials).
Context (Run : bytes -> list bytes -> list bytes -> process).

Definition aws_tools : list bytes := [str "aws_readonly_cli"; logs_tool; metrics_tool].

(** What a handler may do. *)
Definition handler_ok (name : bytes) (h : Handler) : Prop :=
  forall args, match h args with
    | Ok (Some res) => reports name res
    | Ok None | Err _ => False
    | _ => True
    end.

Lemma metrics_handler_ok fuel o now now2 :
  handler_ok metrics_tool
    (handler (CloudWatchMetrics out_of_range LoadDefaultConfig AssumeRole GetMetricData DescribeServices
       DescribeTargetGroups ListTasks DescribeTasks fuel o now now2)).
Proof.
  intros args. unfold handler, CloudWatchMetrics. cbv zeta.
  destruct (invalid_targets _); [simpl; auto|]. destruct (metric_queries _ _) as [queries labels].
  destruct (loadConfig _ _ _ _) as [cfg|e| |]; [|simpl; auto..].
  destruct (metricsTimeWindow _ _ _ _) as [s e].
  destruct (getMetricDataPaginated _ _ _ _ _); simpl; auto.
Qed.

Lemma logs_handler_ok o now started :
  handler_ok logs_tool
    (handler (CloudWatchLogsInsights out_of_range LoadDefaultConfig AssumeRole StartQuery GetQueryResults
       checked paused cancelled o now started)).
Proof.
  intros args. unfold handler, CloudWatchLogsInsights. destruct (loadConfig _ _ _ _) as [cfg|e| |]; simpl; auto.
  unfold runLogsInsights. case_decide; simpl; auto. case_decide; simpl; auto.
  destruct (StartQuery _ _) as [id|e| |]; simpl; auto.
  pose proof (poll_reports (GetQueryResults cfg) checked paused cancelled (poll_fuel o) o (ToString id)
    (strArg args (str "query"))
    (if decide (strArg args (str "log_group") = []) then stringList (field (str "log_groups") args)
     else stringList (field (str "log_groups") args) ++ [strArg args (str "log_group")])
    (lookback out_of_range logsDefaultLookbackMin logsMaxLookbackMin args) (started + LogsMaxWait o) 0) as Hp.
  destruct (poll _ _ _ _ _ _ _ _ _ _ _ _) as [[r|e| |] pauses]; simpl in *; auto.
Qed.

(** The defaults that [Dispatch] sets do not change a result that reports. *)
Lemma handled name h args P :
  handler_ok name h -> name ∈ aws_tools ->
  match (match h args with
         | Ok res => Ok (set_default (str "ok") (JBool true) (set_default (str "tool") (JStr name) (default ∅ res)))
         | Err e => Ok (ErrorResult name e)
         | Panic => Panic
         | NoFuel => NoFuel
         end) with
  | Ok res => reports name res /\ (name ∉ aws_tools -> P res)
  | Err _ => False
  | _ => name ∈ aws_tools
  end.
Proof.
  intros Hh Hin. specialize (Hh args). destruct (h args) as [[res|]|e| |]; try done.
  destruct Hh as [[b Hok] Ht]. simpl. unfold set_default. rewrite Ht, Hok. split; [|done].
  split; [by exists b|done].
Qed.

(** The registry of the edge: it knows the three AWS tools and no other; every call that is dispatched
    is answered with a result, never an error, which states whether it succeeded and the name of the tool
    that was called, and a call to anything else is refused. *)
Theorem edge_tools opts fuel now now2 started :
  match awsexec_Register out_of_range LoadDefaultConfig AssumeRole GetMetricData DescribeServices
          DescribeTargetGroups ListTasks DescribeTasks StartQuery GetQueryResults checked paused cancelled
          Environ Retrieve Run NewRegistry opts fuel now now2 started with
  | Ok reg =>
      (forall name, Has name reg = true <-> name ∈ aws_tools) /\
      (forall call, match Dispatch reg call with
         | Ok res => reports (c_Name call) res /\
             (c_Name call ∉ aws_tools ->
              res = ErrorResult (c_Name call) (EFmt "tool %q is not handled at the edge" [c_Name call]))
         | Err _ => False
         | _ => c_Name call ∈ aws_tools
         end)
  | _ => False
  end.
Proof.
  unfold awsexec_Register, Register. rewrite !decide_False by done. cbn [gbind handlers NewRegistry].
  set (hc := handler (fun args => Ok (RunReadOnlyCLI _ _ _ _ args).1)).
  set (hl := handler (CloudWatchLogsInsights _ _ _ _ _ _ _ _ _ _ _)).
  set (hm := handler (CloudWatchMetrics _ _ _ _ _ _ _ _ _ _ _ _)).
  assert (Hh : forall name, (<[metrics_tool := hm]> (<[logs_tool := hl]> (<[str "aws_readonly_cli" := hc]> (∅ : gmap bytes Handler)))) !! name =
    if decide (name = metrics_tool) then Some hm else if decide (name = logs_tool) then Some hl
    else if decide (name = str "aws_readonly_cli") then Some hc else None).
  { intros name. repeat case_decide; subst; by read_key. }
  assert (Hok : handler_ok metrics_tool hm /\ handler_ok logs_tool hl /\ handler_ok (str "aws_readonly_cli") hc).
  { split_and!; [apply metrics_handler_ok|apply logs_handler_ok|]. intros args. apply cli_reports. }
  destruct Hok as (Hm & Hl & Hc). unfold aws_tools. split.
  - intros name. unfold Has. cbn [handlers]. rewrite bool_decide_eq_true. change (str "cloudwatch_metrics") with metrics_tool.
    change (str "cloudwatch_logs_insights") with logs_tool. rewrite Hh. repeat case_decide; subst.
    + split; [set_solver|by eexists].
    + split; [set_solver|by eexists].
    + split; [set_solver|by eexists].
    + split; [by intros [? [=]]|set_solver].
  - intros [name args]. unfold Dispatch. cbn [handlers c_Name Arguments].
    change (str "cloudwatch_metrics") with metrics_tool. change (str "cloudwatch_logs_insights") with logs_tool.
    rewrite Hh. repeat case_decide; subst; [eapply handled; [done|set_solver]..|].
    split; [apply ErrorResult_reports|done].
Qed.

End registered.
