(* ===== verification/Config.v ===== *)
(** * The configuration (internal/config/config.go)

    The three configurations and how they are read from the environment. [Getenv] and [ReadFile] are
    the operating system, the [unmarshal_*] functions the JSON decoders at the three types. A map is
    an association list without repeated keys, in the order its iteration visits it. *)
From S2P Require Import Prelude Go GoStr Tunnel.
Open Scope Z_scope.

Definition ModeListener : bytes := str "listener".
Definition ModeTunnel : bytes := str "tunnel".

(** ** Agent *)

Record Agent := mkAgent {
  Mode : bytes;
  DBType : bytes; ListenAddr : bytes; UpstreamAddr : bytes;
  GatewayAddr : bytes; AgentID : bytes; OrgID : bytes; Token : bytes; Targets : list Target;
  MaskAnalyzeURL : bytes; MaskAnonymizeURL : bytes; MaskLanguage : bytes;
  PIIOverlay : list (bytes * bytes);
  PIIOverlayURL : bytes; PIIOverlayToken : bytes; PIIOverlayPollSeconds : Z;
  InjectCredentials : bool; CredentialExchangeURL : bytes; CredentialExchangeToken : bytes;
  ClientTLSCertPEM : bytes; ClientTLSKeyPEM : bytes; ClientTLSSelfSigned : bool;
  UpstreamTLSMode : bytes; UpstreamTLSCAPEM : bytes; UpstreamTLSServerName : bytes;
}.

(** [len(p) > 0] *)
Definition nonempty {A} (p : list A) : bool := 0 <? zlen p.

Definition ClientTLSConfigured (a : Agent) : bool :=
  nonempty (ClientTLSCertPEM a) && nonempty (ClientTLSKeyPEM a) || ClientTLSSelfSigned a.

(** The spellings of [disable]. *)
Definition disabled_modes : list bytes := map str [""; "disable"; "disabled"; "off"; "false"]%string.

(** [Agent.TargetByName] *)
Fixpoint target_by_name (name : bytes) (ts : list Target) : option Target :=
  match ts with
  | [] => None
  | t :: rest => if decide (t_Name t = name) then Some t else target_by_name name rest
  end.
Definition TargetByName (a : Agent) (name : bytes) : option Target := target_by_name name (Targets a).

(** ** Edge and gateway *)

Record Edge := mkEdge {
  e_GatewayAddr : bytes; e_TenantID : bytes; e_EdgeID : bytes; e_Token : bytes; e_Insecure : bool;
  e_CABundle : bytes; e_TLSDir : bytes; e_EnrollTarget : bytes; e_EnrollToken : bytes;
  e_TrustDomain : bytes;
  e_AWSRegion : bytes; e_AWSAssumeRoleARN : bytes; e_AWSExternalID : bytes; e_AWSBinary : bytes;
  e_WireProxy : Agent;
}.

Definition WireProxyEnabled (e : Edge) : bool :=
  let w := e_WireProxy e in
  if decide (Mode w = ModeTunnel) then negb (bool_decide (GatewayAddr w = [])) && nonempty (Targets w)
  else negb (bool_decide (UpstreamAddr w = [])).

Record ClientListener := mkListener { l_Addr : bytes; l_Target : bytes }.

Record Gateway := mkGatewayCfg {
  g_AgentListen : bytes; g_AuthToken : bytes; g_Clients : list ClientListener;
  g_ControlPlaneURL : bytes; g_ControlPlaneToken : bytes; g_SessionPath : bytes;
}.

Section load.
Context `{Unicode}.

Definition UpstreamTLSEnabled (a : Agent) : bool :=
  negb (bool_decide (ToLower (TrimSpace (UpstreamTLSMode a)) ∈ disabled_modes)).

Definition truthy (v : bytes) : bool :=
  bool_decide (ToLower (TrimSpace v) ∈ map str ["1"; "true"; "yes"; "on"]%string).

Definition atoiDefault (raw : bytes) (def : Z) : Z :=
  let raw := TrimSpace raw in
  if decide (raw = []) then def else default def (Atoi raw).

Definition defaultListen (dbType : bytes) : bytes :=
  if decide (dbType = str "mysql") then str ":13306"
  else if decide (dbType = str "mongodb" \/ dbType = str "mongo") then str ":27018"
  else str ":15432".

Context (Getenv : bytes -> bytes) (ReadFile : bytes -> option bytes).
Context (unmarshal_targets : bytes -> option (list Target)).
Context (unmarshal_overlay : bytes -> option (list (bytes * bytes))).
Context (unmarshal_clients : bytes -> option (list ClientListener)).

Definition env (key : string) (def : bytes) : bytes :=
  let v := TrimSpace (Getenv (str key)) in
  if decide (v = []) then def else v.

Definition pemFromEnv (inlineKey fileKey : string) : bytes :=
  let inline := TrimSpace (Getenv (str inlineKey)) in
  if decide (inline <> []) then inline
  else
    let path := TrimSpace (Getenv (str fileKey)) in
    if decide (path = []) then [] else default [] (ReadFile path).

Definition parseClients (raw : bytes) : list ClientListener :=
  let raw := TrimSpace raw in
  if decide (raw = []) then [] else default [] (unmarshal_clients raw).

Definition lower_dbtype (t : Target) : Target :=
  mkTarget (t_Name t) (t_Addr t) (ToLower (t_DBType t)) (t_ResourceRoleID t) (t_ActorEmail t).

Definition parseTargets (raw : bytes) : list Target :=
  let raw := TrimSpace raw in
  if decide (raw = []) then []
  else match unmarshal_targets raw with Some ts => map lower_dbtype ts | None => [] end.

Definition parseOverlay (raw : bytes) : list (bytes * bytes) :=
  let raw := TrimSpace raw in
  if decide (raw = []) then [] else default [] (unmarshal_overlay raw).

Definition LoadAgent : Agent :=
  let dbType := ToLower (env "SKYBRIDGE_DB_TYPE" (str "postgres")) in
  {| Mode := ToLower (env "SKYBRIDGE_MODE" ModeListener);
     DBType := dbType;
     ListenAddr := env "SKYBRIDGE_LISTEN" (defaultListen dbType);
     UpstreamAddr := env "SKYBRIDGE_UPSTREAM" [];
     GatewayAddr := env "SKYBRIDGE_GATEWAY" [];
     AgentID := env "SKYBRIDGE_AGENT_ID" [];
     OrgID := env "SKYBRIDGE_ORG_ID" [];
     Token := env "SKYBRIDGE_TOKEN" [];
     Targets := parseTargets (env "SKYBRIDGE_TARGETS" []);
     MaskAnalyzeURL := env "SKYBRIDGE_MASK_ANALYZE_URL" [];
     MaskAnonymizeURL := env "SKYBRIDGE_MASK_ANONYMIZE_URL" [];
     MaskLanguage := env "SKYBRIDGE_MASK_LANGUAGE" (str "en");
     PIIOverlay := parseOverlay (env "SKYBRIDGE_PII_OVERLAY" []);
     PIIOverlayURL := env "SKYBRIDGE_PII_OVERLAY_URL" [];
     PIIOverlayToken := env "SKYBRIDGE_PII_OVERLAY_TOKEN" (env "SKYBRIDGE_TOKEN" []);
     PIIOverlayPollSeconds := atoiDefault (env "SKYBRIDGE_PII_OVERLAY_POLL_SECONDS" []) 60;
     InjectCredentials := truthy (env "SKYBRIDGE_INJECT_CREDENTIALS" []);
     CredentialExchangeURL := env "SKYBRIDGE_CREDENTIAL_EXCHANGE_URL" [];
     CredentialExchangeToken := env "SKYBRIDGE_CREDENTIAL_EXCHANGE_TOKEN" (env "SKYBRIDGE_TOKEN" []);
     ClientTLSCertPEM := pemFromEnv "SKYBRIDGE_CLIENT_TLS_CERT_PEM" "SKYBRIDGE_CLIENT_TLS_CERT_FILE";
     ClientTLSKeyPEM := pemFromEnv "SKYBRIDGE_CLIENT_TLS_KEY_PEM" "SKYBRIDGE_CLIENT_TLS_KEY_FILE";
     ClientTLSSelfSigned := truthy (env "SKYBRIDGE_CLIENT_TLS_SELF_SIGNED" []);
     UpstreamTLSMode := ToLower (env "SKYBRIDGE_UPSTREAM_TLS" []);
     UpstreamTLSCAPEM := pemFromEnv "SKYBRIDGE_UPSTREAM_TLS_CA_PEM" "SKYBRIDGE_UPSTREAM_TLS_CA_FILE";
     UpstreamTLSServerName := env "SKYBRIDGE_UPSTREAM_TLS_SERVER_NAME" [] |}.

Definition LoadEdge : Edge :=
  {| e_GatewayAddr := env "SKYBRIDGE_EDGE_GATEWAY" (env "SKYBRIDGE_GATEWAY" []);
     e_TenantID := env "SKYBRIDGE_ORG_ID" [];
     e_EdgeID := env "SKYBRIDGE_EDGE_ID" (env "SKYBRIDGE_AGENT_ID" []);
     e_Token := env "SKYBRIDGE_TOKEN" [];
     e_Insecure := truthy (env "SKYBRIDGE_EDGE_INSECURE" []);
     e_CABundle := pemFromEnv "SKYBRIDGE_CA_BUNDLE_PEM" "SKYBRIDGE_CA_BUNDLE_FILE";
     e_TLSDir := env "SKYBRIDGE_TLS_DIR" [];
     e_EnrollTarget := env "SKYBRIDGE_ENROLL_GATEWAY" [];
     e_EnrollToken := env "SKYBRIDGE_ENROLLMENT_TOKEN" [];
     e_TrustDomain := env "SKYBRIDGE_SPIFFE_TRUST_DOMAIN" [];
     e_AWSRegion := env "SKYBRIDGE_AWS_REGION" [];
     e_AWSAssumeRoleARN := env "SKYBRIDGE_AWS_ASSUME_ROLE_ARN" [];
     e_AWSExternalID := env "SKYBRIDGE_AWS_EXTERNAL_ID" [];
     e_AWSBinary := env "SKYBRIDGE_AWS_BINARY" [];
     e_WireProxy := LoadAgent |}.

Definition LoadGateway : Gateway :=
  {| g_AgentListen := env "SKYBRIDGE_GW_AGENT_LISTEN" (str ":8010");
     g_AuthToken := env "SKYBRIDGE_GW_TOKEN" [];
     g_Clients := parseClients (env "SKYBRIDGE_GW_CLIENTS" []);
     g_ControlPlaneURL := env "SKYBRIDGE_GW_CONTROL_PLANE_URL" [];
     g_ControlPlaneToken := env "SKYBRIDGE_GW_CONTROL_PLANE_TOKEN" [];
     g_SessionPath :=
       env "SKYBRIDGE_GW_SESSION_PATH" (str "/api/v1/data-studio/studio/native-sessions") |}.

End load.
