(* ===== verification/ConfigProps.v ===== *)
(** * What every configuration read from an environment satisfies *)
From S2P Require Import Prelude Go GoStr Tunnel Config.
Open Scope Z_scope.

(** ** Trimming twice *)

Lemma strip_rune_Some pats s t :
  strip_rune pats s = Some t -> exists p, p ∈ pats /\ s = p ++ t.
Proof.
  induction pats as [|p ps IH]; simpl; [done|]. destruct (HasPrefix s p) eqn:Hp.
  - intros [= <-]. apply HasPrefix_spec in Hp as [t ->]. exists p. rewrite drop_app_length. set_solver.
  - intros (q & ? & ?)%IH. exists q. set_solver.
Qed.

Lemma strip_rune_None pats s : strip_rune pats s = None <-> forall p t, p ∈ pats -> s <> p ++ t.
Proof.
  induction pats as [|p ps IH]; simpl; [set_solver|]. destruct (HasPrefix s p) eqn:Hp.
  - apply HasPrefix_spec in Hp as [t ->]. split; [done|]. intros Hn. by destruct (Hn p t); [set_solver|].
  - rewrite IH. split; [|set_solver]. intros Hn q t [->|?]%elem_of_cons; [|by apply Hn].
    intros ->. assert (HasPrefix (p ++ t) p = true); [apply HasPrefix_spec; eauto|congruence].
Qed.

(** The runes of [pats] are not empty, so the loop's fuel is enough. *)
Lemma strip_runes_spec pats fuel : forall s, [] ∉ pats -> (length s <= fuel)%nat ->
  strip_rune pats (strip_runes fuel pats s) = None /\ exists pre, s = pre ++ strip_runes fuel pats s.
Proof.
  induction fuel as [|k IH]; intros s Hne Hl; cbn [strip_runes].
  - destruct s; [|simpl in Hl; lia]. split; [|by exists []]. apply strip_rune_None.
    intros p t Hp Hs. symmetry in Hs. apply app_eq_nil in Hs as [-> _]. done.
  - destruct (strip_rune pats s) as [t|] eqn:Hs; [|split; [done|by exists []]].
    apply strip_rune_Some in Hs as (p & Hp & ->). rewrite length_app in Hl.
    assert (p <> []) by (by intros ->). destruct p as [|c p]; [done|]. simpl in Hl.
    destruct (IH t Hne ltac:(lia)) as [Hn [pre Hpre]]. split; [done|]. exists ((c :: p) ++ pre).
    by rewrite <- app_assoc, <- Hpre.
Qed.

Lemma strip_runes_none fuel pats s : strip_rune pats s = None -> strip_runes fuel pats s = s.
Proof. intros Hs. destruct fuel; [done|]. simpl. by rewrite Hs. Qed.

Lemma space_runes_nonempty : [] ∉ space_runes.
Proof. apply (bool_decide_unpack _). vm_compute. exact I. Qed.

Lemma rev_space_runes_nonempty : [] ∉ map reverse space_runes.
Proof. apply (bool_decide_unpack _). vm_compute. exact I. Qed.

Lemma TrimSpace_idem s : TrimSpace (TrimSpace s) = TrimSpace s.
Proof.
  unfold TrimSpace, TrimLeftSpace, TrimRightSpace.
  destruct (strip_runes_spec space_runes (length s) s space_runes_nonempty (le_n _)) as [Hl _].
  set (l := strip_runes (length s) space_runes s) in *.
  destruct (strip_runes_spec (map reverse space_runes) (length l) (reverse l) rev_space_runes_nonempty)
    as [Hr [pre Hpre]]; [by rewrite length_reverse|].
  set (r := strip_runes (length l) (map reverse space_runes) (reverse l)) in *.
  rewrite (strip_runes_none _ space_runes (reverse r)).
  - rewrite reverse_involutive. by rewrite strip_runes_none.
  - apply strip_rune_None. intros p t Hp Heq.
    apply (proj1 (strip_rune_None space_runes l) Hl p (t ++ reverse pre) Hp).
    by rewrite <- (reverse_involutive l), Hpre, reverse_app, Heq, app_assoc.
Qed.

(** ** Loading *)

(** What the fields of a configuration are, of whatever environment it came from. *)
Section fields.
Context `{Unicode} (Getenv : bytes -> bytes) (ReadFile : bytes -> option bytes).
Context (targets : bytes -> option (list Target)) (overlay : bytes -> option (list (bytes * bytes))).

(** A variable without the blanks around it; a blank variable counts as an unset one. *)
Definition value (key : string) : bytes := TrimSpace (Getenv (str key)).
Definition or_default (key : string) (def : bytes) : bytes := if bool_decide (value key = []) then def else value key.

(** A PEM block given inline loses the blanks around it, one given as a file is the file, unchanged. *)
Definition pem_of (inline file : string) : bytes :=
  match value inline, value file with
  | [], [] => []
  | [], path => default [] (ReadFile path)
  | v, _ => v
  end.

Definition switched_on (key : string) : bool :=
  bool_decide (ToLower (value key) ∈ [str "1"; str "true"; str "yes"; str "on"]).

Record agent_wf (a : Agent) : Prop := {
  wf_trimmed : Forall (fun s => TrimSpace s = s)
    [ListenAddr a; UpstreamAddr a; GatewayAddr a; AgentID a; OrgID a; Token a; MaskAnalyzeURL a;
     MaskAnonymizeURL a; MaskLanguage a; PIIOverlayURL a; PIIOverlayToken a; CredentialExchangeURL a;
     CredentialExchangeToken a; UpstreamTLSServerName a];
  wf_plain : Forall (fun fk => fk.1 = value fk.2)
    [(UpstreamAddr a, "SKYBRIDGE_UPSTREAM"); (GatewayAddr a, "SKYBRIDGE_GATEWAY"); (AgentID a, "SKYBRIDGE_AGENT_ID");
     (OrgID a, "SKYBRIDGE_ORG_ID"); (Token a, "SKYBRIDGE_TOKEN"); (MaskAnalyzeURL a, "SKYBRIDGE_MASK_ANALYZE_URL");
     (MaskAnonymizeURL a, "SKYBRIDGE_MASK_ANONYMIZE_URL"); (PIIOverlayURL a, "SKYBRIDGE_PII_OVERLAY_URL");
     (CredentialExchangeURL a, "SKYBRIDGE_CREDENTIAL_EXCHANGE_URL");
     (UpstreamTLSServerName a, "SKYBRIDGE_UPSTREAM_TLS_SERVER_NAME")]%string;
  wf_lower :
    Mode a = ToLower (or_default "SKYBRIDGE_MODE" (str "listener")) /\
    DBType a = ToLower (or_default "SKYBRIDGE_DB_TYPE" (str "postgres")) /\
    UpstreamTLSMode a = ToLower (value "SKYBRIDGE_UPSTREAM_TLS");
  wf_listen : ListenAddr a = or_default "SKYBRIDGE_LISTEN"
    (if decide (DBType a = str "mysql") then str ":13306"
     else if decide (DBType a ∈ [str "mongodb"; str "mongo"]) then str ":27018" else str ":15432");
  wf_language : MaskLanguage a = or_default "SKYBRIDGE_MASK_LANGUAGE" (str "en");
  wf_tokens :
    PIIOverlayToken a = or_default "SKYBRIDGE_PII_OVERLAY_TOKEN" (Token a) /\
    CredentialExchangeToken a = or_default "SKYBRIDGE_CREDENTIAL_EXCHANGE_TOKEN" (Token a);
  wf_pems :
    ClientTLSCertPEM a = pem_of "SKYBRIDGE_CLIENT_TLS_CERT_PEM" "SKYBRIDGE_CLIENT_TLS_CERT_FILE" /\
    ClientTLSKeyPEM a = pem_of "SKYBRIDGE_CLIENT_TLS_KEY_PEM" "SKYBRIDGE_CLIENT_TLS_KEY_FILE" /\
    UpstreamTLSCAPEM a = pem_of "SKYBRIDGE_UPSTREAM_TLS_CA_PEM" "SKYBRIDGE_UPSTREAM_TLS_CA_FILE";
  wf_targets : Forall2 (fun t t' => t_Name t' = t_Name t /\ t_Addr t' = t_Addr t /\
      t_ResourceRoleID t' = t_ResourceRoleID t /\ t_ActorEmail t' = t_ActorEmail t /\
      t_DBType t' = ToLower (t_DBType t))
    (if bool_decide (value "SKYBRIDGE_TARGETS" = []) then [] else default [] (targets (value "SKYBRIDGE_TARGETS")))
    (Targets a);
  wf_overlay : PIIOverlay a =
    if bool_decide (value "SKYBRIDGE_PII_OVERLAY" = []) then [] else default [] (overlay (value "SKYBRIDGE_PII_OVERLAY"));
  wf_switches :
    InjectCredentials a = switched_on "SKYBRIDGE_INJECT_CREDENTIALS" /\
    ClientTLSSelfSigned a = switched_on "SKYBRIDGE_CLIENT_TLS_SELF_SIGNED";
  wf_poll : - 2 ^ 63 <= PIIOverlayPollSeconds a < 2 ^ 63 /\
    PIIOverlayPollSeconds a = default 60 (Atoi (value "SKYBRIDGE_PII_OVERLAY_POLL_SECONDS"));
}.

End fields.

Section load.
Context `{Unicode} (Getenv : bytes -> bytes) (ReadFile : bytes -> option bytes).

Lemma env_trimmed key def : TrimSpace def = def -> TrimSpace (env Getenv key def) = env Getenv key def.
Proof. unfold env. case_decide; [done|]. intros _. apply TrimSpace_idem. Qed.

Lemma env_nonempty key def : def <> [] -> env Getenv key def <> [].
Proof. unfold env. by case_decide. Qed.

Lemma defaultListen_wf db : TrimSpace (defaultListen db) = defaultListen db /\ defaultListen db <> [].
Proof. unfold defaultListen. repeat case_decide; split; vm_compute; done. Qed.

Lemma Atoi_range s n : Atoi s = Some n -> - 2 ^ 63 <= n < 2 ^ 63.
Proof.
  unfold Atoi. destruct (match s with [] => _ | _ => _ end) as [sign ds]. destruct ds as [|c ds]; [done|].
  destruct (parse_digits (c :: ds) 0) as [m|]; [|done]. case_match eqn:Hb; [|done]. intros [= <-].
  apply andb_true_iff in Hb as [?%Z.leb_le ?%Z.ltb_lt]. done.
Qed.

Lemma atoiDefault_range raw d : - 2 ^ 63 <= d < 2 ^ 63 -> - 2 ^ 63 <= atoiDefault raw d < 2 ^ 63.
Proof.
  intros Hd. unfold atoiDefault. case_decide; [done|]. destruct (Atoi _) eqn:Ha; [|done].
  by apply Atoi_range in Ha.
Qed.

Lemma env_or_default key def : env Getenv key def = or_default Getenv key def.
Proof.
  unfold env, or_default, value. by destruct (decide (TrimSpace (Getenv (str key)) = [])) as [Hv|Hv];
    [rewrite (bool_decide_eq_true_2 _ Hv)|rewrite (bool_decide_eq_false_2 _ Hv)].
Qed.

Lemma env_value key : env Getenv key [] = value Getenv key.
Proof. unfold env, value. by case_decide. Qed.

Lemma value_trimmed key : TrimSpace (value Getenv key) = value Getenv key.
Proof. apply TrimSpace_idem. Qed.

Lemma pemFromEnv_of inline file : pemFromEnv Getenv ReadFile inline file = pem_of Getenv ReadFile inline file.
Proof.
  unfold pemFromEnv, pem_of. fold (value Getenv inline) (value Getenv file).
  destruct (value Getenv inline); [|by rewrite decide_True]. rewrite decide_False by auto.
  by destruct (value Getenv file).
Qed.

Lemma parseTargets_of unmarshal key :
  Forall2 (fun t t' => t_Name t' = t_Name t /\ t_Addr t' = t_Addr t /\
      t_ResourceRoleID t' = t_ResourceRoleID t /\ t_ActorEmail t' = t_ActorEmail t /\
      t_DBType t' = ToLower (t_DBType t))
    (if bool_decide (value Getenv key = []) then [] else default [] (unmarshal (value Getenv key)))
    (parseTargets unmarshal (value Getenv key)).
Proof.
  unfold parseTargets. rewrite value_trimmed. destruct (decide (value Getenv key = [])) as [Hv|Hv];
    [by rewrite (bool_decide_eq_true_2 _ Hv)|rewrite (bool_decide_eq_false_2 _ Hv)].
  destruct (unmarshal _) as [ts|]; [|done]. cbn [default from_option id].
  apply Forall2_fmap_r. by apply Forall_Forall2_diag, Forall_forall.
Qed.

Lemma truthy_on key : truthy (value Getenv key) = switched_on Getenv key.
Proof. unfold truthy, switched_on. by rewrite value_trimmed. Qed.

(** The environment is read through [TrimSpace] only. *)
Lemma env_ext Getenv' key def :
  (forall k, TrimSpace (Getenv k) = TrimSpace (Getenv' k)) -> env Getenv key def = env Getenv' key def.
Proof. intros He. unfold env. by rewrite He. Qed.

Lemma pemFromEnv_ext Getenv' a b :
  (forall k, TrimSpace (Getenv k) = TrimSpace (Getenv' k)) ->
  pemFromEnv Getenv ReadFile a b = pemFromEnv Getenv' ReadFile a b.
Proof. intros He. unfold pemFromEnv. by rewrite !He. Qed.

End load.

(** C39: what a configuration is, of every environment. Each plain field is the value of a variable
    without the blanks around it; mode, type and upstream TLS mode are such values in lower case; there is
    always a listening address, the one of the type's port by default, and a language; the two
    control-plane tokens are the registration token exactly where their own variable is blank; a PEM block
    is an inline value without the blanks around it, or else a file as it is; the targets are those of
    the JSON, names and addresses as they are written, the type in lower case, and none when the JSON is
    bad; a switch is on for 1, true, yes and on; the poll interval is an [int], a minute when the variable
    is no number. Two environments that agree up to surrounding blanks give the same configuration. *)
Theorem LoadAgent_wf `{Unicode} (Getenv : bytes -> bytes) (ReadFile : bytes -> option bytes)
    (targets : bytes -> option (list Target)) (overlay : bytes -> option (list (bytes * bytes))) :
  agent_wf Getenv ReadFile targets overlay (LoadAgent Getenv ReadFile targets overlay) /\
  forall Getenv', (forall k, TrimSpace (Getenv k) = TrimSpace (Getenv' k)) ->
    LoadAgent Getenv ReadFile targets overlay = LoadAgent Getenv' ReadFile targets overlay.
Proof.
  split.
  - destruct (defaultListen_wf (ToLower (env Getenv "SKYBRIDGE_DB_TYPE" (str "postgres")))) as [Hd1 Hd2].
    split; cbn [LoadAgent Mode DBType ListenAddr UpstreamAddr GatewayAddr AgentID OrgID Token MaskAnalyzeURL
      MaskAnonymizeURL MaskLanguage PIIOverlayURL PIIOverlayToken CredentialExchangeURL CredentialExchangeToken
      UpstreamTLSServerName UpstreamTLSMode Targets PIIOverlay PIIOverlayPollSeconds InjectCredentials
      ClientTLSSelfSigned ClientTLSCertPEM ClientTLSKeyPEM UpstreamTLSCAPEM].
    + repeat (apply Forall_cons; split); try apply Forall_nil_2; cbn; repeat apply env_trimmed; try done.
    + by repeat (apply Forall_cons; split; [apply env_value|]).
    + by rewrite env_value, !env_or_default.
    + rewrite !env_or_default. f_equal. unfold defaultListen. case_decide as Hm; [done|].
      destruct (decide (_ \/ _)) as [Ho|Ho]; destruct (decide (_ ∈ _)) as [Hi|Hi]; try done; exfalso.
      * apply Hi. destruct Ho as [-> | ->]; [apply list_elem_of_here|apply list_elem_of_further, list_elem_of_here].
      * apply Ho. apply elem_of_cons in Hi as [Hi|Hi%list_elem_of_singleton]; [by left|by right].
    + apply env_or_default.
    + by rewrite !env_or_default.
    + by rewrite !pemFromEnv_of.
    + rewrite env_value. apply parseTargets_of.
    + rewrite env_value. unfold parseOverlay. rewrite value_trimmed.
      destruct (decide (value Getenv "SKYBRIDGE_PII_OVERLAY" = [])) as [Hv|Hv];
        [by rewrite (bool_decide_eq_true_2 _ Hv)|by rewrite (bool_decide_eq_false_2 _ Hv)].
    + by rewrite !env_value, !truthy_on.
    + split; [apply atoiDefault_range; lia|]. rewrite env_value. unfold atoiDefault. rewrite value_trimmed.
      by destruct (decide (value Getenv "SKYBRIDGE_PII_OVERLAY_POLL_SECONDS" = [])) as [->|].
  - intros Getenv' He. unfold LoadAgent.
    rewrite !(fun d k => env_ext Getenv Getenv' k d He), !(fun a b => pemFromEnv_ext Getenv ReadFile Getenv' a b He).
    done.
Qed.
