(* ===== verification/AgentTLS.v ===== *)
(** * The agent's TLS postures and its engines (internal/agent/clienttls.go, upstreamtls.go)

    Which engine serves a database type, how a native client's TLS is terminated, and how the
    connection to a database is secured. Certificates, pools of trust roots and the operations of
    crypto/tls and crypto/x509 on them are parameters; a peer is the connection it gives and the
    certificate chain it presents, and a TLS handshake with it succeeds only when the client's
    configuration accepts the chain, as crypto/tls documents. *)
From S2P Require Import Prelude Go GoStr GoIO Tunnel Config PgWire.
Open Scope Z_scope.

(** ** Host and port (net) *)

Definition colon : byte := chr ":"%char.
Definition lbracket : byte := chr "["%char.
Definition rbracket : byte := chr "]"%char.

(** The host of [net.SplitHostPort], or nothing when it fails. *)
Definition SplitHost (hostport : bytes) : option bytes :=
  let i := LastIndexByte hostport colon in
  if i <? 0 then None
  else
    match hostport with
    | c :: rest =>
        if decide (c = lbracket) then
          let e := IndexByte hostport rbracket in
          if (e <? 0) || negb (e + 1 =? i) then None
          else if 0 <=? IndexByte rest lbracket then None
          else if 0 <=? IndexByte (drop (Z.to_nat (e + 1)) hostport) rbracket then None
          else Some (take (Z.to_nat (e - 1)) rest)
        else
          let host := take (Z.to_nat i) hostport in
          if 0 <=? IndexByte host colon then None
          else if 0 <=? IndexByte hostport lbracket then None
          else if 0 <=? IndexByte hostport rbracket then None
          else Some host
    | [] => None
    end.

Definition hostOnly (addr : bytes) : bytes := default addr (SplitHost addr).

(** ** Database types *)

Section dbtypes.
Context `{Unicode}.

Definition norm_db (dbType : bytes) : bytes := ToLower (TrimSpace dbType).

Definition isPostgres (dbType : bytes) : bool :=
  bool_decide (norm_db dbType = str "postgres" \/ norm_db dbType = str "postgresql").
Definition isMongo (dbType : bytes) : bool :=
  bool_decide (norm_db dbType = str "mongodb" \/ norm_db dbType = str "mongo").
Definition isMySQL (dbType : bytes) : bool := bool_decide (norm_db dbType = str "mysql").

End dbtypes.

Section tls.
Context `{Unicode}.

(** A leaf or intermediate certificate of a chain, a pool of trust roots, a certificate with its key. *)
Context {Cert Pool KeyPair : Type}.
Context (X509KeyPair : bytes -> bytes -> go KeyPair).
Context (AppendCertsFromPEM : bytes -> option Pool).
Context (SystemCertPool : go Pool).

(** ** A client's side of TLS *)

(** [tls.Config] of a client connection; [VerifyConnection] is the closure of [configFor], by the
    roots it captures. *)
Record tlsConfig := mkTLS {
  ServerName : bytes;
  InsecureSkipVerify : bool;
  VerifyConnection : option (option Pool);
  RootCAs : option Pool;
}.

(** [x509.Certificate.Verify] of the chain's leaf with the others as intermediates, under the given
    roots (the system's when nil); and whether a leaf is valid for a name. *)
Context (chain_ok : option Pool -> list Cert -> bool).
Context (name_ok : bytes -> Cert -> bool).

(** What crypto/tls makes of the peer's chain: no certificate is an error; unless the verification is
    skipped the chain and the server name are verified; [VerifyConnection] runs in any case. *)
Definition accepts (cfg : tlsConfig) (chain : list Cert) : bool :=
  match chain with
  | [] => false
  | leaf :: _ =>
      (InsecureSkipVerify cfg || chain_ok (RootCAs cfg) chain && name_ok (ServerName cfg) leaf) &&
      match VerifyConnection cfg with Some roots => chain_ok roots chain | None => true end
  end.

(** A server that was dialed: its connection, and the chain it presents in a handshake. *)
Record peer := mkPeer { p_conn : conn; p_chain : list Cert }.

Definition bad_certificate : gerr := EOther (str "tls: failed to verify certificate").

(** The connection as a client with this configuration sees it: a refused chain fails every handshake. *)
Definition under (cfg : option tlsConfig) (p : peer) : conn :=
  match cfg with
  | None => p_conn p
  | Some cfg =>
      let c := p_conn p in
      if accepts cfg (p_chain p) then c
      else mkConn (c_in c) (c_out c) (c_tls c) (c_sent c)
             (map (fun h => match h with inl e => inl e | inr _ => inl bad_certificate end) (c_hs c))
  end.

(** ** Engines (clienttls.go) *)

(** The engines of internal/wire with their fields. *)
Inductive Engine :=
| Postgres (clientTLS : option KeyPair)
| MySQL (clientTLS : option KeyPair) (upstreamTLS : option tlsConfig) (upstreamRequired : bool)
| Mongo.

Definition Name (e : Engine) : bytes :=
  match e with
  | Postgres _ => str "postgres"
  | MySQL _ _ _ => str "mysql"
  | Mongo => str "mongodb"
  end.

(** [engine.(wire.InjectingEngine)] *)
Definition injecting (e : Engine) : bool := match e with Mongo => false | _ => true end.

Definition engineFactory (clientTLS : option KeyPair) (dbType : bytes) : go Engine :=
  if decide (dbType = str "postgres" \/ dbType = str "postgresql") then Ok (Postgres clientTLS)
  else if decide (dbType = str "mysql") then Ok (MySQL clientTLS None false)
  else if decide (dbType = str "mongodb" \/ dbType = str "mongo") then Ok Mongo
  else Err (EFmt "unsupported db type %q (want postgres|mysql|mongodb)" [dbType]).

Definition EngineFor : bytes -> go Engine := engineFactory None.

(** *** The client's TLS *)

(** The standard library's key generation, as [generateSelfSignedCert] uses it. *)
Record selfSigning := mkSelf {
  s_Key : Type;
  GenerateKey : go s_Key;
  randSerial : go Z;
  CreateCertificate : Z -> bytes -> list bytes -> s_Key -> go bytes;
  MarshalECPrivateKey : s_Key -> go bytes;
  EncodePEM : bytes -> bytes -> bytes;
}.
Context (std : selfSigning).

Definition generateSelfSignedCert : go KeyPair :=
  let? key := GenerateKey std in
  let? serial := randSerial std in
  let? der := CreateCertificate std serial (str "skybridge-agent")
                [str "localhost"; str "skybridge-agent"] key in
  let? keyDER := MarshalECPrivateKey std key in
  X509KeyPair (EncodePEM std (str "CERTIFICATE") der) (EncodePEM std (str "EC PRIVATE KEY") keyDER).

Definition buildClientTLSConfig (cfg : Agent) : go (option KeyPair) :=
  if nonempty (ClientTLSCertPEM cfg) && nonempty (ClientTLSKeyPEM cfg) then
    let? cert := wrap_err "client TLS: bad cert/key pair: %w"
                   (X509KeyPair (ClientTLSCertPEM cfg) (ClientTLSKeyPEM cfg)) in
    Ok (Some cert)
  else if ClientTLSSelfSigned cfg then
    let? cert := wrap_err "client TLS: self-signed cert: %w" generateSelfSignedCert in
    Ok (Some cert)
  else Ok None.

(** ** The upstream's TLS (upstreamtls.go) *)

Record upstreamTLSPolicy := mkPolicy { mode : bytes; serverName : bytes; roots : option Pool }.

Definition tls_modes : list bytes := map str ["prefer"; "require"; "verify-ca"; "verify-full"]%string.

Definition buildUpstreamTLSPolicy (cfg : Agent) : go (option upstreamTLSPolicy) :=
  if negb (UpstreamTLSEnabled cfg) then Ok None
  else
    let mode := ToLower (TrimSpace (UpstreamTLSMode cfg)) in
    if decide (mode ∉ tls_modes) then
      Err (EFmt "SKYBRIDGE_UPSTREAM_TLS=%q is not a valid mode (want disable|prefer|require|verify-ca|verify-full)"
             [UpstreamTLSMode cfg])
    else
      let? roots :=
        if nonempty (UpstreamTLSCAPEM cfg) then
          match AppendCertsFromPEM (UpstreamTLSCAPEM cfg) with
          | Some pool => Ok (Some pool)
          | None =>
              Err (EFmt "SKYBRIDGE_UPSTREAM_TLS_CA_PEM/_FILE contained no valid PEM certificates" [])
          end
        else if decide (mode = str "verify-ca" \/ mode = str "verify-full") then
          match SystemCertPool with
          | Ok sys => Ok (Some sys)
          | Err e => Err (EWrap "upstream TLS: loading system trust roots: %w" e)
          | Panic => Panic
          | NoFuel => NoFuel
          end
        else Ok None in
      Ok (Some (mkPolicy mode (TrimSpace (UpstreamTLSServerName cfg)) roots)).

(** The methods take a nil policy too. *)
Definition enabled (p : option upstreamTLSPolicy) : bool :=
  match p with Some p => negb (bool_decide (mode p = [])) | None => false end.

Definition required (p : option upstreamTLSPolicy) : bool :=
  match p with
  | Some p => bool_decide (mode p ∈ map str ["require"; "verify-ca"; "verify-full"]%string)
  | None => false
  end.

Definition configFor (p : upstreamTLSPolicy) (host : bytes) : tlsConfig :=
  let name := if decide (serverName p = []) then host else serverName p in
  if decide (mode p = str "prefer" \/ mode p = str "require") then mkTLS name true None None
  else if decide (mode p = str "verify-ca") then mkTLS name true (Some (roots p)) None
  else if decide (mode p = str "verify-full") then mkTLS name false None (roots p)
  else mkTLS name false None None.

(** The upgrade of a freshly dialed connection: Postgres by its SSLRequest, Mongo on connect. *)
Definition startUpstreamTLS (p : option upstreamTLSPolicy) (dbType dialAddr : bytes) (dialed : peer)
    : go unit * conn :=
  match p with
  | Some pol =>
      if negb (enabled p) then (Ok tt, p_conn dialed)
      else
        let c := under (Some (configFor pol (hostOnly dialAddr))) dialed in
        if isPostgres dbType then PgWire.StartUpstreamTLS (required p) c
        else if isMongo dbType then
          match Handshake c with
          | (Err e, c') => (Err (EWrap "mongo: upstream TLS handshake failed: %w" e), c')
          | r => r
          end
        else (Ok tt, p_conn dialed)
  | None => (Ok tt, p_conn dialed)
  end.

Definition configureEngine (p : option upstreamTLSPolicy) (e : Engine) (dialAddr : bytes) : Engine :=
  match p, e with
  | Some pol, MySQL clientTLS _ _ =>
      if enabled p then MySQL clientTLS (Some (configFor pol (hostOnly dialAddr))) (required p) else e
  | _, _ => e
  end.

(** *** Startup messages *)

Definition logUpstreamTLSMode (p : option upstreamTLSPolicy) (dbTypes : list bytes) : list gerr :=
  match p with
  | Some pol =>
      if negb (enabled p) then []
      else
        EFmt "skybridge-agent: upstream TLS ENABLED (mode=%s) for the agent-to-database hop." [mode pol] ::
        (if decide (mode pol = str "prefer" \/ mode pol = str "require") then
           [EFmt "skybridge-agent: NOTE: upstream TLS mode %q does NOT authenticate the server certificate." [mode pol]]
         else []) ++
        snd (foldl (fun '(seen, out) dt =>
               if bool_decide (dt = []) || bool_decide (dt ∈ seen) || isPostgres dt || isMongo dt || isMySQL dt
               then (seen, out)
               else (dt :: seen, out ++
                     [EFmt "skybridge-agent: WARNING: db type %q does not negotiate upstream TLS yet" [dt]]))
             ([], []) dbTypes)
  | None => []
  end.

Definition logClientTLSMode (cfg : Agent) (clientTLS : option KeyPair) (e : Engine) : list gerr :=
  if negb (ClientTLSConfigured cfg) then []
  else
    match clientTLS with
    | None => []
    | Some _ =>
        match e with
        | Postgres _ => [EFmt "skybridge-agent: client TLS termination ENABLED" []]
        | MySQL _ _ _ => [EFmt "skybridge-agent: client TLS termination ENABLED for MySQL" []]
        | Mongo => [EFmt "skybridge-agent: WARNING: the %q engine does not terminate client TLS yet" [Name e]]
        end
    end.

End tls.
Arguments tlsConfig Pool : clear implicits.
Arguments peer Cert : clear implicits.
Arguments Engine Pool KeyPair : clear implicits.
Arguments upstreamTLSPolicy Pool : clear implicits.
