(* ===== verification/AgentSources.v ===== *)
(** * The agent's control-plane clients (internal/agent/credsource.go, overlay_source.go)

    The exchange of a session token for an upstream credential, and the overlay that follows the
    control plane's rules. [Do] is the HTTP client: the status and the body of the reply, or an error;
    a body is a reader. The JSON codecs are parameters at the types they are used. *)
From S2P Require Import Prelude Go GoStr GoIO Mask Wire Config.
Open Scope Z_scope.

(** A request: method, URL, headers in the order they are set, body. *)
Record http_request := mkReq {
  h_method : bytes; h_url : bytes; h_headers : list (bytes * bytes); h_body : bytes }.

(** [io.LimitReader(r, n)] *)
Definition LimitReader (n : Z) (r : rd) : rd :=
  if n <=? zlen (rbuf r) then mkRd (take (Z.to_nat n) (rbuf r)) EEOF else r.

(** [io.ReadAll] with its error dropped. *)
Definition ReadAll (r : rd) : bytes := rbuf r.

Definition success (status : Z) : bool := (200 <=? status) && (status <? 300).

Definition bearer (token : bytes) : list (bytes * bytes) :=
  if decide (token = []) then [] else [(str "Authorization", str "Bearer " ++ token)].

(** ** Credential exchange (credsource.go) *)

Record exchangeRequest := mkExReq {
  x_SessionToken : bytes; x_RequestedUser : bytes; x_RequestedDatabase : bytes }.

Record exchangeResponse := mkExResp {
  x_Username : bytes; x_Password : bytes; x_Database : bytes; x_Error : bytes }.

Section credsource.
Context (Do : http_request -> go (Z * rd)).
Context (marshal_exchange : exchangeRequest -> go bytes).
(** What [json.Unmarshal] leaves in the value, and its error. *)
Context (unmarshal_exchange : bytes -> exchangeResponse * go unit).

Definition exchange_request (url token : bytes) (startup : gmap bytes bytes) (secret : bytes) : go http_request :=
  let? body := marshal_exchange
                 (mkExReq secret (default [] (startup !! str "user")) (default [] (startup !! str "database"))) in
  Ok (mkReq (str "POST") url ((str "Content-Type", str "application/json") :: bearer token) body).

Definition exchange_reply (status : Z) (body : rd) : go UpstreamCredential :=
  let raw := ReadAll (LimitReader 8192 body) in
  let '(out, err) := unmarshal_exchange raw in
  if negb (success status) then
    let reason := TrimSpace (x_Error out) in
    let reason := if decide (reason = []) then TrimSpace raw else reason in
    Err (EFmt "credential exchange rejected (%d): %s" [itoa status; reason])
  else
    match err with
    | Ok _ =>
        if decide (TrimSpace (x_Username out) = []) then
          Err (EFmt "credential exchange returned no username" [])
        else Ok (mkCred (x_Username out) (x_Password out) (x_Database out))
    | Err e => Err (EWrap "credential exchange: bad response: %w" e)
    | Panic => Panic
    | NoFuel => NoFuel
    end.

(** One call of the resolver: its result, and the request it made, if any. *)
Definition exchange (url token : bytes) (startup : gmap bytes bytes) (secret : bytes)
    : go UpstreamCredential * option http_request :=
  if decide (TrimSpace secret = []) then (Err (EFmt "no session token presented" []), None)
  else
    match exchange_request url token startup secret with
    | Ok req =>
        (match Do req with
         | Ok (status, body) => exchange_reply status body
         | Err e => Err (EWrap "credential exchange: %w" e)
         | Panic => Panic
         | NoFuel => NoFuel
         end, Some req)
    | Err e => (Err e, None)
    | Panic => (Panic, None)
    | NoFuel => (NoFuel, None)
    end.

(** [None] is the nil resolver. *)
Definition NewHTTPCredentialResolver (cfg : Agent) : option CredentialResolver :=
  if negb (InjectCredentials cfg) || bool_decide (TrimSpace (CredentialExchangeURL cfg) = []) then None
  else
    let url := TrimSpace (CredentialExchangeURL cfg) in
    let token := TrimSpace (CredentialExchangeToken cfg) in
    Some (fun startup secret => fst (exchange url token startup secret)).

End credsource.

(** ** The overlay source (overlay_source.go) *)

Definition overlayFetchTimeout : Z := 10 * 1000000000.
Definition overlayMinPoll : Z := 15 * 1000000000.

Record overlaySource := mkSource { o_url : bytes; o_token : bytes; o_orgID : bytes }.

Definition newOverlaySource (cfg : Agent) : overlaySource :=
  mkSource (TrimSpace (PIIOverlayURL cfg)) (TrimSpace (PIIOverlayToken cfg)) (TrimSpace (OrgID cfg)).

Section overlay.
Context `{Unicode}.
(** The [columns] of the decoded reply ([None] for a nil map), or the decoder's error. *)
Context (decode_overlay : rd -> go (option (list (bytes * bytes)))).

Definition overlay_request (s : overlaySource) : http_request :=
  mkReq (str "GET") (o_url s)
    ((str "Accept", str "application/json") :: bearer (o_token s) ++
     (if decide (o_orgID s = []) then [] else [(str "X-Curlix-Organization-Id", o_orgID s)])) [].

Definition fetch (Do : http_request -> go (Z * rd)) (s : overlaySource) : go (list (bytes * bytes)) :=
  let? (status, body) := Do (overlay_request s) in
  if negb (success status) then
    Err (EFmt "pii-overlay %s -> %d: %s"
           [o_url s; itoa status; TrimSpace (ReadAll (LimitReader 512 body))])
  else
    match decode_overlay (LimitReader 1048576 body) with
    | Ok columns => Ok (default [] columns)
    | Err e => Err (EWrap "pii-overlay decode: %w" e)
    | Panic => Panic
    | NoFuel => NoFuel
    end.

(** [refresh]: the overlay's rules afterwards, and whether the fetch succeeded. *)
Definition refresh (Do : http_request -> go (Z * rd)) (s : overlaySource) (o : Overlay.t) : Overlay.t * bool :=
  match fetch Do s with
  | Ok rules => (Overlay.Replace o rules, true)
  | _ => (o, false)
  end.

(** The time between two refreshes; [None] when only the first one is made. The product wraps. *)
Definition poll_interval (cfg : Agent) : option Z :=
  if PIIOverlayPollSeconds cfg <? 0 then None
  else
    let interval := wrap64 (PIIOverlayPollSeconds cfg * 1000000000) in
    Some (if interval <? overlayMinPoll then overlayMinPoll else interval).

(** Whether there is anything to synchronise. *)
Definition overlay_dynamic (cfg : Agent) (overlay : option Overlay.t) : bool :=
  bool_decide (is_Some overlay) && negb (bool_decide (TrimSpace (PIIOverlayURL cfg) = [])).

(** The overlay's rules after the first refresh and those of the first [n] ticks; the control plane
    answers the [i]-th refresh with [Do i]. *)
Definition startOverlaySync (cfg : Agent) (Do : nat -> http_request -> go (Z * rd)) (n : nat)
    (overlay : option Overlay.t) : option Overlay.t :=
  match overlay with
  | Some o =>
      if overlay_dynamic cfg overlay then
        let ticks := match poll_interval cfg with Some _ => n | None => O end in
        Some (foldl (fun o i => fst (refresh (Do i) (newOverlaySource cfg) o)) o (seq 0 (S ticks)))
      else overlay
  | None => None
  end.

End overlay.
