(* ===== verification/Agent.v ===== *)
(** * The agent (internal/agent/agent.go)

    The assembly of a session out of the configuration: the masking chain, the engine, the posture of
    the upstream, the credential resolver; the listener, and the tunnel client with its streams. *)
From S2P Require Import Prelude Go GoStr GoIO Codec Mask Wire PgWire PgAuth MyWire MyAuth Mongo Tunnel Config AgentTLS AgentSources.
Open Scope Z_scope.

Definition dialTimeout : Z := 10 * 1000000000.
Definition heartbeatInterval : Z := 15 * 1000000000.

(** ** The masking chain *)

Section masking.
Context `{Unicode} {span : Type}.
Context (post_analyze : bytes -> bytes -> bytes -> option (list span)).
Context (post_anonymize : bytes -> bytes -> list span -> option bytes).

(** The overlay is a shared object whose rules change: a layer reads its current state. *)
Abbreviation layer := (Overlay.t -> masker).

Definition overlay_on (cfg : Agent) : bool :=
  nonempty (PIIOverlay cfg) || negb (bool_decide (PIIOverlayURL cfg = [])).

Definition remote_of (cfg : Agent) : Remote.t :=
  Remote.NewRemote (Remote.mkConfig (MaskAnalyzeURL cfg) (MaskAnonymizeURL cfg) (MaskLanguage cfg) 0).

Definition remote_layer (cfg : Agent) : list layer :=
  if Remote.Enabled (remote_of cfg)
  then [fun _ => Remote.MaskRow post_analyze post_anonymize (remote_of cfg)] else [].

Definition buildMaskerWithOverlay (cfg : Agent) : layer * option Overlay.t :=
  let maskers := remote_layer cfg in
  let '(maskers, overlay) :=
    if overlay_on cfg then (maskers ++ [Overlay.MaskRow], Some (Overlay.NewOverlay (PIIOverlay cfg)))
    else (maskers, None) in
  match maskers with
  | [] => (fun _ => Noop, None)
  | _ => (fun o => Chain.MaskRow (Chain.NewChain (map (fun m => Some (m o)) maskers)), overlay)
  end.

(** The masker while the overlay is in the given state, or has none. *)
Definition masker_with (cfg : Agent) (o : option Overlay.t) : masker :=
  fst (buildMaskerWithOverlay cfg) (default (Overlay.mk None) o).

Definition BuildMasker (cfg : Agent) : masker :=
  masker_with cfg (snd (buildMaskerWithOverlay cfg)).

(** The lines [logMaskingGuardrails] prints, by what they warn of. *)
Inductive guardrail := HalfConfigured | Unmasked | OverlayOnly.

Definition logMaskingGuardrails (cfg : Agent) : list guardrail :=
  let a := negb (bool_decide (MaskAnalyzeURL cfg = [])) in
  let b := negb (bool_decide (MaskAnonymizeURL cfg = [])) in
  (if xorb a b then [HalfConfigured] else []) ++
  (if negb (a && b) && negb (overlay_on cfg) then [Unmasked]
   else if negb (a && b) && overlay_on cfg then [OverlayOnly]
   else []).

Definition MaskingMode (cfg : Agent) : bytes :=
  let mode := if decide (MaskAnalyzeURL cfg = []) then [] else str "remote" in
  let mode :=
    if overlay_on cfg then
      let label := if decide (PIIOverlayURL cfg = []) then str "overlay" else str "overlay(dynamic)" in
      if decide (mode = []) then label else mode ++ str "+" ++ label
    else mode in
  if decide (mode = []) then str "none" else mode.

End masking.

(** ** One session *)

Section session.
Context `{Unicode} `{Hashes} {Cert Pool KeyPair : Type}.
Context (chain_ok : option Pool -> list Cert -> bool) (name_ok : bytes -> Cert -> bool).

(** What a session depends on besides the two connections: the masker in force at each row, the
    bytes its readers have buffered, the schedule and the end of its goroutines, its random bytes. *)
Record run := mkRun {
  mk : nat -> masker;
  buffered : bytes -> Z;
  sched : list bool;
  client_first : bool;
  rnd : nat -> go bytes;
  greeting_nonce : go bytes;
}.

(** What the engines leave behind. *)
Inductive proxied :=
| PgProxied (s : option PgWire.session)
| MyProxied (o : option MyWire.outcome)
| MyInjected (s : option MyWire.sess)
| MongoProxied (to_upstream : wr) (p : Mongo.mpipe).

(** The verbatim and the injecting method of an engine. *)
Definition Proxy (e : Engine Pool KeyPair) (w : run) (n : net) : go unit * proxied :=
  match e with
  | Postgres tls =>
      let '(o, s) := PgWire.Proxy (mk w) (buffered w) (bool_decide (is_Some tls)) (client_first w)
                       (cl n) (c_in (up n)) (c_out (up n)) in
      (o, PgProxied s)
  | MySQL _ utls req =>
      let '(o, s) := MyWire.Proxy (buffered w) (mk w) (sched w) (bool_decide (is_Some utls)) req
                       (client_first w) n in
      (o, MyProxied s)
  | Mongo =>
      let '(o, u, p) := Mongo.Proxy (mk w) (client_first w) n in (o, MongoProxied u p)
  end.

Definition ProxyInject (e : Engine Pool KeyPair) (w : run) (resolve : CredentialResolver) (n : net)
    : option (go unit * proxied) :=
  match e with
  | Postgres tls =>
      let '(o, s) := PgAuth.ProxyInject (mk w) (buffered w) (bool_decide (is_Some tls)) (client_first w)
                       (Some resolve) (rnd w) n in
      Some (o, PgProxied s)
  | MySQL tls utls req =>
      let '(o, s) := MyAuth.ProxyInject (buffered w) (mk w) (sched w) (bool_decide (is_Some tls))
                       (bool_decide (is_Some utls)) req (client_first w) (Some resolve)
                       (greeting_nonce w) n in
      Some (o, MyInjected s)
  | Mongo => None
  end.

Definition proxyConn (e : Engine Pool KeyPair) (w : run) (resolver : option CredentialResolver) (n : net)
    : go unit * proxied :=
  match resolver with
  | Some resolve =>
      if injecting e then
        match ProxyInject e w resolve n with Some r => r | None => Proxy e w n end
      else Proxy e w n
  | None => Proxy e w n
  end.

(** The certificates a peer is held to: MySQL's engine carries its own configuration, the others are
    secured before they run. *)
Definition engine_tls (e : Engine Pool KeyPair) : option (tlsConfig Pool) :=
  match e with MySQL _ u _ => u | _ => None end.

(** One dialed session: the upgrade of the upstream, then the engine; [None] when there is no engine
    to run, with the upstream's connection at the end of the upgrade. *)
Record served := mkServed {
  sv_dialed : option bytes;
  sv_upgraded : option (go unit * conn);
  sv_result : option (go unit * proxied);
}.
Definition not_served : served := mkServed None None None.

Definition upstream_of (p : option (upstreamTLSPolicy Pool)) (e : Engine Pool KeyPair)
    (dbType addr : bytes) (dialed : peer Cert) : go unit * conn :=
  let dialed := mkPeer (under chain_ok name_ok (engine_tls e) dialed) (p_chain dialed) in
  if enabled p then startUpstreamTLS chain_ok name_ok p dbType addr dialed else (Ok tt, p_conn dialed).

Definition run_session (p : option (upstreamTLSPolicy Pool)) (e : Engine Pool KeyPair)
    (dbType addr : bytes) (dialed : go (peer Cert)) (w : run) (resolver : option CredentialResolver)
    (client : conn) : served :=
  match dialed with
  | Ok peer =>
      match upstream_of p e dbType addr peer with
      | (Ok _, upstream) =>
          mkServed (Some addr) (Some (Ok tt, upstream))
                   (Some (proxyConn e w resolver (mkNet client upstream)))
      | r => mkServed (Some addr) (Some r) None
      end
  | _ => mkServed (Some addr) None None
  end.

(** ** Streams of the tunnel *)

(** The collaborators with their defaults filled in. *)
Record Deps := mkDeps {
  Dial : bytes -> go (peer Cert);
  d_Engine : bytes -> go (Engine Pool KeyPair);
  Resolver : option CredentialResolver;
  UpstreamTLS : option (upstreamTLSPolicy Pool);
}.

(** [meta] is the decoded open metadata: the name of the target. *)
Definition serveStream (cfg : Agent) (deps : Deps) (w : run) (meta : go bytes) (client : conn) : served :=
  match meta with
  | Ok name =>
      match TargetByName cfg name with
      | Some target =>
          match d_Engine deps (t_DBType target) with
          | Ok engine =>
              let engine := configureEngine (UpstreamTLS deps) engine (t_Addr target) in
              run_session (UpstreamTLS deps) engine (t_DBType target) (t_Addr target)
                (Dial deps (t_Addr target)) w (Resolver deps) client
          | _ => not_served
          end
      | None => not_served
      end
  | _ => not_served
  end.

(** ** The registration and the accept loop *)

Definition register_message (cfg : Agent) : Control :=
  mkControl KindRegister (AgentID cfg) (OrgID cfg) (Token cfg) (Targets cfg) false [].
Definition heartbeat_message : Control := mkControl KindHeartbeat [] [] [] [] false [].

Inductive phase := Registering | AwaitingAck | Serving | Ended (o : go unit).

(** [sent]: the control messages handed to the session; [streams]: what became of the accepted
    streams; [beating]: whether the heartbeat loop runs. *)
Record tunnel_conn := mkTunnelConn {
  tc_phase : phase; tc_sent : list Control; tc_streams : list served; tc_beating : bool }.

Definition tunnel_start : tunnel_conn := mkTunnelConn Registering [] [] false.

Inductive tunnel_event :=
| Sent (o : go unit)                               (* [SendControl] of the registration returns *)
| ControlReceived (o : go Control)                 (* [NextControl] returns *)
| Accepted (o : go (go bytes * conn * run))        (* [Accept] returns a stream, or an error *)
| Tick (o : go unit)                               (* the heartbeat ticks, with its [SendControl] *)
| BeatStopped.                                     (* the context is done or the session closed *)

Definition rejected (ack : Control) : gerr := EFmt "gateway rejected registration: %s" [k_Error ack].

(** One turn of [heartbeatLoop]: a tick with its send, or its return. *)
Definition heartbeatLoop_step (tick : option (go unit)) (s : tunnel_conn) : tunnel_conn :=
  match tick with
  | Some o =>
      if tc_beating s then
        mkTunnelConn (tc_phase s) (tc_sent s ++ [heartbeat_message]) (tc_streams s) (is_ok o)
      else s
  | None => mkTunnelConn (tc_phase s) (tc_sent s) (tc_streams s) false
  end.

Definition ServeTunnelConn_step (cfg : Agent) (deps : Deps) (ev : tunnel_event) (s : tunnel_conn) : tunnel_conn :=
  match ev, tc_phase s with
  | Sent o, Registering =>
      let s := mkTunnelConn (tc_phase s) (tc_sent s ++ [register_message cfg]) (tc_streams s) (tc_beating s) in
      match o with
      | Ok _ => mkTunnelConn AwaitingAck (tc_sent s) (tc_streams s) (tc_beating s)
      | _ => mkTunnelConn (Ended o) (tc_sent s) (tc_streams s) (tc_beating s)
      end
  | ControlReceived o, AwaitingAck =>
      match o with
      | Ok ack =>
          if negb (bool_decide (k_Kind ack = KindRegisterAck)) || negb (k_OK ack) then
            mkTunnelConn (Ended (Err (rejected ack))) (tc_sent s) (tc_streams s) (tc_beating s)
          else mkTunnelConn Serving (tc_sent s) (tc_streams s) true
      | Err e => mkTunnelConn (Ended (Err e)) (tc_sent s) (tc_streams s) (tc_beating s)
      | Panic => mkTunnelConn (Ended Panic) (tc_sent s) (tc_streams s) (tc_beating s)
      | NoFuel => mkTunnelConn (Ended NoFuel) (tc_sent s) (tc_streams s) (tc_beating s)
      end
  | Accepted o, Serving =>
      match o with
      | Ok (meta, client, w) =>
          mkTunnelConn Serving (tc_sent s) (tc_streams s ++ [serveStream cfg deps w meta client]) (tc_beating s)
      | Err e => mkTunnelConn (Ended (Err e)) (tc_sent s) (tc_streams s) (tc_beating s)
      | Panic => mkTunnelConn (Ended Panic) (tc_sent s) (tc_streams s) (tc_beating s)
      | NoFuel => mkTunnelConn (Ended NoFuel) (tc_sent s) (tc_streams s) (tc_beating s)
      end
  | Tick o, _ => heartbeatLoop_step (Some o) s
  | BeatStopped, _ => heartbeatLoop_step None s
  | _, _ => s
  end.

Definition ServeTunnelConn (cfg : Agent) (deps : Deps) (evs : list tunnel_event) : tunnel_conn :=
  foldl (fun s ev => ServeTunnelConn_step cfg deps ev s) tunnel_start evs.

End session.
Arguments Deps Cert Pool KeyPair : clear implicits.
