(* ===== verification/AgentRun.v ===== *)
(** * Running the agent (internal/agent/agent.go: RunListener, RunTunnel; cmd/skybridge-agent)

    The start of either mode, which builds every collaborator from the configuration or refuses to
    start, and its loop: accepting native clients, or dialing the gateway again and again. *)
From S2P Require Import Prelude Go GoStr GoIO Codec Mask Wire Tunnel Config AgentTLS AgentSources Agent.
Open Scope Z_scope.

(** What [logCredentialMode] reports. *)
Inductive credential_line := NoExchangeURL | NotInjecting | InjectionOn | CleartextToken.

Definition logCredentialMode {Pool KeyPair} (cfg : Agent) (e : Engine Pool KeyPair)
    (resolver : option CredentialResolver) : list credential_line :=
  if negb (InjectCredentials cfg) then []
  else
    match resolver with
    | None => [NoExchangeURL]
    | Some _ =>
        if negb (injecting e) then [NotInjecting]
        else InjectionOn :: (if negb (ClientTLSConfigured cfg) then [CleartextToken] else [])
    end.

Section run.
Context `{Unicode} `{Hashes} {Cert Pool KeyPair span : Type}.
Context (chain_ok : option Pool -> list Cert -> bool) (name_ok : bytes -> Cert -> bool).
Context (X509KeyPair : bytes -> bytes -> go KeyPair) (std : selfSigning).
Context (AppendCertsFromPEM : bytes -> option Pool) (SystemCertPool : go Pool).
Context (post_analyze : bytes -> bytes -> bytes -> option (list span)).
Context (post_anonymize : bytes -> bytes -> list span -> option bytes).
Context (Do : http_request -> go (Z * rd)).
Context (marshal_exchange : exchangeRequest -> go bytes).
Context (unmarshal_exchange : bytes -> exchangeResponse * go unit).
Context (decode_overlay : rd -> go (option (list (bytes * bytes)))).
(** The control plane's answer to the [i]-th refresh of the overlay. *)
Context (Do_overlay : nat -> http_request -> go (Z * rd)).
(** Dialing a database. *)
Context (dial : bytes -> go (peer Cert)).

(** The masker in force when the overlay has been refreshed [ticks] times after the first. *)
Definition masker_at (cfg : Agent) (ticks : nat) : masker :=
  masker_with post_analyze post_anonymize cfg
    (startOverlaySync decode_overlay cfg Do_overlay ticks
       (snd (buildMaskerWithOverlay post_analyze post_anonymize cfg))).

(** ** Listener mode *)

Record listener := mkListenerRun {
  ln_cfg : Agent;
  ln_engine : Engine Pool KeyPair;
  ln_policy : option (upstreamTLSPolicy Pool);
  ln_resolver : option CredentialResolver;
}.

(** Everything before the first [Accept]; [listen] is the outcome of [net.Listen]. *)
Definition RunListener_start (cfg : Agent) (listen : go unit) : go listener :=
  if decide (UpstreamAddr cfg = []) then
    Err (EFmt "set SKYBRIDGE_UPSTREAM to the database address (host:port)" [])
  else
    let? clientTLS := buildClientTLSConfig X509KeyPair std cfg in
    let? engine := engineFactory clientTLS (DBType cfg) in
    let resolver := NewHTTPCredentialResolver Do marshal_exchange unmarshal_exchange cfg in
    let? upTLS := buildUpstreamTLSPolicy AppendCertsFromPEM SystemCertPool cfg in
    let engine := configureEngine upTLS engine (UpstreamAddr cfg) in
    let? _ := wrap_err "listen: %w" listen in
    Ok (mkListenerRun cfg engine upTLS resolver).

(** The goroutine of one accepted client. *)
Definition listener_session (l : listener) (w : run) (client : conn) : served :=
  run_session chain_ok name_ok (ln_policy l) (ln_engine l) (DBType (ln_cfg l)) (UpstreamAddr (ln_cfg l))
    (dial (UpstreamAddr (ln_cfg l))) w (ln_resolver l) client.

(** The accept loop on the outcomes of [Accept], each with whether the context is done by then: the
    sessions started, and the return once there is one. *)
Fixpoint accept_loop (l : listener) (accepts : list (go (conn * run) * bool))
    : list served * option (go unit) :=
  match accepts with
  | [] => ([], None)
  | (Ok (client, w), _) :: rest =>
      let '(ss, r) := accept_loop l rest in (listener_session l w client :: ss, r)
  | (_, ctx_done) :: rest => if ctx_done : bool then ([], Some (Ok tt)) else accept_loop l rest
  end.

Definition RunListener (cfg : Agent) (listen : go unit) (accepts : list (go (conn * run) * bool))
    : list served * option (go unit) :=
  match RunListener_start cfg listen with
  | Ok l => accept_loop l accepts
  | Err e => ([], Some (Err e))
  | Panic => ([], Some Panic)
  | NoFuel => ([], Some NoFuel)
  end.

(** ** Tunnel mode *)

(** The collaborators a caller passes, nil where it passes none. *)
Record given := mkGiven {
  v_Dial : option (bytes -> go (peer Cert)); v_Engine : option (bytes -> go (Engine Pool KeyPair));
  v_Masker : option masker; v_Resolver : option CredentialResolver;
  v_UpstreamTLS : option (upstreamTLSPolicy Pool) }.

(** [Deps.withDefaults]: the collaborators and the masker. *)
Definition withDefaults (d : given) (cfg : Agent) : Deps Cert Pool KeyPair * masker :=
  (mkDeps (match v_Dial d with Some f => f | None => dial end)
     (match v_Engine d with Some f => f | None => EngineFor end)
     (match v_Resolver d with
      | Some r => Some r
      | None => NewHTTPCredentialResolver Do marshal_exchange unmarshal_exchange cfg
      end)
     (v_UpstreamTLS d),
   match v_Masker d with Some m => m | None => BuildMasker post_analyze post_anonymize cfg end).

(** A second application, as [ServeTunnelConn] makes one, changes nothing. *)
Definition regiven (deps : Deps Cert Pool KeyPair * masker) : given :=
  mkGiven (Some (Dial deps.1)) (Some (d_Engine deps.1)) (Some deps.2) (Resolver deps.1) (UpstreamTLS deps.1).

Lemma withDefaults_again d cfg : withDefaults (regiven (withDefaults d cfg)) cfg = withDefaults d cfg.
Proof.
  unfold withDefaults, regiven. cbn. f_equal. f_equal. destruct (v_Resolver d); [done|].
  by destruct (NewHTTPCredentialResolver _ _ _ cfg).
Qed.

(** The collaborators [RunTunnel] starts with, given none. *)
Definition RunTunnel_start (cfg : Agent) : go (Deps Cert Pool KeyPair) :=
  if decide (GatewayAddr cfg = []) then
    Err (EFmt "set SKYBRIDGE_GATEWAY to the gateway address (host:port)" [])
  else if negb (nonempty (Targets cfg)) then
    Err (EFmt "set SKYBRIDGE_TARGETS to a JSON array of {name,addr,db_type}" [])
  else
    let? clientTLS := buildClientTLSConfig X509KeyPair std cfg in
    let? upTLS := buildUpstreamTLSPolicy AppendCertsFromPEM SystemCertPool cfg in
    Ok (mkDeps dial (engineFactory clientTLS)
          (NewHTTPCredentialResolver Do marshal_exchange unmarshal_exchange cfg) upTLS).

(** One turn of the loop: whether the context is done, what dialing the gateway and serving the
    connection did, and whether the pause ran to its end. *)
Record turn := mkTurn { t_done : bool; t_conn : go (list tunnel_event); t_slept : bool }.

Fixpoint tunnel_loop (cfg : Agent) (deps : Deps Cert Pool KeyPair) (turns : list turn)
    : list tunnel_conn * option (go unit) :=
  match turns with
  | [] => ([], None)
  | t :: rest =>
      if t_done t then ([], Some (Ok tt))
      else
        match t_conn t with
        | Ok evs =>
            let c := ServeTunnelConn chain_ok name_ok cfg deps evs in
            if t_slept t then let '(cs, r) := tunnel_loop cfg deps rest in (c :: cs, r)
            else ([c], Some (Ok tt))
        | _ => if t_slept t then tunnel_loop cfg deps rest else ([], Some (Ok tt))
        end
  end.

Definition RunTunnel (cfg : Agent) (turns : list turn) : list tunnel_conn * option (go unit) :=
  match RunTunnel_start cfg with
  | Ok deps => tunnel_loop cfg deps turns
  | Err e => ([], Some (Err e))
  | Panic => ([], Some Panic)
  | NoFuel => ([], Some NoFuel)
  end.

(** ** The command (cmd/skybridge-agent) *)

Inductive command := Tunneling (r : list tunnel_conn * option (go unit)) | Listening (r : list served * option (go unit)).

Definition agent_main (cfg : Agent) (listen : go unit) (accepts : list (go (conn * run) * bool))
    (turns : list turn) : command :=
  if decide (Mode cfg = ModeTunnel) then Tunneling (RunTunnel cfg turns)
  else Listening (RunListener cfg listen accepts).

End run.
