(* ===== verification/AgentTLSProps.v ===== *)
(** * The upstream's TLS: what the postures of AgentTLS.v guarantee *)
From S2P Require Import Prelude Go GoStr GoIO ConnFacts Codec Mask Wire PgWire PgWireFacts PgWireProps PgAuth MyWire MyWireFacts MyAuth MyAuthProps Tunnel Config AgentTLS Agent.
Open Scope Z_scope.

Section tls.
Context `{Unicode} {Cert Pool : Type}.
Context (chain_ok : option Pool -> list Cert -> bool) (name_ok : bytes -> Cert -> bool).

Lemma under_refused cfg (p : peer Cert) :
  accepts chain_ok name_ok cfg (p_chain p) = false -> c_tls (p_conn p) = false ->
  never_tls (under chain_ok name_ok (Some cfg) p).
Proof.
  intros Ha Ht. unfold under. rewrite Ha. split; [done|]. simpl. apply Forall_map, Forall_forall.
  intros [e|x] _; simpl; eauto.
Qed.

Lemma under_same cfg (p : peer Cert) :
  let c := under chain_ok name_ok cfg p in
  c_tls c = c_tls (p_conn p) /\ c_in c = c_in (p_conn p) /\ c_out c = c_out (p_conn p) /\
  c_sent c = c_sent (p_conn p).
Proof. unfold under. destruct cfg as [cfg|]; [|done]. by destruct (accepts _ _ _ _). Qed.

(** Whoever runs TLS with this peer has verified it. *)
Lemma under_tls {A} cfg (p : peer Cert) (m : St conn A) o c' :
  tls_sound m -> m (under chain_ok name_ok (Some cfg) p) = (o, c') ->
  c_tls (p_conn p) = false -> c_tls c' = true -> accepts chain_ok name_ok cfg (p_chain p) = true.
Proof.
  intros Hm Hr Ht Ht'. destruct (accepts _ _ _ _) eqn:Ha; [done|].
  rewrite (never_tls_false _ _ _ _ Hm Hr) in Ht'; [done|]. by apply under_refused.
Qed.

End tls.

(** ** The engines' own negotiations are sound *)

Lemma tls_StartUpstreamTLS required : tls_sound (PgWire.StartUpstreamTLS required).
Proof.
  unfold PgWire.StartUpstreamTLS. apply tls_seq; [auto with tls|]. apply tls_bind; [auto with tls|].
  intros resp. apply tls_bind; [auto with tls|]. intros b.
  repeat case_decide; [by apply tls_wrap, tls_Handshake| |]; try destruct required; auto with tls.
Qed.

Lemma tls_startUpstreamTLS required g seq p caps : tls_sound (MyWire.startUpstreamTLS required g seq p caps).
Proof.
  unfold MyWire.startUpstreamTLS. apply tls_bind; [auto with tls|]. intros supports. cbv zeta.
  case_match; [case_match|]; [auto with tls| |].
  - apply tls_seq; auto with tls.
  - apply tls_seq; [auto with tls|]. apply tls_seq; [by apply tls_wrap, tls_Handshake|].
    apply tls_seq; auto with tls.
Qed.

Lemma tls_upstream_tls u required caps db : tls_sound (MyAuth.upstream_tls u required caps db).
Proof.
  unfold MyAuth.upstream_tls. repeat case_match; auto with tls.
  apply tls_seq; [auto with tls|]. apply tls_seq; [by apply tls_wrap, tls_Handshake|]. auto with tls.
Qed.

Section mysql_login.
Context `{Hashes}.

Lemma tls_auth_exchange fuel password secure : forall nonce,
  tls_sound (MyAuth.auth_exchange fuel password nonce secure).
Proof.
  induction fuel as [|k IH]; intros nonce; [apply tls_lift|]. cbn [MyAuth.auth_exchange].
  apply tls_bind; [auto with tls|]. intros p. cbv zeta.
  repeat (case_match; auto with tls).
  - apply tls_bind; [auto with tls|]. intros [plugin n']. apply tls_bind; [auto with tls|].
    intros resp. apply tls_seq; auto with tls.
  - apply tls_seq; auto with tls.
Qed.

Lemma tls_completeUpstreamAuth password nonce secure :
  tls_sound (MyAuth.completeUpstreamAuth password nonce secure).
Proof. intros c. apply tls_auth_exchange. Qed.

Lemma tls_authenticateUpstream u required cred db :
  tls_sound (MyAuth.authenticateUpstream u required cred db).
Proof.
  unfold MyAuth.authenticateUpstream. apply tls_bind; [auto with tls|]. intros g.
  apply tls_bind; [auto with tls|]. intros [[nonce plugin] caps].
  apply tls_bind; [apply tls_upstream_tls|]. intros secure. cbv zeta.
  apply tls_bind; [auto with tls|]. intros resp. apply tls_seq; [auto with tls|].
  apply tls_completeUpstreamAuth.
Qed.

(** The SSL request, and nothing else, leaves in clear. *)
Lemma upstream_tls_required caps db c o c' :
  MyAuth.upstream_tls true true caps db c = (o, c') -> c_tls c = false ->
  (is_ok o = true -> c_tls c' = true) /\
  (c_tls c' = false -> exists q, q `prefix_of` packet (b8 1) (ssl_request caps db) /\ sent c' = sent c ++ q).
Proof.
  unfold MyAuth.upstream_tls. cbn [negb]. intros Hr Hc. case_match.
  { injection Hr as <- <-. split; [done|]. exists []. rewrite app_nil_r. split; [apply prefix_nil|done]. }
  unfold sbind at 1 in Hr. destruct (on_out _ c) as [o1 c1] eqn:H1.
  pose proof (on_out_tls _ _ _ _ H1) as [Ht1 _]. apply on_out_packet_sent in H1 as (q & Hq & Hp & _).
  destruct o1 as [[]|e| |]; [|injection Hr as <- <-; split; [done|eauto]..].
  unfold sbind at 1 in Hr. destruct (Handshake c1) as [o2 c2] eqn:H2.
  pose proof (Handshake_tls _ _ _ H2) as Ht2. pose proof (Handshake_sent _ _ _ H2) as Hs2.
  destruct o2 as [[]|e| |]; injection Hr as <- <-.
  - split; [auto|]. rewrite Ht2; done.
  - split; [done|]. rewrite Hs2. eauto.
  - split; [done|]. rewrite Hs2. eauto.
  - split; [done|]. rewrite Hs2. eauto.
Qed.

Lemma authenticateUpstream_required cred db c o c' :
  MyAuth.authenticateUpstream true true cred db c = (o, c') -> c_tls c = false ->
  (is_ok o = true -> c_tls c' = true) /\
  (c_tls c' = false -> exists caps q, q `prefix_of` packet (b8 1) (ssl_request caps db) /\ sent c' = sent c ++ q).
Proof.
  unfold MyAuth.authenticateUpstream. intros Hr Hc. unfold sbind at 1 in Hr.
  assert (Hstay : forall c1 : conn, sent c1 = sent c -> exists caps q,
    q `prefix_of` packet (b8 1) (ssl_request caps db) /\ sent c1 = sent c ++ q).
  { intros c1 ->. exists 0, []. rewrite app_nil_r. split; [apply prefix_nil|done]. }
  destruct (on_in readPacket c) as [o1 c1] eqn:H1. pose proof (on_in_tls _ _ _ _ H1) as (Ht1 & _).
  apply on_in_sent in H1. destruct o1 as [g|e| |]; [|injection Hr as <- <-; split; [done|auto]..].
  unfold sbind at 1, slift at 1 in Hr.
  destruct (parseServerGreeting _) as [[[nonce plugin] caps]|e| |];
    [|injection Hr as <- <-; split; [done|auto]..].
  unfold sbind at 1 in Hr. destruct (MyAuth.upstream_tls _ _ _ _ c1) as [o2 c2] eqn:H2.
  destruct (upstream_tls_required _ _ _ _ _ H2) as [Hok Hno]; [congruence|].
  assert (Hclear : c_tls c2 = false -> exists caps q, q `prefix_of` packet (b8 1) (ssl_request caps db) /\
            sent c2 = sent c ++ q).
  { intros Hf. destruct (Hno Hf) as (q & ? & ?). exists caps, q. split; congruence. }
  destruct o2 as [secure|e| |]; [|injection Hr as <- <-; split; [done|auto]..].
  specialize (Hok eq_refl). cbv zeta in Hr.
  set (rest := sbind _ _) in Hr. assert (Hs : tls_sound rest).
  { apply tls_bind; [auto with tls|]. intros resp. apply tls_seq; [auto with tls|].
    apply tls_completeUpstreamAuth. }
  pose proof (tls_kept _ _ _ _ Hs Hr Hok) as Ht. split; [done|]. rewrite Ht. done.
Qed.

End mysql_login.

(** ** The policy *)

(** Decide the equations between string literals. *)
Ltac decide_strings :=
  repeat (let E := fresh in case_decide as E;
          try (exfalso; first [by apply E; auto
                              |vm_compute in E; intuition discriminate])).

Section policy.
Context `{Unicode} {Cert Pool KeyPair : Type}.

(** What the configuration says, case and surrounding blanks aside. *)
Definition said (cfg : Agent) : bytes := ToLower (TrimSpace (UpstreamTLSMode cfg)).

Lemma UpstreamTLSEnabled_false cfg : UpstreamTLSEnabled cfg = false <-> said cfg ∈ disabled_modes.
Proof. unfold UpstreamTLSEnabled. by rewrite negb_false_iff, bool_decide_eq_true. Qed.

Lemma required_spec (p : upstreamTLSPolicy Pool) :
  mode p ∈ tls_modes -> (required (Some p) = true <-> mode p <> str "prefer").
Proof.
  intros Hm. unfold required. rewrite bool_decide_eq_true. unfold tls_modes in Hm. cbn [map] in Hm.
  split.
  - intros Hin Hp. rewrite Hp in Hin. cbn [map] in Hin. by rewrite !elem_of_cons, elem_of_nil in Hin; naive_solver.
  - intros Hn. cbn [map]. set_solver.
Qed.

Lemma enabled_modes (p : upstreamTLSPolicy Pool) : mode p ∈ tls_modes -> enabled (Some p) = true.
Proof.
  intros Hm. unfold enabled. rewrite negb_true_iff, bool_decide_eq_false. intros Hn.
  rewrite Hn in Hm. revert Hm. unfold tls_modes. cbn [map]. set_solver.
Qed.

End policy.

(** The agent starts without upstream TLS only when the configuration says so, in one of the
    five spellings; otherwise it starts with one of the four modes, as configured, required unless it
    is [prefer] and with trust roots when it verifies (those of the configured bundle when there is
    one); anything else, a misspelt mode or a bundle without certificates, is an error at startup. *)
Theorem buildUpstreamTLSPolicy_spec `{Unicode} {Pool} (AppendCertsFromPEM : bytes -> option Pool)
    (SystemCertPool : go Pool) (cfg : Agent) :
  match buildUpstreamTLSPolicy AppendCertsFromPEM SystemCertPool cfg with
  | Ok None => said cfg ∈ disabled_modes
  | Ok (Some p) =>
      (said cfg ∉ disabled_modes) /\ mode p = said cfg /\ mode p ∈ tls_modes /\
      enabled (Some p) = true /\ (required (Some p) = true <-> mode p <> str "prefer") /\
      (nonempty (UpstreamTLSCAPEM cfg) = true -> roots p = AppendCertsFromPEM (UpstreamTLSCAPEM cfg)) /\
      (mode p = str "verify-ca" \/ mode p = str "verify-full" -> is_Some (roots p))
  | Err _ =>
      (said cfg ∉ disabled_modes) /\
      (said cfg ∉ tls_modes \/
       nonempty (UpstreamTLSCAPEM cfg) = true /\ AppendCertsFromPEM (UpstreamTLSCAPEM cfg) = None \/
       nonempty (UpstreamTLSCAPEM cfg) = false /\ is_ok SystemCertPool = false)
  | o => (o = Panic /\ SystemCertPool = Panic) \/ (o = NoFuel /\ SystemCertPool = NoFuel)
  end.
Proof.
  unfold buildUpstreamTLSPolicy. destruct (UpstreamTLSEnabled cfg) eqn:Hon; cbn [negb];
    [|by apply UpstreamTLSEnabled_false].
  assert (Hd : said cfg ∉ disabled_modes) by (rewrite <- UpstreamTLSEnabled_false, Hon; done).
  fold (said cfg). cbv zeta. destruct (decide (said cfg ∉ tls_modes)) as [Hm|Hm]; [by split; [|left]|apply dec_stable in Hm].

  assert (Hp : forall (r : option Pool) sn, let p := mkPolicy (said cfg) sn r in
    enabled (Some p) = true /\ (required (Some p) = true <-> mode p <> str "prefer")).
  { intros r sn. split; [by apply enabled_modes|by apply required_spec]. }
  destruct (nonempty (UpstreamTLSCAPEM cfg)) eqn:Hca.
  - destruct (AppendCertsFromPEM _) as [pool|] eqn:Hpool; cbn [gbind].
    + split_and!; try apply Hp; try done; eauto.
    + split; [done|]. right. left. done.
  - case_decide as Hv; [destruct SystemCertPool as [sys|e| |]; cbn [gbind]|cbn [gbind]].
    + split_and!; try apply Hp; try done; eauto.
    + split; [done|]. right. right. done.
    + by left.
    + by right.
    + split_and!; try apply Hp; try done; naive_solver.
Qed.

(** Whom a mode trusts. [prefer] and [require] complete a handshake with any server that presents
    a certificate, [verify-ca] with those whose chain the configured roots verify, whatever their
    names, [verify-full] with those whose chain verifies and whose certificate is valid for the
    configured server name, or else for the host that was dialed. *)
Theorem configFor_accepts {Cert Pool} (chain_ok : option Pool -> list Cert -> bool)
    (name_ok : bytes -> Cert -> bool) (p : upstreamTLSPolicy Pool) (host : bytes) (leaf : Cert)
    (rest : list Cert) (Hm : mode p ∈ tls_modes) :
  let chain := leaf :: rest in
  let name := if decide (serverName p = []) then host else serverName p in
  accepts chain_ok name_ok (configFor p host) [] = false /\
  accepts chain_ok name_ok (configFor p host) chain =
    (if decide (mode p = str "verify-full") then chain_ok (roots p) chain && name_ok name leaf
     else if decide (mode p = str "verify-ca") then chain_ok (roots p) chain
     else true).
Proof.
  cbv zeta. split; [done|]. destruct p as [m sn r]. unfold configFor. cbn [mode serverName roots] in *.
  unfold tls_modes in Hm. cbn [map] in Hm. rewrite !elem_of_cons, elem_of_nil in Hm.
  destruct Hm as [->|[->|[->|[->|[]]]]]; decide_strings; cbn [accepts InsecureSkipVerify
    VerifyConnection RootCAs ServerName orb]; by rewrite ?andb_true_r, ?andb_true_l.
Qed.

Lemma configFor_accepts_witness :
  let p := mkPolicy (Pool := nat) (str "verify-full") [] (Some 1%nat) in
  accepts (fun _ _ => true) (fun n c => bool_decide (n = c)) (configFor p (str "db")) [str "db"] = true /\
  accepts (fun _ _ => true) (fun n c => bool_decide (n = c)) (configFor p (str "db")) [str "evil"] = false.
Proof.
  intros p. assert (Hm : mode p ∈ tls_modes) by (by do 3 apply list_elem_of_further; apply list_elem_of_here).
  split.
  - destruct (configFor_accepts (fun _ _ => true) (fun n c => bool_decide (n = c)) p (str "db") (str "db") []
      Hm) as [_ ->]. vm_compute. reflexivity.
  - destruct (configFor_accepts (fun _ _ => true) (fun n c => bool_decide (n = c)) p (str "db") (str "evil") []
      Hm) as [_ ->]. vm_compute. reflexivity.
Defined.

Lemma never_tls_step {A} (m : St conn A) c o c' :
  tls_sound m -> m c = (o, c') -> never_tls c -> never_tls c'.
Proof. intros Hm Hr Hn. destruct (Hm c) as [H _]. rewrite Hr in H. auto. Qed.

Lemma startUpstreamTLS_required g seq p caps c off c' :
  MyWire.startUpstreamTLS true g seq p caps c = (Ok off, c') -> c_tls c' = true.
Proof.
  unfold MyWire.startUpstreamTLS. unfold sbind at 1, slift at 1.
  destruct (serverSupportsSSL g) as [b|e| |]; try done. cbv zeta.
  destruct (negb _); [done|]. unfold sbind at 1. destruct (on_out _ c) as [[[]|e| |] c1]; try done.
  unfold sbind at 1. destruct (Handshake c1) as [o2 c2] eqn:H2.
  pose proof (Handshake_tls _ _ _ H2) as Ht. destruct o2 as [[]|e| |]; try done. specialize (Ht eq_refl).
  set (rest := sbind _ _). intros Hr. eapply (tls_kept rest); [|done|done].
  apply tls_seq; auto with tls.
Qed.

(** A relayed verbatim session runs in TLS with a verified server. *)
Lemma handshake_required {Cert Pool} (chain_ok : option Pool -> list Cert -> bool) name_ok cfg
    (p : peer Cert) client d off n' :
  c_tls (p_conn p) = false ->
  MyWire.handshake true true (mkNet client (under chain_ok name_ok (Some cfg) p)) = (Ok (Relay d off), n') ->
  c_tls (up n') = true /\ accepts chain_ok name_ok cfg (p_chain p) = true.
Proof.
  intros Hplain. unfold MyWire.handshake, sbind at 1.
  destruct (on_up (on_in readPacket) _) as [o1 s1] eqn:H1. apply on_up_inv in H1 as (c1 & H1 & ->).
  destruct o1 as [g|e| |]; try done. cbn [cl up] in *. unfold sbind at 1.
  destruct (on_cl _ _) as [o2 s2] eqn:H2. apply on_cl_inv in H2 as (k2 & _ & ->).
  destruct o2 as [[]|e| |]; try done. cbn [cl up]. unfold sbind at 1.
  destruct (on_cl _ _) as [o3 s3] eqn:H3. apply on_cl_inv in H3 as (k3 & _ & ->).
  destruct o3 as [c|e| |]; try done. cbn [cl up]. unfold sbind at 1, slift.
  match goal with |- context [if ?b then le_at 4 ?x 0 else ?z] => destruct (if b then le_at 4 x 0 else z) as [caps|e| |] end; try done.
  destruct (negb _).
  { unfold sbind, sret. by destruct (on_up _ _) as [[| | |] ?]. }
  unfold sbind. destruct (on_up _ _) as [o4 s4] eqn:H4. apply on_up_inv in H4 as (c4 & H4 & ->).
  destruct o4 as [off'|e| |]; try done. intros [= _ _ <-]. cbn [up] in *.
  pose proof (startUpstreamTLS_required _ _ _ _ _ _ _ H4) as Ht. split; [done|].
  destruct (accepts _ _ _ _) eqn:Ha; [done|]. exfalso.
  apply (under_refused chain_ok name_ok) in Ha; [|done].
  apply (never_tls_step _ _ _ _ (tls_on_in _) H1) in Ha.
  apply (never_tls_step _ _ _ _ (tls_startUpstreamTLS _ _ _ _ _) H4) in Ha as [Hf _]. congruence.
Qed.

Lemma mysql_upstream_login `{Hashes} {Cert Pool} (chain_ok : option Pool -> list Cert -> bool)
    (name_ok : bytes -> Cert -> bool) (cfg : tlsConfig Pool) (p : peer Cert) (client : conn)
    (clientTLS : bool) (resolve : CredentialResolver) (nonce : go bytes) :
  c_tls (p_conn p) = false ->
  let n := mkNet client (under chain_ok name_ok (Some cfg) p) in
  let '(o, n') := MyAuth.inject_login clientTLS true true resolve nonce n in
  (is_ok o = true -> c_tls (up n') = true) /\
  (c_tls (up n') = true -> accepts chain_ok name_ok cfg (p_chain p) = true) /\
  (c_tls (up n') = false -> exists caps db q,
     q `prefix_of` packet (b8 1) (ssl_request caps db) /\ sent (up n') = sent (up n) ++ q).
Proof.
  intros Hplain n. destruct (MyAuth.inject_login _ _ _ _ _ n) as [o n'] eqn:Hr.
  apply my_login_spec in Hr as [_ [[-> Ho]|(info & token & cred & c & _ & _ & Hup & Hok)]].
  { pose proof (under_same chain_ok name_ok (Some cfg) p) as (Ht & _). cbv zeta in Ht. cbn [up n].
    rewrite Ho, Ht, Hplain. split_and!; [done|done|]. intros _. exists 0, [], []. rewrite app_nil_r.
    split; [apply prefix_nil|done]. }
  unfold minted_login in Hup, Hok. set (db := if decide _ then _ else _) in *.
  destruct (MyAuth.authenticateUpstream true true cred db (up n)) as [o1 c1] eqn:Hm.
  cbn [fst snd] in *. subst c1. pose proof (under_same chain_ok name_ok (Some cfg) p) as (Ht & _).
  destruct (authenticateUpstream_required _ _ _ _ _ Hm) as [H1 H2]; [by rewrite <- Hplain, <- Ht|].
  split_and!.
  - intros Hi. apply H1. by rewrite Hok.
  - intros Htls. by eapply (under_tls _ _ _ _ _ _ _ (tls_authenticateUpstream _ _ _ _) Hm).
  - intros Hf. destruct (H2 Hf) as (caps & q & Hq & Hs). exists caps, db, q. done.
Qed.

(** With upstream TLS required, MySQL never continues in clear: a verbatim session that the agent
    relays (its client did not ask for TLS itself) runs inside a TLS session with a server whose
    certificates were accepted; a login with an injected credential succeeds only inside one, and
    as long as there is none the server has been sent nothing but a prefix of an SSL request. *)
Theorem mysql_upstream_secured `{Hashes} {Cert Pool} (chain_ok : option Pool -> list Cert -> bool)
    (name_ok : bytes -> Cert -> bool) (cfg : tlsConfig Pool) (p : peer Cert) (client : conn)
    (clientTLS : bool) (resolve : CredentialResolver) (nonce : go bytes)
    (Hplain : c_tls (p_conn p) = false) :
  let n := mkNet client (under chain_ok name_ok (Some cfg) p) in
  (let '(o, n') := MyWire.handshake true true n in
   match o with
   | Ok (Relay d off) => c_tls (up n') = true /\ accepts chain_ok name_ok cfg (p_chain p) = true
   | _ => True
   end) /\
  (let '(o, n') := MyAuth.inject_login clientTLS true true resolve nonce n in
   (is_ok o = true -> c_tls (up n') = true) /\
   (c_tls (up n') = true -> accepts chain_ok name_ok cfg (p_chain p) = true) /\
   (c_tls (up n') = false -> exists caps db q,
      q `prefix_of` packet (b8 1) (ssl_request caps db) /\ sent (up n') = sent (up n) ++ q)).
Proof.
  intros n. split.
  - destruct (MyWire.handshake true true n) as [o n'] eqn:Hr. destruct o as [[|d off]|e| |]; try done.
    by apply (handshake_required chain_ok name_ok cfg p client d off).
  - by apply mysql_upstream_login.
Qed.

Lemma mysql_upstream_secured_witness :
  let n := mkNet (plain_conn [] EEOF) (under (fun (_ : option nat) _ => true) (fun _ _ => true)
             (Some (mkTLS (str "db") false None None)) (mkPeer (plain_conn [] EEOF) [tt])) in
  let n' := snd (MyAuth.inject_login (H := flat_hashes) false true true (fun _ _ => Err EEOF) (Err EEOF) n) in
  exists caps db q, q `prefix_of` packet (b8 1) (ssl_request caps db) /\ sent (up n') = sent (up n) ++ q.
Proof.
  intros n n'.
  destruct (mysql_upstream_secured (H := flat_hashes) (fun (_ : option nat) _ => true) (fun _ _ => true)
    (mkTLS (str "db") false None None) (mkPeer (plain_conn [] EEOF) [tt]) (plain_conn [] EEOF)
    false (fun _ _ => Err EEOF) (Err EEOF) eq_refl) as [_ Hi].
  subst n'. fold n in Hi. destruct (MyAuth.inject_login _ _ _ _ _ n) as [o n'] eqn:Hr.
  destruct Hi as (_ & _ & Hi). apply Hi.
  replace n' with (snd (o, n')) by done. rewrite <- Hr. vm_compute. reflexivity.
Defined.

(** ** Engine selection and the upgrade before the engine runs *)

Section selection.
Context `{Unicode} {Cert Pool KeyPair : Type}.

(** The engine of a database type, with what the TLS code thinks of that type. *)
Lemma engineFactory_cases (tls : option KeyPair) dbType (e : Engine Pool KeyPair) :
  engineFactory tls dbType = Ok e ->
  (e = Postgres tls /\ isPostgres dbType = true) \/
  (e = MySQL tls None false /\ isPostgres dbType = false /\ isMongo dbType = false /\ isMySQL dbType = true) \/
  (e = Mongo /\ isPostgres dbType = false /\ isMongo dbType = true).
Proof.
  unfold engineFactory. case_decide as Hp.
  { intros [= <-]. left. by destruct Hp as [-> | ->]. }
  case_decide as Hm; [intros [= <-]; right; left; by subst|].
  case_decide as Hg; [|done]. intros [= <-]. right. right. by destruct Hg as [-> | ->].
Qed.

End selection.
