(* ===== verification/AgentProps.v ===== *)
(** * What the agent guarantees: its credential exchange, its masking chain, its sessions and its
      registration with the gateway *)
From S2P Require Import Prelude Go GoStr GoIO ConnFacts Codec Mask Wire PgWire PgWireFacts PgWireProps PgAuth MyWire MyAuth MyAuthProps Mongo Tunnel Gateway GatewayProps Edge Config AgentTLS AgentSources Agent AgentRun AgentTLSProps.
Open Scope Z_scope.

(** ** The credential exchange *)

Lemma ReadAll_limit n r : ReadAll (LimitReader n r) = take (Z.to_nat n) (rbuf r).
Proof.
  unfold ReadAll, LimitReader. case_match eqn:Hn; [done|]. apply Z.leb_gt in Hn.
  rewrite take_ge; [done|]. unfold zlen in Hn. lia.
Qed.

Lemma success_spec status : success status = true <-> 200 <= status < 300.
Proof. unfold success. rewrite andb_true_iff, Z.leb_le, Z.ltb_lt. lia. Qed.

Section exchange.
Context (Do : http_request -> go (Z * rd)) (marshal_exchange : exchangeRequest -> go bytes).
Context (unmarshal_exchange : bytes -> exchangeResponse * go unit).

(** The reply that yields a credential. *)
Definition granting (status : Z) (reply : rd) (cred : UpstreamCredential) : Prop :=
  200 <= status < 300 /\
  exists out, unmarshal_exchange (take (Z.to_nat 8192) (rbuf reply)) = (out, Ok tt) /\
    TrimSpace (x_Username out) <> [] /\
    cred = mkCred (x_Username out) (x_Password out) (x_Database out).

Lemma exchange_reply_ok status reply cred :
  exchange_reply unmarshal_exchange status reply = Ok cred <-> granting status reply cred.
Proof.
  unfold exchange_reply, granting. rewrite ReadAll_limit, <- success_spec.
  destruct (unmarshal_exchange _) as [out err]. destruct (success status); cbn [negb].
  - destruct err as [[]|e| |]; try (split; [done|by intros [_ (? & ? & _)]; simplify_eq]).
    case_decide as Hu; [split; [done|by intros [_ (? & ? & ? & _)]; simplify_eq]|].
    split; [intros [= <-]; eauto 6|]. intros [_ (? & ? & _ & ->)]. by simplify_eq.
  - split; [done|by intros [? _]].
Qed.

End exchange.

(** The agent holds an upstream credential only for a session token it exchanged: with injection
    configured and a token presented, one POST went to the configured endpoint, carrying that token
    and the requested user and database, under the configured bearer token; the answer was a 2xx whose
    first 8 KiB decode to a credential with a user name, and that credential is the one used. Without
    a token nothing is sent. *)
Theorem resolver_spec (Do : http_request -> go (Z * rd)) (marshal : exchangeRequest -> go bytes)
    (unmarshal : bytes -> exchangeResponse * go unit) (cfg : Agent) (startup : gmap bytes bytes)
    (secret : bytes) (cred : UpstreamCredential) :
  ((exists resolve, NewHTTPCredentialResolver Do marshal unmarshal cfg = Some resolve /\
      resolve startup secret = Ok cred) <->
   InjectCredentials cfg = true /\ TrimSpace (CredentialExchangeURL cfg) <> [] /\
   TrimSpace secret <> [] /\
   exists body status reply,
     marshal (mkExReq secret (default [] (startup !! str "user")) (default [] (startup !! str "database")))
       = Ok body /\
     Do (mkReq (str "POST") (TrimSpace (CredentialExchangeURL cfg))
           ((str "Content-Type", str "application/json") :: bearer (TrimSpace (CredentialExchangeToken cfg)))
           body) = Ok (status, reply) /\
     granting unmarshal status reply cred) /\
  (TrimSpace secret = [] -> forall url token, snd (exchange Do marshal unmarshal url token startup secret) = None).
Proof.
  split; [|intros Hs url token; unfold exchange; by rewrite decide_True].
  unfold NewHTTPCredentialResolver.
  destruct (InjectCredentials cfg); cbn [negb orb];
    [|by split; [intros (? & ? & _)|intros (? & _)]].
  case_bool_decide as Hu; [by split; [intros (? & ? & _)|intros (_ & ? & _)]|].
  unfold exchange, exchange_request. split.
  - intros (resolve & [= <-] & Hr). case_decide as Hs; [done|]. split_and!; [done|done|done|].
    destruct (marshal _) as [body|e| |]; simpl in Hr; try done.
    destruct (Do _) as [[status reply]|e| |] eqn:Hd; try done.
    exists body, status, reply. split_and!; [done|done|]. by apply exchange_reply_ok.
  - intros (_ & _ & Hs & body & status & reply & Hm & Hd & Hg). eexists. split; [done|]. cbv beta.
    rewrite decide_False by done. rewrite Hm. cbn [gbind fst]. rewrite Hd. by apply exchange_reply_ok.
Qed.

(** ** The overlay source *)

Section sync.
Context `{Unicode} (decode_overlay : rd -> go (option (list (bytes * bytes)))).
Context (cfg : Agent) (Do : nat -> http_request -> go (Z * rd)).

(** The rules the [i]-th refresh brings, if it succeeds. *)
Definition fetched (i : nat) : option (list (bytes * bytes)) :=
  match fetch decode_overlay (Do i) (newOverlaySource cfg) with Ok rules => Some rules | _ => None end.

(** What an overlay whose refreshes are those up to [n] should hold. *)
Inductive current_after (o0 : Overlay.t) (n : nat) : Overlay.t -> Prop :=
| seeded : (forall i, (i <= n)%nat -> fetched i = None) -> current_after o0 n o0
| replaced i rules :
    (i <= n)%nat -> fetched i = Some rules -> (forall j, (i < j <= n)%nat -> fetched j = None) ->
    current_after o0 n (Overlay.NewOverlay rules).

Lemma refresh_cases i o :
  (exists rules, fetched i = Some rules /\
     fst (refresh decode_overlay (Do i) (newOverlaySource cfg) o) = Overlay.NewOverlay rules) \/
  (fetched i = None /\ fst (refresh decode_overlay (Do i) (newOverlaySource cfg) o) = o).
Proof. unfold fetched, refresh. destruct (fetch _ _ _) as [rules|e| |]; eauto. Qed.

Lemma current_after_S o0 n o :
  fetched (S n) = None -> current_after o0 n o -> current_after o0 (S n) o.
Proof.
  intros Hn [Hs|i rules Hi Hf Hj].
  - apply seeded. intros i Hi. destruct (decide (i = S n)) as [->|]; [done|]. apply Hs. lia.
  - apply (replaced _ _ i rules); [lia|done|]. intros j Hjn.
    destruct (decide (j = S n)) as [->|]; [done|]. apply Hj. lia.
Qed.

Lemma refreshes_current o0 n :
  current_after o0 n
    (foldl (fun o i => fst (refresh decode_overlay (Do i) (newOverlaySource cfg) o)) o0 (seq 0 (S n))).
Proof.
  induction n as [|n IH].
  - cbn [seq foldl]. destruct (refresh_cases 0%nat o0) as [(rules & Hf & ->)|[Hf ->]].
    + apply (replaced _ _ 0%nat); [done|done|lia].
    + apply seeded. intros i Hi. by assert (i = 0%nat) as -> by lia.
  - rewrite seq_S, foldl_app. cbn [foldl Nat.add].
    destruct (refresh_cases (S n) (foldl (fun o i => fst (refresh decode_overlay (Do i)
      (newOverlaySource cfg) o)) o0 (seq 0 (S n)))) as [(rules & Hf & ->)|[Hf ->]].
    + apply (replaced _ _ (S n)); [done|done|lia].
    + by apply current_after_S.
Qed.

End sync.

(** The overlay is never weakened by a failing control plane: whatever the control plane answers,
    after the first refresh and [n] ticks the rules in force are those of the latest refresh that
    succeeded, or the configured ones when none did; refreshes are at least 15 seconds apart, and a
    negative interval leaves only the first. *)
Theorem startOverlaySync_spec `{Unicode} (decode_overlay : rd -> go (option (list (bytes * bytes))))
    (cfg : Agent) (Do : nat -> http_request -> go (Z * rd)) (n : nat) (o0 : Overlay.t)
    (Hon : TrimSpace (PIIOverlayURL cfg) <> []) :
  let ticks := if PIIOverlayPollSeconds cfg <? 0 then O else n in
  (exists o, startOverlaySync decode_overlay cfg Do n (Some o0) = Some o /\
     current_after decode_overlay cfg Do o0 ticks o) /\
  match poll_interval cfg with
  | None => PIIOverlayPollSeconds cfg < 0
  | Some t => 0 <= PIIOverlayPollSeconds cfg /\ 15 * second <= t < 2 ^ 63
  end.
Proof.
  intros ticks. split.
  - unfold startOverlaySync, overlay_dynamic. rewrite bool_decide_eq_true_2 by eauto.
    rewrite bool_decide_eq_false_2 by done. cbn [andb negb]. eexists. split; [done|].
    assert ((match poll_interval cfg with Some _ => n | None => O end) = ticks) as ->.
    { unfold ticks, poll_interval. by destruct (PIIOverlayPollSeconds cfg <? 0). }
    apply refreshes_current.
  - unfold poll_interval, overlayMinPoll, second.
    destruct (PIIOverlayPollSeconds cfg <? 0) eqn:Hp; [by apply Z.ltb_lt|].
    apply Z.ltb_ge in Hp. pose proof (wrap64_range (PIIOverlayPollSeconds cfg * 1000000000)).
    destruct (wrap64 _ <? _) eqn:Hi; [lia|]. apply Z.ltb_ge in Hi. lia.
Qed.


(** A configuration with the given masking settings, for the concrete runs. *)
Definition masking_cfg (analyze anonymize : bytes) (overlay : list (bytes * bytes)) (url : bytes) (poll : Z) : Agent :=
  {| Mode := []; DBType := []; ListenAddr := []; UpstreamAddr := []; GatewayAddr := [];
     AgentID := []; OrgID := []; Token := []; Targets := []; MaskAnalyzeURL := analyze;
     MaskAnonymizeURL := anonymize; MaskLanguage := []; PIIOverlay := overlay; PIIOverlayURL := url;
     PIIOverlayToken := []; PIIOverlayPollSeconds := poll; InjectCredentials := false;
     CredentialExchangeURL := []; CredentialExchangeToken := []; ClientTLSCertPEM := [];
     ClientTLSKeyPEM := []; ClientTLSSelfSigned := false; UpstreamTLSMode := [];
     UpstreamTLSCAPEM := []; UpstreamTLSServerName := [] |}.

Lemma startOverlaySync_spec_witness :
  let cfg := masking_cfg [] [] [] (str "https://cp/o") 5 in
  exists t, poll_interval cfg = Some t /\ 15 * second <= t < 2 ^ 63.
Proof.
  intros cfg.
  destruct (startOverlaySync_spec (H := {| lower_runes := fun s => s |}) (fun _ => Err EEOF) cfg
    (fun _ _ => Err EEOF) 3 (Overlay.mk None)) as [_ Hp]; [vm_compute; done|].
  exists (15 * second). split; [vm_compute; reflexivity|]. vm_compute in Hp. vm_compute. tauto.
Defined.

(** ** The masking chain *)

Section masking.
Context `{Unicode} {span : Type}.
Context (an : bytes -> bytes -> bytes -> option (list span)).
Context (ano : bytes -> bytes -> list span -> option bytes).

Lemma gbind_id {A} (c : go A) : (let? x := c in Ok x) = c.
Proof. by destruct c. Qed.

(** The layers in the order they see a row. *)
Definition layers (cfg : Agent) (o : Overlay.t) : list masker :=
  (if Remote.Enabled (remote_of cfg) then [Remote.MaskRow an ano (remote_of cfg)] else []) ++
  (if overlay_on cfg then [Overlay.MaskRow o] else []).

Lemma masker_with_layers cfg o cols r :
  masker_with an ano cfg o cols r = Chain.MaskRow (layers cfg (default (Overlay.mk None) o)) cols r.
Proof.
  unfold masker_with, buildMaskerWithOverlay, layers, remote_layer.
  by destruct (Remote.Enabled _), (overlay_on cfg).
Qed.

#[export] Instance masker_with_ok cfg o : MaskerOk (masker_with an ano cfg o).
Proof.
  assert (Hc : MaskerOk (Chain.MaskRow (layers cfg (default (Overlay.mk None) o)))).
  { apply Chain_ok. unfold layers.
    apply Forall_app; split; [destruct (Remote.Enabled _)|destruct (overlay_on cfg)];
      try apply Forall_nil_2; apply Forall_singleton; apply _. }
  split; intros *; rewrite masker_with_layers; apply Hc.
Qed.

End masking.
#[export] Existing Instance masker_with_ok.

Lemma overlay_last_word `{Unicode} {span} (an : bytes -> bytes -> bytes -> option (list span))
    (ano : bytes -> bytes -> list span -> option bytes) (cfg : Agent) (o : Overlay.t)
    (cols : list Column) (r : row) (Hon : overlay_on cfg = true) :
  exists content masked,
    Remote.MaskRow an ano (remote_of cfg) cols r = Ok content /\
    masker_with an ano cfg (Some o) cols r = Ok masked /\
    length masked = length r /\
    (forall i, masked !! i = Overlay.cell (Overlay.current o) cols i <$> content !! i) /\
    (forall i v c tok, r !! i = Some (Some v) -> cols !! i = Some c -> Text c = true ->
       Overlay.current o !! ToLower (Mask.Name c) = Some tok -> masked !! i = Some (Some tok)).
Proof.
  assert (Hrem : exists content, Remote.MaskRow an ano (remote_of cfg) cols r = Ok content /\
    forall i v, r !! i = Some (Some v) -> exists v', content !! i = Some (Some v')).
  { unfold Remote.MaskRow. destruct (Remote.Enabled _); [|eauto]. eexists. split; [done|].
    intros i v Hi. rewrite list_lookup_imap, Hi. simpl. unfold Remote.cell.
    repeat case_match; eauto. }
  destruct Hrem as (content & Hc & Hsome).
  destruct (overlay_lookup o cols content 0) as (masked & Hm & _).
  assert (Hcell : forall i, masked !! i = Overlay.cell (Overlay.current o) cols i <$> content !! i).
  { intros i. destruct (overlay_lookup o cols content i) as (m' & Hm' & Hi). congruence. }
  exists content, masked. split; [done|]. split.
  { rewrite masker_with_layers. unfold layers. rewrite Hon. cbn [default].
    destruct (Remote.Enabled (remote_of cfg)) eqn:He; cbn [app Chain.MaskRow id].
    - rewrite Hc. cbn [gbind id]. by rewrite Hm.
    - unfold Remote.MaskRow in Hc. rewrite He in Hc. injection Hc as <-. cbn [id]. by rewrite Hm. }
  split; [|split; [done|]].
  - by rewrite (mask_length _ _ _ Hm), (mask_length _ _ _ Hc).
  - intros i v c tok Hi Hcol Ht Hr. destruct (Hsome i v Hi) as [v' Hv']. rewrite Hcell, Hv'. simpl.
    unfold Overlay.cell. by rewrite Hcol, Ht, Hr.
Qed.

(** The overlay has the last word. With an overlay configured, every row is masked: a text value
    of a column that has a rule becomes the rule's token, whatever the content masker before it made
    of the row; every other value, NULLs and binary columns included, is the content masker's. *)
Theorem overlay_overrides `{Unicode} {span} (an : bytes -> bytes -> bytes -> option (list span))
    (ano : bytes -> bytes -> list span -> option bytes) (cfg : Agent) (o : Overlay.t)
    (cols : list Column) (r : row) (Hon : overlay_on cfg = true) :
  exists content masked,
    Remote.MaskRow an ano (remote_of cfg) cols r = Ok content /\
    masker_with an ano cfg (Some o) cols r = Ok masked /\
    length masked = length r /\
    (forall i, masked !! i = Overlay.cell (Overlay.current o) cols i <$> content !! i) /\
    (forall i v c tok, r !! i = Some (Some v) -> cols !! i = Some c -> Text c = true ->
       Overlay.current o !! ToLower (Mask.Name c) = Some tok -> masked !! i = Some (Some tok)).
Proof. by apply overlay_last_word. Qed.

Lemma overlay_overrides_witness :
  let U := {| lower_runes := fun s => s |} in
  masker_with (fun _ _ _ => Some [tt]) (fun _ _ _ => Some (str "***"))
    (masking_cfg (str "http://a") (str "http://b") [(str "EMAIL", str "[email]")] [] 0)
    (Some (Overlay.NewOverlay [(str "EMAIL", str "[email]")]))
    [mkCol (str "Email") true; mkCol (str "note") true] [Some (str "a@b.c"); Some (str "call Bob")] =
  Ok [Some (str "[email]"); Some (str "***")].
Proof.
  intros U. destruct (overlay_overrides (fun _ _ _ => Some [tt]) (fun _ _ _ => Some (str "***"))
    (masking_cfg (str "http://a") (str "http://b") [(str "EMAIL", str "[email]")] [] 0)
    (Overlay.NewOverlay [(str "EMAIL", str "[email]")])
    [mkCol (str "Email") true; mkCol (str "note") true] [Some (str "a@b.c"); Some (str "call Bob")]
    eq_refl) as (content & masked & Hc & -> & _ & Hcell & _).
  vm_compute in Hc. injection Hc as <-. f_equal. apply list_eq. intros [|[|[|i]]];
    rewrite Hcell; vm_compute; reflexivity.
Defined.

(** Compute the lines of one combination of settings. *)
Ltac guardrail_cases :=
  repeat case_bool_decide; simpl; rewrite ?elem_of_cons, ?elem_of_nil; intuition congruence.

(** The startup warnings tell the truth. Nothing is logged exactly when the content masker is
    active; a half-configured content masker is reported exactly when one URL is missing, which
    disables it; the other two say which layers are left, and under [Unmasked] every row passes
    unchanged. *)
Theorem guardrails_spec `{Unicode} {span} (an : bytes -> bytes -> bytes -> option (list span))
    (ano : bytes -> bytes -> list span -> option bytes) (cfg : Agent) :
  let lines := logMaskingGuardrails cfg in
  let content := Remote.Enabled (remote_of cfg) in
  (lines = [] <-> content = true) /\
  (HalfConfigured ∈ lines <->
     content = false /\ (MaskAnalyzeURL cfg <> [] \/ MaskAnonymizeURL cfg <> [])) /\
  (OverlayOnly ∈ lines <-> content = false /\ overlay_on cfg = true) /\
  (Unmasked ∈ lines <-> content = false /\ overlay_on cfg = false) /\
  (Unmasked ∈ lines -> forall o cols r, masker_with an ano cfg o cols r = Ok r).
Proof.
  cbv zeta. assert (Hu : Unmasked ∈ logMaskingGuardrails cfg <->
    Remote.Enabled (remote_of cfg) = false /\ overlay_on cfg = false).
  { unfold logMaskingGuardrails, Remote.Enabled, remote_of. simpl.
    destruct (overlay_on cfg); guardrail_cases. }
  split_and!; [| | |done|].
  4: { intros [He Ho]%Hu o cols r. rewrite masker_with_layers. unfold layers. by rewrite He, Ho. }
  all: clear Hu; unfold logMaskingGuardrails, Remote.Enabled, remote_of; simpl.
  all: destruct (overlay_on cfg); guardrail_cases.
Qed.

(** The label of the masking mode does not: with the analyze URL alone it says [remote], and no value
    is masked. *)
Lemma MaskingMode_half `{Unicode} {span} (an : bytes -> bytes -> bytes -> option (list span)) ano cfg :
  MaskAnalyzeURL cfg <> [] -> MaskAnonymizeURL cfg = [] -> overlay_on cfg = false ->
  MaskingMode cfg = str "remote" /\ forall o cols r, masker_with an ano cfg o cols r = Ok r.
Proof.
  intros Ha Hb Ho. split.
  - unfold MaskingMode. by rewrite Ho, (decide_False _ _ Ha).
  - intros o cols r. rewrite masker_with_layers. unfold layers, Remote.Enabled, remote_of. simpl.
    by rewrite Ho, Hb, andb_false_r.
Qed.

(** ** Sessions *)

(** A row under an overlay: as long as it was, every text value of a column with a rule is the rule's
    token; a NULL, a binary value and, when no content masker is configured, a value of a column without
    a rule are what they were. *)
Definition obeys (cfg : Agent) (o : Overlay.t) `{Unicode} (cols : list Column) (r masked : row) : Prop :=
  length masked = length r /\
  (forall j v c tok, r !! j = Some (Some v) -> cols !! j = Some c -> Text c = true ->
     Overlay.current o !! ToLower (Mask.Name c) = Some tok -> masked !! j = Some (Some tok)) /\
  (forall j v c, r !! j = Some v -> cols !! j = Some c ->
     v = None \/ Text c = false \/
     (MaskAnalyzeURL cfg = [] \/ MaskAnonymizeURL cfg = []) /\ Overlay.current o !! ToLower (Mask.Name c) = None ->
     masked !! j = Some v).

(** What a Postgres server sends: descriptions of rows, rows, and any other messages. *)
Inductive backend :=
| Described (cs : list coldesc)
| Row (r : row)
| Other (typ : byte) (payload : bytes).

Definition encode_backend (b : backend) : byte * bytes :=
  match b with
  | Described cs => (tRowDescription, encode_rowdesc cs)
  | Row r => (tDataRow, encode_row r)
  | Other typ p => (typ, p)
  end.

Definition backend_ok (b : backend) : Prop :=
  zlen (snd (encode_backend b)) + 4 < 2 ^ 32 /\
  match b with
  | Described cs => Forall coldesc_ok cs /\ zlen cs < 2 ^ 16
  | Row r => Forall field_fits r /\ zlen r < 2 ^ 16
  | Other typ _ => typ <> tRowDescription /\ typ <> tDataRow
  end.

(** What its client gets for it, from the [i]-th message on and under the columns last described: each
    row under the overlay in force at that message, everything else as it was. *)
Inductive relayed `{Unicode} (cfg : Agent) (o : nat -> Overlay.t)
    : nat -> list Column -> list backend -> list backend -> Prop :=
| relayed_nil i cols : relayed cfg o i cols [] []
| relayed_described i cols cs bs bs' :
    relayed cfg o (S i) (map column_of cs) bs bs' -> relayed cfg o i cols (Described cs :: bs) (Described cs :: bs')
| relayed_row i cols r m bs bs' :
    obeys cfg (o i) cols r m -> relayed cfg o (S i) cols bs bs' -> relayed cfg o i cols (Row r :: bs) (Row m :: bs')
| relayed_other i cols typ p bs bs' :
    relayed cfg o (S i) cols bs bs' -> relayed cfg o i cols (Other typ p :: bs) (Other typ p :: bs').

Section result_set.
Context `{Unicode} {span : Type}.
Context (an : bytes -> bytes -> bytes -> option (list span)).
Context (ano : bytes -> bytes -> list span -> option bytes).
Context (cfg : Agent) (o : nat -> Overlay.t) (Hon : overlay_on cfg = true).

Lemma row_columns_lookup n cols j c :
  (j < n)%nat -> cols !! j = Some c -> row_columns n cols !! j = Some c.
Proof.
  intros Hj Hc. unfold row_columns. rewrite list_lookup_fmap, lookup_seq_lt by done. simpl. by rewrite Hc.
Qed.

Lemma masked_obeys i cols r : exists m,
  masker_with an ano cfg (Some (o i)) (row_columns (length r) cols) r = Ok m /\ obeys cfg (o i) cols r m.
Proof.
  destruct (overlay_last_word an ano cfg (o i) (row_columns (length r) cols) r Hon)
    as (content & m & Hcon & Hok & Hlen & Hcell & Hrule).
  exists m. split; [done|]. split; [done|].
  assert (Hc : forall j v c, r !! j = Some v -> cols !! j = Some c -> row_columns (length r) cols !! j = Some c).
  { intros j v c Hj. apply row_columns_lookup. by eapply lookup_lt_Some. }
  split.
  - intros j v c tok Hj Hcol. apply (Hrule j v c tok Hj). by eapply Hc.
  - intros j v c Hj Hcol Hcase. specialize (Hc j v c Hj Hcol). destruct Hcase as [->|[Hb|[Hoff Hnone]]].
    + by eapply mask_null.
    + by erewrite (mask_binary (m := masker_with an ano cfg (Some (o i)))).
    + assert (Remote.Enabled (remote_of cfg) = false) as He.
      { unfold Remote.Enabled, remote_of. cbn [Remote.analyzeURL Remote.anonymizeURL Remote.NewRemote
          Remote.AnalyzeURL Remote.AnonymizeURL].
        destruct Hoff as [-> | ->]; [done|]. by rewrite andb_comm. }
      unfold Remote.MaskRow in Hcon. rewrite He in Hcon. injection Hcon as <-. rewrite Hcell, Hj. cbn.
      unfold Overlay.cell. destruct v as [x|]; [|done]. rewrite Hc. destruct (Text c); [|done]. by rewrite Hnone.
Qed.

Lemma run_spec_relayed mk bs : (forall i, mk i = masker_with an ano cfg (Some (o i))) -> Forall backend_ok bs ->
  forall i cols, exists bs', run_spec mk i cols (map encode_backend bs) = map encode_backend bs' /\
    relayed cfg o i cols bs bs'.
Proof.
  intros Hmk. induction bs as [|b bs IH]; intros Hok i cols; [exists []; split; [done|constructor]|].
  apply Forall_cons in Hok as [[_ Hb] Hok]. specialize (IH Hok). cbn [map].
  destruct b as [cs|r|typ p]; cbn [encode_backend].
  - destruct (IH (S i) (map column_of cs)) as (bs' & Hr & Hrel). exists (Described cs :: bs').
    split; [|by constructor]. erewrite run_spec_cons; [by rewrite Hr|]. unfold backend_msg.
    rewrite decide_True by done. destruct Hb. by rewrite parseRowDescription_encode.
  - destruct (IH (S i) cols) as (bs' & Hr & Hrel). destruct (masked_obeys i cols r) as (m & Hm & Hob).
    exists (Row m :: bs'). split; [|by constructor]. erewrite run_spec_cons; [by rewrite Hr|]. unfold backend_msg.
    rewrite decide_False by done. rewrite decide_True by done. destruct Hb as [Hf Hz].
    assert (Hmo : MaskerOk (mk i)) by (rewrite Hmk; apply _).
    pose proof (maskDataRow_encode (mk i) cols r [] Hmo Hf Hz) as Hd. rewrite app_nil_r in Hd.
    by rewrite Hd, Hmk, Hm.
  - destruct (IH (S i) cols) as (bs' & Hr & Hrel). exists (Other typ p :: bs').
    split; [|by constructor]. erewrite run_spec_cons; [by rewrite Hr|]. unfold backend_msg.
    destruct Hb. by rewrite !decide_False by done.
Qed.

End result_set.

(** A native client's Postgres session as the agent runs it in plain (verbatim login, an overlay
    configured, the rules possibly replaced between two rows): the client's requests for encryption are
    declined, the database receives what the client sent after them, and the client everything the
    database sends, with the overlay over its rows. *)
Lemma run_session_masks `{Unicode} `{Hashes} {Cert Pool KeyPair span}
    (chain_ok : option Pool -> list Cert -> bool) (name_ok : bytes -> Cert -> bool)
    (an : bytes -> bytes -> bytes -> option (list span)) (ano : bytes -> bytes -> list span -> option bytes)
    (cfg : Agent) (o : nat -> Overlay.t) (w : run) (dbType addr : bytes) (chain : list Cert)
    (rs : list bool) (startup rest : bytes) (bs : list backend) (ce e : gerr)
    (Hon : overlay_on cfg = true) (Hw : forall i, mk w i = masker_with an ano cfg (Some (o i)))
    (Hs : zlen startup = 8) (Hr : is_request startup = false) (Hbs : Forall backend_ok bs) :
  let v := run_session chain_ok name_ok None (Postgres (Pool := Pool) (KeyPair := KeyPair) None) dbType addr
             (Ok (mkPeer (plain_conn (wire (map encode_backend bs)) e) chain)) w None
             (plain_conn (concat (map PgWireFacts.request rs) ++ startup ++ rest) ce) in
  exists res s bs',
    sv_result v = Some (res, PgProxied (Some s)) /\
    wout (up_out s) = startup ++ rest /\
    wout (bwr (p_bw (down s))) = replicate (length rs) (chr "N"%char) ++ wire (map encode_backend bs') /\
    relayed cfg o O [] bs bs'.
Proof.
  intros v. destruct (run_spec_relayed an ano cfg o Hon (mk w) bs Hw Hbs O []) as (bs' & Hrun & Hrel).
  subst v. unfold run_session, upstream_of, under, engine_tls, proxyConn, Agent.Proxy, PgWire.Proxy.
  cbn [enabled p_conn p_chain sv_result cl up].
  destruct (negotiateStartup_plain rs startup rest ce Hs Hr) as [Hneg _].
  change (bool_decide (is_Some (@None KeyPair))) with false. rewrite Hneg.
  unfold Copy. cbn [c_in c_out rbuf rend plain_conn]. rewrite Write_unbounded.
  destruct (pipeBackend _ _ _ _) as [res s] eqn:Hp. eexists _, (PgWire.mkSession _ s), bs'.
  split; [done|]. cbn [up_out down wout app]. split; [done|]. split; [|done].
  apply (f_equal snd) in Hp. cbn [snd] in Hp. rewrite <- Hp. rewrite pipeBackend_wire.
  - by rewrite Hrun.
  - intros i. rewrite Hw. apply _.
  - apply Forall_map. eapply Forall_impl; [exact Hbs|]. intros b [Hb _]. simpl. by destruct (encode_backend b).
Qed.

#[local] Instance same_case : Unicode := {| lower_runes := fun s => s |}.
#[local] Instance some_hashes : Hashes := MyAuthProps.flat_hashes.

(** A run of a session whose masker is the given one. *)
Definition run_with (m : masker) : run := mkRun (fun _ => m) (fun _ => 0) [] true (fun _ => Err EEOF) (Err EEOF).

Lemma target_by_name_spec name ts t : target_by_name name ts = Some t -> t ∈ ts /\ t_Name t = name.
Proof.
  induction ts as [|t' ts IH]; simpl; [done|]. case_decide.
  - intros [= <-]. split; [apply list_elem_of_here|done].
  - intros Ht. destruct (IH Ht). split; [by apply list_elem_of_further|done].
Qed.

Section dials.
Context `{Unicode} `{Hashes} {Cert Pool KeyPair : Type}.
Context (chain_ok : option Pool -> list Cert -> bool) (name_ok : bytes -> Cert -> bool).

Lemma run_session_dialed p (e : Engine Pool KeyPair) dbType addr dialed w r client :
  sv_dialed (run_session chain_ok name_ok p e dbType addr dialed w r client) = Some addr.
Proof. unfold run_session. by repeat case_match. Qed.

Lemma serveStream_dials cfg (deps : Deps Cert Pool KeyPair) w meta client addr :
  sv_dialed (serveStream chain_ok name_ok cfg deps w meta client) = Some addr ->
  addr ∈ map t_Addr (Targets cfg).
Proof.
  unfold serveStream. destruct meta as [name|e| |]; try done.
  destruct (TargetByName cfg name) as [t|] eqn:Ht; [|done].
  destruct (target_by_name_spec _ _ _ Ht) as [Hin _].
  destruct (d_Engine deps (t_DBType t)); try done. rewrite run_session_dialed. intros [= <-].
  by apply list_elem_of_fmap_2.
Qed.

End dials.

(** A stream of the tunnel reaches nothing but the configured databases. Whatever the gateway asks
    for, the agent dials only the address of a configured target, the first one of the requested name,
    with the engine of its type and the posture of the policy for its host; a request that does not
    decode, an unknown name or an unsupported type dials nothing. *)
Theorem serveStream_confined `{Unicode} `{Hashes} {Cert Pool KeyPair}
    (chain_ok : option Pool -> list Cert -> bool) (name_ok : bytes -> Cert -> bool)
    (cfg : Agent) (deps : Deps Cert Pool KeyPair) (w : run) (meta : go bytes) (client : conn) :
  let v := serveStream chain_ok name_ok cfg deps w meta client in
  match sv_dialed v with
  | Some addr =>
      exists t e, meta = Ok (t_Name t) /\ t ∈ Targets cfg /\ TargetByName cfg (t_Name t) = Some t /\
        addr = t_Addr t /\ d_Engine deps (t_DBType t) = Ok e /\
        v = run_session chain_ok name_ok (UpstreamTLS deps) (configureEngine (UpstreamTLS deps) e addr)
              (t_DBType t) addr (Dial deps addr) w (Resolver deps) client
  | None =>
      v = not_served /\
      forall t e, meta = Ok (t_Name t) -> TargetByName cfg (t_Name t) = Some t ->
        d_Engine deps (t_DBType t) <> Ok e
  end.
Proof.
  cbv zeta. unfold serveStream. destruct meta as [name|e| |]; [|by split..].
  destruct (TargetByName cfg name) as [t|] eqn:Ht; cycle 1.
  { split; [done|]. intros t e [= ->] Ht'. congruence. }
  destruct (target_by_name_spec _ _ _ Ht) as [Hin <-].
  destruct (d_Engine deps (t_DBType t)) as [e|e| |] eqn:He;
    [|split; [done|]; intros t' e' [= Hn] Ht'; congruence..].
  rewrite run_session_dialed.
  by exists t, e.
Qed.

(** What a required mode makes of the certificates a server presents: [require] authenticates nobody,
    [verify-ca] a chain under the configured roots, [verify-full] that and the name: the configured one,
    or else the host that is dialed. *)
Definition trusted {Cert Pool} (chain_ok : option Pool -> list Cert -> bool) (name_ok : bytes -> Cert -> bool)
    (p : upstreamTLSPolicy Pool) (addr : bytes) (chain : list Cert) : Prop :=
  exists leaf rest, chain = leaf :: rest /\
    (mode p = str "verify-ca" \/ mode p = str "verify-full" -> chain_ok (roots p) chain = true) /\
    (mode p = str "verify-full" ->
     name_ok (if decide (serverName p = []) then hostOnly addr else serverName p) leaf = true).

Lemma accepts_trusted {Cert Pool} (chain_ok : option Pool -> list Cert -> bool) name_ok
    (p : upstreamTLSPolicy Pool) addr chain :
  mode p ∈ tls_modes -> accepts chain_ok name_ok (configFor p (hostOnly addr)) chain = true ->
  trusted chain_ok name_ok p addr chain.
Proof.
  intros Hm Ha. destruct chain as [|leaf rest]; [done|]. exists leaf, rest. split; [done|].
  destruct (configFor_accepts chain_ok name_ok p (hostOnly addr) leaf rest Hm) as [_ Hc]. rewrite Ha in Hc.
  destruct (decide (mode p = str "verify-full")) as [Hf|Hf].
  { symmetry in Hc. by apply andb_true_iff in Hc as [-> ->]. }
  split; [|done]. intros [Hca|?]; [|done]. by rewrite decide_True in Hc.
Qed.

(** The client's own handshake response asks for TLS: its capability flags have CLIENT_SSL. *)
Definition asks_for_tls (client : conn) : Prop :=
  exists p r, MyWire.readPacket (c_in client) = (Ok p, r) /\ 4 <= zlen (p_payload p) /\
    Z.land (le_val (take 4 (p_payload p))) 0x800 <> 0.

Lemma handshake_passthrough u required client c n' :
  MyWire.handshake u required (mkNet client c) = (Ok Passthrough, n') -> asks_for_tls client.
Proof.
  unfold MyWire.handshake, sbind at 1.
  destruct (on_up (on_in readPacket) _) as [o1 s1] eqn:H1. apply on_up_inv in H1 as (c1 & _ & ->).
  destruct o1 as [g|e| |]; try done. cbn [cl up] in *. unfold sbind at 1.
  destruct (on_cl _ _) as [o2 s2] eqn:H2. apply on_cl_inv in H2 as (k2 & H2 & ->).
  assert (Hin : c_in k2 = c_in client).
  { unfold on_out, zoom in H2. destruct (writePacket _ _ _). by injection H2 as _ <-. }
  destruct o2 as [[]|e| |]; try done. cbn [cl up] in *. unfold sbind at 1.
  destruct (on_cl _ _) as [o3 s3] eqn:H3. apply on_cl_inv in H3 as (k3 & H3 & ->).
  destruct o3 as [p|e| |]; try done. unfold on_in, zoom in H3. cbn [cl] in H3. rewrite Hin in H3.
  destruct (readPacket (c_in client)) as [op r] eqn:Hp. injection H3 as -> _.
  unfold sbind at 1, slift. destruct (Z.leb_spec 4 (zlen (p_payload p))) as [Hl|Hl].
  - rewrite le_at_ok by lia. cbn [Z.to_nat drop]. destruct (Z.land _ capClientSSL =? 0) eqn:Hcap; cbn [negb].
    + unfold sbind, sret. destruct u; [destruct (on_up _ _) as [[| | |] ?]|destruct (on_up _ _) as [[| | |] ?]]; done.
    + intros _. exists p, r. split; [done|]. split; [lia|]. by apply Z.eqb_neq in Hcap.
  - change (Z.land 0 capClientSSL =? 0) with true. cbn [negb]. unfold sbind, sret.
    destruct u; [destruct (on_up _ _) as [[| | |] ?]|destruct (on_up _ _) as [[| | |] ?]]; done.
Qed.

(** What is left of a MySQL session: relayed inside TLS with a server that was trusted, or opaque because
    the client negotiates TLS with the server itself, or not relayed at all. *)
Definition mysql_secured {Cert Pool} (chain_ok : option Pool -> list Cert -> bool) (name_ok : bytes -> Cert -> bool)
    (p : upstreamTLSPolicy Pool) (addr : bytes) (dialed : peer Cert) (client : conn) (w : run) (r : proxied) : Prop :=
  match r with
  | MyProxied (Some (MyWire.Relayed s)) =>
      trusted chain_ok name_ok p addr (p_chain dialed) /\
      exists d off n, c_tls (up n) = true /\ s = relays d (buffered w) (mk w) (sched w) (MyWire.initial n off)
  | MyInjected (Some s) =>
      trusted chain_ok name_ok p addr (p_chain dialed) /\
      exists d n, c_tls (up n) = true /\ s = relays d (buffered w) (mk w) (sched w) (MyWire.initial n 0)
  | MyProxied (Some (MyWire.Copied _ _)) => asks_for_tls client
  | MyProxied None | MyInjected None => True
  | _ => False
  end.

Lemma proxyConn_mysql `{Hashes} {Cert Pool KeyPair} (chain_ok : option Pool -> list Cert -> bool) name_ok
    (p : upstreamTLSPolicy Pool) addr (dialed : peer Cert) client w resolver (tls : option KeyPair) :
  mode p ∈ tls_modes -> c_tls (p_conn dialed) = false ->
  let cfg := configFor p (hostOnly addr) in
  mysql_secured chain_ok name_ok p addr dialed client w
    (snd (proxyConn (MySQL tls (Some cfg) true) w resolver (mkNet client (under chain_ok name_ok (Some cfg) dialed)))).
Proof.
  intros Hm Hplain cfg. unfold proxyConn. destruct resolver as [resolve|].
  - cbn [injecting Agent.ProxyInject]. change (bool_decide (is_Some (Some cfg))) with true.
    unfold MyAuth.ProxyInject.
    pose proof (mysql_upstream_login chain_ok name_ok cfg dialed client (bool_decide (is_Some tls)) resolve
      (greeting_nonce w) Hplain) as Hi. cbv zeta in Hi.
    destruct (MyAuth.inject_login _ _ _ _ _ _) as [[info|e| |] n'] eqn:Hr; [|done..]. cbn [snd mysql_secured].
    destruct Hi as (Htls & Hacc & _). specialize (Htls eq_refl).
    split; [by apply accepts_trusted; [|apply Hacc]|]. by eexists _, n'.
  - cbn [Agent.Proxy]. change (bool_decide (is_Some (Some cfg))) with true. unfold MyWire.Proxy.
    destruct (MyWire.handshake true true _) as [[[|d off]|e| |] n'] eqn:Hr; [| |done..].
    + destruct (Copy _ _) as [[? ?] ?], (Copy _ _) as [[? ?] ?]. cbn [snd mysql_secured].
      by apply handshake_passthrough in Hr.
    + cbn [snd mysql_secured].
      destruct (handshake_required chain_ok name_ok cfg dialed client d off n' Hplain Hr) as [Htls Hacc].
      split; [by apply accepts_trusted|]. by eexists d, off, n'.
Qed.

(** C8: with upstream TLS in a required mode, no engine reads a session's traffic over a plaintext upstream,
    and under the verifying modes none over an unverified one. When a session's engine runs, then for
    Postgres and MongoDB the upstream is a TLS session, and at most the SSLRequest was sent in clear;
    MySQL, which negotiates inside its own handshake, relays only inside a TLS session, except that a
    client that asks for TLS itself is passed through opaquely and secures the session with the server on
    its own. The server presented a certificate: under [require] any will do, under [verify-ca] its chain
    verifies under the configured roots, under [verify-full] it also is valid for the configured name or
    else the host that was dialed. *)
Theorem session_secured `{Unicode} `{Hashes} {Cert Pool KeyPair}
    (chain_ok : option Pool -> list Cert -> bool) (name_ok : bytes -> Cert -> bool)
    (p : upstreamTLSPolicy Pool) (clientTLS : option KeyPair) (dbType addr : bytes)
    (e : Engine Pool KeyPair) (dialed : peer Cert) (w : run) (resolver : option CredentialResolver)
    (client : conn) (Hm : mode p ∈ map str ["require"; "verify-ca"; "verify-full"]%string)
    (He : engineFactory clientTLS dbType = Ok e)
    (Hplain : c_tls (p_conn dialed) = false) (Hfresh : wout (c_out (p_conn dialed)) = [])
    (r : go unit * proxied) :
  let v := run_session chain_ok name_ok (Some p) (configureEngine (Some p) e addr) dbType addr
             (Ok dialed) w resolver client in
  sv_result v = Some r ->
  match e with
  | MySQL _ _ _ => mysql_secured chain_ok name_ok p addr dialed client w (snd r)
  | _ =>
      trusted chain_ok name_ok p addr (p_chain dialed) /\
      exists c, r = proxyConn e w resolver (mkNet client c) /\ c_tls c = true /\
        (c_sent c = c_sent (p_conn dialed) ++ (if isPostgres dbType then PgWireFacts.request true else []))
  end.
Proof.
  assert (Hreq : required (Some p) = true) by by apply bool_decide_eq_true.
  assert (Hmodes : mode p ∈ tls_modes) by by apply list_elem_of_further.
  cbv zeta. pose proof (enabled_modes p Hmodes) as Hen. unfold run_session, upstream_of. cbn [p_chain].
  destruct (engineFactory_cases _ _ _ He) as [[-> Hdb]|[(-> & Hpg & Hmg & _)|(-> & Hpg & Hmg)]];
    cbn [configureEngine engine_tls]; rewrite Hen; cbn [engine_tls]; unfold startUpstreamTLS; rewrite Hen;
    cbn [negb].
  - rewrite Hdb, Hreq. set (c := under _ _ (Some _) _).
    destruct (PgWire.StartUpstreamTLS true c) as [[[]|err| |] c'] eqn:Hs; try done. cbn [sv_result].
    intros [= <-]. destruct (under_same chain_ok name_ok (Some (configFor p (hostOnly addr)))
      (mkPeer (p_conn dialed) (p_chain dialed))) as (Ht & _ & Ho & Hsent). cbv zeta in *.
    pose proof Hs as Hok. apply StartUpstreamTLS_ok in Hok as [[Htls Hc]|[? _]];
      [|done|subst c; simpl in *; congruence|subst c; simpl in *; congruence].
    split; [|exists c'; split_and!; [done|done|]; rewrite Hc; subst c; f_equal; exact Hsent].
    apply accepts_trusted; [done|]. by eapply (under_tls chain_ok name_ok _ (mkPeer (p_conn dialed) (p_chain dialed)) _ _ _
      (tls_StartUpstreamTLS _) Hs).
  - rewrite Hpg, Hmg, Hreq. cbn [p_conn sv_result]. intros [= <-]. by apply proxyConn_mysql.
  - rewrite Hpg, Hmg. set (c := under _ _ (Some _) _).
    destruct (Handshake c) as [[[]|err| |] c'] eqn:Hs; try done. cbn [sv_result]. intros [= <-].
    destruct (under_same chain_ok name_ok (Some (configFor p (hostOnly addr)))
      (mkPeer (p_conn dialed) (p_chain dialed))) as (Ht & _ & Ho & Hsent). cbv zeta in *.
    pose proof (Handshake_tls _ _ _ Hs eq_refl) as Htls. split.
    + apply accepts_trusted; [done|]. by eapply (under_tls chain_ok name_ok _ (mkPeer (p_conn dialed) (p_chain dialed)) _ _ _
        tls_Handshake Hs).
    + exists c'. split_and!; [done|done|]. unfold Handshake in Hs.
      destruct (c_hs c) as [|[?|[? ?]] ?]; try done. injection Hs as <-. cbn [c_sent]. subst c.
      etrans; [exact (f_equal2 app Hsent (f_equal wout Ho))|]. cbn [p_conn]. by rewrite Hfresh.
Qed.

Lemma session_secured_witness :
  let p := mkPolicy (Pool := unit) (str "verify-full") [] (Some tt) in
  let ok := inr (mkRd [] EEOF, None) in
  let db := mkPeer (mkConn (mkRd [] EEOF) (mkWr [] None) false [] [ok]) [str "db"] in
  exists r, sv_result (run_session (fun _ _ => true) (fun n c => bool_decide (n = c)) (Some p)
      (configureEngine (Some p) (Mongo (KeyPair := unit)) (str "db:27017")) (str "mongodb") (str "db:27017")
      (Ok db) (run_with Noop) None (plain_conn [] EEOF)) = Some r /\
    trusted (fun _ _ => true) (fun n c => bool_decide (n = c)) p (str "db:27017") [str "db"].
Proof.
  intros p ok db. eexists. split; [vm_compute; reflexivity|].
  destruct (session_secured (KeyPair := unit) (fun _ _ => true) (fun n c => bool_decide (n = c)) p None
    (str "mongodb") (str "db:27017") Mongo db (run_with Noop) None (plain_conn [] EEOF)) with
    (r := (Ok tt : go unit, MongoProxied (mkWr [] None) (mkMpipe (mkRd [] EEOF) (mkWr [] None)))) as [Ha _].
  - by do 2 apply list_elem_of_further; apply list_elem_of_here.
  - vm_compute. reflexivity.
  - done.
  - done.
  - vm_compute. reflexivity.
  - exact Ha.
Defined.

(** ** The registration and the accept loop *)

(** An acknowledgement that accepts. *)
Definition accepting (ack : Control) : Prop := k_Kind ack = KindRegisterAck /\ k_OK ack = true.

Section protocol.
Context `{Unicode} `{Hashes} {Cert Pool KeyPair : Type}.
Context (chain_ok : option Pool -> list Cert -> bool) (name_ok : bytes -> Cert -> bool).
Context (cfg : Agent) (deps : Deps Cert Pool KeyPair).

(** What holds of a connection after the events [evs]. *)
Record protocol_inv (evs : list tunnel_event) (s : tunnel_conn) : Prop := {
  inv_sent : match tc_phase s with
             | Registering => tc_sent s = []
             | AwaitingAck => tc_sent s = [register_message cfg]
             | Serving | Ended _ => exists n, tc_sent s = register_message cfg :: replicate n heartbeat_message
             end;
  inv_early : tc_phase s = Registering \/ tc_phase s = AwaitingAck -> tc_streams s = [] /\ tc_beating s = false;
  inv_acked : tc_phase s = Serving \/ tc_streams s <> [] \/ tc_beating s = true \/ (1 < length (tc_sent s))%nat ->
              exists ack, ControlReceived (Ok ack) ∈ evs /\ accepting ack;
  inv_streams : Forall (fun v => exists w meta client, Accepted (Ok (meta, client, w)) ∈ evs /\
                                    v = serveStream chain_ok name_ok cfg deps w meta client) (tc_streams s);
}.

Lemma protocol_start : protocol_inv [] tunnel_start.
Proof. split; try done. simpl. intros [?|[?|[?|?]]]; try done; lia. Qed.

Lemma replicate_snoc_ex (x : Control) (l : list Control) y n :
  l = x :: replicate n y -> exists n', l ++ [y] = x :: replicate n' y.
Proof. intros ->. exists (S n). by rewrite <- app_comm_cons, <- replicate_cons_app. Qed.

Lemma acked_more evs ev (P : Prop) :
  (P -> exists ack, ControlReceived (Ok ack) ∈ evs /\ accepting ack) ->
  P -> exists ack, ControlReceived (Ok ack) ∈ evs ++ [ev] /\ accepting ack.
Proof. intros Ha HP. destruct (Ha HP) as (ack & ? & ?). exists ack. split; [set_solver|done]. Qed.

Lemma streams_more evs ev vs :
  Forall (fun v => exists w meta client, Accepted (Ok (meta, client, w)) ∈ evs /\
                     v = serveStream chain_ok name_ok cfg deps w meta client) vs ->
  Forall (fun v => exists w meta client, Accepted (Ok (meta, client, w)) ∈ evs ++ [ev] /\
                     v = serveStream chain_ok name_ok cfg deps w meta client) vs.
Proof. intros Hvs. eapply Forall_impl; [exact Hvs|]. intros v (w & meta & client & ? & ?). exists w, meta, client. split; [set_solver|done]. Qed.

Ltac protocol_case Hs He Ha Hst :=
  split; simpl;
  [first [done | by subst | by exists O; subst | by destruct Hs as [n Hn]; eapply replicate_snoc_ex]
  |first [done | naive_solver]
  |first [by apply acked_more; intros Hx; apply Ha; subst; simpl in *; naive_solver lia | naive_solver]
  |first [done | by eapply streams_more | idtac]].

Lemma protocol_step evs ev s :
  protocol_inv evs s -> protocol_inv (evs ++ [ev]) (ServeTunnelConn_step chain_ok name_ok cfg deps ev s).
Proof.
  intros [Hs He Ha Hst]. destruct s as [ph sent streams beating]; simpl in *.
  destruct ev as [o|o|o|o|].
  - destruct ph; try (by protocol_case Hs He Ha Hst).
    destruct (He (or_introl eq_refl)) as [-> ->]. destruct o; by protocol_case Hs He Ha Hst.
  - destruct ph; try (by protocol_case Hs He Ha Hst).
    destruct (He (or_intror eq_refl)) as [-> ->]. unfold ServeTunnelConn_step.
    destruct o as [ack|e| |]; try (by protocol_case Hs He Ha Hst).
    cbn [tc_phase tc_sent tc_streams tc_beating].
    destruct (negb (bool_decide (k_Kind ack = KindRegisterAck)) || negb (k_OK ack)) eqn:Hack; [by protocol_case Hs He Ha Hst|].
    apply orb_false_iff in Hack as [Hk Hok]. rewrite negb_false_iff in Hk, Hok.
    rewrite bool_decide_eq_true in Hk. split; simpl; [by exists O; subst|naive_solver| |done].
    intros _. exists ack. split; [set_solver|done].
  - destruct ph; try (by protocol_case Hs He Ha Hst).
    destruct o as [[[meta client] w]|e| |]; try (by protocol_case Hs He Ha Hst).
    protocol_case Hs He Ha Hst. apply Forall_app. split; [by apply streams_more|]. apply Forall_singleton.
    exists w, meta, client. split; [set_solver|done].
  - destruct beating; [|by protocol_case Hs He Ha Hst].
    destruct ph; try (by destruct He as [_ ?]; [naive_solver|]); by protocol_case Hs He Ha Hst.
  - destruct ph; by protocol_case Hs He Ha Hst.
Qed.

Lemma protocol_run evs : protocol_inv evs (ServeTunnelConn chain_ok name_ok cfg deps evs).
Proof.
  unfold ServeTunnelConn. induction evs as [|ev evs IH] using rev_ind; [apply protocol_start|].
  rewrite foldl_app. by apply protocol_step.
Qed.

End protocol.

Lemma target_by_name_known name ts : name ∈ map t_Name ts -> is_Some (target_by_name name ts).
Proof.
  induction ts as [|t ts IH]; simpl; [set_solver|]. rewrite elem_of_cons. case_decide; [eauto|].
  intros [->|?]; [done|auto].
Qed.

(** What serving a stream is: nothing, when its metadata names no target with an engine; a session with
    that target otherwise. *)
Definition session_of `{Unicode} `{Hashes} {Cert Pool KeyPair}
    (chain_ok : option Pool -> list Cert -> bool) (name_ok : bytes -> Cert -> bool)
    (cfg : Agent) (deps : Deps Cert Pool KeyPair) (w : run) (meta : go bytes) (client : conn) (v : served) : Prop :=
  (exists name t e, meta = Ok name /\ t ∈ Targets cfg /\ t_Name t = name /\ d_Engine deps (t_DBType t) = Ok e /\
     v = run_session chain_ok name_ok (UpstreamTLS deps) (configureEngine (UpstreamTLS deps) e (t_Addr t))
           (t_DBType t) (t_Addr t) (Dial deps (t_Addr t)) w (Resolver deps) client /\
     sv_dialed v = Some (t_Addr t)) \/
  (v = not_served /\
   forall name, meta = Ok name ->
     name ∉ map t_Name (Targets cfg) \/ exists t, t ∈ Targets cfg /\ t_Name t = name /\ is_ok (d_Engine deps (t_DBType t)) = false).

Lemma serveStream_session `{Unicode} `{Hashes} {Cert Pool KeyPair}
    (chain_ok : option Pool -> list Cert -> bool) (name_ok : bytes -> Cert -> bool)
    (cfg : Agent) (deps : Deps Cert Pool KeyPair) (w : run) (meta : go bytes) (client : conn) :
  session_of chain_ok name_ok cfg deps w meta client (serveStream chain_ok name_ok cfg deps w meta client).
Proof.
  unfold serveStream, session_of. destruct meta as [name|e| |]; [|by right..].
  destruct (TargetByName cfg name) as [t|] eqn:Ht; cycle 1.
  { right. split; [done|]. intros ? [= <-]. left. intros Hin. apply target_by_name_known in Hin as [t Hn].
    unfold TargetByName in Ht. congruence. }
  destruct (target_by_name_spec _ _ _ Ht) as [Hin Hn].
  destruct (d_Engine deps (t_DBType t)) as [e|e| |] eqn:He;
    [|right; split; [done|]; intros ? [= <-]; right; exists t; by rewrite He..].
  left. exists name, t, e. split_and!; try done. apply run_session_dialed.
Qed.

(** C27: one connection to the gateway, under every order of its events: the first message the agent
    sends is its registration and everything after it is a heartbeat; no stream is served and no
    heartbeat sent before an acknowledgement that accepts; after it every stream that is accepted is
    served, in order. A stream is served only when its metadata decodes to the name of a configured
    target that has an engine; it then dials that target's address and no other, under the configured
    TLS posture for its upstream, with the engine set up for that posture and with the configured
    credential resolver. *)
Theorem ServeTunnelConn_protocol `{Unicode} `{Hashes} {Cert Pool KeyPair}
    (chain_ok : option Pool -> list Cert -> bool) (name_ok : bytes -> Cert -> bool)
    (cfg : Agent) (deps : Deps Cert Pool KeyPair) (evs : list tunnel_event) :
  let s := ServeTunnelConn chain_ok name_ok cfg deps evs in
  (tc_sent s = [] \/ exists n, tc_sent s = register_message cfg :: replicate n heartbeat_message) /\
  (tc_streams s <> [] \/ (1 < length (tc_sent s))%nat ->
     exists ack, ControlReceived (Ok ack) ∈ evs /\ accepting ack) /\
  Forall (fun v => exists w meta client, Accepted (Ok (meta, client, w)) ∈ evs /\
                     session_of chain_ok name_ok cfg deps w meta client v) (tc_streams s) /\
  (forall w meta client, tc_phase s = Serving ->
     exists v, tc_streams (ServeTunnelConn chain_ok name_ok cfg deps (evs ++ [Accepted (Ok (meta, client, w))])) =
               tc_streams s ++ [v] /\ session_of chain_ok name_ok cfg deps w meta client v).
Proof.
  cbv zeta. destruct (protocol_run chain_ok name_ok cfg deps evs) as [Hs _ Ha Hst]. split; [|split; [|split]].
  - destruct (tc_phase _); [by left|right; exists O; by rewrite Hs|by right..].
  - intros Hx. apply Ha. tauto.
  - eapply Forall_impl; [exact Hst|]. intros v (w & meta & client & Hin & ->). exists w, meta, client.
    split; [done|]. apply serveStream_session.
  - intros w meta client Hph. unfold ServeTunnelConn at 1. rewrite foldl_app. cbn [foldl].
    fold (ServeTunnelConn chain_ok name_ok cfg deps evs). unfold ServeTunnelConn_step. rewrite Hph.
    eexists. split; [done|]. apply serveStream_session.
Qed.

(** ** The agent and the gateway *)

(** The acknowledgement the gateway sends for a first message: the one of a refusal, or the one that
    follows the registration. *)
Definition answer_to (o : go unit) (g : Gateway.Gateway) : option Control :=
  if is_ok o then Some ack_ok else last (acks g).

Lemma find_target_by_name name ts : find_target name ts = target_by_name name ts.
Proof. induction ts as [|t ts IH]; simpl; [done|]. by rewrite IH. Qed.

(** C26: agent and gateway agree. The registration an agent sends is accepted exactly when it has an id
    and the gateway has no token or the same one; whatever the gateway answers, the agent acts on it:
    it serves exactly when it was registered, and otherwise ends with the gateway's reason. Once it is
    registered, every target of its configuration is routed to it, and the target the gateway records
    for a name is the one the agent will dial for that name. *)
Theorem agent_gateway_agree `{Unicode} `{Hashes} {Cert Pool KeyPair}
    (chain_ok : option Pool -> list Cert -> bool) (name_ok : bytes -> Cert -> bool)
    (cfg : Agent) (deps : Deps Cert Pool KeyPair) (g : Gateway.Gateway) :
  let '(o, g') := ServeAgent_first (Ok (register_message cfg)) g in
  (is_ok o = true <-> (authToken g = [] \/ Token cfg = authToken g) /\ AgentID cfg <> []) /\
  (exists ack, answer_to o g' = Some ack /\
     tc_phase (ServeTunnelConn chain_ok name_ok cfg deps [Sent (Ok tt); ControlReceived (Ok ack)]) =
     if is_ok o then Serving else Ended (Err (rejected ack))) /\
  (is_ok o = true ->
     forall name, name ∈ map t_Name (Config.Targets cfg) ->
       lookup_target g' name = Ok (length (heap g)) /\
       exists ac t, heap g' !! length (heap g) = Some ac /\
         target ac name = Some t /\ TargetByName cfg name = Some t).
Proof.
  unfold ServeAgent_first, refusal. cbn [k_Kind k_Token k_AgentID register_message].
  rewrite decide_False by (intros Hk; by apply Hk).
  case_decide as Ht.
  { split_and!; [split; [done|naive_solver]| |done]. unfold answer_to, push_ack. cbn [is_ok acks].
    rewrite last_snoc. eauto. }
  case_decide as Hi.
  { split_and!; [split; [done|naive_solver]| |done]. unfold answer_to, push_ack. cbn [is_ok acks].
    rewrite last_snoc. eauto. }
  cbn [is_ok]. split_and!.
  - split; [|done]. intros _. split; [|done]. destruct (decide (authToken g = [])); [by left|right].
    destruct (decide (Token cfg = authToken g)); [done|]. naive_solver.
  - exists ack_ok. split; [done|]. vm_compute. reflexivity.
  - intros _ name Hn. unfold lookup_target, with_serving, register. cbn [targets heap].
    rewrite register_targets. cbn [ac_targets agent_of k_Targets register_message].
    rewrite bool_decide_eq_true_2 by done. split; [done|].
    destruct (target_by_name_known _ _ Hn) as [t Htn].
    exists (agent_of (register_message cfg)), t. rewrite lookup_app_r, Nat.sub_diag by lia.
    split; [done|]. split; [|done]. unfold target. by rewrite find_target_by_name.
Qed.

(** ** Starting, and staying connected *)

Section start.
Context `{Unicode} `{Hashes} {Cert Pool KeyPair span : Type}.
Context (chain_ok : option Pool -> list Cert -> bool) (name_ok : bytes -> Cert -> bool).
Context (X509KeyPair : bytes -> bytes -> go KeyPair) (std : selfSigning).
Context (AppendCertsFromPEM : bytes -> option Pool) (SystemCertPool : go Pool).
Context (Do : http_request -> go (Z * rd)) (marshal_exchange : exchangeRequest -> go bytes).
Context (unmarshal_exchange : bytes -> exchangeResponse * go unit) (dial : bytes -> go (peer Cert)).

Lemma buildClientTLSConfig_some cfg tls :
  buildClientTLSConfig X509KeyPair std cfg = Ok tls -> is_Some tls <-> ClientTLSConfigured cfg = true.
Proof.
  unfold buildClientTLSConfig, ClientTLSConfigured.
  destruct (nonempty (ClientTLSCertPEM cfg) && nonempty (ClientTLSKeyPEM cfg)); cbn [orb].
  - intros (k & _ & [= <-])%gbind_ok. by split.
  - destruct (ClientTLSSelfSigned cfg); [|intros [= <-]; split; [by intros [? ?]|done]].
    intros (k & _ & [= <-])%gbind_ok. by split.
Qed.

Lemma resolver_some cfg :
  is_Some (NewHTTPCredentialResolver Do marshal_exchange unmarshal_exchange cfg) <->
  InjectCredentials cfg = true /\ TrimSpace (CredentialExchangeURL cfg) <> [].
Proof.
  unfold NewHTTPCredentialResolver. destruct (InjectCredentials cfg); cbn [negb orb].
  - case_bool_decide as Hu; split; try (by intros [? ?]); intros; try done; by eexists.
  - split; by intros [? ?].
Qed.

(** The outcome of each connection a list of turns makes. *)
Definition connections cfg (deps : Deps Cert Pool KeyPair) (turns : list turn) : list tunnel_conn :=
  omap (fun t => match t_conn t with
                 | Ok evs => Some (ServeTunnelConn chain_ok name_ok cfg deps evs)
                 | _ => None
                 end) turns.

Lemma tunnel_loop_live cfg (deps : Deps Cert Pool KeyPair) turns :
  Forall (fun t => t_done t = false /\ t_slept t = true) turns ->
  tunnel_loop chain_ok name_ok cfg deps turns = (connections cfg deps turns, None).
Proof.
  induction 1 as [|t turns [Hd Hs] _ IH]; [done|]. cbn [tunnel_loop]. rewrite Hd, Hs, IH.
  unfold connections. simpl. by destruct (t_conn t).
Qed.

Lemma tunnel_loop_ends cfg (deps : Deps Cert Pool KeyPair) turns cs o :
  tunnel_loop chain_ok name_ok cfg deps turns = (cs, Some o) ->
  o = Ok tt /\ exists t, t ∈ turns /\ (t_done t = true \/ t_slept t = false).
Proof.
  revert cs. induction turns as [|t turns IH]; intros cs; [done|]. cbn [tunnel_loop].
  destruct (t_done t) eqn:Hd; [intros [= _ <-]; split; [done|]; exists t; set_solver|].
  destruct (t_slept t) eqn:Hs; cycle 1.
  { destruct (t_conn t); intros [= _ <-]; split; try done; exists t; set_solver. }
  destruct (tunnel_loop chain_ok name_ok cfg deps turns) as [cs' r]. intros Hr.
  assert (r = Some o) as -> by (destruct (t_conn t); by injection Hr).
  destruct (IH cs' eq_refl) as (-> & t' & ? & ?). split; [done|]. exists t'. set_solver.
Qed.

Lemma RunTunnel_start_fails cfg o :
  RunTunnel_start X509KeyPair std AppendCertsFromPEM SystemCertPool Do marshal_exchange unmarshal_exchange
    dial cfg = o -> is_ok o = false ->
  GatewayAddr cfg = [] \/ Config.Targets cfg = [] \/
  is_ok (buildClientTLSConfig X509KeyPair std cfg) = false \/
  is_ok (buildUpstreamTLSPolicy AppendCertsFromPEM SystemCertPool cfg) = false.
Proof.
  intros <-. unfold RunTunnel_start. case_decide; [by left|].
  destruct (Config.Targets cfg) eqn:Ht; [by right; left|]. cbn [nonempty].
  destruct (buildClientTLSConfig _ _ _); cbn [gbind is_ok]; [|by right; right; left..].
  destruct (buildUpstreamTLSPolicy _ _ _); cbn [gbind is_ok]; [done|by do 3 right..].
Qed.

End start.

(** Starting in tunnel mode, and staying connected. The agent starts exactly with a gateway, a
    target, a usable client certificate when one is configured and a valid upstream posture; then its
    collaborators are those of the configuration: client TLS and the resolver are on exactly when they
    are configured, the posture is the policy's. From there on it never gives up: as long as its context
    lives, every connection it makes to the gateway is served, whatever became of the earlier ones, and
    it returns, without an error, only when the context is done. *)
Theorem RunTunnel_spec `{Unicode} `{Hashes} {Cert Pool KeyPair}
    (chain_ok : option Pool -> list Cert -> bool) (name_ok : bytes -> Cert -> bool)
    (X509KeyPair : bytes -> bytes -> go KeyPair) (std : selfSigning)
    (AppendCertsFromPEM : bytes -> option Pool) (SystemCertPool : go Pool)
    (Do : http_request -> go (Z * rd)) (marshal : exchangeRequest -> go bytes)
    (unmarshal : bytes -> exchangeResponse * go unit) (dial : bytes -> go (peer Cert))
    (cfg : Agent) (turns : list turn) :
  match RunTunnel_start X509KeyPair std AppendCertsFromPEM SystemCertPool Do marshal unmarshal dial cfg with
  | Ok deps =>
      GatewayAddr cfg <> [] /\ Config.Targets cfg <> [] /\
      buildUpstreamTLSPolicy AppendCertsFromPEM SystemCertPool cfg = Ok (UpstreamTLS deps) /\
      (exists tls, d_Engine deps = engineFactory tls /\ (is_Some tls <-> ClientTLSConfigured cfg = true)) /\
      (is_Some (Resolver deps) <-> InjectCredentials cfg = true /\ TrimSpace (CredentialExchangeURL cfg) <> []) /\
      let '(conns, ret) := RunTunnel chain_ok name_ok X509KeyPair std AppendCertsFromPEM SystemCertPool Do
                             marshal unmarshal dial cfg turns in
      (Forall (fun t => t_done t = false /\ t_slept t = true) turns ->
         conns = connections chain_ok name_ok cfg deps turns /\ ret = None) /\
      (forall o, ret = Some o -> o = Ok tt /\ exists t, t ∈ turns /\ (t_done t = true \/ t_slept t = false))
  | o =>
      (GatewayAddr cfg = [] \/ Config.Targets cfg = [] \/
       is_ok (buildClientTLSConfig X509KeyPair std cfg) = false \/
       is_ok (buildUpstreamTLSPolicy AppendCertsFromPEM SystemCertPool cfg) = false) /\
      fst (RunTunnel chain_ok name_ok X509KeyPair std AppendCertsFromPEM SystemCertPool Do marshal
             unmarshal dial cfg turns) = []
  end.
Proof.
  unfold RunTunnel.
  destruct (RunTunnel_start _ _ _ _ _ _ _ _ cfg) as [deps|e| |] eqn:Hst.
  - unfold RunTunnel_start in Hst. case_decide as Hg; [done|].
    destruct (nonempty (Config.Targets cfg)) eqn:Ht; [|done]. cbn [negb] in Hst.
    apply gbind_ok in Hst as (tls & Htls & (up & Hup & [= <-])%gbind_ok).
    cbn [UpstreamTLS d_Engine Resolver].
    split_and!; [done|by intros E; rewrite E in Ht|done| |apply resolver_some|].
    { exists tls. split; [done|]. by eapply buildClientTLSConfig_some. }
    destruct (tunnel_loop _ _ _ _ _) as [conns ret] eqn:Hl. split.
    + intros Hlive. rewrite tunnel_loop_live in Hl by done. by simplify_eq.
    + intros o ->. by eapply tunnel_loop_ends.
  - split; [|done]. by apply RunTunnel_start_fails in Hst.
  - split; [|done]. by apply RunTunnel_start_fails in Hst.
  - split; [|done]. by apply RunTunnel_start_fails in Hst.
Qed.

