(* ===== verification/EndToEnd.v ===== *)
(** * A native client's session, end to end

    The gateway's relay (Gateway), the two sessions of the tunnel (TunnelLink) and the session the agent
    runs on a stream (Agent) put together: what leaves one component is what enters the next. *)
From S2P Require Import Prelude Go GoStr GoIO ConnFacts Codec Mask Wire PgWire PgWireFacts PgWireProps PgAuth MyWire MyAuth MyAuthProps Mongo Edge Config AgentTLS AgentSources Gateway GatewayProps Agent AgentProps Tunnel TunnelProps TunnelLink TunnelLinkProps.
Open Scope Z_scope.

Section native.
Context `{Unicode} `{Hashes} {Cert Pool KeyPair span : Type}.
Context (chain_ok : option Pool -> list Cert -> bool) (name_ok : bytes -> Cert -> bool).
Context (an : bytes -> bytes -> bytes -> option (list span)) (ano : bytes -> bytes -> list span -> option bytes).
Context (marshal_meta : OpenMeta -> go bytes) (unmarshal_meta : bytes -> go OpenMeta).
Context (dc : decodeControl_t) (error_text : gerr -> bytes).

(** The agent's side of a stream whose OPEN carried [meta], given what its client's connection reads. *)
Definition stream_session (cfg : Agent) (deps : Deps Cert Pool KeyPair) (w : Agent.run) (meta : bytes)
    (client : conn) : Agent.served :=
  serveStream chain_ok name_ok cfg deps w
    (let? m := DecodeOpenMeta unmarshal_meta meta in Ok (om_Target m)) client.

(** A Postgres target as the agent's collaborators present it: dialed in plain, without injection of
    credentials and without TLS on either side, and sending the messages [bs]. *)
Definition serves (deps : Deps Cert Pool KeyPair) (t : Target) (bs : list backend) (e : gerr) : Prop :=
  d_Engine deps (t_DBType t) = Ok (Postgres None) /\ UpstreamTLS deps = None /\ Resolver deps = None /\
  exists chain, Dial deps (t_Addr t) =
    Ok (mkPeer (plain_conn (wire (map encode_backend bs)) e) chain).

Lemma stream_session_run cfg deps w name t bs e client :
  unmarshal_meta (Encode marshal_meta (mkOpenMeta name)) = Ok (mkOpenMeta name) ->
  TargetByName cfg name = Some t -> serves deps t bs e ->
  exists chain, stream_session cfg deps w (Encode marshal_meta (mkOpenMeta name)) client =
    run_session chain_ok name_ok None (Postgres (KeyPair := KeyPair) None) (t_DBType t) (t_Addr t)
      (Ok (mkPeer (plain_conn (wire (map encode_backend bs)) e) chain)) w None client.
Proof.
  intros Hj Ht (He & Hu & Hr & chain & Hd). exists chain. unfold stream_session, serveStream, DecodeOpenMeta.
  rewrite Hj. cbn [gbind om_Target]. rewrite Ht, He, Hd, Hu, Hr. done.
Qed.

(** C6: masking from end to end. A client of a gateway listener, a Postgres target that an agent serves
    with an overlay, in plain: no credential is injected and neither side uses TLS (a client that asks
    for encryption first is declined and goes on). Whatever the order of the steps of both processes and
    wherever the tunnel's connection breaks, the agent dials the target's own database, which is sent
    nothing but bytes the client sent. The database may send any messages: what the client receives is
    the beginning of the declining bytes and of these messages, authentication, errors and the ends of
    queries as they came, and in every row, under the columns last described and the rules in force at
    that row, every text value of a column with a rule replaced by its token; all of it once it has been
    sent and read, on a stream that is still open. *)
Theorem native_session_masked (room_agent room_gateway : option (Z * gerr)) (acts : list (bool * action))
    (cfg : Agent) (deps : Deps Cert Pool KeyPair) (o : nat -> Overlay.t) (w : Agent.run)
    (name : bytes) (t : Target) (rg ra : ref) (stg sta : stream)
    (rs : list bool) (startup rest : bytes) (bs : list backend) (ce e : gerr)
    (Hlen : zlen acts < 2 ^ 61)
    (Hjson : unmarshal_meta (Encode marshal_meta (mkOpenMeta name)) = Ok (mkOpenMeta name))
    (Ht : TargetByName cfg name = Some t) (Hserves : serves deps t bs e)
    (Hon : overlay_on cfg = true) (Hw : forall i, mk w i = masker_with an ano cfg (Some (o i)))
    (Hs : zlen startup = 8) (Hr : is_request startup = false)
    (Hbs : Forall backend_ok bs)
    (Hg : objs (sess (server (link_run dc acts (new_link room_agent room_gateway)))) !! rg = Some stg)
    (Hmeta : st_meta stg = Encode marshal_meta (mkOpenMeta name))
    (Ha : objs (sess (client (link_run dc acts (new_link room_agent room_gateway)))) !! ra = Some sta)
    (Hid : st_id sta = st_id stg) (Hodd : Z.odd (st_id sta) = false)
    (Hin : read_from dc true ra acts (new_link room_agent room_gateway) = concat (map PgWireFacts.request rs) ++ startup ++ rest) :
  let l0 := new_link room_agent room_gateway in
  let l := link_run dc acts l0 in
  let v := stream_session cfg deps w (st_meta sta) (plain_conn (concat (map PgWireFacts.request rs) ++ startup ++ rest) ce) in
  exists res s bs',
    sv_dialed v = Some (t_Addr t) /\ sv_result v = Some (res, PgProxied (Some s)) /\
    relayed cfg o O [] bs bs' /\
    let to_database := wout (up_out s) in
    let from_engine := wout (bwr (p_bw (down s))) in
    let answer := replicate (length rs) (chr "N"%char) ++ wire (map encode_backend bs') in
    forall g store addr t0 t1 r ac client_first chunks cend gend,
      Gateway.targets g !! name = Some r -> heap g !! r = Some ac ->
      exists rl,
        v_relay (ServeClient error_text g store name addr t0 t1 (Ok tt) client_first chunks cend
                   (mkWr [] None) (mkRd (read_from dc false rg acts l0) gend) (mkWr [] None)) = Some rl /\
        (sent_on dc false rg acts l0 `prefix_of` wout (r_upstream rl) ->
           concat (map PgWireFacts.request rs) ++ to_database `prefix_of` concat chunks) /\
        (sent_on dc true ra acts l0 `prefix_of` from_engine -> wout (r_client rl) `prefix_of` answer) /\
        (sent_on dc true ra acts l0 = from_engine -> Tunnel.streams (sess (server l)) !! st_id stg = Some rg ->
         st_localClosed stg = false ->
         seen (server l) = length (wout (out (sess (client l)))) -> st_buf stg = [] ->
         wout (r_client rl) = answer).
Proof using All.
  intros l0 l v.
  destruct (tunnel_both dc room_agent room_gateway acts true ra rg sta stg Hlen Ha Hg Hid) as (Hm & Hdn & Hup);
    [by rewrite Hodd|].
  destruct (stream_session_run cfg deps w name t bs e (plain_conn (concat (map PgWireFacts.request rs) ++ startup ++ rest) ce) Hjson Ht Hserves)
    as [chain Hv].
  destruct (run_session_masks chain_ok name_ok an ano cfg o w (KeyPair := KeyPair) (t_DBType t) (t_Addr t) chain
    rs startup rest bs ce e Hon Hw Hs Hr Hbs) as (res & s & bs' & Hres & Hto & Hfrom & Hrel).
  exists res, s, bs'. unfold v. rewrite Hm, Hmeta, Hv. split; [apply run_session_dialed|].
  do 2 (split; [done|]). intros g store addr t0 t1 r ac cf chunks cend gend Hr1 Hac.
  destruct (ServeClient_relayed error_text g store name addr t0 t1 r ac cf chunks cend [] []
    (mkRd (read_from dc false rg acts l0) gend) Hr1 Hac) as (sn & _ & ->).
  eexists. split; [done|]. cbn [r_upstream r_client wout app rbuf].
  unfold carries in Hdn, Hup. cbn [negb end_of] in Hdn, Hup.
  destruct (Hdn _ Ha) as [Hdn1 _]. destruct (Hup _ Hg) as [Hup1 Hup2].
  fold l0 l in Hdn1, Hup1, Hup2.
  split; [|split].
  - intros Hsent. rewrite Hto, <- Hin. etrans; [|exact Hsent].
    etrans; [|exact Hdn1]. by eexists.
  - intros Hsent. rewrite Hfrom in Hsent. etrans; [|exact Hsent].
    etrans; [|exact Hup1]. by eexists.
  - intros Hsent Hmap Hopen Hall Hbuf. rewrite Hfrom in Hsent.
    specialize (Hup2 Hmap Hopen Hall). by rewrite Hbuf, app_nil_r, Hsent in Hup2.
Qed.

End native.

#[local] Instance same_case : Unicode := {| lower_runes := fun s => s |}.
#[local] Instance some_hashes : Hashes := MyAuthProps.flat_hashes.


(** ** A session in numbers *)

Module Example.

Definition target : Target := mkTarget (str "db") (str "h:1") (str "postgres") [] [].
Definition cfg : Agent :=
  Config.mkAgent ModeTunnel [] [] [] [] (str "a") [] [] [target] [] [] [] [(str "Email", str "[email]")] [] [] 0
    false [] [] [] [] false [] [] [].

Definition overlay : Overlay.t := Overlay.NewOverlay (PIIOverlay cfg).
Definition masker : Mask.masker :=
  masker_with (fun _ _ _ => None (A := list unit)) (fun _ _ _ => None) cfg (Some overlay).
Definition columns : list coldesc := [mkColdesc (str "EMAIL") (replicate 16 (b8 0)) 0].

(** A login, a query's result with one row, the end of the query. *)
Definition answer (email : bytes) : list backend :=
  [Other (chr "R"%char) (be_bytes 4 0); Other (chr "Z"%char) (str "I"); Described columns; Row [Some email];
   Other (chr "C"%char) (str "SELECT 1"); Other (chr "Z"%char) (str "I")].
Definition deps : Deps unit unit unit :=
  {| Dial := fun _ => Ok (mkPeer (plain_conn (wire (map encode_backend (answer (str "a@b.c")))) EEOF) []); d_Engine := fun _ => Ok (Postgres None);
     Resolver := None; UpstreamTLS := None |}.
Definition startup : bytes := be_bytes 4 8 ++ be_bytes 4 196608.

(** The gateway opens the stream, the agent accepts it, a request for encryption and the startup go up and
    the answer comes down. *)
Definition acts : list (bool * action) :=
  [(false, Do (Opened (str "db"))); (false, Do (Announced 0)); (true, Recv false); (true, Do Accepted);
   (false, Do (DataSent 0 (PgWireFacts.request true ++ startup))); (true, Recv false); (true, Do (BytesRead 0 100));
   (true, Do (DataSent 0 (chr "N"%char :: wire (map encode_backend (answer (str "[email]")))))); (false, Recv false);
   (false, Do (BytesRead 0 1000))].

Definition gateway : Gateway := mkGateway [] [mkAgent (str "a") [] [target]] ∅ {[str "db" := 0%nat]} ∅ [].

Lemma answer_ok : Forall backend_ok (answer (str "a@b.c")).
Proof.
  unfold answer. repeat apply Forall_cons_2; [..|apply Forall_nil_2]; (split; [by vm_compute|]).
  1,2,5,6: split; by vm_compute.
  - split; [apply (bool_decide_unpack _); by vm_compute|by vm_compute].
  - split; [apply Forall_singleton; by vm_compute|by vm_compute].
Qed.

Lemma relayed_cons i cols b bs bs' : relayed cfg (fun _ => overlay) i cols (b :: bs) bs' ->
  exists b' bs1, bs' = b' :: bs1 /\
    match b with
    | Described cs => b' = b /\ relayed cfg (fun _ => overlay) (S i) (map column_of cs) bs bs1
    | Row r => exists m, b' = Row m /\ obeys cfg overlay cols r m /\ relayed cfg (fun _ => overlay) (S i) cols bs bs1
    | Other _ _ => b' = b /\ relayed cfg (fun _ => overlay) (S i) cols bs bs1
    end.
Proof. inversion 1; subst; eauto 10. Qed.

Lemma answer_masked bs' : relayed cfg (fun _ => overlay) O [] (answer (str "a@b.c")) bs' -> bs' = answer (str "[email]").
Proof.
  unfold answer. intros (? & ? & -> & -> & (? & ? & -> & -> & (? & ? & -> & -> & Hrow)%relayed_cons)%relayed_cons)%relayed_cons.
  apply relayed_cons in Hrow as (? & ? & -> & m & -> & (Hl & Hrule & _) & Hrest).
  apply relayed_cons in Hrest as (? & ? & -> & -> & (? & ? & -> & -> & Hnil)%relayed_cons).
  inversion Hnil; subst. destruct m as [|v [|]]; [done| |done].
  specialize (Hrule 0%nat (str "a@b.c") (column_of (mkColdesc (str "EMAIL") (replicate 16 (b8 0)) 0)) (str "[email]")).
  assert ([v] !! 0%nat = Some (Some (str "[email]"))) as [= ->]; [|done].
  apply Hrule; vm_compute; reflexivity.
Qed.

End Example.

Lemma native_session_masked_witness :
  exists rl,
    v_relay (ServeClient (fun _ => []) Example.gateway NoopStore (str "db") (str "c") 0 1 (Ok tt) true
               [PgWireFacts.request true ++ Example.startup] EEOF (mkWr [] None)
               (mkRd (read_from (fun _ => None) false 0 Example.acts (new_link None None)) EEOF)
               (mkWr [] None)) = Some rl /\
    wout (r_client rl) = chr "N"%char :: wire (map encode_backend (Example.answer (str "[email]"))).
Proof.
  destruct (native_session_masked (fun (_ : option unit) (_ : list unit) => true) (fun _ _ => true)
    (KeyPair := unit) (fun _ _ _ => None (A := list unit)) (fun _ _ _ => None)
    (fun m => Ok (om_Target m)) (fun b => Ok (mkOpenMeta b)) (fun _ => None) (fun _ => [])
    None None Example.acts Example.cfg Example.deps (fun _ => Example.overlay) (run_with Example.masker)
    (str "db") Example.target 0%nat 0%nat
    (mkStream 2 (str "db") [] false false None false) (mkStream 2 (str "db") [] false false None false)
    [true] Example.startup [] (Example.answer (str "a@b.c")) EEOF EEOF)
    as (res & s & bs' & _ & Hs & Hrel & Hall);
    [by vm_compute|done|by vm_compute|split_and!; [done..|by exists []]|by vm_compute|done|by vm_compute|by vm_compute
    |exact Example.answer_ok|by vm_compute|done|by vm_compute|done|done|by vm_compute|].
  destruct (Hall Example.gateway NoopStore (str "c") 0 1 0%nat (mkAgent (str "a") [] [Example.target]) true
    [PgWireFacts.request true ++ Example.startup] EEOF EEOF) as (rl & Hrl & _ & _ & Hwhole); [by vm_compute|done|].
  exists rl. split; [exact Hrl|]. rewrite Hwhole; [|clear Hwhole Hall Hrl|by vm_compute|done|by vm_compute|done].
  - by rewrite (Example.answer_masked _ Hrel).
  - vm_compute in Hs. injection Hs as _ <-. by vm_compute.
Defined.
