(* ===== verification/Transport.v ===== *)
(** * The edge's call-home transport (internal/edge/transport)

    The client's mTLS identity and how it is obtained, the reconnect loop, and the Connect stream with
    the runs it starts. The operating system's clock and files, crypto/x509, gRPC and the generated
    message types are outside: the messages are inductive types with the fields the code sets. *)
From S2P Require Import Prelude Go GoStr Edge.
Open Scope Z_scope.

Definition Version : bytes := str "0.1.0".
Definition certRenewSkew : Z := 3600 * second.
Definition DefaultTrustDomain : bytes := str "skybridge.edge".

(** [transport.Config] *)
Record Config := mkConfig {
  Target : bytes; TenantID : bytes; ConnectorID : bytes; Token : bytes; Insecure : bool;
  Reconnect : bool; MaxBackoff : Z;
  CABundlePEM : bytes; TLSDir : bytes; EnrollTarget : bytes; EnrollToken : bytes; TrustDomain : bytes;
}.

(** [New] fills in the cap. *)
Definition New (cfg : Config) : Config :=
  mkConfig (Target cfg) (TenantID cfg) (ConnectorID cfg) (Token cfg) (Insecure cfg) (Reconnect cfg)
    (if MaxBackoff cfg <=? 0 then 30 * second else MaxBackoff cfg)
    (CABundlePEM cfg) (TLSDir cfg) (EnrollTarget cfg) (EnrollToken cfg) (TrustDomain cfg).

(** ** Keys and certificates (pki.go) *)

Definition spiffeID (trustDomain tenant connector : bytes) : bytes :=
  let td := TrimSpace trustDomain in
  let td := if decide (td = []) then DefaultTrustDomain else td in
  let conn := TrimSpace connector in
  let conn := if decide (conn = []) then str "edge" else conn in
  str "spiffe://" ++ td ++ str "/tenant/" ++ TrimSpace tenant ++ str "/connector/" ++ conn.

Section pki.
(** Keys, parsed URLs, pools of trust roots and key pairs of the standard library. *)
Context {Key URL Pool KeyPair : Type}.
Context (GenerateKey : go Key) (MarshalPKCS8PrivateKey : Key -> go bytes).
Context (url_Parse : bytes -> go URL) (CreateCertificateRequest : bytes -> URL -> Key -> go bytes).
Context (EncodePEM : bytes -> bytes -> bytes).
Context (AppendCertsFromPEM : bytes -> option Pool) (X509KeyPair : bytes -> bytes -> go KeyPair).

(** The private key and the signing request, both in PEM. *)
Definition generateKeyAndCSR (trustDomain tenant connector : bytes) : go (bytes * bytes) :=
  let? key := wrap_err "generate key: %w" GenerateKey in
  let? der := wrap_err "marshal key: %w" (MarshalPKCS8PrivateKey key) in
  let keyPEM := EncodePEM (str "PRIVATE KEY") der in
  let? uri := wrap_err "spiffe uri: %w" (url_Parse (spiffeID trustDomain tenant connector)) in
  let cn := TrimSpace connector in
  let cn := if decide (cn = []) then str "skybridge-edge" else cn in
  let? csrDER := wrap_err "create csr: %w" (CreateCertificateRequest cn uri key) in
  Ok (keyPEM, EncodePEM (str "CERTIFICATE REQUEST") csrDER).

(** The client's side of a TLS channel: its own certificates and the roots it trusts (the system's
    when there are none). *)
Record tlsChannel := mkChannel { ch_cert : option KeyPair; ch_roots : option Pool }.

Definition pool_of (caPEM : bytes) : go (option Pool) :=
  if decide (caPEM = []) then Ok None
  else match AppendCertsFromPEM caPEM with
       | Some pool => Ok (Some pool)
       | None => Err (EFmt "invalid CA bundle PEM" [])
       end.

Definition serverTLSConfig (caPEM : bytes) : go tlsChannel :=
  let? roots := pool_of caPEM in Ok (mkChannel None roots).

Record tlsMaterial := mkMaterial { caBundlePEM : bytes; clientCertPEM : bytes; clientKeyPEM : bytes }.

Definition mtlsTLSConfig (m : tlsMaterial) : go tlsChannel :=
  let? kp := wrap_err "load client keypair: %w" (X509KeyPair (clientCertPEM m) (clientKeyPEM m)) in
  let? roots := pool_of (caBundlePEM m) in
  Ok (mkChannel (Some kp) roots).

(** ** The material on disk and the enrollment (material.go) *)

(** The files; a write may fail, with what the file then holds when it was touched. *)
Abbreviation files := (gmap bytes bytes).
Context (write_fails : bytes -> option (gerr * option bytes)).
(** [filepath.Join] *)
Context (Join : bytes -> bytes -> bytes).
(** The expiry of the first certificate of a PEM block, if it parses. *)
Context (NotAfter : bytes -> option Z).

Definition certValid (now : Z) (certPEM : bytes) (skew : Z) : bool :=
  match NotAfter certPEM with Some t => now + skew <? t | None => false end.

Definition readFileOrNil (fs : files) (path : bytes) : bytes := default [] (fs !! path).

Definition writeSecret (path data : bytes) (fs : files) : go unit * files :=
  match write_fails path with
  | None => (Ok tt, <[path := data]> fs)
  | Some (e, None) => (Err e, fs)
  | Some (e, Some torn) => (Err e, <[path := torn]> fs)
  end.

Definition tlsPaths (cfg : Config) : bytes * bytes * bytes :=
  let dir := if decide (TLSDir cfg = []) then str "/var/lib/skybridge/tls" else TLSDir cfg in
  (Join dir (str "ca.pem"), Join dir (str "client.crt"), Join dir (str "client.key")).

Record EnrollRequest := mkEnroll {
  EnrollmentToken : bytes; en_TenantId : bytes; en_ConnectorId : bytes; CsrPem : bytes }.
(** The Enroll call on the channel to a target: the CA bundle and the client certificate. *)
Context (Enroll : bytes -> tlsChannel -> EnrollRequest -> go (bytes * bytes)).

Definition enroll (cfg : Config) : go tlsMaterial :=
  let? (keyPEM, csrPEM) := generateKeyAndCSR (TrustDomain cfg) (TenantID cfg) (ConnectorID cfg) in
  let? tlsCfg := serverTLSConfig (CABundlePEM cfg) in
  let target := if decide (EnrollTarget cfg = []) then Target cfg else EnrollTarget cfg in
  let? (ca, cert) := Enroll target tlsCfg
                       (mkEnroll (EnrollToken cfg) (TenantID cfg) (ConnectorID cfg) csrPEM) in
  Ok (mkMaterial (if decide (ca = []) then CABundlePEM cfg else ca) cert keyPEM).

Definition no_token : gerr :=
  EFmt "mTLS configured (CA bundle present) but no client cert and no SKYBRIDGE_ENROLLMENT_TOKEN to enroll" [].

(** [None] is bearer mode. *)
Definition ensureTLSMaterial (cfg : Config) (now : Z) (fs : files) : go (option tlsMaterial) * files :=
  let ca := CABundlePEM cfg in
  if bool_decide (ca = []) && bool_decide (TLSDir cfg = []) then (Ok None, fs)
  else
    let '(caPath, certPath, keyPath) := tlsPaths cfg in
    let storedCA := readFileOrNil fs caPath in
    let cert := readFileOrNil fs certPath in
    let key := readFileOrNil fs keyPath in
    let pickCA := if decide (storedCA = []) then ca else storedCA in
    let have := negb (bool_decide (cert = [])) && negb (bool_decide (key = [])) in
    if have && certValid now cert certRenewSkew then (Ok (Some (mkMaterial pickCA cert key)), fs)
    else if decide (ca = []) then (Ok None, fs)
    else if decide (EnrollToken cfg = []) then
      if have then (Ok (Some (mkMaterial pickCA cert key)), fs) else (Err no_token, fs)
    else
      match enroll cfg with
      | Ok m =>
          match writeSecret caPath (caBundlePEM m) fs with
          | (Ok _, fs) =>
              match writeSecret certPath (clientCertPEM m) fs with
              | (Ok _, fs) =>
                  match writeSecret keyPath (clientKeyPEM m) fs with
                  | (Ok _, fs) => (Ok (Some m), fs)
                  | (Err e, fs) => (Err e, fs)
                  | (_, fs) => (Panic, fs)
                  end
              | (Err e, fs) => (Err e, fs)
              | (_, fs) => (Panic, fs)
              end
          | (Err e, fs) => (Err e, fs)
          | (_, fs) => (Panic, fs)
          end
      | Err e => (Err e, fs)
      | Panic => (Panic, fs)
      | NoFuel => (NoFuel, fs)
      end.

(** ** Dialing (transport.go) *)

Inductive credentials :=
| MTLS (ch : tlsChannel)
| Plaintext
| SystemRoots.

(** [grpc.NewClient]: it does not connect, it only checks its arguments. *)
Context (NewClient : bytes -> credentials -> go unit).

Definition dial (cfg : Config) (material : option tlsMaterial) : go credentials :=
  let? creds :=
    match material with
    | Some m => let? ch := mtlsTLSConfig m in Ok (MTLS ch)
    | None => Ok (if Insecure cfg then Plaintext else SystemRoots)
    end in
  let? _ := NewClient (Target cfg) creds in
  Ok creds.

(** The metadata of the Connect call. *)
Definition connect_metadata (cfg : Config) (useBearer : bool) : list (bytes * bytes) :=
  if useBearer && negb (bool_decide (Token cfg = []))
  then [(str "authorization", str "Bearer " ++ Token cfg)] else [].

(** One turn of [Run]: the time it starts, how the stream ended if one was opened, and whether the
    context was done during the pause. *)
Record turn := mkTurn { t_now : Z; t_serve : go unit; t_cancelled : bool }.

(** What a turn did: the channel it opened with its metadata, or the failure to dial; the pause. *)
Record attempt := mkAttempt { a_channel : go (credentials * list (bytes * bytes)); a_pause : option Z }.

Definition ctx_err : gerr := EOther (str "context canceled").

(** The loop of [Run]: the attempts, and the return when there is one. *)
Fixpoint run_loop (cfg : Config) (turns : list turn) (backoff : Z) (fs : files)
    : list attempt * option (go unit) * files :=
  match turns with
  | [] => ([], None, fs)
  | t :: rest =>
      match ensureTLSMaterial cfg (t_now t) fs with
      | (Ok material, fs) =>
          let d := dial cfg material in
          let ch := let? creds := d in
                    Ok (creds, connect_metadata cfg (bool_decide (material = None))) in
          let backoff := match d with Ok _ => second | _ => backoff end in
          if negb (Reconnect cfg) then
            ([mkAttempt ch None], Some (let? _ := d in Ok tt), fs)
          else if t_cancelled t then ([mkAttempt ch (Some backoff)], Some (Err ctx_err), fs)
          else
            let doubled := wrap64 (backoff * 2) in
            let next := if doubled >? MaxBackoff cfg then MaxBackoff cfg else doubled in
            let '(ats, r, fs) := run_loop cfg rest next fs in
            (mkAttempt ch (Some backoff) :: ats, r, fs)
      | (Err e, fs) => ([], Some (Err e), fs)
      | (Panic, fs) => ([], Some Panic, fs)
      | (NoFuel, fs) => ([], Some NoFuel, fs)
      end
  end.

Definition Run (cfg : Config) (turns : list turn) (fs : files) : list attempt * option (go unit) * files :=
  run_loop cfg turns second fs.

End pki.
Arguments credentials Pool KeyPair : clear implicits.
