(* ===== verification/TransportProps.v ===== *)
(** * How the edge secures and re-opens its channel: material, persistence, credentials and pauses *)
From S2P Require Import Prelude Go GoStr Edge Transport.
Open Scope Z_scope.

Section transport.
Context {Key URL Pool KeyPair : Type}.
Context (GenerateKey : go Key) (MarshalPKCS8PrivateKey : Key -> go bytes).
Context (url_Parse : bytes -> go URL) (CreateCertificateRequest : bytes -> URL -> Key -> go bytes).
Context (EncodePEM : bytes -> bytes -> bytes).
Context (AppendCertsFromPEM : bytes -> option Pool) (X509KeyPair : bytes -> bytes -> go KeyPair).
Context (write_fails : bytes -> option (gerr * option bytes)).
Context (Join : bytes -> bytes -> bytes) (NotAfter : bytes -> option Z).
Context (Enroll : bytes -> tlsChannel (Pool:=Pool) (KeyPair:=KeyPair) -> EnrollRequest -> go (bytes * bytes)).
Context (NewClient : bytes -> credentials Pool KeyPair -> go unit).

Abbreviation ensure := (ensureTLSMaterial GenerateKey MarshalPKCS8PrivateKey url_Parse
  CreateCertificateRequest EncodePEM AppendCertsFromPEM write_fails Join NotAfter Enroll).
Abbreviation enrolling := (enroll GenerateKey MarshalPKCS8PrivateKey url_Parse
  CreateCertificateRequest EncodePEM AppendCertsFromPEM Enroll).

(** What the directory holds, and whether it makes a pair. *)
Definition stored (cfg : Config) (fs : gmap bytes bytes) : tlsMaterial :=
  let '(caPath, certPath, keyPath) := tlsPaths Join cfg in
  let ca := readFileOrNil fs caPath in
  mkMaterial (if decide (ca = []) then CABundlePEM cfg else ca)
    (readFileOrNil fs certPath) (readFileOrNil fs keyPath).

Definition has_pair (m : tlsMaterial) : bool :=
  negb (bool_decide (clientCertPEM m = [])) && negb (bool_decide (clientKeyPEM m = [])).

Definition fresh (now : Z) (m : tlsMaterial) : bool :=
  has_pair m && certValid NotAfter now (clientCertPEM m) certRenewSkew.

(** The three writes, in their order. *)
Definition save (cfg : Config) (m : tlsMaterial) (fs : gmap bytes bytes) : go (option tlsMaterial) * gmap bytes bytes :=
  let '(caPath, certPath, keyPath) := tlsPaths Join cfg in
  match writeSecret write_fails caPath (caBundlePEM m) fs with
  | (Ok _, fs) =>
      match writeSecret write_fails certPath (clientCertPEM m) fs with
      | (Ok _, fs) =>
          match writeSecret write_fails keyPath (clientKeyPEM m) fs with
          | (Ok _, fs) => (Ok (Some m), fs)
          | (Err e, fs) => (Err e, fs)
          | (_, fs) => (Panic, fs)
          end
      | (Err e, fs) => (Err e, fs)
      | (_, fs) => (Panic, fs)
      end
  | (Err e, fs) => (Err e, fs)
  | (_, fs) => (Panic, fs)
  end.

(** The decision as a table. *)
Lemma ensure_table cfg now fs :
  ensure cfg now fs =
  let ca := bool_decide (CABundlePEM cfg = []) in
  if ca && bool_decide (TLSDir cfg = []) then (Ok None, fs)
  else if fresh now (stored cfg fs) then (Ok (Some (stored cfg fs)), fs)
  else if ca then (Ok None, fs)
  else if bool_decide (EnrollToken cfg = []) then
    if has_pair (stored cfg fs) then (Ok (Some (stored cfg fs)), fs) else (Err no_token, fs)
  else match enrolling cfg with
       | Ok m => save cfg m fs
       | Err e => (Err e, fs)
       | Panic => (Panic, fs)
       | NoFuel => (NoFuel, fs)
       end.
Proof.
  unfold ensureTLSMaterial, fresh, has_pair, stored, save. destruct (tlsPaths Join cfg) as [[caPath certPath] keyPath].
  cbv zeta. cbn [clientCertPEM clientKeyPEM caBundlePEM].
  destruct (_ && bool_decide (TLSDir cfg = [])); [done|].
  destruct (_ && certValid _ _ _ _); [done|].
  destruct (decide (CABundlePEM cfg = [])) as [Hca|Hca];
    [by rewrite (bool_decide_eq_true_2 _ Hca)|rewrite (bool_decide_eq_false_2 _ Hca)].
  by destruct (decide (EnrollToken cfg = [])) as [Ht|Ht];
    [rewrite (bool_decide_eq_true_2 _ Ht)|rewrite (bool_decide_eq_false_2 _ Ht)].
Qed.

(** What an enrollment returns trusts something. *)
Lemma enroll_ca cfg m :
  enrolling cfg = Ok m -> CABundlePEM cfg <> [] -> caBundlePEM m <> [].
Proof.
  unfold enroll. intros H Hca.
  destruct (generateKeyAndCSR _ _ _ _ _ _ _ _) as [[key csr]| | |]; cbn [gbind] in H; try done.
  destruct (serverTLSConfig _ _); cbn [gbind] in H; try done.
  destruct (Enroll _ _ _) as [[ca cert]| | |]; cbn [gbind] in H; try done.
  injection H as <-. cbn [caBundlePEM]. by case_decide.
Qed.

Lemma save_ok cfg m fs m' fs' :
  save cfg m fs = (Ok m', fs') ->
  let '(caPath, certPath, keyPath) := tlsPaths Join cfg in
  m' = Some m /\
  fs' = <[keyPath := clientKeyPEM m]> (<[certPath := clientCertPEM m]> (<[caPath := caBundlePEM m]> fs)).
Proof.
  unfold save. destruct (tlsPaths Join cfg) as [[caPath certPath] keyPath]. unfold writeSecret.
  destruct (write_fails caPath) as [[e [torn|]]|]; [done..|].
  destruct (write_fails certPath) as [[e [torn|]]|]; [done..|].
  destruct (write_fails keyPath) as [[e [torn|]]|]; [done..|]. by intros [= <- <-].
Qed.

(** With a CA bundle in the configuration there is no bearer mode, and the material trusts a bundle. *)
Lemma ensure_ca cfg now fs m fs' :
  ensure cfg now fs = (Ok m, fs') -> CABundlePEM cfg <> [] ->
  exists m', m = Some m' /\ caBundlePEM m' <> [].
Proof.
  rewrite ensure_table. cbv zeta. intros H Hca. rewrite bool_decide_eq_false_2 in H by done. simpl in H.
  assert (Hs : caBundlePEM (stored cfg fs) <> []).
  { unfold stored. destruct (tlsPaths Join cfg) as [[? ?] ?]. cbn [caBundlePEM]. by case_decide. }
  destruct (fresh now _); [injection H as <- <-; eauto|].
  destruct (bool_decide (EnrollToken cfg = [])).
  - destruct (has_pair _); [injection H as <- <-; eauto|done].
  - destruct (enrolling cfg) as [m0| | |] eqn:He; try done. apply save_ok in H.
    destruct (tlsPaths Join cfg) as [[? ?] ?]. destruct H as [-> _]. exists m0. split; [done|].
    by apply (enroll_ca cfg).
Qed.

(** ** The loop *)

Abbreviation looping := (run_loop GenerateKey MarshalPKCS8PrivateKey url_Parse CreateCertificateRequest
  EncodePEM AppendCertsFromPEM X509KeyPair write_fails Join NotAfter Enroll NewClient).
Abbreviation dialing := (dial AppendCertsFromPEM X509KeyPair NewClient).

(** The credentials and the metadata of a channel. *)
Definition bearer (cfg : Config) : list (bytes * bytes) :=
  if decide (Token cfg = []) then [] else [(str "authorization", str "Bearer " ++ Token cfg)].

Definition channel_ok (cfg : Config) (creds : credentials Pool KeyPair) (meta : list (bytes * bytes)) : Prop :=
  match creds with
  | MTLS ch =>
      meta = [] /\ is_Some (ch_cert ch) /\ (CABundlePEM cfg <> [] -> is_Some (ch_roots ch))
  | Plaintext => CABundlePEM cfg = [] /\ Insecure cfg = true /\ meta = bearer cfg
  | SystemRoots => CABundlePEM cfg = [] /\ Insecure cfg = false /\ meta = bearer cfg
  end.

Abbreviation attempts := (list (attempt (Pool:=Pool) (KeyPair:=KeyPair))).

Definition opened (a : attempt (Pool:=Pool) (KeyPair:=KeyPair)) : bool := is_ok (a_channel a).

Definition attempt_ok (cfg : Config) (a : attempt (Pool:=Pool) (KeyPair:=KeyPair)) : Prop :=
  match a_channel a with Ok (creds, meta) => channel_ok cfg creds meta | _ => True end.

(** How many pauses in a row have gone without a new channel: one after an opened channel, as the
    pause that follows it is doubled too. *)
Definition since (ats : attempts) : nat := foldl (fun j a => if opened a then 1%nat else S j) O ats.

(** The pause an attempt ends with, after [j] of them: a second after an opened channel and the first
    time, the doubled one below the cap otherwise. *)
Definition pause_after (cap : Z) (j : nat) : Z :=
  match j with O => 10 ^ 9 | _ => Z.min (10 ^ 9 * 2 ^ Z.of_nat j) cap end.

Definition pauses_ok (reconnect : bool) (cap : Z) (j0 : nat) (ats : attempts) : Prop :=
  forall i, match ats !! i with
    | Some a =>
        a_pause a =
          if reconnect
          then Some (if opened a then 10 ^ 9
                     else pause_after cap (foldl (fun j a => if opened a then 1%nat else S j) j0 (take i ats)))
          else None
    | None => True
    end.

Lemma dial_ok cfg now fs m fs' creds :
  ensure cfg now fs = (Ok m, fs') -> dialing cfg m = Ok creds ->
  channel_ok cfg creds (connect_metadata cfg (bool_decide (m = None))).
Proof.
  intros He Hd. unfold channel_ok.
  unfold dial in Hd. destruct m as [m|].
  - unfold mtlsTLSConfig in Hd. destruct (wrap_err _ _) as [kp| | |]; cbn [gbind] in Hd; try done.
    destruct (pool_of _ _) as [roots| | |] eqn:Hp; cbn [gbind] in Hd; try done.
    destruct (NewClient _ _); cbn [gbind] in Hd; try done. injection Hd as <-.
    split_and!; [done|by eexists|]. intros Hca. cbn [ch_roots].
    destruct (ensure_ca cfg now fs _ fs' He Hca) as (m' & [= <-] & Hne).
    unfold pool_of in Hp. rewrite decide_False in Hp by done.
    destruct (AppendCertsFromPEM _); [injection Hp as <-; by eexists|done].
  - assert (Hca : CABundlePEM cfg = []).
    { destruct (decide (CABundlePEM cfg = [])) as [|Hca]; [done|].
      by destruct (ensure_ca cfg now fs _ fs' He Hca) as (? & [=] & _). }
    cbn [gbind] in Hd. destruct (NewClient _ _); cbn [gbind] in Hd; try done. injection Hd as <-.
    rewrite bool_decide_eq_true_2 by done. unfold connect_metadata, bearer. cbn [andb].
    destruct (Insecure cfg); (split; [done|]; split; [done|]); by destruct (decide (Token cfg = [])) as [Ht|Ht];
      [rewrite (bool_decide_eq_true_2 _ Ht)|rewrite (bool_decide_eq_false_2 _ Ht)].
Qed.


(** The next pause, doubled and capped, without overflow. *)
Lemma next_backoff cap j :
  0 < cap < 2 ^ 62 ->
  (if wrap64 (pause_after cap j * 2) >? cap then cap else wrap64 (pause_after cap j * 2)) = pause_after cap (S j).
Proof.
  intros Hc. unfold pause_after. change (10 ^ 9) with 1000000000. destruct j as [|j].
  - rewrite wrap64_small by lia. destruct (Z.gtb_spec (1000000000 * 2) cap); lia.
  - assert (H2 : 2 ^ Z.of_nat (S (S j)) = 2 * 2 ^ Z.of_nat (S j)) by (rewrite <- Z.pow_succ_r; [f_equal|]; lia).
    assert (Hp : 0 < 2 ^ Z.of_nat (S j)) by (apply Z.pow_pos_nonneg; lia). rewrite H2.
    generalize dependent (2 ^ Z.of_nat (S j)). intros x _ Hx.
    rewrite wrap64_small by lia. destruct (Z.gtb_spec (Z.min (1000000000 * x) cap * 2) cap); lia.
Qed.

Lemma pauses_cons (b : bool) cap j (a : attempt (Pool:=Pool) (KeyPair:=KeyPair)) (ats : attempts) :
  a_pause a = (if b then Some (if opened a then 10 ^ 9 else pause_after cap j) else None) ->
  pauses_ok b cap (if opened a then 1%nat else S j) ats -> pauses_ok b cap j (a :: ats).
Proof. intros Ha Hats [|i]; [exact Ha|]. exact (Hats i). Qed.

Lemma pauses_nil b cap j : pauses_ok b cap j [].
Proof. by intros i. Qed.

Lemma looping_ok cfg turns j fs :
  0 < MaxBackoff cfg < 2 ^ 62 ->
  let '(ats, r, fs') := looping cfg turns (pause_after (MaxBackoff cfg) j) fs in
  Forall (attempt_ok cfg) ats /\ pauses_ok (Reconnect cfg) (MaxBackoff cfg) j ats /\
  (length ats <= length turns)%nat /\ (r = None -> length ats = length turns).
Proof.
  intros Hm. revert j fs. induction turns as [|t turns IH]; intros j fs; cbn [run_loop length].
  { split_and!; [constructor|apply pauses_nil|lia|done]. }
  destruct (ensure cfg (t_now t) fs) as [[m|e| |] fs'] eqn:He;
    try (split_and!; [constructor|apply pauses_nil|simpl; lia|done]).
  set (d := dialing cfg m). set (b := match d with Ok _ => second | _ => pause_after (MaxBackoff cfg) j end).
  set (ch := gbind d _).
  assert (Hat : forall p, attempt_ok cfg (mkAttempt ch p)).
  { intros p. unfold attempt_ok. cbn [a_channel]. subst ch.
    destruct d as [creds|e| |] eqn:Hd; cbn [gbind]; [by eapply dial_ok|done..]. }
  assert (Ho : forall p, opened (mkAttempt ch p) = is_ok d) by (intros p; by destruct d).
  assert (Hb : b = if is_ok d then 10 ^ 9 else pause_after (MaxBackoff cfg) j) by (by destruct d).
  destruct (Reconnect cfg) eqn:Hr; cbn [negb]; cycle 1.
  { split_and!; [by repeat constructor|by apply pauses_cons, pauses_nil|simpl; lia|done]. }
  destruct (t_cancelled t).
  { split_and!; [by repeat constructor| |simpl; lia|done]. apply pauses_cons; [|apply pauses_nil]. by rewrite Ho, <- Hb. }
  assert (Hn : (if wrap64 (b * 2) >? MaxBackoff cfg then MaxBackoff cfg else wrap64 (b * 2)) =
               pause_after (MaxBackoff cfg) (if is_ok d then 1 else S j)%nat).
  { rewrite Hb. destruct (is_ok d); [by apply (next_backoff _ O)|by apply next_backoff]. }
  rewrite Hn. specialize (IH (if is_ok d then 1 else S j)%nat fs').
  destruct (looping cfg turns _ fs') as [[ats r] fs2]. destruct IH as (IH1 & IH2 & IH3 & IH4).
  split_and!; [by constructor| |simpl; lia|simpl; intros ?; by rewrite IH4].
  apply pauses_cons; rewrite Ho; [by rewrite <- Hb|done].
Qed.


(** The writes of a list of files, up to the first that fails, which may leave something. *)
Fixpoint written (l : list (bytes * bytes)) (fs : gmap bytes bytes) : option gerr * gmap bytes bytes :=
  match l with
  | [] => (None, fs)
  | (path, data) :: l =>
      match write_fails path with
      | None => written l (<[path := data]> fs)
      | Some (e, torn) => (Some e, match torn with Some left_over => <[path := left_over]> fs | None => fs end)
      end
  end.

Lemma save_written cfg m fs :
  save cfg m fs =
  let '(caPath, certPath, keyPath) := tlsPaths Join cfg in
  let '(failed, fs') := written [(caPath, caBundlePEM m); (certPath, clientCertPEM m); (keyPath, clientKeyPEM m)] fs in
  (match failed with None => Ok (Some m) | Some e => Err e end, fs').
Proof.
  unfold save. destruct (tlsPaths Join cfg) as [[caPath certPath] keyPath]. unfold writeSecret, written.
  destruct (write_fails caPath) as [[e [torn|]]|]; [done..|].
  destruct (write_fails certPath) as [[e [torn|]]|]; [done..|].
  by destruct (write_fails keyPath) as [[e [torn|]]|].
Qed.

(** More than an hour to live. *)
Definition valid_for_an_hour (now : Z) (cert : bytes) : bool :=
  match NotAfter cert with Some t => 3600 * 10 ^ 9 <? t - now | None => false end.

Lemma fresh_valid now m :
  fresh now m = has_pair m && valid_for_an_hour now (clientCertPEM m).
Proof.
  unfold fresh, certValid, valid_for_an_hour, certRenewSkew. f_equal. destruct (NotAfter _) as [t|]; [|done].
  change (3600 * second) with 3600000000000. change (3600 * 10 ^ 9) with 3600000000000.
  destruct (Z.ltb_spec (now + 3600000000000) t), (Z.ltb_spec 3600000000000 (t - now)); try done; lia.
Qed.


(** What was saved is what is read back. *)
Lemma save_stored cfg m fs m' fs' :
  save cfg m fs = (Ok m', fs') ->
  (let '(caPath, certPath, keyPath) := tlsPaths Join cfg in
   caPath <> certPath /\ certPath <> keyPath /\ caPath <> keyPath) ->
  caBundlePEM m <> [] -> stored cfg fs' = m.
Proof.
  intros Hs Hne Hca. apply save_ok in Hs. unfold stored. destruct (tlsPaths Join cfg) as [[caPath certPath] keyPath].
  destruct Hs as [_ ->]. destruct Hne as (H1 & H2 & H3). unfold readFileOrNil.
  rewrite lookup_insert_eq, !lookup_insert_ne, !lookup_insert_eq by done.
  rewrite lookup_insert_ne, lookup_insert_eq by done. simpl. rewrite decide_False by done. by destruct m.
Qed.


End transport.

(** Keys, URLs, pools and key pairs of the witnesses are byte strings; signing returns the request. *)
Definition sample_config : Config :=
  mkConfig (str "gw:443") (str "t1") (str "e1") (str "tok") false true 0
    (str "CA") (str "/d") [] (str "once") [].


Definition sample_ensure (now : Z) (fs : gmap bytes bytes) : go (option tlsMaterial) * gmap bytes bytes :=
  ensureTLSMaterial (Ok tt) (fun _ => Ok (str "der")) (fun _ => Ok tt) (fun cn _ _ => Ok cn) (fun l b => l ++ b)
    (@Some bytes) (fun _ => None) (fun d f => d ++ str "/" ++ f) (fun _ => Some 10000000000000)
    (fun _ (_ : tlsChannel (KeyPair:=bytes)) req => Ok ([], CsrPem req)) sample_config now fs.

Definition sample_material : tlsMaterial :=
  mkMaterial (str "CA") (str "CERTIFICATE REQUESTe1") (str "PRIVATE KEYder").

