(* ===== verification/EdgeRuns.v ===== *)
(** * The edge's Connect streams and runs (internal/edge/transport/transport.go)

    [serve], [startWork], [cancelWork], [finishRun] and [handleWork] as a state machine: a run is a
    goroutine, its steps between two sends are atomic, and a sequence of events is an interleaving of
    the receive loop with the runs. The map of runs outlives the streams. *)
From S2P Require Import Prelude Go GoStr Edge Transport.
Open Scope Z_scope.

(** ** Messages *)

Inductive AgentEvent :=
| ToolResult (ok : bool) (name outputJson err : bytes)
| Finished (response : list (bytes * json)).

Inductive ConnectorMessage :=
| MRegister (tenant connector version : bytes)
| MHeartbeat
| MWorkEvent (runID : bytes) (ev : AgentEvent).

Inductive GatewayMessage :=
| GRegistered (sessionID : bytes)
| GWorkAssignment (runID goal : bytes)
| GCancelWork (runID : bytes)
| GPing
| GOther.

(** [resp] of [emitFinished]. *)
Definition finished_response (stoppedReason errDetail : bytes) : list (bytes * json) :=
  [(str "final_answer", JStr []); (str "source", JStr []); (str "steps", JArr []);
   (str "stopped_reason", JStr stoppedReason)] ++
  (if decide (errDetail = []) then [] else [(str "error_detail", JStr errDetail)]).

Definition not_a_call : bytes := str "edge executes single read-only tool calls only".

(** ** State *)

Abbreviation rref := nat.
Abbreviation sref := nat.

(** Where a run's goroutine is. *)
Inductive phase :=
| Started
| Dispatching (call : ToolCall)
| Reporting (call : ToolCall) (res : gmap bytes json)
| Closing (stoppedReason errDetail : bytes)
| Returning
| Done.

Record run := mkRun {
  r_id : bytes; r_goal : bytes; r_stream : sref; r_phase : phase; r_cancelled : bool }.

(** A stream: whether sends still reach the gateway, whether its receive loop runs, and what was sent
    (with the run that sent it, for the statements). *)
Record stream := mkStream {
  s_alive : bool; s_serving : bool; s_out : list (option rref * ConnectorMessage) }.

Record Client := mkClient {
  c_runs : list run;                    (* every run ever started *)
  runs : gmap bytes rref;               (* the map of the client *)
  streams : list stream;
  crashed : bool;                       (* a handler panicked *)
}.

Definition NewClient : Client := mkClient [] ∅ [] false.

Definition on_run (f : run -> run) (r : rref) (c : Client) : Client :=
  mkClient (alter f r (c_runs c)) (runs c) (streams c) (crashed c).
Definition with_runs (m : gmap bytes rref) (c : Client) : Client :=
  mkClient (c_runs c) m (streams c) (crashed c).
Definition set_phase (p : phase) (r : run) : run :=
  mkRun (r_id r) (r_goal r) (r_stream r) p (r_cancelled r).
Definition set_cancelled (r : run) : run :=
  mkRun (r_id r) (r_goal r) (r_stream r) (r_phase r) true.

(** [ss.send], its error dropped: a message on a dead stream is lost. *)
Definition send (s : sref) (who : option rref) (m : ConnectorMessage) (c : Client) : Client :=
  mkClient (c_runs c) (runs c)
    (alter (fun st => if s_alive st then mkStream true (s_serving st) (s_out st ++ [(who, m)]) else st)
       s (streams c)) (crashed c).

Definition emit (r : rref) (rn : run) (ev : AgentEvent) : Client -> Client :=
  send (r_stream rn) (Some r) (MWorkEvent (r_id rn) ev).

Definition emitFinished (r : rref) (rn : run) (stoppedReason errDetail : bytes) : Client -> Client :=
  emit r rn (Finished (finished_response stoppedReason errDetail)).

(** ** Operations *)

Definition startWork (s : sref) (runID goal : bytes) (c : Client) : Client :=
  if decide (runID = []) then c
  else
    match runs c !! runID with
    | Some _ => c
    | None =>
        mkClient (c_runs c ++ [mkRun runID goal s Started false])
          (<[runID := length (c_runs c)]> (runs c)) (streams c) (crashed c)
    end.

Definition finishRun (runID : bytes) (c : Client) : Client :=
  match runs c !! runID with
  | Some r => with_runs (delete runID (runs c)) (on_run set_cancelled r c)
  | None => c
  end.

Definition cancelWork (runID : bytes) (c : Client) : Client :=
  match runs c !! runID with
  | Some r => on_run set_cancelled r c
  | None => c
  end.

(** One message for the receive loop of a stream. *)
Definition serve_message (s : sref) (m : GatewayMessage) (c : Client) : Client :=
  match m with
  | GRegistered _ | GOther => c
  | GWorkAssignment runID goal => startWork s runID goal c
  | GCancelWork runID => cancelWork runID c
  | GPing => send s None MHeartbeat c
  end.

Section work.
(** [json.Unmarshal] and [json.Marshal] on objects, [err.Error()], and the registry as it behaves for
    each run: a handler's outcome may depend on when it runs and on the cancellation, and a handler
    that never returns is one whose outcome is [NoFuel]. *)
Context (unmarshal : bytes -> option (list (bytes * json))).
Context (marshal : gmap bytes json -> go bytes) (error_text : gerr -> bytes).
Context (reg : rref -> Registry).

(** [res["ok"].(bool)] and [res["error"].(string)] *)
Definition ok_of (res : gmap bytes json) : bool :=
  match res !! str "ok" with Some (JBool b) => b | _ => false end.
Definition error_of (res : gmap bytes json) : bytes :=
  match res !! str "error" with
  | Some (JStr s) => s
  | Some (JMsg m) => error_text m
  | _ => []
  end.

Definition tool_result (call : ToolCall) (res : gmap bytes json) : AgentEvent :=
  ToolResult (ok_of res) (c_Name call)
    (match marshal res with Ok out => out | _ => str "{}" end) (error_of res).

(** One step of [handleWork] and of the goroutine around it. The run is past [Dispatching] when its
    handler has returned: a handler that does not return leaves its goroutine there for good. *)
Definition handleWork_step (r : rref) (rn : run) (c : Client) : Client :=
  let goto p := on_run (set_phase p) r in
  match r_phase rn with
  | Started =>
      match DecodeToolRequest unmarshal (r_goal rn) with
      | None => goto (Closing (str "error") not_a_call) c
      | Some call => goto (Dispatching call) c
      end
  | Dispatching call =>
      match Dispatch (reg r) call with
      | Ok res => goto (Reporting call res) c
      | NoFuel => c
      | Panic | Err _ => mkClient (c_runs c) (runs c) (streams c) true
      end
  | Reporting call res =>
      goto (if ok_of res then Closing (str "final_answer") [] else Closing (str "error") (error_of res))
        (emit r rn (tool_result call res) c)
  | Closing reason detail => goto Returning (emitFinished r rn reason detail c)
  | Returning => goto Done (finishRun (r_id rn) c)
  | Done => c
  end.

(** ** Events *)

Inductive event :=
| Connected (registered : bool)     (* a Connect call succeeds; whether the registration is sent *)
| Received (m : GatewayMessage)     (* [Recv] of the current stream *)
| RecvEnded                         (* [Recv] fails: [serve] returns and the connection is closed *)
| Broken (s : sref)                 (* sends on a stream fail from now on *)
| RunStep (r : rref).

(** The stream being served: the last one, while its loop runs. *)
Definition current (c : Client) : option sref :=
  match last (streams c) with
  | Some st => if s_serving st then Some (pred (length (streams c))) else None
  | None => None
  end.

Definition kill (serving : bool) (st : stream) : stream := mkStream false (serving && s_serving st) (s_out st).

Definition on_stream (f : stream -> stream) (s : sref) (c : Client) : Client :=
  mkClient (c_runs c) (runs c) (alter f s (streams c)) (crashed c).

Definition register_message (cfg : Config) : ConnectorMessage :=
  MRegister (TenantID cfg) (ConnectorID cfg) Version.

Definition step (cfg : Config) (ev : event) (c : Client) : Client :=
  if crashed c then c
  else
    match ev with
    | Connected registered =>
        match current c with
        | Some _ => c
        | None =>
            mkClient (c_runs c) (runs c)
              (streams c ++
               [if registered : bool then mkStream true true [(None, register_message cfg)]
                else mkStream false false []]) (crashed c)
        end
    | Received m => match current c with Some s => serve_message s m c | None => c end
    | RecvEnded => match current c with Some s => on_stream (kill false) s c | None => c end
    | Broken s => on_stream (kill true) s c
    | RunStep r => match c_runs c !! r with Some rn => handleWork_step r rn c | None => c end
    end.

Definition execute (cfg : Config) (evs : list event) (c : Client) : Client :=
  foldl (fun c ev => step cfg ev c) c evs.

End work.
