(* ===== verification/EdgeRunsProps.v ===== *)
(** * What the edge's runs guarantee: one live run per id, one answer per run, and every run ends *)
From S2P Require Import Prelude Go GoStr Edge Transport EdgeRuns.
Open Scope Z_scope.

Section runs.
Context (unmarshal : bytes -> option (list (bytes * json))).
Context (marshal : gmap bytes json -> go bytes) (error_text : gerr -> bytes).
Context (reg : rref -> Registry) (cfg : Config).

Abbreviation ok_step := (step unmarshal marshal error_text reg cfg).
Abbreviation run_events := (execute unmarshal marshal error_text reg cfg).

(** ** The answer a run owes *)

Definition closing (res : gmap bytes json) : AgentEvent :=
  Finished (if ok_of res then finished_response (str "final_answer") []
            else finished_response (str "error") (error_of error_text res)).

Definition answer (r : rref) (goal : bytes) : list AgentEvent :=
  match DecodeToolRequest unmarshal goal with
  | None => [Finished (finished_response (str "error") not_a_call)]
  | Some call =>
      match Dispatch (reg r) call with
      | Ok res => [tool_result marshal error_text call res; closing res]
      | _ => []
      end
  end.

(** How much of it has been sent, and what the phase remembers. *)
Definition emitted (r : rref) (rn : run) : list AgentEvent :=
  match r_phase rn with
  | Started | Dispatching _ | Reporting _ _ => []
  | Closing _ _ => removelast (answer r (r_goal rn))
  | Returning | Done => answer r (r_goal rn)
  end.

Definition phase_ok (r : rref) (rn : run) : Prop :=
  match r_phase rn with
  | Started => True
  | Dispatching call => DecodeToolRequest unmarshal (r_goal rn) = Some call
  | Reporting call res =>
      DecodeToolRequest unmarshal (r_goal rn) = Some call /\ Dispatch (reg r) call = Ok res
  | Closing reason detail =>
      answer r (r_goal rn) = emitted r rn ++ [Finished (finished_response reason detail)]
  | Returning | Done => answer r (r_goal rn) <> []
  end.

(** What a run has sent on a stream. *)
Definition sent_by (r : rref) (st : stream) : list ConnectorMessage :=
  omap (fun '(who, m) => if decide (who = Some r) then Some m else None) (s_out st).

Definition work_event (rn : run) (ev : AgentEvent) : ConnectorMessage := MWorkEvent (r_id rn) ev.

Record client_inv (c : Client) : Prop := {
  inv_runs : forall id r, runs c !! id = Some r <->
    exists rn, c_runs c !! r = Some rn /\ r_id rn = id /\ r_phase rn <> Done;
  inv_run : forall r rn, c_runs c !! r = Some rn ->
    r_id rn <> [] /\ phase_ok r rn /\
    exists st, streams c !! r_stream rn = Some st /\
      sent_by r st `prefix_of` map (work_event rn) (emitted r rn) /\
      (s_alive st = true -> sent_by r st = map (work_event rn) (emitted r rn));
  inv_only : forall s st r m, streams c !! s = Some st -> (Some r, m) ∈ s_out st ->
    exists rn, c_runs c !! r = Some rn /\ r_stream rn = s;
  inv_first : forall s st, streams c !! s = Some st ->
    s_out st = [] \/ exists out, s_out st = (None, register_message cfg) :: out /\
      Forall (fun '(who, m) => who = None -> m = MHeartbeat) out;
  inv_empty : forall s st, streams c !! s = Some st -> s_alive st = true -> s_out st <> [];
}.

(** Only the last stream is being served or alive to receive work. *)
Lemma inv_new : client_inv NewClient.
Proof.
  split; simpl.
  - intros id r. rewrite lookup_empty. split; [done|]. by intros (rn & ? & _).
  - done.
  - done.
  - done.
  - done.
Qed.

(** ** The steps *)

Lemma sent_by_app r st who m alive serving :
  sent_by r (mkStream alive serving (s_out st ++ [(who, m)])) =
  sent_by r st ++ (if decide (who = Some r) then [m] else []).
Proof. unfold sent_by. simpl. rewrite omap_app. simpl. by case_decide. Qed.

(** What a send does to one stream. *)
Definition push (who : option rref) (m : ConnectorMessage) (st : stream) : stream :=
  if s_alive st then mkStream true (s_serving st) (s_out st ++ [(who, m)]) else st.

Lemma push_alive who m st : s_alive (push who m st) = s_alive st.
Proof. unfold push. by destruct (s_alive st) eqn:E. Qed.

Lemma push_sent who m st r :
  sent_by r (push who m st) =
  sent_by r st ++ (if s_alive st && bool_decide (who = Some r) then [m] else []).
Proof.
  unfold push. destruct (s_alive st); [|by rewrite app_nil_r]. rewrite sent_by_app. simpl.
  by case_decide; case_bool_decide.
Qed.

Lemma send_stream s who m c s' st' :
  streams (send s who m c) !! s' = Some st' ->
  exists st, streams c !! s' = Some st /\ st' = if decide (s' = s) then push who m st else st.
Proof.
  unfold send. cbn [streams]. case_decide as Hs.
  - subst. rewrite list_lookup_alter_eq. destruct (streams c !! s) as [st|]; [|by intros [=]].
    intros [= <-]. exists st. by split.
  - rewrite list_lookup_alter_ne by done. eauto.
Qed.

Lemma send_stream_back s who m c s' st :
  streams c !! s' = Some st ->
  streams (send s who m c) !! s' = Some (if decide (s' = s) then push who m st else st).
Proof.
  intros Hst. unfold send. cbn [streams]. case_decide as Hs.
  - subst. by rewrite list_lookup_alter_eq, Hst.
  - by rewrite list_lookup_alter_ne by done.
Qed.

(** A send keeps the shape of every stream. *)
Lemma send_shape s who m c s' st' :
  client_inv c -> (who = None -> m = MHeartbeat) -> streams (send s who m c) !! s' = Some st' ->
  (s_out st' = [] \/ exists out, s_out st' = (None, register_message cfg) :: out /\
     Forall (fun '(who, m) => who = None -> m = MHeartbeat) out) /\
  (s_alive st' = true -> s_out st' <> []).
Proof.
  intros [_ _ _ Hf He] Hm Hst'. apply send_stream in Hst' as (st & Hst & ->).
  pose proof (Hf s' st Hst) as Hsh. pose proof (He s' st Hst) as Hne.
  case_decide; [|done]. unfold push. destruct (s_alive st) eqn:Ha; [|rewrite Ha; done].
  simpl. split; [|by destruct (s_out st)].
  destruct Hsh as [Hnil|(out & Ho & Hout)]; [by destruct (Hne eq_refl)|]. right.
  exists (out ++ [(who, m)]). rewrite Ho. split; [done|]. apply Forall_app. split; [done|].
  by apply Forall_singleton.
Qed.

(** The runs that a step leaves alone keep their account. *)
Lemma account_other s who m c r rn :
  client_inv c -> c_runs c !! r = Some rn -> who <> Some r ->
  exists st, streams (send s who m c) !! r_stream rn = Some st /\
    sent_by r st `prefix_of` map (work_event rn) (emitted r rn) /\
    (s_alive st = true -> sent_by r st = map (work_event rn) (emitted r rn)).
Proof.
  intros [_ Hrun _ _ _] Hrn Hw. destruct (Hrun r rn Hrn) as (_ & _ & st & Hst & Hp & Ha).
  eexists. split; [by apply send_stream_back|]. case_decide; [|done].
  rewrite push_sent, push_alive, (bool_decide_eq_false_2 (who = Some r)), andb_false_r, app_nil_r by done.
  done.
Qed.

(** A heartbeat. *)
Lemma inv_heartbeat s c : client_inv c -> client_inv (send s None MHeartbeat c).
Proof.
  intros Hinv. pose proof Hinv as [Hr Hrun Ho Hf He]. split.
  - exact Hr.
  - intros r rn Hrn. destruct (Hrun r rn Hrn) as (? & ? & _). split_and!; [done|done|].
    by apply account_other.
  - intros s' st' r m Hst' Hm. apply send_stream in Hst' as (st & Hst & ->).
    apply (Ho s' st r m Hst). case_decide; [|done]. unfold push in Hm.
    destruct (s_alive st); [|done]. simpl in Hm. set_solver.
  - intros s' st' Hst'. by apply (send_shape s None MHeartbeat c s' st').
  - intros s' st' Hst'. by apply (send_shape s None MHeartbeat c s' st').
Qed.

(** A run that goes on to another phase, possibly after a send. *)
Definition emit_opt (r : rref) (rn : run) (ev : option AgentEvent) (c : Client) : Client :=
  match ev with Some ev => emit r rn ev c | None => c end.

Lemma lookup_advance p r c r' rn' :
  c_runs (on_run (set_phase p) r c) !! r' = Some rn' ->
  exists rn, c_runs c !! r' = Some rn /\ rn' = if decide (r' = r) then set_phase p rn else rn.
Proof.
  unfold on_run. cbn [c_runs]. case_decide as Hr.
  - subst. rewrite list_lookup_alter_eq. destruct (c_runs c !! r) as [rn|]; [|by intros [=]].
    intros [= <-]. eauto.
  - rewrite list_lookup_alter_ne by done. eauto.
Qed.

Lemma lookup_advance_back p r c r' rn :
  c_runs c !! r' = Some rn ->
  c_runs (on_run (set_phase p) r c) !! r' = Some (if decide (r' = r) then set_phase p rn else rn).
Proof.
  intros Hrn. unfold on_run. cbn [c_runs]. case_decide as Hr.
  - subst. by rewrite list_lookup_alter_eq, Hrn.
  - by rewrite list_lookup_alter_ne by done.
Qed.

Lemma emitted_advance r p rn evs :
  r_phase rn <> Done -> emitted r (set_phase p rn) = emitted r rn ++ evs ->
  map (work_event (set_phase p rn)) (emitted r (set_phase p rn)) =
  map (work_event rn) (emitted r rn) ++ map (work_event rn) evs.
Proof. intros _ ->. by rewrite map_app. Qed.

Lemma inv_advance r rn p ev c :
  client_inv c -> c_runs c !! r = Some rn -> r_phase rn <> Done -> p <> Done ->
  phase_ok r (set_phase p rn) ->
  emitted r (set_phase p rn) = emitted r rn ++ option_list ev ->
  client_inv (on_run (set_phase p) r (emit_opt r rn ev c)).
Proof.
  intros Hinv Hrn Hnd Hp Hok Hem. pose proof Hinv as [Hr Hrun Ho Hf He].
  assert (Hc : c_runs (emit_opt r rn ev c) = c_runs c) by (by destruct ev).
  assert (Hkeep : forall s' st r' m, streams c !! s' = Some st -> (Some r', m) ∈ s_out st ->
    exists rn', c_runs (on_run (set_phase p) r (emit_opt r rn ev c)) !! r' = Some rn' /\ r_stream rn' = s').
  { intros s' st r' m Hst Hm. destruct (Ho _ _ _ _ Hst Hm) as (rn0 & H0 & Hs0). eexists.
    split; [apply lookup_advance_back; by rewrite Hc|]. by case_decide. }
  split.
  - intros id r'. transitivity (runs c !! id = Some r'); [by destruct ev|]. rewrite Hr. split.
    + intros (rn0 & H0 & Hid & Hph). eexists. rewrite <- Hc in H0. split; [by apply lookup_advance_back|].
      by case_decide.
    + intros (rn0 & (rn1 & H1 & ->)%lookup_advance & Hid & Hph). rewrite Hc in H1.
      exists rn1. case_decide; [|done]. subst. split_and!; [done|done|congruence].
  - intros r' rn' (rn1 & H1 & ->)%lookup_advance. rewrite Hc in H1.
    destruct (Hrun r' rn1 H1) as (Hid & Hpo & st & Hst & Hpre & Hal). case_decide as Hrr.
    + subst r'. assert (rn1 = rn) as -> by congruence. split_and!; [done|done|].
      pose proof (emitted_advance r p rn (option_list ev) Hnd Hem) as Hmap.
      destruct ev as [ev|]; simpl.
      * eexists. split; [by apply send_stream_back|]. rewrite decide_True by done.
        rewrite Hmap, push_sent, push_alive, bool_decide_eq_true_2, andb_true_r by done. simpl.
        destruct (s_alive st) eqn:Ha.
        { rewrite Hal by done. split; [|done]. exists []. by rewrite app_nil_r. }
        rewrite app_nil_r. split; [|done]. by apply prefix_app_r.
      * exists st. split; [done|]. rewrite Hmap, app_nil_r. done.
    + split_and!; [done|done|]. destruct ev as [ev|]; simpl; [|by exists st].
      apply account_other; [done|done|congruence].
  - intros s' st' r' m Hst' Hm. destruct ev as [ev|]; simpl in Hst'; [|by eapply Hkeep].
    apply send_stream in Hst' as (st & Hst & ->). case_decide as Hs; [|by eapply Hkeep].
    unfold push in Hm. destruct (s_alive st); [|by eapply Hkeep]. simpl in Hm.
    apply elem_of_app in Hm as [Hm|[= -> ->]%list_elem_of_singleton]; [by eapply Hkeep|].
    exists (set_phase p rn). split; [|done]. unfold on_run. cbn [c_runs].
    by rewrite list_lookup_alter_eq, Hc, Hrn.
  - intros s' st' Hst'. destruct ev as [ev|]; [|by apply (Hf s')].
    by apply (send_shape (r_stream rn) (Some r) (MWorkEvent (r_id rn) ev) c s' st').
  - intros s' st' Hst'. destruct ev as [ev|]; [|by apply (He s')].
    by apply (send_shape (r_stream rn) (Some r) (MWorkEvent (r_id rn) ev) c s' st').
Qed.

(** Changes that leave a run's id, goal, stream and phase alone. *)
Lemma inv_cancel r c : client_inv c -> client_inv (on_run set_cancelled r c).
Proof.
  intros [Hr Hrun Ho Hf He].
  assert (Hl : forall r' rn', c_runs (on_run set_cancelled r c) !! r' = Some rn' ->
    exists rn, c_runs c !! r' = Some rn /\ rn' = if decide (r' = r) then set_cancelled rn else rn).
  { intros r' rn'. unfold on_run. cbn [c_runs]. case_decide as Hd.
    - subst. rewrite list_lookup_alter_eq. destruct (c_runs c !! r); [|by intros [=]]. intros [= <-]. eauto.
    - rewrite list_lookup_alter_ne by done. eauto. }
  assert (Hb : forall r' rn, c_runs c !! r' = Some rn ->
    c_runs (on_run set_cancelled r c) !! r' = Some (if decide (r' = r) then set_cancelled rn else rn)).
  { intros r' rn Hrn. unfold on_run. cbn [c_runs]. case_decide as Hd.
    - subst. by rewrite list_lookup_alter_eq, Hrn.
    - by rewrite list_lookup_alter_ne by done. }
  split; [| | |done|done].
  - intros id r'. transitivity (runs c !! id = Some r'); [done|]. rewrite Hr. split.
    + intros (rn & H0 & Hid & Hp). eexists. split; [by apply Hb|]. by case_decide.
    + intros (rn' & (rn & H0 & ->)%Hl & Hid & Hp). exists rn. split; [done|]. by case_decide.
  - intros r' rn' (rn & H0 & ->)%Hl. destruct (Hrun r' rn H0) as (? & ? & st & ? & ? & ?).
    case_decide; (split; [done|]; split; [done|]; exists st; done).
  - intros s st r' m Hst Hm. destruct (Ho _ _ _ _ Hst Hm) as (rn & H0 & Hs). eexists.
    split; [by apply Hb|]. by case_decide.
Qed.

(** The goroutine returns: its entry leaves the map. *)
Lemma inv_finish r rn c :
  client_inv c -> c_runs c !! r = Some rn -> r_phase rn = Returning ->
  client_inv (on_run (set_phase Done) r (finishRun (r_id rn) c)).
Proof.
  intros Hinv Hrn Hph.
  assert (Hm : runs c !! r_id rn = Some r).
  { destruct Hinv as [Hr _ _ _ _]. apply Hr. exists rn. by rewrite Hph. }
  unfold finishRun. rewrite Hm. apply (inv_cancel r) in Hinv.
  assert (Hrn' : c_runs (on_run set_cancelled r c) !! r = Some (set_cancelled rn)).
  { unfold on_run. cbn [c_runs]. by rewrite list_lookup_alter_eq, Hrn. }
  assert (Hm' : runs (on_run set_cancelled r c) !! r_id rn = Some r) by done.
  change (runs c) with (runs (on_run set_cancelled r c)).
  revert Hinv Hrn' Hm'. generalize (on_run set_cancelled r c). clear c Hrn Hm. intros c Hinv Hrn Hm.
  destruct Hinv as [Hr Hrun Ho Hf He]. split; [| | |done|done].
  - intros id r'. change (runs (on_run (set_phase Done) r (with_runs (delete (r_id rn) (runs c)) c)))
      with (delete (r_id rn) (runs c)).
    rewrite lookup_delete_Some, Hr. split.
    + intros [Hne (rn0 & H0 & Hid & Hp)]. exists rn0. split; [|done].
      unfold on_run. cbn [c_runs with_runs]. rewrite list_lookup_alter_ne; [done|].
      intros ->. rewrite Hrn in H0. injection H0 as <-. by apply Hne.
    + intros (rn' & (rn0 & H0 & ->)%lookup_advance & Hid & Hp). cbn [c_runs with_runs] in H0.
      case_decide as Hd; [done|]. split; [|by exists rn0]. intros <-.
      assert (runs c !! r_id rn = Some r') by (apply Hr; by exists rn0). congruence.
  - intros r' rn' (rn0 & H0 & ->)%lookup_advance. cbn [c_runs with_runs] in H0.
    destruct (Hrun r' rn0 H0) as (Hid & Hpo & st & Hst & Hpre & Hal). case_decide as Hd; cycle 1.
    { split_and!; [done|done|]. by exists st. }
    subst. assert (rn0 = set_cancelled rn) as -> by congruence.
    unfold phase_ok, emitted in *. cbn [r_phase set_cancelled set_phase r_goal] in *. rewrite Hph in *.
    split_and!; [done|done|]. by exists st.
  - intros s st r' m Hst Hm'. destruct (Ho _ _ _ _ Hst Hm') as (rn0 & H0 & Hs). eexists.
    split; [by apply lookup_advance_back|]. by case_decide.
Qed.

Lemma sent_elsewhere c r s st :
  client_inv c -> streams c !! s = Some st ->
  (forall rn, c_runs c !! r = Some rn -> r_stream rn <> s) -> sent_by r st = [].
Proof.
  intros [_ _ Ho _ _] Hst Hne. unfold sent_by.
  assert (Hn : forall m, (Some r, m) ∉ s_out st).
  { intros m Hm. destruct (Ho _ _ _ _ Hst Hm) as (rn & Hrn & Hs). by apply (Hne rn). }
  induction (s_out st) as [|[who m] out IH]; [done|]. simpl. case_decide as Hw.
  - subst. exfalso. apply (Hn m). set_solver.
  - apply IH. intros m' Hm'. apply (Hn m'). set_solver.
Qed.

Lemma inv_start s id goal c :
  client_inv c -> (s < length (streams c))%nat -> client_inv (startWork s id goal c).
Proof.
  intros Hinv Hs. unfold startWork. case_decide as Hid; [done|].
  destruct (runs c !! id) as [r0|] eqn:Hnone; [done|]. set (r := length (c_runs c)).
  assert (Hfresh : c_runs c !! r = None) by (apply lookup_ge_None; lia).
  pose proof Hinv as [Hr Hrun Ho Hf He].
  assert (Hl : forall r' rn, (c_runs c ++ [mkRun id goal s Started false]) !! r' = Some rn <->
    c_runs c !! r' = Some rn \/ (r' = r /\ rn = mkRun id goal s Started false)).
  { intros r' rn. destruct (decide (r' < length (c_runs c))%nat) as [Hlt|Hge].
    - rewrite lookup_app_l by done. split; [by left|]. intros [?|[-> _]]; [done|subst r; lia].
    - rewrite lookup_app_r by lia. rewrite list_lookup_singleton_Some. split.
      + intros [Hr' <-]. right. split; [subst r; lia|done].
      + intros [Hr'|[-> ->]]; [apply lookup_lt_Some in Hr'; lia|]. split; [subst r; lia|done]. }
  split; cbn [c_runs runs streams]; [| | |done|done].
  - intros id' r'. rewrite lookup_insert_Some, Hr. split.
    + intros [[<- <-]|[Hne (rn & Hrn & ?)]].
      * eexists. split; [apply Hl; right; done|]. done.
      * exists rn. split; [apply Hl; by left|done].
    + intros (rn & [Hrn|[-> ->]]%Hl & Hid' & Hp); [|by left].
      right. assert (runs c !! id' = Some r') by (apply Hr; by exists rn). split; [congruence|by exists rn].
  - intros r' rn [Hrn|[-> ->]]%Hl; [by apply Hrun|]. split; [done|]. split; [done|].
    destruct (lookup_lt_is_Some_2 _ _ Hs) as [st Hst]. exists st. split; [done|].
    rewrite (sent_elsewhere c r s st); [by split|done|done|]. intros rn Hrn. congruence.
  - intros s' st r' m Hst Hm. destruct (Ho _ _ _ _ Hst Hm) as (rn & Hrn & ?). exists rn.
    split; [apply Hl; by left|done].
Qed.

Lemma inv_connected c (registered b : bool) :
  client_inv c ->
  client_inv (mkClient (c_runs c) (runs c)
    (streams c ++ [if registered then mkStream true true [(None, register_message cfg)]
                   else mkStream false false []]) b).
Proof.
  intros [Hr Hrun Ho Hf He]. set (new := if registered then _ else _).
  assert (Hl : forall s st, (streams c ++ [new]) !! s = Some st -> streams c !! s = Some st \/ st = new).
  { intros s st [H|[_ H]]%lookup_app_Some; [by left|]. right.
    by apply list_lookup_singleton_Some in H as [_ <-]. }
  split; cbn [c_runs runs streams].
  - exact Hr.
  - intros r rn Hrn. destruct (Hrun r rn Hrn) as (? & ? & st & Hst & ?). split_and!; [done|done|].
    exists st. split; [by apply lookup_app_l_Some|done].
  - intros s st r m [Hst| ->]%Hl Hm; [by eapply Ho|]. subst new. destruct registered; simpl in Hm; set_solver.
  - intros s st [Hst| ->]%Hl; [by apply (Hf s)|]. subst new. destruct registered; [|by left].
    right. exists []. by split.
  - intros s st [Hst| ->]%Hl; [by apply (He s)|]. subst new. by destruct registered.
Qed.

Lemma inv_kill c s b : client_inv c -> client_inv (on_stream (kill b) s c).
Proof.
  intros [Hr Hrun Ho Hf He]. unfold on_stream.
  assert (Hl : forall s' st', alter (kill b) s (streams c) !! s' = Some st' ->
    exists st, streams c !! s' = Some st /\ s_out st' = s_out st /\ (s_alive st' = true -> st' = st)).
  { intros s' st'. destruct (decide (s' = s)) as [->|].
    - rewrite list_lookup_alter_eq. destruct (streams c !! s) as [st|]; [|by intros [=]].
      intros [= <-]. by exists st.
    - rewrite list_lookup_alter_ne by done. intros. by exists st'. }
  split; cbn [c_runs runs streams].
  - exact Hr.
  - intros r rn Hrn. destruct (Hrun r rn Hrn) as (? & ? & st & Hst & Hp & Ha). split_and!; [done|done|].
    destruct (decide (r_stream rn = s)) as [Heq|].
    + exists (kill b st). rewrite Heq, list_lookup_alter_eq, <- Heq, Hst. by split.
    + exists st. rewrite list_lookup_alter_ne by done. done.
  - intros s' st' r m (st & Hst & Hout & _)%Hl Hm. rewrite Hout in Hm. by eapply Ho.
  - intros s' st' (st & Hst & -> & _)%Hl. by apply (Hf s').
  - intros s' st' (st & Hst & -> & Ha)%Hl Halive. apply (He s' st Hst). by rewrite <- (Ha Halive).
Qed.

Lemma inv_crash c : client_inv c -> client_inv (mkClient (c_runs c) (runs c) (streams c) true).
Proof. by intros [Hr Hrun Ho Hf He]; split. Qed.

Lemma inv_handle r rn c :
  client_inv c -> c_runs c !! r = Some rn ->
  client_inv (handleWork_step unmarshal marshal error_text reg r rn c).
Proof.
  intros Hinv Hrn. destruct (inv_run c Hinv r rn Hrn) as (_ & Hpo & _).
  unfold handleWork_step. unfold phase_ok in Hpo. destruct (r_phase rn) as [|call|call res|reason detail| |] eqn:Hph.
  - destruct (DecodeToolRequest unmarshal (r_goal rn)) as [call|] eqn:Hd.
    + apply (inv_advance r rn (Dispatching call) None); try done; [congruence|].
      unfold emitted. by rewrite Hph.
    + apply (inv_advance r rn _ None); try done; [congruence| |].
      * unfold phase_ok, emitted, answer. cbn [r_phase set_phase r_goal]. by rewrite Hd.
      * unfold emitted, answer. cbn [r_phase set_phase r_goal]. by rewrite Hph, Hd.
  - destruct (Dispatch (reg r) call) as [res|e| |] eqn:Hd; [|by apply inv_crash..|done].
    apply (inv_advance r rn (Reporting call res) None); try done; [congruence|].
    unfold emitted. by rewrite Hph.
  - destruct Hpo as [Hdec Hdis].
    assert (Ha : answer r (r_goal rn) = [tool_result marshal error_text call res; closing res])
      by (unfold answer; by rewrite Hdec, Hdis).
    apply (inv_advance r rn _ (Some (tool_result marshal error_text call res))); try done;
      [congruence|by destruct (ok_of res)| |].
    + unfold phase_ok, emitted. destruct (ok_of res) eqn:Hok; cbn [r_phase set_phase r_goal];
        rewrite Ha; unfold closing; by rewrite Hok.
    + unfold emitted. rewrite Hph. destruct (ok_of res); cbn [r_phase set_phase r_goal]; by rewrite Ha.
  - apply (inv_advance r rn Returning (Some (Finished (finished_response reason detail)))); try done.
    + congruence.
    + unfold phase_ok. cbn [r_phase set_phase r_goal]. rewrite Hpo. by destruct (emitted r rn).
  - by apply inv_finish.
  - done.
Qed.

Lemma current_lt c s : current c = Some s -> (s < length (streams c))%nat.
Proof.
  unfold current. destruct (last (streams c)) as [st|] eqn:Hl; [|done].
  destruct (s_serving st); [|done]. intros [= <-]. destruct (streams c); [done|simpl; lia].
Qed.

Lemma inv_step ev c : client_inv c -> client_inv (ok_step ev c).
Proof.
  intros Hinv. unfold step. destruct (crashed c); [done|]. destruct ev as [reg'|m| |s|r].
  - destruct (current c); [done|]. by apply inv_connected.
  - destruct (current c) as [s|] eqn:Hc; [|done]. apply current_lt in Hc.
    destruct m as [sid|id goal|id| |]; simpl; [done|by apply inv_start| |by apply inv_heartbeat|done].
    unfold cancelWork. destruct (runs c !! id); [by apply inv_cancel|done].
  - destruct (current c); [|done]. by apply inv_kill.
  - by apply inv_kill.
  - destruct (c_runs c !! r) as [rn|] eqn:Hrn; [|done]. by apply inv_handle.
Qed.

Lemma inv_execute evs c : client_inv c -> client_inv (run_events evs c).
Proof.
  unfold execute. revert c. induction evs as [|ev evs IH]; intros c Hinv; [done|].
  simpl. by apply IH, inv_step.
Qed.

(** ** What follows of every reachable client *)

(** An answer: at most one tool result, and exactly one terminal event, the last. *)
Definition complete (l : list AgentEvent) : bool :=
  match l with
  | [Finished _] | [ToolResult _ _ _ _; Finished _] => true
  | _ => false
  end.

Lemma answer_complete r goal : answer r goal <> [] -> complete (answer r goal) = true.
Proof. unfold answer. destruct (DecodeToolRequest _ _); [|done]. by destruct (Dispatch _ _). Qed.

Lemma emitted_prefix r rn : emitted r rn `prefix_of` answer r (r_goal rn).
Proof.
  unfold emitted. destruct (r_phase rn); try apply prefix_nil; try done.
  destruct (answer r (r_goal rn)) as [|x l] eqn:E using rev_ind; [done|].
  rewrite removelast_last. by apply prefix_app_r.
Qed.

Lemma live_unique c r1 r2 rn1 rn2 :
  client_inv c -> c_runs c !! r1 = Some rn1 -> c_runs c !! r2 = Some rn2 ->
  r_phase rn1 <> Done -> r_phase rn2 <> Done -> r_id rn1 = r_id rn2 -> r1 = r2.
Proof.
  intros [Hr _ _ _ _] H1 H2 Hp1 Hp2 Hid.
  assert (runs c !! r_id rn1 = Some r1) by (apply Hr; eauto).
  assert (runs c !! r_id rn1 = Some r2) by (apply Hr; eauto). congruence.
Qed.

(** ** Progress *)

(** [Dispatch] turns a handler's error into a result. *)
Lemma Dispatch_no_error rg call e : Dispatch rg call <> Err e.
Proof. unfold Dispatch. destruct (handlers rg !! _) as [h|]; [|done]. by destruct (h _). Qed.

(** Whether what the run was asked for returns: its handler does, when the goal is a call. *)
Definition returns (r : rref) (goal : bytes) : bool :=
  match DecodeToolRequest unmarshal goal with
  | None => true
  | Some call => match Dispatch (reg r) call with NoFuel => false | _ => true end
  end.

Definition steps_left (p : phase) : nat :=
  match p with
  | Started => 5 | Dispatching _ => 4 | Reporting _ _ => 3 | Closing _ _ => 2 | Returning => 1 | Done => 0
  end.

(** The same run, no further from its end. *)
Definition goes_on (rn rn' : run) : Prop :=
  r_id rn' = r_id rn /\ r_goal rn' = r_goal rn /\ r_stream rn' = r_stream rn /\
  (steps_left (r_phase rn') <= steps_left (r_phase rn))%nat.

Lemma goes_on_refl rn : goes_on rn rn.
Proof. by repeat split. Qed.

Lemma on_run_goes_on f r c r' rn :
  (forall rn, c_runs c !! r = Some rn -> goes_on rn (f rn)) -> c_runs c !! r' = Some rn ->
  exists rn', c_runs (on_run f r c) !! r' = Some rn' /\ goes_on rn rn' /\ (r' = r -> rn' = f rn).
Proof.
  intros Hf Hrn. unfold on_run. cbn [c_runs]. destruct (decide (r' = r)) as [->|].
  - rewrite list_lookup_alter_eq, Hrn. eexists. split; [done|]. split; [by apply Hf|done].
  - rewrite list_lookup_alter_ne by done. exists rn. split; [done|]. split; [apply goes_on_refl|done].
Qed.

(** The step a run's goroutine does not get past: [Dispatching], when its handler does not return. *)
Definition floor (r : rref) (rn : run) : nat := if returns r (r_goal rn) then 0 else 4.

(** No handler crashes the process. *)
Context (Hpanic : forall r call, Dispatch (reg r) call <> Panic).

Lemma handle_goes_on r rn c :
  client_inv c -> c_runs c !! r = Some rn -> crashed c = false ->
  let c' := handleWork_step unmarshal marshal error_text reg r rn c in
  crashed c' = false /\
  forall r' rn', c_runs c !! r' = Some rn' ->
    exists rn'', c_runs c' !! r' = Some rn'' /\ goes_on rn' rn'' /\
      (r' = r -> (steps_left (r_phase rn'') <= pred (steps_left (r_phase rn')) `max` floor r rn')%nat).
Proof.
  intros Hinv Hrn Hcr. destruct (inv_run c Hinv r rn Hrn) as (_ & Hpo & _). unfold handleWork_step.
  assert (Hgoto : forall p c0, c_runs c0 = c_runs c -> crashed c0 = false ->
    (steps_left p <= pred (steps_left (r_phase rn)))%nat ->
    crashed (on_run (set_phase p) r c0) = false /\
    forall r' rn', c_runs c !! r' = Some rn' ->
      exists rn'', c_runs (on_run (set_phase p) r c0) !! r' = Some rn'' /\ goes_on rn' rn'' /\
        (r' = r -> (steps_left (r_phase rn'') <= pred (steps_left (r_phase rn')) `max` floor r rn')%nat)).
  { intros p c0 Hc0 Hcr0 Hp. split; [done|]. intros r' rn' Hrn'. rewrite <- Hc0 in Hrn', Hrn.
    destruct (on_run_goes_on (set_phase p) r c0 r' rn') as (rn'' & H' & Hg & He); [|done|].
    - intros rn0 H0. assert (rn0 = rn) as -> by congruence. unfold goes_on. simpl.
      split_and!; [done..|]. lia.
    - exists rn''. split_and!; [done|done|]. intros ->. rewrite He by done.
      assert (rn' = rn) as -> by congruence. cbn [r_phase set_phase]. lia. }
  unfold phase_ok in Hpo.
  destruct (r_phase rn) as [|call|call res|reason detail| |] eqn:Hph; cbn [steps_left] in Hgoto.
  - destruct (DecodeToolRequest _ _); apply Hgoto; simpl; try done; lia.
  - destruct (Dispatch (reg r) call) as [res|e| |] eqn:Hd;
      [apply Hgoto; simpl; try done; lia|by apply Dispatch_no_error in Hd|by apply Hpanic in Hd|].
    cbv zeta. split; [done|]. intros r' rn' Hrn'. exists rn'. split_and!; [done|apply goes_on_refl|].
    intros ->. assert (rn' = rn) as -> by congruence. unfold floor, returns. rewrite Hpo, Hd, Hph. simpl. lia.
  - apply Hgoto; simpl; try done. destruct (ok_of res); simpl; lia.
  - apply Hgoto; simpl; try done; lia.
  - unfold finishRun. destruct (runs c !! r_id rn) as [r0|] eqn:Hr0; [|apply Hgoto; simpl; try done; lia].
    cbv zeta. split; [done|]. intros r' rn' Hrn'.
    destruct (on_run_goes_on set_cancelled r0 c r' rn' ltac:(by repeat split) Hrn') as (rn1 & H1 & Hg1 & _).
    destruct (on_run_goes_on (set_phase Done) r (with_runs (delete (r_id rn) (runs c))
      (on_run set_cancelled r0 c)) r' rn1) as (rn2 & H2 & Hg2 & He2); [|exact H1|].
    + intros rn0 _. unfold goes_on. simpl. split_and!; [done..|lia].
    + exists rn2. split; [exact H2|]. unfold goes_on in *. split; [|intros ->; rewrite He2 by done; simpl; lia].
      destruct Hg1 as (?&?&?&?), Hg2 as (?&?&?&?). split_and!; [congruence..|lia].
  - cbv zeta. split; [done|]. intros r' rn' Hrn'. exists rn'. split_and!; [done|apply goes_on_refl|].
    intros ->. assert (rn' = rn) as -> by congruence. rewrite Hph. simpl. lia.
Qed.

Lemma same_runs_goes_on ev r rn (c c' : Client) :
  ev <> RunStep r -> c_runs c !! r = Some rn -> c_runs c' = c_runs c ->
  exists rn', c_runs c' !! r = Some rn' /\ goes_on rn rn' /\
    (ev = RunStep r -> (steps_left (r_phase rn') <= pred (steps_left (r_phase rn)) `max` floor r rn)%nat).
Proof. intros Hev Hrn ->. exists rn. split_and!; [done|apply goes_on_refl|done]. Qed.

Lemma step_goes_on ev c r rn :
  client_inv c -> crashed c = false -> c_runs c !! r = Some rn ->
  crashed (ok_step ev c) = false /\
  exists rn', c_runs (ok_step ev c) !! r = Some rn' /\ goes_on rn rn' /\
    (ev = RunStep r -> (steps_left (r_phase rn') <= pred (steps_left (r_phase rn)) `max` floor r rn)%nat).
Proof.
  intros Hinv Hcr Hrn. unfold step. rewrite Hcr. destruct ev as [b|m| |s|r'].
  - destruct (current c); (split; [done|by eapply same_runs_goes_on]).
  - destruct (current c) as [s|]; [|split; [done|by eapply same_runs_goes_on]].
    destruct m as [sid|id goal|id| |]; simpl; try (split; [done|by eapply same_runs_goes_on]).
    + unfold startWork. case_decide; [split; [done|by eapply same_runs_goes_on]|].
      destruct (runs c !! id); [split; [done|by eapply same_runs_goes_on]|]. split; [done|].
      exists rn. cbn [c_runs]. split_and!; [by apply lookup_app_l_Some|apply goes_on_refl|done].
    + unfold cancelWork. destruct (runs c !! id) as [r0|]; [|split; [done|by eapply same_runs_goes_on]].
      split; [done|]. destruct (on_run_goes_on set_cancelled r0 c r rn ltac:(by repeat split) Hrn)
        as (rn' & H' & Hg & _). exists rn'. by split_and!.
  - destruct (current c); (split; [done|by eapply same_runs_goes_on]).
  - split; [done|by eapply same_runs_goes_on].
  - destruct (c_runs c !! r') as [rn0|] eqn:Hr0.
    + destruct (handle_goes_on r' rn0 c Hinv Hr0 Hcr) as [Hc Hall]. split; [exact Hc|].
      destruct (Hall r rn Hrn) as (rn' & H' & Hg & He). exists rn'. split_and!; [done|done|].
      intros [= ->]. by apply He.
    + split; [done|]. exists rn. split_and!; [done|apply goes_on_refl|]. intros [= ->]. congruence.
Qed.

(** How often a run is scheduled. *)
Definition is_step (r : rref) (ev : event) : bool :=
  match ev with RunStep r' => bool_decide (r' = r) | _ => false end.

Definition scheduled (r : rref) (evs : list event) : nat := length (List.filter (is_step r) evs).

Lemma step_crashed ev c : client_inv c -> crashed c = false -> crashed (ok_step ev c) = false.
Proof.
  intros Hinv Hcr. unfold step. rewrite Hcr. destruct ev as [b|m| |s|r].
  - by destruct (current c).
  - destruct (current c) as [s|]; [|done]. destruct m as [sid|id goal|id| |]; simpl; try done.
    + unfold startWork. case_decide; [done|]. by destruct (runs c !! id).
    + unfold cancelWork. by destruct (runs c !! id).
  - by destruct (current c).
  - done.
  - destruct (c_runs c !! r) as [rn|] eqn:Hr; [|done]. by apply (handle_goes_on r rn c).
Qed.

Lemma execute_crashed evs c : client_inv c -> crashed c = false -> crashed (run_events evs c) = false.
Proof.
  unfold execute. revert c. induction evs as [|ev evs IH]; intros c Hinv Hcr; [done|].
  simpl. apply IH; [by apply inv_step|by apply step_crashed].
Qed.

Lemma execute_goes_on evs c r rn :
  client_inv c -> crashed c = false -> c_runs c !! r = Some rn ->
  crashed (run_events evs c) = false /\
  exists rn', c_runs (run_events evs c) !! r = Some rn' /\ goes_on rn rn' /\
    (steps_left (r_phase rn') <= (steps_left (r_phase rn) - scheduled r evs) `max` floor r rn)%nat.
Proof.
  unfold execute. revert c rn. induction evs as [|ev evs IH]; intros c rn Hinv Hcr Hrn.
  { split; [done|]. exists rn. split_and!; [done|apply goes_on_refl|]. unfold scheduled. simpl. lia. }
  destruct (step_goes_on ev c r rn Hinv Hcr Hrn) as (Hcr1 & rn1 & H1 & (G1 & G2 & G3 & G4) & Hev).
  destruct (IH _ rn1 (inv_step ev c Hinv) Hcr1 H1) as (Hcr2 & rn2 & H2 & (K1 & K2 & K3 & K4) & Hsch).
  simpl. split; [done|]. exists rn2. split; [done|]. unfold goes_on.
  split; [split_and!; [congruence..|lia]|].
  assert (Hfl : floor r rn1 = floor r rn) by (unfold floor; by rewrite G2). rewrite Hfl in Hsch.
  unfold scheduled in *. simpl. unfold is_step at 1. destruct ev; simpl; try lia.
  case_bool_decide; simpl; [|lia]. subst. specialize (Hev eq_refl). lia.
Qed.

(** A run whose handler does not return is at its start or at the call, and owes nothing. *)
Lemma hanging_phase c r rn :
  client_inv c -> c_runs c !! r = Some rn -> returns r (r_goal rn) = false ->
  answer r (r_goal rn) = [] /\ (r_phase rn = Started \/ exists call, r_phase rn = Dispatching call).
Proof.
  intros Hinv Hrn Hret. destruct (inv_run c Hinv r rn Hrn) as (_ & Hpo & _).
  assert (Ha : answer r (r_goal rn) = []).
  { unfold returns, answer in *. destruct (DecodeToolRequest _ _); [|done]. by destruct (Dispatch _ _). }
  split; [done|]. unfold phase_ok in Hpo. destruct (r_phase rn) as [|call|call res|? ?| |]; eauto.
  - destruct Hpo as [Hdec Hd]. unfold returns in Hret. by rewrite Hdec, Hd in Hret.
  - rewrite Ha in Hpo. symmetry in Hpo. by apply app_nil in Hpo as [_ [=]].
  - done.
  - done.
Qed.

End runs.

(** ** The properties of every execution *)

Section reachable.
Context (unmarshal : bytes -> option (list (bytes * json))).
Context (marshal : gmap bytes json -> go bytes) (error_text : gerr -> bytes).
Context (reg : rref -> Registry) (cfg : Config).

Abbreviation from_new evs := (execute unmarshal marshal error_text reg cfg evs NewClient).

Lemma reachable_inv evs : client_inv unmarshal marshal error_text reg cfg (from_new evs).
Proof. apply inv_execute, inv_new. Qed.

(** A work assignment whose id is still running starts nothing, whatever stream it arrives on. *)
Lemma startWork_running s id goal c r : runs c !! id = Some r -> startWork s id goal c = c.
Proof. intros Hr. unfold startWork. case_decide; [done|]. by rewrite Hr. Qed.

(** A run that is done has no entry. *)
Lemma done_leaves c r rn :
  client_inv unmarshal marshal error_text reg cfg c -> c_runs c !! r = Some rn -> r_phase rn = Done ->
  r_phase rn = Done /\ runs c !! r_id rn <> Some r.
Proof.
  intros Hinv Hrn Hd. split; [done|]. intros Hm. apply Hinv in Hm as (rn2 & H2 & _ & Hp). congruence.
Qed.

(** A run that owes no answer has sent nothing anywhere. *)
Lemma silent c r rn s st :
  client_inv unmarshal marshal error_text reg cfg c -> c_runs c !! r = Some rn ->
  answer unmarshal marshal error_text reg r (r_goal rn) = [] -> streams c !! s = Some st -> sent_by r st = [].
Proof.
  intros Hinv Hrn Ha Hst. destruct (inv_run _ _ _ _ _ _ Hinv r rn Hrn) as (_ & _ & st' & Hst' & Hpre & _).
  destruct (decide (r_stream rn = s)) as [<-|Hne].
  - assert (st' = st) as -> by congruence.
    destruct (emitted_prefix unmarshal marshal error_text reg r rn) as [l Hl].
    rewrite Ha in Hl. symmetry in Hl. apply app_nil in Hl as [Hl _]. rewrite Hl in Hpre.
    by apply prefix_nil_inv in Hpre.
  - eapply sent_elsewhere; [done|done|]. intros rn' ?. congruence.
Qed.

End reachable.

(** C13: whatever messages, disconnections and interleavings of goroutines the edge goes through, its
    [runs] map is exactly the set of runs still at work, each under its own id, so that two live runs
    never share an id, an empty id never runs, and a duplicate assignment of a live id is ignored. *)
Theorem one_run_per_id unmarshal marshal error_text reg cfg evs :
  let c := execute unmarshal marshal error_text reg cfg evs NewClient in
  (forall id r, runs c !! id = Some r <->
     exists rn, c_runs c !! r = Some rn /\ r_id rn = id /\ r_phase rn <> Done) /\
  (forall r1 r2,
     match c_runs c !! r1, c_runs c !! r2 with
     | Some rn1, Some rn2 =>
         r_phase rn1 <> Done -> r_phase rn2 <> Done -> r_id rn1 = r_id rn2 -> r1 = r2
     | _, _ => True
     end) /\
  runs c !! [] = None /\
  (forall s id goal, is_Some (runs c !! id) -> startWork s id goal c = c).
Proof.
  intros c. assert (Hinv := reachable_inv unmarshal marshal error_text reg cfg evs : client_inv _ _ _ _ _ c).
  split_and!.
  - apply Hinv.
  - intros r1 r2. destruct (c_runs c !! r1) as [rn1|] eqn:H1; [|done].
    destruct (c_runs c !! r2) as [rn2|] eqn:H2; [|done]. intros Hp1 Hp2 Hid. by eapply live_unique.
  - destruct (runs c !! []) as [r|] eqn:Hr; [|done]. apply Hinv in Hr as (rn & Hrn & Hid & _).
    by destruct (inv_run _ _ _ _ _ _ Hinv r rn Hrn).
  - intros s id goal [r Hr]. by eapply startWork_running.
Qed.

(** C12: every run the edge ever started answers on the stream its assignment came on and nowhere else:
    what it sent there is a prefix of its answer, all of it once it is done and the stream survived,
    and an answer is one terminal event after at most one tool result. Every stream opens with the
    registration; what no run sends on it are heartbeats. *)
Theorem run_answers unmarshal marshal error_text reg cfg evs :
  let c := execute unmarshal marshal error_text reg cfg evs NewClient in
  (forall r, match c_runs c !! r with
     | Some rn =>
         let owed := map (work_event rn) (answer unmarshal marshal error_text reg r (r_goal rn)) in
         (exists st, streams c !! r_stream rn = Some st /\
            sent_by r st `prefix_of` owed /\
            (r_phase rn = Done ->
               complete (answer unmarshal marshal error_text reg r (r_goal rn)) = true /\
               (s_alive st = true -> sent_by r st = owed))) /\
         (forall s st, s <> r_stream rn -> streams c !! s = Some st -> sent_by r st = [])
     | None => True
     end) /\
  (forall s, match streams c !! s with
     | Some st =>
         s_out st = [] \/ exists out, s_out st = (None, register_message cfg) :: out /\
           Forall (fun '(who, m) => who = None -> m = MHeartbeat) out
     | None => True
     end).
Proof.
  intros c. assert (Hinv := reachable_inv unmarshal marshal error_text reg cfg evs : client_inv _ _ _ _ _ c).
  split.
  - intros r. destruct (c_runs c !! r) as [rn|] eqn:Hrn; [|done]. cbv zeta.
    destruct (inv_run _ _ _ _ _ _ Hinv r rn Hrn) as (_ & Hpo & st & Hst & Hpre & Hal). split.
    + exists st. split_and!; [done| |].
      * etrans; [exact Hpre|]. destruct (emitted_prefix unmarshal marshal error_text reg r rn) as [l ->].
        rewrite map_app. by apply prefix_app_r.
      * intros Hd. unfold phase_ok, emitted in *. rewrite Hd in *. split; [by apply answer_complete|done].
    + intros s st' Hs Hst'. eapply sent_elsewhere; [done|done|]. intros rn' ?. congruence.
  - intros s. destruct (streams c !! s) as [st|] eqn:Hst; [|done]. by eapply inv_first.
Qed.

(** C14: a run ends unless its own handler never returns. Take the edge after any events, then any more
    events (other runs, cancellations, lost streams, reconnections) among which the run is scheduled five
    times. When no handler panics, the edge has not crashed; if the run's goal is no tool call, or the
    handler it calls returns, the run is done and its entry has left the [runs] map, so that its id can
    be assigned again, whatever the handlers of other runs do, returning or not. If its handler never
    returns, the goroutine stays in the call: it has sent nothing, and its entry holds its id for good, so
    that the same work assigned again is ignored. *)
Theorem run_finishes unmarshal marshal error_text reg cfg evs more r rn
    (Hpanic : forall r call, Dispatch (reg r) call <> Panic)
    (Hrn : c_runs (execute unmarshal marshal error_text reg cfg evs NewClient) !! r = Some rn)
    (Hsched : (5 <= scheduled r more)%nat) :
  let c' := execute unmarshal marshal error_text reg cfg (evs ++ more) NewClient in
  crashed c' = false /\
  exists rn', c_runs c' !! r = Some rn' /\ r_id rn' = r_id rn /\ r_goal rn' = r_goal rn /\
  match DecodeToolRequest unmarshal (r_goal rn) with
  | Some call =>
      match Dispatch (reg r) call with
      | NoFuel =>
          r_phase rn' = Dispatching call /\ runs c' !! r_id rn = Some r /\
          (forall s st, streams c' !! s = Some st -> sent_by r st = []) /\
          (forall s goal, startWork s (r_id rn) goal c' = c')
      | _ => r_phase rn' = Done /\ runs c' !! r_id rn <> Some r
      end
  | None => r_phase rn' = Done /\ runs c' !! r_id rn <> Some r
  end.
Proof.
  intros c'. set (c := execute unmarshal marshal error_text reg cfg evs NewClient) in *.
  assert (Hc' : c' = execute unmarshal marshal error_text reg cfg more c) by (unfold c', execute; apply foldl_app).
  assert (Hinv := reachable_inv unmarshal marshal error_text reg cfg evs : client_inv _ _ _ _ _ c).
  assert (Hinv' := reachable_inv unmarshal marshal error_text reg cfg (evs ++ more) : client_inv _ _ _ _ _ c').
  assert (Hcr : crashed c = false) by (apply execute_crashed; [done|apply inv_new|done]).
  destruct (execute_goes_on unmarshal marshal error_text reg cfg Hpanic more c r rn Hinv Hcr Hrn)
    as (Hcrash & rn' & H' & (Hid & Hgoal & _) & Hl).
  rewrite <- Hc' in Hcrash, H'. split; [done|]. exists rn'. split_and!; [done..|].
  assert (H5 : (steps_left (r_phase rn) <= 5)%nat) by (destruct (r_phase rn); simpl; lia).
  assert (Hend : returns unmarshal reg r (r_goal rn) = true -> r_phase rn' = Done /\ runs c' !! r_id rn <> Some r).
  { intros Hret. rewrite <- Hid. apply (done_leaves _ _ _ _ _ c' r rn' Hinv' H').
    unfold floor in Hl. rewrite Hret in Hl. destruct (r_phase rn'); simpl in Hl; try lia. done. }
  assert (Hhang := hanging_phase _ _ _ _ _ c' r rn' Hinv' H'). rewrite Hgoal in Hhang.
  unfold returns in Hend, Hhang. unfold floor, returns in Hl.
  destruct (DecodeToolRequest unmarshal (r_goal rn)) as [call|] eqn:Hdec; [|by apply Hend].
  destruct (Dispatch (reg r) call) eqn:Hd; [by apply Hend..|]. destruct (Hhang eq_refl) as [Ha Hph].
  assert (Hp : r_phase rn' = Dispatching call).
  { destruct (inv_run _ _ _ _ _ _ Hinv' r rn' H') as (_ & Hpo & _). unfold phase_ok in Hpo.
    destruct Hph as [Hph|[call' Hph]]; rewrite Hph in *; [simpl in Hl; lia|]. congruence. }
  assert (Hmap : runs c' !! r_id rn = Some r) by (apply Hinv'; exists rn'; by rewrite Hp).
  split_and!; [done|done| |].
  - intros s st Hst. rewrite <- Hgoal in Ha. exact (silent _ _ _ _ _ c' r rn' s st Hinv' H' Ha Hst).
  - intros s goal. by eapply startWork_running.
Qed.

Lemma run_finishes_witness :
  let reg := fun r : rref => if decide (r = 0%nat) then mkRegistry {[str "hang" := fun _ => NoFuel]} else NewRegistry in
  let unmarshal := fun _ : bytes => Some [(envelopeKey, JNum 1 0); (str "name", JStr (str "hang"))] in
  let marshal := fun _ : gmap bytes json => Ok (str "{}") in
  let cfg := mkConfig [] (str "t1") (str "e1") [] false true 1 [] [] [] [] [] in
  let text := fun _ : gerr => [] : bytes in
  let goal := str "{" ++ envelopeKey in
  let evs := [Connected true; Received (GWorkAssignment (str "w1") goal); Received (GWorkAssignment (str "w2") goal)] in
  let more := [RunStep 0; RunStep 1; RunStep 0; RunStep 1; RecvEnded; RunStep 0; Connected true; RunStep 1; RunStep 0;
               RunStep 1; RunStep 0; RunStep 1]%nat in
  let c' := execute unmarshal marshal text reg cfg (evs ++ more) NewClient in
  crashed c' = false /\
  (exists rn, c_runs c' !! 0%nat = Some rn /\ r_phase rn = Dispatching (mkCall (str "hang") []) /\
     runs c' !! str "w1" = Some 0%nat) /\
  (exists rn, c_runs c' !! 1%nat = Some rn /\ r_phase rn = Done /\ runs c' !! str "w2" <> Some 1%nat).
Proof.
  intros.
  assert (Hno : forall r call, Dispatch (reg r) call <> Panic).
  { intros r [name args]. unfold Dispatch, reg. case_decide; cbn [handlers NewRegistry c_Name Arguments];
      [|by rewrite lookup_empty]. destruct (decide (name = str "hang")) as [->|].
    - by rewrite lookup_singleton_eq.
    - by rewrite lookup_singleton_ne. }
  destruct (run_finishes unmarshal marshal text reg cfg evs more 0%nat (mkRun (str "w1") goal 0%nat Started false) Hno)
    as (Hc & rn0 & H0 & _ & _ & Hr0); [reflexivity|apply Nat.leb_le; vm_compute; reflexivity|].
  destruct (run_finishes unmarshal marshal text reg cfg evs more 1%nat (mkRun (str "w2") goal 0%nat Started false) Hno)
    as (_ & rn1 & H1 & _ & _ & Hr1); [reflexivity|apply Nat.leb_le; vm_compute; reflexivity|].
  split; [exact Hc|]. split.
  - exists rn0. split; [exact H0|]. exact (conj (proj1 Hr0) (proj1 (proj2 Hr0))).
  - exists rn1. split; [exact H1|]. exact Hr1.
Defined.

(** A run outlives its stream, and its id stays taken: the same work assigned again on the next stream is
    ignored, the answer goes to the stream that is gone, and the gateway never hears of it. *)
Lemma redispatch_unanswered :
  let cfg := mkConfig [] (str "t1") (str "e1") [] false true 1 [] [] [] [] [] in
  let c := execute (fun _ => None) (fun _ => Ok (str "{}")) (fun _ => []) (fun _ => NewRegistry) cfg
    [Connected true; Received (GWorkAssignment (str "w1") (str "x")); RunStep 0%nat; RecvEnded;
     Connected true; Received (GWorkAssignment (str "w1") (str "x")); RunStep 0%nat; RunStep 0%nat] NewClient in
  map s_out (streams c) = [[(None, register_message cfg)]; [(None, register_message cfg)]] /\
  map r_phase (c_runs c) = [Done].
Proof. vm_compute. by split. Qed.
