(* ===== verification/EdgeCalls.v ===== *)
(** * A tool call, end to end

    The edge's runs (EdgeRuns), the envelope and the dispatch (Edge) and the AWS tools it registers
    (CloudWatch) put together: what the control plane assigned and what it gets back. *)
From S2P Require Import Prelude Go GoStr Edge EdgeProps Ecs CloudWatch CloudWatchProps Transport EdgeRuns EdgeRunsProps.
Open Scope Z_scope.

Section call.
Context `{Unicode} (out_of_range : Z -> Z -> Z) {AWSConfig : Type}.
Context (LoadDefaultConfig : option bytes -> go AWSConfig).
Context (AssumeRole : AWSConfig -> bytes -> bytes -> option bytes -> AWSConfig).
Context (GetMetricData : AWSConfig -> nat -> GetMetricDataInput -> go GetMetricDataOutput).
Context (DescribeServices : AWSConfig -> bytes -> bytes -> go (option (list Service))).
Context (DescribeTargetGroups : AWSConfig -> list bytes -> go (option (list (list bytes)))).
Context (ListTasks : AWSConfig -> ListTasksInput -> go (option (list bytes))).
Context (DescribeTasks : AWSConfig -> bytes -> list bytes -> go (option (list Task))).
Context (StartQuery : AWSConfig -> StartQueryInput -> go (option bytes)).
Context (GetQueryResults : AWSConfig -> nat -> bytes -> go QueryResults).
Context (checked paused : nat -> Z) (cancelled : nat -> bool).
Context (Environ : list bytes) (Retrieve : go Credentials).
Context (Run : bytes -> list bytes -> list bytes -> process).
Context (enc : list (bytes * json) -> go bytes) (unmarshal : bytes -> option (list (bytes * json))).
Context (marshal : gmap bytes json -> go bytes) (error_text : gerr -> bytes) (cfg : Config).

Definition cli_tool : bytes := str "aws_readonly_cli".

(** The registry the edge's main builds. *)
Definition edge_registry (opts : Options) (fuel : nat) (now now2 started : Z) : go Registry :=
  awsexec_Register out_of_range LoadDefaultConfig AssumeRole GetMetricData DescribeServices
    DescribeTargetGroups ListTasks DescribeTasks StartQuery GetQueryResults checked paused cancelled
    Environ Retrieve Run NewRegistry opts fuel now now2 started.

(** A call of the CLI's tool is answered with what the executor returns, untouched. *)
Lemma dispatch_cli opts fuel now now2 started registry args :
  edge_registry opts fuel now now2 started = Ok registry ->
  Dispatch registry (mkCall cli_tool args) = Ok (RunReadOnlyCLI Environ Retrieve Run (withDefaults opts) args).1.
Proof.
  unfold edge_registry, awsexec_Register, Register. rewrite !decide_False by done. cbn [gbind handlers NewRegistry].
  intros [= <-]. unfold Dispatch. cbn [handlers c_Name Arguments].
  rewrite lookup_insert_ne by done. rewrite lookup_insert_ne by done. rewrite lookup_insert_eq.
  unfold handler. cbn [gbind from_option id].
  destruct (cli_reports Environ Retrieve Run (withDefaults opts) args) as [[b Hok] Ht].
  unfold set_default. unfold id. by rewrite Ht, Hok.
Qed.

(** Filling in the defaults again changes nothing the outcome depends on. *)
Lemma outcome_withDefaults opts args res started :
  cli_outcome Environ Retrieve Run (withDefaults opts) args res started ->
  cli_outcome Environ Retrieve Run opts args res started.
Proof.
  assert (Hp : forall n d, 0 < d -> (if positive n d <=? 0 then d else positive n d) = if n <=? 0 then d else n).
  { intros n d Hd. unfold positive. destruct (Z.leb_spec n 0); [by rewrite (proj2 (Z.leb_gt d 0))|].
    by rewrite (proj2 (Z.leb_gt n 0)). }
  assert (Hr : forall p, reports_process (withDefaults opts) p res -> reports_process opts p res).
  { intros p [H1 H2 H3 H4 H5]. cbn [MaxStdout MaxStderr withDefaults] in H4, H5.
    rewrite Hp in H4, H5 by lia. by split. }
  unfold cli_outcome. cbn [Region AssumeRoleARN AWSBinary withDefaults].
  destruct started as [[[bin argv] env]|]; [|done]. intros (Hro & Hbin & Henv & Hres). split; [done|]. split.
  - rewrite Hbin. destruct (decide (AWSBinary opts = [])) as [|Hb]; [done|]. by rewrite decide_False.
  - split; [done|]. destruct (exit _) as [[?|?]|]; [by apply Hr| |by apply Hr].
    destruct (timed_out _); [by apply Hr|done].
Qed.

(** What a run that is done has sent, on a stream that survived. *)
Lemma run_sent reg evs r rn st :
  let c := execute unmarshal marshal error_text reg cfg evs NewClient in
  c_runs c !! r = Some rn -> r_phase rn = Done -> streams c !! r_stream rn = Some st -> s_alive st = true ->
  sent_by r st = map (work_event rn) (answer unmarshal marshal error_text reg r (r_goal rn)).
Proof.
  intros c Hrn Hd Hst Hal.
  assert (Hinv := reachable_inv unmarshal marshal error_text reg cfg evs : client_inv _ _ _ _ _ c).
  destruct (inv_run _ _ _ _ _ _ Hinv r rn Hrn) as (_ & _ & st' & Hst' & _ & Hsent).
  rewrite Hst in Hst'. injection Hst' as <-. rewrite (Hsent Hal). unfold emitted. by rewrite Hd.
Qed.


End call.

#[local] Instance same_case : Unicode := {| lower_runes := fun s => s |}.

Module Example.

Definition args : list (bytes * json) := [(str "command", JStr (str "aws s3 ls"))].
Definition goal : bytes := str "{" ++ envelopeKey ++ str "}".
Definition enc (_ : list (bytes * json)) : go bytes := Ok goal.
Definition unmarshal (_ : bytes) : option (list (bytes * json)) := Some (tool_payload cli_tool args).
Definition marshal (_ : gmap bytes json) : go bytes := Ok (str "{}").
Definition opts : Options := mkOptions [] [] [] [] 0 0 0 0 0 0.
Definition ran (bin : bytes) (argv env : list bytes) : process := mkProcess (Some (inl 0)) false (str "bucket") [].
Definition cfg : Config := mkConfig [] (str "t1") (str "e1") [] false true 1 [] [] [] [] [].
Definition registry : Registry :=
  match edge_registry (fun _ _ => 0) (fun _ => Ok tt) (fun _ _ _ _ => tt) (fun _ _ _ => Err EEOF) (fun _ _ _ => Err EEOF)
          (fun _ _ => Err EEOF) (fun _ _ => Err EEOF) (fun _ _ _ => Err EEOF) (fun _ _ => Err EEOF)
          (fun _ _ _ => Err EEOF) (fun _ => 0) (fun _ => 0) (fun _ => false) [] (Err EEOF) ran opts 0 0 0 0 with
  | Ok r => r
  | _ => NewRegistry
  end.
Definition evs : list event :=
  [Connected true; Received (GWorkAssignment (str "w1") goal); Received GPing; RunStep 0; RunStep 0; RunStep 0;
   RunStep 0; RunStep 0].
Definition reached : Client := execute unmarshal marshal (fun _ => []) (fun _ => registry) cfg evs NewClient.

End Example.

