(* ===== verification/Cmd.v ===== *)
(** * The commands of the edge and of the gateway (cmd/skybridge-edge, cmd/skybridge-gateway) and the
    accept loops they start (internal/gateway/gateway.go: ListenAgents, ListenClients)

    A command is what it builds from its configuration and starts; [Fatal] ends the process. The agent's
    command is in AgentRun. *)
From S2P Require Import Prelude Go GoStr Transport Config Agent AgentRun Edge Gateway.
Open Scope Z_scope.

(** ** The accept loops *)

(** On the outcomes of [Accept], each with whether the context is done by then: the connections served,
    each in its goroutine, and the return once there is one. *)
Fixpoint accepting {A} (accepts : list (go A * bool)) : list A * option (go unit) :=
  match accepts with
  | [] => ([], None)
  | (Ok c, _) :: rest => let '(cs, r) := accepting rest in (c :: cs, r)
  | (_, true) :: _ => ([], Some (Ok tt))
  | (Err e, false) :: _ => ([], Some (Err e))
  | (_, false) :: _ => ([], Some Panic)
  end.

(** An agent's connection begins with its first control message. *)
Definition ListenAgents (accepts : list (go (go Tunnel.Control) * bool)) : list event * option (go unit) :=
  let '(firsts, r) := accepting accepts in (map AgentFirst firsts, r).

(** A client's connection is served towards the listener's target. *)
Definition ListenClients {A} (target : bytes) (accepts : list (go A * bool)) : list (A * bytes) * option (go unit) :=
  let '(clients, r) := accepting accepts in (map (fun c => (c, target)) clients, r).

(** ** The gateway *)

Record gateway_started := mkStarted {
  gs_gateway : Gateway.Gateway; gs_store : option HTTPStore; gs_clients : list ClientListener }.

Definition missing_listener : gerr := EFmt "client listener missing addr or target: %+v" [].

(** The loop over the configured client listeners; [listen] is [net.Listen]. *)
Fixpoint start_clients (listen : bytes -> go unit) (cls : list ClientListener) : go (list ClientListener) :=
  match cls with
  | [] => Ok []
  | cl :: rest =>
      if decide (l_Addr cl = [] \/ l_Target cl = []) then Err missing_listener
      else
        let? _ := listen (l_Addr cl) in
        let? started := start_clients listen rest in
        Ok (cl :: started)
  end.

Definition gateway_main (cfg : Config.Gateway) (listen : bytes -> go unit) : go gateway_started :=
  let gw := New (g_AuthToken cfg) in
  let store :=
    if decide (g_ControlPlaneURL cfg = []) then None
    else Some (NewHTTPStore (g_ControlPlaneURL cfg) (g_SessionPath cfg) (g_ControlPlaneToken cfg)) in
  let? _ := listen (g_AgentListen cfg) in
  let? clients := start_clients listen (g_Clients cfg) in
  Ok (mkStarted gw store clients).

(** The wait: [None] when the context is done, or the first listener's return. *)
Definition gateway_wait (first : option (go unit)) (ctx_done : bool) : go unit :=
  match first with
  | None => Ok tt
  | Some (Err e) => if errors_Is e ENetClosed || ctx_done then Ok tt else Err e
  | Some _ => Ok tt
  end.

(** ** The edge *)

Definition edge_options (cfg : Config.Edge) : Options :=
  mkOptions (e_AWSRegion cfg) (e_AWSAssumeRoleARN cfg) (e_AWSExternalID cfg) (e_AWSBinary cfg) 0 0 0 0 0 0.

Definition edge_client (cfg : Config.Edge) : Transport.Config :=
  Transport.mkConfig (e_GatewayAddr cfg) (e_TenantID cfg) (e_EdgeID cfg) (e_Token cfg) (e_Insecure cfg) true 0
    (e_CABundle cfg) (e_TLSDir cfg) (e_EnrollTarget cfg) (e_EnrollToken cfg) (e_TrustDomain cfg).

(** What the process does: the wire proxy it starts, in tunnel mode or not, and the client that calls
    home with the tools' options. *)
Inductive edge_process :=
| EdgeFatal
| WireOnly (tunnel : bool)
| CallHome (tunnel : option bool) (client : Transport.Config) (tools : Options).

Definition edge_main (cfg : Config.Edge) : edge_process :=
  let wire := if WireProxyEnabled cfg
              then Some (bool_decide (Mode (e_WireProxy cfg) = ModeTunnel)) else None in
  if decide (e_GatewayAddr cfg = []) then
    match wire with Some tunnel => WireOnly tunnel | None => EdgeFatal end
  else CallHome wire (Transport.New (edge_client cfg)) (withDefaults (edge_options cfg)).

(** ** How a process ends

    The exit status of a process, [None] while it runs: 0 when main returns, 1 after [log.Fatal], 2 when any
    of its goroutines panics. [ctx_done] is whether an interrupt or a SIGTERM has been received by then. *)
Definition main_exit (ret : option (go unit)) (ctx_done : bool) : option Z :=
  match ret with
  | None | Some NoFuel => None
  | Some (Ok _) => Some 0
  | Some (Err _) => Some (if ctx_done then 0 else 1)
  | Some Panic => Some 2
  end.

(** A session's goroutine that panics, in the upgrade of its upstream or in the engine. *)
Definition session_panics (v : Agent.served) : bool :=
  match sv_upgraded v, sv_result v with
  | Some (Panic, _), _ | _, Some (Panic, _) => true
  | _, _ => false
  end.

(** The sessions an agent's process started, in order: those of its clients, or those of the streams of its
    connections to the gateway. *)
Definition agent_sessions (c : AgentRun.command) : list Agent.served :=
  match c with
  | AgentRun.Tunneling (conns, _) => concat (map tc_streams conns)
  | AgentRun.Listening (sessions, _) => sessions
  end.

Definition agent_return (c : AgentRun.command) : option (go unit) :=
  match c with AgentRun.Tunneling (_, ret) => ret | AgentRun.Listening (_, ret) => ret end.

(** A goroutine has panicked by now: a session's, [ended] telling which sessions have come to their end,
    or the one that serves a connection to the gateway. *)
Definition agent_panics (c : AgentRun.command) (ended : list bool) : bool :=
  existsb (fun '(v, e) => session_panics v && e) (zip (agent_sessions c) ended) ||
  match c with
  | AgentRun.Tunneling (conns, _) =>
      existsb (fun tc => match tc_phase tc with Ended Panic => true | _ => false end) conns
  | AgentRun.Listening _ => false
  end.

Definition agent_exit (c : AgentRun.command) (ended : list bool) (ctx_done : bool) : option Z :=
  if agent_panics c ended then Some 2 else main_exit (agent_return c) ctx_done.

(** The return of the wire proxy is logged; main waits for the signal, or for the client that calls home.
    [crashed] is whether a run's handler has panicked. *)
Definition edge_exit (p : edge_process) (wire : option (AgentRun.command * list bool)) (crashed : bool)
    (run : option (go unit)) (ctx_done : bool) : option Z :=
  let wire_panics :=
    match wire with
    | Some (c, ended) => agent_panics c ended || match agent_return c with Some Panic => true | _ => false end
    | None => false
    end in
  if wire_panics || crashed then Some 2
  else
    match p with
    | EdgeFatal => Some 1
    | WireOnly _ => if ctx_done then Some 0 else None
    | CallHome _ _ _ => main_exit run ctx_done
    end.

(** [first] is the first listener to return, if one has; [panicked] whether a goroutine of a connection has
    panicked. *)
Definition gateway_exit (started : go gateway_started) (first : option (go unit)) (panicked ctx_done : bool)
    : option Z :=
  if panicked then Some 2
  else
    match started with
    | Ok _ =>
        match first with
        | None | Some NoFuel => if ctx_done then Some 0 else None
        | Some Panic => Some 2
        | Some _ => main_exit (Some (gateway_wait first ctx_done)) ctx_done
        end
    | Err _ => Some 1
    | Panic => Some 2
    | NoFuel => None
    end.
