(* ===== verification/CmdProps.v ===== *)
(** * The commands start what their configuration describes *)
From S2P Require Import Prelude Go GoStr GoIO Transport Gateway Edge Codec Mask Wire Tunnel Config AgentTLS AgentSources Agent AgentRun AgentProps Cmd.
Open Scope Z_scope.

Lemma start_clients_ok listen cls :
  match start_clients listen cls with
  | Ok started => started = cls /\
      Forall (fun cl => l_Addr cl <> [] /\ l_Target cl <> [] /\ listen (l_Addr cl) = Ok tt) cls
  | Err e => Exists (fun cl =>
      (l_Addr cl = [] \/ l_Target cl = []) /\ e = missing_listener \/ listen (l_Addr cl) = Err e) cls
  | _ => Exists (fun cl => ~ returns (listen (l_Addr cl))) cls
  end.
Proof.
  induction cls as [|cl rest IH]; simpl; [by split; [|constructor]|].
  case_decide as Hm; [by apply Exists_cons; left; left|]. destruct (listen (l_Addr cl)) as [[]|e| |] eqn:Hl; simpl;
    [|apply Exists_cons; left; by right|apply Exists_cons; left; cbv beta; rewrite Hl; by intros []..].
  destruct (start_clients listen rest) as [started|e| |]; simpl; [|by right..].
  destruct IH as [-> Hf]. split; [done|]. constructor; [|done]. naive_solver.
Qed.

(** The accept loop serves every connection up to the first failure, and returns quietly only when the
    context is done. *)
Lemma accepting_spec {A} (accepts : list (go A * bool)) :
  let '(cs, r) := accepting accepts in
  map Ok cs `prefix_of` map fst accepts /\
  match r with
  | None => length cs = length accepts
  | Some o => exists last done, accepts !! length cs = Some (last, done) /\ is_ok last = false /\
      (o = Ok tt <-> done = true)
  end.
Proof.
  induction accepts as [|[[c|e| |] done] rest IH]; simpl; [by split|..].
  - destruct (accepting rest) as [cs r]. destruct IH as [Hp Hr]. split; [by apply prefix_cons|].
    destruct r; [done|]. simpl. by rewrite Hr.
  - destruct done; (split; [apply prefix_nil|]; eexists _, _; by repeat split).
  - destruct done; (split; [apply prefix_nil|]; eexists _, _; by repeat split).
  - destruct done; (split; [apply prefix_nil|]; eexists _, _; by repeat split).
Qed.

(** ** Exit statuses *)

Lemma main_exit_one ret d : main_exit ret d = Some 1 <-> d = false /\ exists e, ret = Some (Err e).
Proof. destruct ret as [[| | |]|], d; simpl; naive_solver. Qed.

Lemma main_exit_signalled ret k : main_exit ret true = Some k -> k = 0 \/ k = 2.
Proof. destruct ret as [[| | |]|]; simpl; naive_solver. Qed.

Lemma agent_exit_one c ended d :
  agent_exit c ended d = Some 1 <-> agent_panics c ended = false /\ d = false /\ exists e, agent_return c = Some (Err e).
Proof.
  unfold agent_exit. destruct (agent_panics c ended); [split; [done|by intros [? _]]|].
  rewrite main_exit_one. tauto.
Qed.

(** Which goroutines have panicked. *)
Definition died (c : AgentRun.command) (ended : list bool) : Prop :=
  (exists i v, agent_sessions c !! i = Some v /\ ended !! i = Some true /\ session_panics v = true) \/
  match c with
  | Tunneling (conns, _) => exists tc, tc ∈ conns /\ tc_phase tc = Ended Panic
  | Listening _ => False
  end.

Lemma agent_panics_died c ended : agent_panics c ended = true <-> died c ended.
Proof.
  unfold agent_panics, died. rewrite orb_true_iff, existsb_exists. f_equiv.
  - split.
    + intros ([v e] & Hin%list_elem_of_In & [Hp He]%andb_prop). apply list_elem_of_lookup_1 in Hin as [i Hi].
      apply lookup_zip_Some in Hi as [Hv Hb]. exists i, v. by rewrite He in Hb.
    + intros (i & v & Hv & He & Hp). exists (v, true). split; [|by rewrite Hp].
      apply list_elem_of_In, (list_elem_of_lookup_2 _ i), lookup_zip_Some. done.
  - destruct c as [[conns r]|l]; [|done]. rewrite existsb_exists. f_equiv. intros tc.
    rewrite <- list_elem_of_In. destruct (tc_phase tc) as [| | |[]]; naive_solver.
Qed.

Lemma gateway_exit_one started first panicked d :
  gateway_exit started first panicked d = Some 1 <->
  panicked = false /\
  ((exists e, started = Err e) \/
   is_ok started = true /\ d = false /\ exists e, first = Some (Err e) /\ errors_Is e ENetClosed = false).
Proof.
  unfold gateway_exit. destruct panicked; [split; [done|by intros [? _]]|].
  destruct started as [s|e| |]; cbn [is_ok]; [|naive_solver..].
  destruct first as [[u|e| |]|]; cbn [main_exit gateway_wait]; try (destruct d; naive_solver).
  destruct (errors_Is e ENetClosed) eqn:Hn, d; cbn [orb].
  all: split; [intros [=]|by intros [_ [[e0 [=]]|(_ & Hd & e0 & [= <-] & Hn0)]]; congruence].
  split; [done|]. right. split_and!; [done|done|by exists e].
Qed.

(** An edge that only runs the wire proxy outlives it: without a signal it waits, whatever error the proxy
    refused to start with or ended with. *)
Lemma wire_only_waits tunnel e run :
  edge_exit (WireOnly tunnel) (Some (Listening ([], Some (Err e)), [])) false run false = None /\
  edge_exit (WireOnly tunnel) (Some (Tunneling ([], Some (Err e)), [])) false run false = None.
Proof. done. Qed.

(** ** The loops of the modes end when they are told to *)

Section loops.
Context `{Unicode} `{Hashes} {Cert Pool KeyPair : Type}.
Context (chain_ok : option Pool -> list Cert -> bool) (name_ok : bytes -> Cert -> bool).
Context (dial : bytes -> go (peer Cert)).

Lemma accept_loop_quiet (l : listener (Pool := Pool) (KeyPair := KeyPair)) accepts ss o :
  accept_loop chain_ok name_ok dial l accepts = (ss, Some o) -> o = Ok tt /\ exists a, a ∈ accepts /\ a.2 = true.
Proof.
  revert ss. induction accepts as [|[a d] accepts IH]; intros ss; [done|]. cbn [accept_loop].
  destruct a as [[client w]|e| |].
  { destruct (accept_loop _ _ _ l accepts) as [ss' r]. intros [= _ ->].
    destruct (IH _ eq_refl) as (? & a & ? & ?). split; [done|]. exists a. set_solver. }
  all: destruct d; [intros [= _ <-]; split; [done|]; eexists; split; [apply list_elem_of_here|done]|].
  all: intros Hr; destruct (IH _ Hr) as (? & a & ? & ?); (split; [done|]); exists a; set_solver.
Qed.

End loops.

Section commands.
Context `{Unicode} `{Hashes} {Cert Pool KeyPair span : Type}.
Context (X509KeyPair : bytes -> bytes -> go KeyPair) (std : selfSigning).
Context (AppendCertsFromPEM : bytes -> option Pool) (SystemCertPool : go Pool).
Context (Do : http_request -> go (Z * rd)).
Context (marshal_exchange : exchangeRequest -> go bytes).
Context (unmarshal_exchange : bytes -> exchangeResponse * go unit).
Context (dial : bytes -> go (peer Cert)).

(** The refusals of the two modes for want of an address. *)
Definition no_address : list gerr :=
  [EFmt "set SKYBRIDGE_UPSTREAM to the database address (host:port)" [];
   EFmt "set SKYBRIDGE_GATEWAY to the gateway address (host:port)" [];
   EFmt "set SKYBRIDGE_TARGETS to a JSON array of {name,addr,db_type}" []].

(** The edge's process: the wire proxy is started in exactly the cases in which its mode has the
    addresses it needs: without them either mode would refuse at once, and with them it starts as soon as
    its TLS settings can be built; the process refuses to start only when there is nothing to do; and what
    calls home has the configured identity, reconnects, and has a positive cap on its pauses. *)
Theorem edge_process_starts cfg :
  let w := e_WireProxy cfg in
  let tunnel := RunTunnel_start (Cert:=Cert) X509KeyPair std AppendCertsFromPEM SystemCertPool Do marshal_exchange
                  unmarshal_exchange dial w in
  let listener := RunListener_start X509KeyPair std AppendCertsFromPEM SystemCertPool Do marshal_exchange
                    unmarshal_exchange w (Ok tt) in
  let settings := is_ok (buildClientTLSConfig X509KeyPair std w) &&
                  is_ok (buildUpstreamTLSPolicy AppendCertsFromPEM SystemCertPool w) in
  (if WireProxyEnabled cfg
   then if decide (Mode w = ModeTunnel) then settings = true -> is_ok tunnel = true
        else settings = true -> is_ok (gbind (buildClientTLSConfig X509KeyPair std w) (fun c => engineFactory (Pool:=Pool) c (DBType w))) = true ->
             is_ok listener = true
   else exists e, e ∈ no_address /\ if decide (Mode w = ModeTunnel) then tunnel = Err e else listener = Err e) /\
  (edge_main cfg = EdgeFatal <-> e_GatewayAddr cfg = [] /\ WireProxyEnabled cfg = false) /\
  match edge_main cfg with
  | CallHome wire client tools =>
      (is_Some wire <-> WireProxyEnabled cfg = true) /\ Transport.Reconnect client = true /\
      Transport.Target client = e_GatewayAddr cfg /\ Transport.TenantID client = e_TenantID cfg /\
      Transport.CABundlePEM client = e_CABundle cfg /\ 0 < Transport.MaxBackoff client
  | WireOnly t => WireProxyEnabled cfg = true /\ (t = true <-> Mode w = ModeTunnel)
  | EdgeFatal => True
  end.
Proof.
  intros w tunnel listener settings. split; [|split].
  - unfold WireProxyEnabled. fold w. subst tunnel listener settings. unfold RunTunnel_start, RunListener_start, no_address.
    destruct (decide (Mode w = ModeTunnel)) as [Hm|Hm].
    + destruct (decide (GatewayAddr w = [])) as [Hg|Hg];
        [rewrite (bool_decide_eq_true_2 _ Hg)|rewrite (bool_decide_eq_false_2 _ Hg)]; simpl; [eexists; split; [|done]; set_solver|].
      destruct (nonempty (Targets w)); simpl; [|eexists; split; [|done]; set_solver].
      destruct (buildClientTLSConfig _ _ _); simpl; try done. by destruct (buildUpstreamTLSPolicy _ _ _).
    + destruct (decide (UpstreamAddr w = [])) as [Hg|Hg];
        [rewrite (bool_decide_eq_true_2 _ Hg)|rewrite (bool_decide_eq_false_2 _ Hg)]; simpl; [eexists; split; [|done]; set_solver|].
      destruct (buildClientTLSConfig _ _ _) as [c| | |]; simpl; try done.
      destruct (engineFactory c (DBType w)); simpl; try done. by destruct (buildUpstreamTLSPolicy _ _ _).
  - unfold edge_main. destruct (WireProxyEnabled cfg); case_decide; naive_solver.
  - unfold edge_main. destruct (WireProxyEnabled cfg); case_decide; try done.
    + split; [done|]. apply bool_decide_eq_true.
Qed.

Section exits.
Context (chain_ok : option Pool -> list Cert -> bool) (name_ok : bytes -> Cert -> bool).
Context {Key URL : Type} (GenerateKey : go Key) (MarshalPKCS8PrivateKey : Key -> go bytes).
Context (url_Parse : bytes -> go URL) (CreateCertificateRequest : bytes -> URL -> Key -> go bytes).
Context (EncodePEM : bytes -> bytes -> bytes) (write_fails : bytes -> option (gerr * option bytes)).
Context (Join : bytes -> bytes -> bytes) (NotAfter : bytes -> option Z).
Context (Enroll : bytes -> tlsChannel (Pool:=Pool) (KeyPair:=KeyPair) -> EnrollRequest -> go (bytes * bytes)).
Context (NewClient : bytes -> credentials Pool KeyPair -> go unit).

(** An agent returns an error exactly when its start does, and otherwise only when it is told to. *)
Lemma agent_ends (cfg : Config.Agent) (listen : go unit) (accepts : list (go (conn * Agent.run) * bool))
    (turns : list AgentRun.turn) :
  let agent := agent_main chain_ok name_ok X509KeyPair std AppendCertsFromPEM SystemCertPool Do marshal_exchange
                 unmarshal_exchange dial cfg listen accepts turns in
  let tunnel := RunTunnel_start (Cert := Cert) X509KeyPair std AppendCertsFromPEM SystemCertPool Do marshal_exchange
                  unmarshal_exchange dial cfg in
  let listener := RunListener_start X509KeyPair std AppendCertsFromPEM SystemCertPool Do marshal_exchange
                    unmarshal_exchange cfg listen in
  ((if decide (Mode cfg = ModeTunnel) then exists e, tunnel = Err e else exists e, listener = Err e) <->
   exists e, agent_return agent = Some (Err e)) /\
  ((if decide (Mode cfg = ModeTunnel) then is_ok tunnel = true else is_ok listener = true) ->
   forall o, agent_return agent = Some o ->
     (exists a, a ∈ accepts /\ a.2 = true) \/ exists t, t ∈ turns /\ (t_done t = true \/ t_slept t = false)).
Proof.
  intros agent tunnel listener. unfold agent, tunnel, listener, agent_main, RunTunnel, RunListener. case_decide.
  - destruct (RunTunnel_start _ _ _ _ _ _ _ _ cfg) as [deps|e| |]; cbn [agent_return is_ok];
      [|split; [split; by intros [e' [= <-]]; exists e|done]|split; [naive_solver|done]..].
    destruct (tunnel_loop _ _ _ _ _) as [cs r] eqn:Hl. cbn [agent_return]. split.
    + split; [by intros [? ?]|]. intros [e ->]. by apply tunnel_loop_ends in Hl as [? _].
    + intros _ o ->. right. by apply tunnel_loop_ends in Hl as [_ ?].
  - destruct (RunListener_start _ _ _ _ _ _ _ cfg listen) as [l|e| |]; cbn [agent_return is_ok];
      [|split; [split; by intros [e' [= <-]]; exists e|done]|split; [naive_solver|done]..].
    destruct (accept_loop _ _ _ _ _) as [ss r] eqn:Hl. cbn [agent_return]. split.
    + split; [by intros [? ?]|]. intros [e ->]. by apply accept_loop_quiet in Hl as [? _].
    + intros _ o ->. left. by apply accept_loop_quiet in Hl as [_ ?].
Qed.

(** An agent that is refused has served nothing. *)
Lemma refused_quiet (cfg : Config.Agent) (listen : go unit) (accepts : list (go (conn * Agent.run) * bool))
    (turns : list AgentRun.turn) (e : gerr) (ended : list bool) :
  let agent := agent_main chain_ok name_ok X509KeyPair std AppendCertsFromPEM SystemCertPool Do marshal_exchange
                 unmarshal_exchange dial cfg listen accepts turns in
  agent_return agent = Some (Err e) -> agent_panics agent ended = false.
Proof.
  intros agent. unfold agent, agent_main, RunTunnel, RunListener. case_decide.
  - destruct (RunTunnel_start _ _ _ _ _ _ _ _ cfg); [|done..].
    destruct (tunnel_loop _ _ _ _ _) as [cs r] eqn:Hl. cbn [agent_return]. intros ->.
    by apply tunnel_loop_ends in Hl as [? _].
  - destruct (RunListener_start _ _ _ _ _ _ _ cfg listen); [|done..].
    destruct (accept_loop _ _ _ _ _) as [ss r] eqn:Hl. cbn [agent_return]. intros ->.
    by apply accept_loop_quiet in Hl as [? _].
Qed.

(** The identity of the edge that cannot be had at some turn. *)
Lemma run_loop_fails cfg turns : forall backoff fs ats e fs',
  Transport.Reconnect cfg = true ->
  run_loop GenerateKey MarshalPKCS8PrivateKey url_Parse CreateCertificateRequest EncodePEM AppendCertsFromPEM
    X509KeyPair write_fails Join NotAfter Enroll NewClient cfg turns backoff fs = (ats, Some (Err e), fs') ->
  (exists t, t ∈ turns /\ t_cancelled t = true) \/
  exists t fs0, t ∈ turns /\
    fst (ensureTLSMaterial GenerateKey MarshalPKCS8PrivateKey url_Parse CreateCertificateRequest EncodePEM
           AppendCertsFromPEM write_fails Join NotAfter Enroll cfg (t_now t) fs0) = Err e.
Proof.
  induction turns as [|t turns IH]; intros backoff fs ats e fs' Hre; [done|]. cbn [run_loop].
  destruct (ensureTLSMaterial _ _ _ _ _ _ _ _ _ _ cfg (t_now t) fs) as [[m|e1| |] fs1] eqn:He; try done.
  - rewrite Hre. cbn [negb]. destruct (t_cancelled t) eqn:Hc.
    { left. exists t. split; [apply list_elem_of_here|done]. }
    destruct (run_loop _ _ _ _ _ _ _ _ _ _ _ _ cfg turns _ fs1) as [[ats1 r1] fs2] eqn:Hrun.
    intros [= _ -> _]. destruct (IH _ _ _ _ _ Hre Hrun) as [(t' & ? & ?)|(t' & fs0 & ? & ?)];
      [left|right]; repeat eexists; try done; by apply list_elem_of_further.
  - intros [= _ <- _]. right. exists t, fs. rewrite He. split; [apply list_elem_of_here|done].
Qed.

(** C38: the exit status of the three processes. The agent ends with 1 exactly when its configuration, or
    its listener, is refused at the start and no signal has come. Once started and without a signal it
    runs on, whatever its clients, databases and gateway do to its sessions and connections, but for one
    thing: a session whose goroutine panics ends the process, with 2 (and there are bytes of a client or a
    database that make one panic). The edge ends with 1 only when there is nothing to do or its TLS
    identity cannot be had: no lost stream ends it; a panic of a run or in the wire proxy ends it with 2.
    The gateway ends with 1 exactly when, no goroutine having panicked, it cannot start or a listener
    fails other than by being closed. After a signal the agent ends with 0, or with 2 by a panic. *)
Theorem process_exits (cfg : Config.Agent) (listen : go unit) (accepts : list (go (conn * Agent.run) * bool))
    (turns : list AgentRun.turn) (ended : list bool)
    (ecfg : Config.Edge) (wire : option (AgentRun.command * list bool)) (crashed : bool) (eturns : list Transport.turn)
    (fs : gmap bytes bytes) (gcfg : Config.Gateway) (glisten : bytes -> go unit) (first : option (go unit))
    (panicked ctx_done : bool)
    (Haccepts : forall a, a ∈ accepts -> a.2 = true -> ctx_done = true)
    (Hturns : forall t, t ∈ turns -> t_done t = true \/ t_slept t = false -> ctx_done = true)
    (Hctx : forall t, t ∈ eturns -> t_cancelled t = true -> ctx_done = true) :
  let agent := agent_main chain_ok name_ok X509KeyPair std AppendCertsFromPEM SystemCertPool Do marshal_exchange
                 unmarshal_exchange dial cfg listen accepts turns in
  let tunnel := RunTunnel_start (Cert := Cert) X509KeyPair std AppendCertsFromPEM SystemCertPool Do marshal_exchange
                  unmarshal_exchange dial cfg in
  let listener := RunListener_start X509KeyPair std AppendCertsFromPEM SystemCertPool Do marshal_exchange
                    unmarshal_exchange cfg listen in
  let refused := if decide (Mode cfg = ModeTunnel) then exists e, tunnel = Err e else exists e, listener = Err e in
  let started := if decide (Mode cfg = ModeTunnel) then is_ok tunnel = true else is_ok listener = true in
  let identity now fs := fst (ensureTLSMaterial GenerateKey MarshalPKCS8PrivateKey url_Parse CreateCertificateRequest
    EncodePEM AppendCertsFromPEM write_fails Join NotAfter Enroll (Transport.New (edge_client ecfg)) now fs) in
  let '(_, run, _) := Run GenerateKey MarshalPKCS8PrivateKey url_Parse CreateCertificateRequest EncodePEM
    AppendCertsFromPEM X509KeyPair write_fails Join NotAfter Enroll NewClient (Transport.New (edge_client ecfg)) eturns fs in
  (agent_exit agent ended ctx_done = Some 1 <-> ctx_done = false /\ refused) /\
  (died agent ended -> agent_exit agent ended ctx_done = Some 2) /\
  (~ died agent ended -> started -> ctx_done = false -> agent_exit agent ended ctx_done = None) /\
  (edge_exit (edge_main ecfg) wire crashed run ctx_done = Some 1 ->
     edge_main ecfg = EdgeFatal \/ ctx_done = false /\ exists t fs0 e, t ∈ eturns /\ identity (t_now t) fs0 = Err e) /\
  (match wire with Some (c, over) => died c over | None => False end \/ crashed = true ->
     edge_exit (edge_main ecfg) wire crashed run ctx_done = Some 2) /\
  (gateway_exit (gateway_main gcfg glisten) first panicked ctx_done = Some 1 <->
     panicked = false /\
     ((exists e, gateway_main gcfg glisten = Err e) \/
      is_ok (gateway_main gcfg glisten) = true /\ ctx_done = false /\
      exists e, first = Some (Err e) /\ errors_Is e ENetClosed = false)) /\
  (ctx_done = true -> forall k, agent_exit agent ended ctx_done = Some k -> k = 0 \/ k = 2).
Proof.
  intros agent tunnel listener refused started identity.
  destruct (Run _ _ _ _ _ _ _ _ _ _ _ _ _ eturns fs) as [[ats run] fs'] eqn:Hrun. unfold Run in Hrun.
  pose proof (agent_ends cfg listen accepts turns) as Hends. cbv zeta in Hends. fold agent tunnel listener in Hends.
  destruct Hends as [Href Hgo]. split; [|split; [|split; [|split; [|split; [|split]]]]].
  - rewrite agent_exit_one. unfold refused. rewrite Href. split; [by intros (_ & ? & ?)|]. intros (Hd & e & He).
    split; [|by split; [|exists e]]. by apply (refused_quiet cfg listen accepts turns e).
  - intros Hd%agent_panics_died. unfold agent_exit. by rewrite Hd.
  - intros Hd Hst Hc. unfold agent_exit. destruct (agent_panics agent ended) eqn:Hp; [by apply agent_panics_died in Hp|].
    destruct (agent_return agent) as [o|] eqn:Hr; [|done]. exfalso.
    destruct (Hgo Hst o eq_refl) as [(a & Ha & Hf)|(t & Ht & Hf)].
    + by rewrite (Haccepts a Ha Hf) in Hc.
    + by rewrite (Hturns t Ht Hf) in Hc.
  - unfold edge_exit. destruct (_ || crashed); [done|]. intros Hrest.
    destruct (edge_main ecfg); [by left|by destruct ctx_done|]. right.
    apply main_exit_one in Hrest as [Hd [e ->]]. split; [done|].
    apply run_loop_fails in Hrun as [(t & Ht & Hc)|(t & fs0 & Ht & He)]; [|by exists t, fs0, e|done].
    by rewrite (Hctx t Ht Hc) in Hd.
  - unfold edge_exit. intros [Hd| ->]; [|by rewrite orb_true_r]. destruct wire as [[c over]|]; [|done].
    by rewrite (proj2 (agent_panics_died c over) Hd).
  - apply gateway_exit_one.
  - intros -> k. unfold agent_exit. destruct (agent_panics agent ended); [intros [= <-]; by right|].
    apply main_exit_signalled.
Qed.

End exits.
End commands.

#[local] Instance same_case : Unicode := {| lower_runes := fun s => s |}.
#[local] Instance some_hashes : Hashes := MyAuthProps.flat_hashes.

Module Example.

Definition agent : Config.Agent := masking_cfg [] [] [] [] 0.
Definition edge : Config.Edge :=
  Config.mkEdge (str "gw:443") (str "t1") (str "e1") [] true [] [] [] [] [] [] [] [] [] agent.
Definition gateway : Config.Gateway := Config.mkGatewayCfg (str ":1") [] [] [] [] [].
Definition std : selfSigning :=
  mkSelf unit (Ok tt) (Ok 0) (fun _ _ _ _ => Ok []) (fun _ => Ok []) (fun _ _ => []).

End Example.

(** An agent without any address is refused; an edge and a gateway that lose nothing go on. *)
Lemma process_exits_witness :
  agent_exit (agent_main (Cert := unit) (Pool := unit) (fun _ _ => true) (fun _ _ => true) (fun _ _ => Ok tt) Example.std
    (fun _ => None) (Ok tt) (fun _ => Err EEOF) (fun _ => Ok []) (fun _ => (mkExResp [] [] [] [], Ok tt)) (fun _ => Err EEOF)
    Example.agent (Ok tt) [] []) [] false = Some 1 /\
  gateway_exit (gateway_main Example.gateway (fun _ => Ok tt)) (Some (Err EEOF)) false false = Some 1.
Proof.
  destruct (process_exits (Cert := unit) (Pool := unit) (fun _ _ => Ok tt) Example.std (fun _ => None) (Ok tt) (fun _ => Err EEOF)
    (fun _ => Ok []) (fun _ => (mkExResp [] [] [] [], Ok tt)) (fun _ => Err EEOF) (fun _ _ => true) (fun _ _ => true)
    (Ok tt) (fun _ => Ok []) (fun _ => Ok tt) (fun _ _ _ => Ok []) (fun _ b => b) (fun _ => None)
    (fun a b => a ++ b) (fun _ => None) (fun _ _ _ => Err EEOF) (fun _ _ => Ok tt)
    Example.agent (Ok tt) [] [] [] Example.edge None false [Transport.mkTurn 0 (Ok tt) false] ∅ Example.gateway (fun _ => Ok tt)
    (Some (Err EEOF)) false false) as (Ha & _ & _ & _ & _ & Hg & _).
  - by intros a ?%elem_of_nil.
  - by intros t ?%elem_of_nil.
  - by intros t ->%list_elem_of_singleton.
  - split.
    + apply Ha. split; [done|]. cbn [Example.agent masking_cfg Mode]. rewrite decide_False by done.
      eexists. reflexivity.
    + apply Hg. split; [done|]. right. split; [done|]. split; [done|]. by exists EEOF.
Defined.
